(* ===== verification/_CoqProject ===== *)
-Q . S2P
Prelude.v
Text.v
SerialText.v
Regex.v
PyFloat.v
Json.v
PyNumber.v
Sha256.v
Async.v
Boards.v
Firmware.v
Framebuffer.v
Inputs.v
Recording.v
Tracing.v
Qemu.v
Environment.v
BrokerProtocol.v
BrokerMessages.v
BrokerStreams.v
BrokerWorkerSafety.v
Oci.v
OciSafety.v
WorkerBroker.v
WorkerBrokerSafety.v
BrokerTunnel.v
WorkerBrokerPolicy.v
WorkerBrokerScenarios.v
SessionData.v
Configuration.v
SessionOps.v
Conformance.v
SessionSafety.v
SessionContracts.v
ConformanceSafety.v
SessionFidelity.v
Api.v
ApiSafety.v
EventPages.v
SessionScenarios.v
SessionWitnesses.v
ApiWitnesses.v
BrokerHandoff.v
Gdb.v
GdbProofs.v
Qmp.v
QmpProofs.v
SandboxProbe.v
SandboxProbeSafety.v
