(* ===== verification/Prelude.v ===== *)
(** * ESP32-S3 web simulator: verification library

    The program (src/src/esp32_s3_simulator) is a service that runs emulated
    ESP32-S3 boards for browsers.  A session manager accepts firmware, starts
    one QEMU worker per session (directly, in a bubblewrap sandbox, or through
    a separate broker that runs rootless containers), talks to it over QMP,
    the GDB remote protocol and its serial port, records what happens, and
    replays recorded input.  The library models this service as executable
    definitions and proves what makes it correct.

    ** How the program is modelled

    Python values are Gallina values: unbounded integers are [Z], [bytes] is
    [list byte], [str] is a list of code points ([text]), a dictionary whose
    order is visible is an association list, otherwise a [gmap]; floats are
    IEEE binary64 ([PyFloat]).  Code that can raise returns [res], with the
    class and the text of the exception; where a text only repeats its input
    ([repr]) it is shortened.  Asynchronous code is a coroutine of [Async]:
    a free monad whose [Await] is the only point where other tasks run, over
    a heap of shared objects.  Sockets, processes, clocks, Docker and the file
    system are operations whose answers are arbitrary unless a theorem says
    otherwise; [w_replies], [s_replies] and their like state the few facts of
    asyncio that the code relies on (a lock is granted while it is free, a
    property read does not fail).

    Three ways to reason about a coroutine are provided by [Async], and related
    to each other there: [run] executes it against a handler; [wp] is a
    weakest precondition that lets other tasks change the heap at every
    [Await], within a rely relation and an invariant; [step] interleaves any
    number of tasks, and [machine_safe], [machine_mono] and [machine_uses]
    lift proofs about one coroutine to every interleaving.  [drive] computes
    concrete interleavings, for witnesses.

    ** Files

    - [Prelude], [Text], [SerialText], [Regex], [PyFloat], [Json], [PyNumber], [Sha256],
      [Async], [Environment]: the fragment of Python and its standard library
      that the service uses (exceptions, strings and UTF-8, decoding
      with replacement, regular
      expressions by derivatives, floats, the json module, int and float of a
      string, SHA-256, coroutines, environment variables and lstat).
    - [Boards] (boards.py), [Firmware] (firmware.py), [Framebuffer]
      (framebuffer.py), [Inputs] (inputs.py), [Recording] (recording.py),
      [Tracing] (tracing.py), [Qemu] (qemu.py), [Configuration]
      (settings.py): the synchronous parts, one file per module, with their
      theorems.
    - [BrokerProtocol] (broker_protocol.py): messages, frames and the client
      side of a remote worker.  [Transport] is the interface of a framed
      stream that both ends of the protocol implement.  [BrokerMessages],
      [BrokerStreams] and [BrokerWorkerSafety] hold its theorems.
    - [Oci] (oci.py): the container policy; [OciSafety] what it guarantees.
    - [WorkerBroker] (worker_broker.py): the broker service.
      [WorkerBrokerSafety] (slots, budgets, cleanup, admission),
      [WorkerBrokerPolicy] (what it asks of the host), [BrokerTunnel] (both
      ends of a connection together), [WorkerBrokerScenarios] (executions,
      and an execution that loses a slot).
    - [SessionData] and [SessionOps] (sessions.py): records and synchronous
      methods, then every coroutine and background task of the manager.
      [SessionSafety] (the invariant under every interleaving),
      [SessionContracts] (what each operation promises under interference),
      [SessionFidelity] (what replay sends to the worker), [EventPages]
      (paging through the event log), [SessionScenarios] and
      [SessionWitnesses] (executions).
    - [Api] (api.py): the HTTP routes and WebSockets as clients of the manager;
      [ApiSafety] and [ApiWitnesses] their theorems.
    - [BrokerHandoff]: the manager's files against the broker's checks.
    - [Gdb], [GdbProofs] (gdb.py) and [Qmp], [QmpProofs] (qmp.py): the two
      clients of the worker.

    - [Conformance], [ConformanceSafety] (scripts/run-base-conformance.py): the
      script that puts the session manager through its paces, as a client of
      [SessionOps].  [SandboxProbe], [SandboxProbeSafety]
      (scripts/probe-worker-sandbox.py): the script that looks at the
      bubblewrap sandbox from inside.

    A definition has the name of the function or method it models; a record
    field that would clash has a prefix or an underscore.  [_name] loses its
    underscore.  A [finally] block or a loop body that a theorem talks about
    is a definition of its own.

    ** What the theorems show

    - Recording: in every interleaving of all session operations the event
      log is consistent, bounded and append-only, and can be read page by page
      without loss.
    - Sessions: allocation is all or nothing; the first launch, a replay and a
      stop end in the states they promise whatever runs meanwhile; live input
      is refused during a replay; a replay restores the uploaded flash and
      sends the worker what the live input sent; closing the manager removes
      every session's directory.
    - The interface: unknown sessions are reported as such, a session is
      created only from an upload that was checked whole, every WebSocket
      message is answered once, and all routes keep the manager's invariant.
    - The broker: its slots refine a bounded pool, a worker that ends gives
      back its slot and its container is removed, output stays within a
      budget, only the core user is served, and every process it starts is
      one that the policy allows; the bytes of a worker's streams cross the
      connection unchanged, in both directions.
    - The policy: exactly the intended settings are accepted, a container gets
      one directory of the host, nothing injects an option.
    - Protocols: frames are read as they were written and never interleave,
      standard input arrives in order, messages survive a round trip, the
      GDB payload decoder meets its grammar and rejects damaged packets, QMP
      answers are matched to requests and connections are always closed.
    - Data: firmware validation, screendumps, framebuffer packets, sensor
      ranges, trace lines, sandbox command lines.

    - The scripts: waiting for serial output ends; a conformance run leaves
      nothing behind and passes only after it saw what the board's contract
      asks for; the sandbox probe passes only a sandbox that confines and
      condemns only one that does not.

    Some theorems state defects: [BrokerHandoff.broker_handoff] (a replay
    leaves files that the broker refuses), [WorkerBrokerScenarios.slot_lost] (a
    slot that is never released), [QmpProofs.undecodable_line_escapes],
    [ApiSafety.control_during_replay], [Configuration.recording_bound_unchecked].

    ** Fuel

    [run] takes fuel for loops only: a loop may make as many rounds as the
    fuel.  Theorems about [run] either hold for every fuel (no result is
    claimed when it is exhausted), or state how much suffices: for
    [QmpProofs.qmp_answers] more than the number of unrelated messages, for
    [GdbProofs.read_memory_exchange] more than the lines of console output,
    for [QmpProofs.open_qmp_terminates] and
    [ConformanceSafety.wait_for_text_terminates] more than the polls before the
    deadline.  [wp] and [step] need none.  The JSON and integer parsers use the length
    of their input.

    ** What is not modelled

    - FastAPI and pydantic: routing, parsing of parameters and the rendering
      of responses; [Api] takes parsed parameters and a validator.
    - worker_process.py has only typing protocols; cli.py and the [main]
      functions start an event loop; logging is left out throughout.
    - The shell and build scripts, the web client, the emulator patches and
      the containers.  The two Python scripts start from the values given for
      each option; argparse itself is left out.
    - Resource limits of the interpreter (recursion, memory) and the
      preemption of threads; the service has a single thread.
    - XML parsing (a parameter of [Gdb]) and [str] of JSON values in error
      texts (a parameter of [Qmp] and [SandboxProbe]); [str.upper] outside
      ASCII (a parameter of [SandboxProbe]). *)

From Stdlib Require Export ZArith Lia.
From Stdlib Require Import Init.Byte.
From stdpp Require Export prelude list gmap strings.

#[global] Open Scope Z_scope.

(** ** Exceptions and fallible code *)

(** The exception classes that the modelled modules raise, catch or let
    through.  [exc_base] is the single-inheritance parent. *)
Inductive exc :=
  | BaseException | Exception | CancelledError | GeneratorExit | SystemExit
  | RuntimeError | ValueError | TypeError | LookupError | KeyError | IndexError
  | BufferError | EOFError | IncompleteReadError | LimitOverrunError
  | OSError | FileNotFoundError | TimeoutError | ProcessLookupError | ConnectionError | BrokenPipeError
  | UnicodeDecodeError | UnicodeEncodeError | JSONDecodeError
  | AttributeError | SyntaxError | ParseError | ZeroDivisionError
  | StopIteration | SubprocessError | CalledProcessError
  | FirmwareValidationError | FramebufferError | BoardInputError
  | BrokerProtocolError | BrokerUnavailableError | GdbRemoteError
  | QmpError | QmpUnavailableError | QmpCommandError | OciPolicyError
  | SessionCapacityError | SessionNotFoundError | WorkerUnavailableError
  | SessionTransitionError | ValidationError | WebSocketDisconnect.

#[export] Instance exc_eq_dec : EqDecision exc.
Proof. solve_decision. Defined.

Definition exc_base (c : exc) : option exc :=
  match c with
  | BaseException => None
  | Exception | CancelledError | GeneratorExit | SystemExit => Some BaseException
  | RuntimeError | ValueError | TypeError | LookupError | BufferError
  | EOFError | OSError | LimitOverrunError | AttributeError | SyntaxError
  | ZeroDivisionError | StopIteration | SubprocessError | WebSocketDisconnect => Some Exception
  | CalledProcessError => Some SubprocessError
  | ParseError => Some SyntaxError
  | KeyError | IndexError => Some LookupError
  | IncompleteReadError => Some EOFError
  | FileNotFoundError | TimeoutError | ProcessLookupError | ConnectionError => Some OSError
  | BrokenPipeError => Some ConnectionError
  | UnicodeDecodeError | UnicodeEncodeError | JSONDecodeError => Some ValueError
  | FirmwareValidationError | FramebufferError | BoardInputError | ValidationError => Some ValueError
  | BrokerProtocolError | BrokerUnavailableError | GdbRemoteError | QmpError
  | OciPolicyError | SessionCapacityError | WorkerUnavailableError
  | SessionTransitionError => Some RuntimeError
  | QmpUnavailableError | QmpCommandError => Some QmpError
  | SessionNotFoundError => Some KeyError
  end.

(** [isinstance]: the classes form a tree of height at most six. *)
Fixpoint exc_sub_fuel (n : nat) (c d : exc) : bool :=
  bool_decide (c = d) ||
  match n, exc_base c with
  | S n', Some b => exc_sub_fuel n' b d
  | _, _ => false
  end.
Definition exc_sub (c d : exc) : bool := exc_sub_fuel 6 c d.

(** Python text is a sequence of code points, Python [bytes] a sequence of
    bytes.  [lit] turns a source literal into text. *)
Abbreviation text := (list Z).
Abbreviation bytes := (list byte).

Definition lit (s : string) : text :=
  map (fun a => Z.of_N (Ascii.N_of_ascii a)) (String.list_ascii_of_string s).

(** A raised exception: its class and its message. *)
Record exn := Exn { exn_class : exc; exn_msg : text }.

Inductive res (A : Type) := Ok (a : A) | Err (e : exn).
Arguments Ok {A} a.
Arguments Err {A} e.

#[export] Instance res_ret : MRet res := fun A a => Ok a.
#[export] Instance res_bind : MBind res := fun A B f m =>
  match m with Ok a => f a | Err e => Err e end.
#[export] Instance res_fmap : FMap res := fun A B f m =>
  match m with Ok a => Ok (f a) | Err e => Err e end.

Definition raise {A} (c : exc) (m : text) : res A := Err (Exn c m).
Definition is_ok {A} (r : res A) : bool := match r with Ok _ => true | Err _ => false end.

(** [try: m except c as e: h e]. *)
Definition try_except {A} (m : res A) (cs : list exc) (h : exn -> res A) : res A :=
  match m with
  | Ok a => Ok a
  | Err e => if existsb (exc_sub (exn_class e)) cs then h e else Err e
  end.

Definition of_option {A} (o : option A) (e : exn) : res A :=
  match o with Some a => Ok a | None => Err e end.

Lemma Ok_inj {A} (a b : A) : Ok a = Ok b -> a = b.
Proof. congruence. Qed.

Lemma res_bind_ok {A B} (m : res A) (f : A -> res B) b :
  (m ≫= f) = Ok b <-> exists a, m = Ok a /\ f a = Ok b.
Proof. destruct m; simpl; naive_solver. Qed.

Lemma of_option_ok {A} (o : option A) e a : of_option o e = Ok a <-> o = Some a.
Proof. destruct o; naive_solver. Qed.

(** Case analysis on every [match]/[if] of the hypotheses that define a
    successful run. *)
Ltac inv_ok H :=
  repeat first
    [ discriminate H
    | match type of H with
      | raise _ _ = Ok _ => discriminate H
      | Ok _ = Ok _ => injection H as H; subst
      | (_ ≫= _) = Ok _ =>
          let a := fresh "a" in let E := fresh "E" in
          apply res_bind_ok in H as (a & E & H)
      | (if ?b then _ else _) = _ => let E := fresh "E" in destruct b eqn:E
      | match ?b with _ => _ end = _ => let E := fresh "E" in destruct b eqn:E
      end ].

(** ** Bytes *)

Definition b2z (b : byte) : Z := Z.of_N (Byte.to_N b).
Definition z2b (z : Z) : byte :=
  match Byte.of_N (Z.to_N (z mod 256)) with Some b => b | None => x00 end.

Lemma b2z_range b : 0 <= b2z b < 256.
Proof. unfold b2z. pose proof (Byte.to_N_bounded b). lia. Qed.

Lemma z2b_b2z b : z2b (b2z b) = b.
Proof.
  unfold z2b. rewrite Z.mod_small by apply b2z_range.
  unfold b2z. rewrite N2Z.id. now rewrite Byte.of_to_N.
Qed.

Lemma b2z_z2b z : b2z (z2b z) = z mod 256.
Proof.
  unfold z2b. pose proof (Z.mod_pos_bound z 256 ltac:(lia)).
  destruct (Byte.of_N _) as [b|] eqn:E.
  - apply Byte.to_of_N in E. unfold b2z. rewrite E. lia.
  - apply Byte.of_N_None_iff in E. lia.
Qed.

Lemma b2z_inj a b : b2z a = b2z b -> a = b.
Proof. intros H. rewrite <- (z2b_b2z a), <- (z2b_b2z b). congruence. Qed.

#[export] Instance byte_eq_dec : EqDecision byte := Byte.byte_eq_dec.

(** The bytes of a source literal, [b"..."]. *)
Definition blit (s : string) : bytes := map z2b (lit s).
Definition codes (b : bytes) : list Z := map b2z b.

(** Fixed-width integers: [le_bytes n z] is the n-byte little-endian image
    of z (modulo 256^n), [be_bytes] the big-endian one. *)
Fixpoint le_bytes (n : nat) (z : Z) : bytes :=
  match n with
  | O => []
  | S n' => z2b z :: le_bytes n' (z / 256)
  end.
Fixpoint le_value (bs : bytes) : Z :=
  match bs with [] => 0 | b :: bs' => b2z b + 256 * le_value bs' end.
Definition be_bytes (n : nat) (z : Z) : bytes := reverse (le_bytes n z).
Definition be_value (bs : bytes) : Z := le_value (reverse bs).

Lemma length_le_bytes n z : length (le_bytes n z) = n.
Proof. revert z. induction n; simpl; auto. Qed.

Lemma length_be_bytes n z : length (be_bytes n z) = n.
Proof. unfold be_bytes. by rewrite length_reverse, length_le_bytes. Qed.

Lemma le_value_range bs : 0 <= le_value bs < 256 ^ Z.of_nat (length bs).
Proof.
  induction bs as [|b bs IH]; simpl; [lia|].
  rewrite Nat2Z.inj_succ, Z.pow_succ_r by lia. pose proof (b2z_range b). nia.
Qed.

Lemma le_value_bytes n z : le_value (le_bytes n z) = z mod 256 ^ Z.of_nat n.
Proof.
  revert z. induction n as [|n IH]; intros z; simpl.
  - by rewrite Z.mod_1_r.
  - rewrite IH, b2z_z2b, Nat2Z.inj_succ, Z.pow_succ_r by lia.
    rewrite Z.rem_mul_r by lia. lia.
Qed.

Lemma be_value_bytes n z :
  0 <= z < 256 ^ Z.of_nat n -> be_value (be_bytes n z) = z.
Proof.
  intros H. unfold be_value, be_bytes.
  rewrite reverse_involutive, le_value_bytes. by apply Z.mod_small.
Qed.

Lemma le_bytes_value bs : le_bytes (length bs) (le_value bs) = bs.
Proof.
  induction bs as [|b bs IH]; simpl; [done|].
  pose proof (b2z_range b) as Hb.
  replace ((b2z b + 256 * le_value bs) / 256) with (le_value bs)
    by (rewrite Z.add_comm, Z.mul_comm, Z.div_add_l by lia;
        rewrite (Z.div_small (b2z b)) by lia; lia).
  rewrite IH. f_equal. apply b2z_inj. rewrite b2z_z2b.
  rewrite Z.mul_comm, Z_mod_plus_full. by apply Z.mod_small.
Qed.

Lemma be_bytes_value bs : be_bytes (length bs) (be_value bs) = bs.
Proof.
  unfold be_bytes, be_value.
  replace (length bs) with (length (reverse bs)) by apply length_reverse.
  rewrite le_bytes_value. apply reverse_involutive.
Qed.

Lemma be_value_range bs : 0 <= be_value bs < 256 ^ Z.of_nat (length bs).
Proof.
  unfold be_value. pose proof (le_value_range (reverse bs)) as H.
  by rewrite length_reverse in H.
Qed.

(** ** Lists with integer lengths and offsets *)

Abbreviation zlen l := (Z.of_nat (length l)).

(** [l[a:b]] for offsets [0 <= a]; Python clips both ends. *)
Definition slice {A} (a b : Z) (l : list A) : list A :=
  take (Z.to_nat b - Z.to_nat a) (drop (Z.to_nat a) l).

(** [l[i]] for [0 <= i], [IndexError] out of range. *)
Definition index {A} (l : list A) (i : Z) : res A :=
  of_option (l !! Z.to_nat i) (Exn IndexError (lit "index out of range")).

(** [[l[o:o+n] for o in range(0, len(l), n)]]: the fuel is the length, and
    every round consumes at least one element when [0 < n]. *)
Fixpoint chunks_fuel {A} (fuel n : nat) (l : list A) : list (list A) :=
  match fuel, l with
  | S f, _ :: _ => take n l :: chunks_fuel f n (drop n l)
  | _, _ => []
  end.
Definition chunks {A} (n : nat) (l : list A) : list (list A) :=
  chunks_fuel (length l) n l.

Lemma chunks_fuel_concat {A} n f (l : list A) :
  (0 < n)%nat -> (length l <= f)%nat -> concat (chunks_fuel f n l) = l.
Proof.
  intros Hn. revert l. induction f as [|f IH]; intros [|x l] Hl; simpl in *; try done; try lia.
  destruct n as [|n]; [lia|]. simpl. f_equal. rewrite IH.
  - apply take_drop.
  - rewrite length_drop. lia.
Qed.

Lemma chunks_concat {A} n (l : list A) : (0 < n)%nat -> concat (chunks n l) = l.
Proof. intros. apply chunks_fuel_concat; lia. Qed.

Lemma chunks_fuel_bound {A} n f (l : list A) :
  (0 < n)%nat -> Forall (fun c => c <> [] /\ (length c <= n)%nat) (chunks_fuel f n l).
Proof.
  intros Hn. revert l. induction f as [|f IH]; intros [|x l]; simpl; constructor; auto.
  destruct n; [lia|]. simpl. rewrite length_take. split; [done|lia].
Qed.

Lemma chunks_bound {A} n (l : list A) :
  (0 < n)%nat -> Forall (fun c => c <> [] /\ (length c <= n)%nat) (chunks n l).
Proof. apply chunks_fuel_bound. Qed.

(** [collections.deque] with an explicit bound, as the session recording
    uses it: the oldest element is dropped and counted.  On a bound of zero
    or less Python's [popleft] raises on the empty deque. *)
Definition bounded_append {A} (bound : Z) (x : A) (q : list A) (dropped : Z)
    : option (list A * Z) :=
  if bound <=? zlen q then
    match q with
    | [] => None
    | _ :: q' => Some (q' ++ [x], dropped + 1)
    end
  else Some (q ++ [x], dropped).

(** [deque(maxlen=n).append(x)] *)
Definition deque_append {A} (n : nat) (x : A) (q : list A) : list A :=
  let q' := q ++ [x] in drop (length q' - n) q'.

Lemma bounded_append_some {A} bound (x : A) q d :
  1 <= bound -> exists q' d', bounded_append bound x q d = Some (q', d').
Proof.
  intros Hb. unfold bounded_append. destruct (Z.leb_spec bound (zlen q)) as [H|H]; [|eauto].
  destruct q; simpl in *; [lia|eauto].
Qed.

Lemma bounded_append_spec {A} bound (x : A) q d q' d' :
  zlen q <= bound -> bounded_append bound x q d = Some (q', d') ->
  zlen q' <= bound /\ d' + zlen q' = d + zlen q + 1 /\ d <= d' /\
  exists q0, q' = q0 ++ [x] /\ q0 `suffix_of` q.
Proof.
  unfold bounded_append. intros Hq H. destruct (Z.leb_spec bound (zlen q)) as [Hb|Hb].
  - destruct q as [|y q0]; [done|]. injection H as <- <-.
    rewrite length_app. simpl in *. repeat split; try lia. exists q0. split; [done|].
    by exists [y].
  - injection H as <- <-. rewrite length_app. simpl. repeat split; try lia. by exists q.
Qed.

Lemma bounded_append_last {A} bound (x : A) q d q' d' :
  bounded_append bound x q d = Some (q', d') -> last q' = Some x.
Proof.
  unfold bounded_append. destruct (bound <=? zlen q); [destruct q|];
    intros H; simplify_eq; by rewrite last_snoc.
Qed.

Lemma deque_append_length {A} n (x : A) q :
  (length (deque_append n x q) <= n)%nat.
Proof. unfold deque_append. rewrite length_drop, length_app. simpl. lia. Qed.

(** ** Automation *)

Create HintDb sim.
#[export] Hint Resolve b2z_range be_value_range length_le_bytes length_be_bytes : sim.
Create Rewrite HintDb lengths.
#[export] Hint Rewrite @length_app @length_take @length_drop @length_replicate
  @length_map @length_reverse length_be_bytes length_le_bytes : lengths.

(** Arithmetic on list lengths. *)
Ltac len_lia := autorewrite with lengths in *; simpl in *; lia.
