(* ===== verification/Text.v ===== *)
(** * Python text and numbers

    Decimal and hexadecimal formatting ([f"{n}"], [f"{n:x}"], [f"{n:02x}"],
    [bytes.hex], [bytes.fromhex]), [int(...)] on ASCII text, whitespace
    stripping and splitting, and the codecs the modules use ([str.encode],
    [bytes.decode] with "ascii"/"utf-8").  Code points are integers; a
    decimal digit is an ASCII digit (Python also accepts other Unicode
    digits in [int] on [str], which no modelled module is sent). *)

From Stdlib Require Import Init.Byte.
From S2P Require Import Prelude.

(** ** Positional numerals *)

Fixpoint to_digits_fuel (fuel : nat) (base n : Z) (acc : list Z) : list Z :=
  match fuel with
  | O => acc
  | S f => if n <? base then n :: acc
           else to_digits_fuel f base (n / base) (n mod base :: acc)
  end.
(** Every division by [base >= 2] removes a bit, so [log2 n + 1] rounds do. *)
Definition to_digits (base n : Z) : list Z :=
  to_digits_fuel (S (Z.to_nat (Z.log2 n))) base n [].
Definition of_digits (base : Z) (ds : list Z) : Z :=
  foldl (fun acc d => acc * base + d) 0 ds.

Lemma of_digits_app base xs ys acc :
  foldl (fun acc d => acc * base + d) acc (xs ++ ys) =
  foldl (fun acc d => acc * base + d) (foldl (fun acc d => acc * base + d) acc xs) ys.
Proof. apply foldl_app. Qed.

Lemma to_digits_fuel_spec f base n acc :
  2 <= base -> 0 <= n < 2 ^ Z.of_nat f ->
  exists ds, to_digits_fuel f base n acc = ds ++ acc /\
    of_digits base ds = n /\ Forall (fun d => 0 <= d < base) ds /\
    (0 < f -> ds <> [])%nat.
Proof.
  intros Hb. revert n acc. induction f as [|f IH]; intros n acc Hn.
  - exists []. change (2 ^ Z.of_nat 0) with 1 in Hn. unfold of_digits. simpl.
    repeat split; [lia|done|naive_solver lia].
  - cbn [to_digits_fuel]. destruct (Z.ltb_spec n base) as [Hlt|Hge].
    + exists [n]. unfold of_digits. split; [done|]. split; [simpl; lia|].
      split; [repeat constructor; lia|done].
    + rewrite Nat2Z.inj_succ, Z.pow_succ_r in Hn by lia.
      assert (0 <= n / base < 2 ^ Z.of_nat f) as Hq.
      { split; [apply Z.div_pos; lia|]. apply Z.div_lt_upper_bound; nia. }
      destruct (IH (n / base) (n mod base :: acc) Hq) as (ds & E & Hv & Hr & _).
      exists (ds ++ [n mod base]). rewrite E, <- app_assoc. split; [done|].
      split; [|split].
      * unfold of_digits in *. rewrite of_digits_app, Hv. simpl.
        pose proof (Z.div_mod n base). lia.
      * apply Forall_app_2; [done|]. repeat constructor; apply Z.mod_pos_bound; lia.
      * intros _. by destruct ds.
Qed.

Lemma to_digits_spec base n :
  2 <= base -> 0 <= n ->
  of_digits base (to_digits base n) = n /\
  Forall (fun d => 0 <= d < base) (to_digits base n) /\ to_digits base n <> [].
Proof.
  intros Hb Hn. unfold to_digits.
  destruct (to_digits_fuel_spec (S (Z.to_nat (Z.log2 n))) base n []) as (ds & E & H1 & H2 & H3);
    [done| |rewrite E, app_nil_r; naive_solver lia].
  rewrite Nat2Z.inj_succ, Z2Nat.id by apply Z.log2_nonneg.
  split; [done|]. destruct (Z.eq_dec n 0) as [->|]; [simpl; lia|].
  apply Z.log2_spec. lia.
Qed.

(** No leading zeros. *)
Lemma to_digits_fuel_head f base n acc :
  2 <= base -> 0 < n < 2 ^ Z.of_nat f ->
  exists d ds, to_digits_fuel f base n acc = d :: ds /\ 0 < d.
Proof.
  intros Hb. revert n acc. induction f as [|f IH]; intros n acc Hn.
  - change (2 ^ Z.of_nat 0) with 1 in Hn. lia.
  - cbn [to_digits_fuel]. destruct (Z.ltb_spec n base) as [Hlt|Hge]; [eauto with lia|].
    apply IH. rewrite Nat2Z.inj_succ, Z.pow_succ_r in Hn by lia.
    split; [apply Z.div_str_pos; lia|]. apply Z.div_lt_upper_bound; nia.
Qed.

Lemma to_digits_head base n :
  2 <= base -> 0 < n -> exists d ds, to_digits base n = d :: ds /\ 0 < d.
Proof.
  intros Hb Hn. apply to_digits_fuel_head; [done|].
  rewrite Nat2Z.inj_succ, Z2Nat.id by apply Z.log2_nonneg.
  split; [done|]. by apply Z.log2_spec.
Qed.

(** ** Formatting integers *)

Definition digit_char (d : Z) : Z := if d <? 10 then 48 + d else 87 + d.
(** The value of a digit character, upper or lower case. *)
Definition digit_val (base c : Z) : option Z :=
  let v := if (48 <=? c) && (c <=? 57) then c - 48
           else if (97 <=? c) && (c <=? 122) then c - 87
           else if (65 <=? c) && (c <=? 90) then c - 55 else 99 in
  if v <? base then Some v else None.

(** [f"{n:d}"] / [str(n)] for base 10, [f"{n:x}"] for base 16. *)
Definition format_nat (base n : Z) : text := map digit_char (to_digits base n).
Definition format_int (base n : Z) : text :=
  if n <? 0 then 45 :: format_nat base (- n) else format_nat base n.
Definition str_of_int (n : Z) : text := format_int 10 n.
Definition hex_of_int (n : Z) : text := format_int 16 n.

Fixpoint parse_digits (base acc : Z) (t : text) : option Z :=
  match t with
  | [] => Some acc
  | c :: t' => match digit_val base c with
               | Some d => parse_digits base (acc * base + d) t'
               | None => None
               end
  end.

Lemma digit_val_char base d :
  0 <= d < base -> base <= 36 -> digit_val base (digit_char d) = Some d.
Proof.
  intros Hd Hb. unfold digit_val, digit_char.
  destruct (Z.ltb_spec d 10);
    repeat match goal with |- context [?a <=? ?b] => destruct (Z.leb_spec a b); try lia end;
    simpl; match goal with |- context [?a <? ?b] => destruct (Z.ltb_spec a b); try lia end;
    f_equal; lia.
Qed.

Lemma parse_digits_map base acc ds :
  base <= 36 -> Forall (fun d => 0 <= d < base) ds ->
  parse_digits base acc (map digit_char ds) =
  Some (foldl (fun acc d => acc * base + d) acc ds).
Proof.
  intros Hb H. revert acc. induction H as [|d ds Hd _ IH]; intros acc; simpl; [done|].
  by rewrite digit_val_char.
Qed.

Lemma parse_format_nat base n :
  2 <= base <= 36 -> 0 <= n -> parse_digits base 0 (format_nat base n) = Some n.
Proof.
  intros Hb Hn. destruct (to_digits_spec base n) as (Hv & Hr & _); [lia..|].
  unfold format_nat. rewrite parse_digits_map by (done || lia). by f_equal.
Qed.

(** The characters of a formatted number are digits. *)
Definition is_digit (base c : Z) : bool :=
  match digit_val base c with Some _ => true | None => false end.

Lemma format_nat_digits base n :
  2 <= base <= 36 -> 0 <= n ->
  Forall (fun c => is_digit base c = true /\ 48 <= c <= 122) (format_nat base n).
Proof.
  intros Hb Hn. destruct (to_digits_spec base n) as (_ & Hr & _); [lia..|].
  unfold format_nat. apply Forall_map. eapply Forall_impl; [exact Hr|].
  intros d Hd. cbn beta in *. unfold is_digit. rewrite digit_val_char by lia. split; [done|].
  unfold digit_char. destruct (Z.ltb_spec d 10); simpl in *; lia.
Qed.

Lemma format_nat_nonempty base n : 2 <= base -> 0 <= n -> format_nat base n <> [].
Proof.
  intros Hb Hn. destruct (to_digits_spec base n) as (_ & _ & H); [lia..|].
  unfold format_nat. by destruct (to_digits base n).
Qed.

Lemma format_nat_inj base m n :
  2 <= base <= 36 -> 0 <= m -> 0 <= n -> format_nat base m = format_nat base n -> m = n.
Proof.
  intros Hb Hm Hn H. apply (f_equal (parse_digits base 0)) in H.
  rewrite !parse_format_nat in H by lia. congruence.
Qed.

(** ** Whitespace, [strip] and [split] *)

(** Whitespace of [bytes] methods, and of [str] methods. *)
Definition is_ascii_space (c : Z) : bool := ((9 <=? c) && (c <=? 13)) || (c =? 32).
Definition is_str_space (c : Z) : bool :=
  is_ascii_space c || ((28 <=? c) && (c <=? 31)) || (c =? 133) || (c =? 160) ||
  (c =? 5760) || ((8192 <=? c) && (c <=? 8202)) || (c =? 8232) || (c =? 8233) ||
  (c =? 8239) || (c =? 8287) || (c =? 12288).

Fixpoint lstrip (p : Z -> bool) (t : text) : text :=
  match t with
  | c :: t' => if p c then lstrip p t' else t
  | [] => []
  end.
Definition strip (p : Z -> bool) (t : text) : text := reverse (lstrip p (reverse (lstrip p t))).

(** [x.split()]: maximal runs of non-whitespace. *)
Fixpoint split_ws (p : Z -> bool) (t cur : text) : list text :=
  match t with
  | [] => match cur with [] => [] | _ => [reverse cur] end
  | c :: t' => if p c then match cur with
                           | [] => split_ws p t' []
                           | _ => reverse cur :: split_ws p t' []
                           end
               else split_ws p t' (c :: cur)
  end.

Definition is_line_break (c : Z) : bool :=
  ((10 <=? c) && (c <=? 13)) || ((28 <=? c) && (c <=? 30)) || (c =? 133) || (c =? 8232) || (c =? 8233).
(** [t.splitlines()]: a carriage return and a line feed are one break. *)
Fixpoint splitlines (t cur : text) : list text :=
  match t with
  | [] => match cur with [] => [] | _ => [reverse cur] end
  | 13 :: ((10 :: t') as _) => reverse cur :: splitlines t' []
  | c :: t' => if is_line_break c then reverse cur :: splitlines t' [] else splitlines t' (c :: cur)
  end.

(** [x.split(sep, maxsplit)] with a one-character separator, on [str] and on
    [bytes]. *)
Fixpoint split_sep {A} (sep : A -> bool) (maxsplit : nat) (t cur : list A) : list (list A) :=
  match maxsplit, t with
  | O, _ => [reverse cur ++ t]
  | _, [] => [reverse cur]
  | S m, c :: t' => if sep c then reverse cur :: split_sep sep m t' []
                    else split_sep sep maxsplit t' (c :: cur)
  end.

Lemma split_sep_0 {A} (sep : A -> bool) t cur : split_sep sep 0 t cur = [reverse cur ++ t].
Proof. by destruct t. Qed.

Lemma split_sep_step {A} (sep : A -> bool) m x c t cur :
  Forall (fun a => sep a = false) x -> sep c = true ->
  split_sep sep (S m) (x ++ c :: t) cur = (reverse cur ++ x) :: split_sep sep m t [].
Proof.
  intros H Hc. revert cur. induction H as [|a x Ha _ IH]; intros cur; cbn [app split_sep].
  - by rewrite Hc, app_nil_r.
  - rewrite Ha, IH. by rewrite reverse_cons, <- app_assoc.
Qed.

Fixpoint starts_with (p t : text) : bool :=
  match p, t with
  | [], _ => true
  | a :: p', b :: t' => (a =? b) && starts_with p' t'
  | _ :: _, [] => false
  end.

(** ** [int(...)]: optional sign, digits with single underscores between
    them, surrounded by whitespace; at most 4300 digits. *)
Fixpoint int_body (prev : bool) (ndigits acc : Z) (t : text) : option Z :=
  match t with
  | [] => if prev && (ndigits <=? 4300) then Some acc else None
  | c :: t' =>
      if c =? 95 then if prev then int_body false ndigits acc t' else None
      else match digit_val 10 c with
           | Some d => int_body true (ndigits + 1) (acc * 10 + d) t'
           | None => None
           end
  end.
Definition py_int (space : Z -> bool) (t : text) : res Z :=
  let t := strip space t in
  let bad := Exn ValueError (lit "invalid literal for int() with base 10") in
  match t with
  | 45 :: t' => of_option (Z.opp <$> int_body false 0 0 t') bad
  | 43 :: t' => of_option (int_body false 0 0 t') bad
  | _ => of_option (int_body false 0 0 t) bad
  end.

(** ** [bytes.hex] and [bytes.fromhex] *)

Definition hex_byte (b : byte) : text :=
  [digit_char (b2z b / 16); digit_char (b2z b mod 16)].
Definition hex_of_bytes (bs : bytes) : text := concat (map hex_byte bs).

(** Pairs of digits; ASCII whitespace is skipped before a pair only. *)
Fixpoint fromhex (t : text) : option bytes :=
  match t with
  | [] => Some []
  | c :: t1 =>
      if is_ascii_space c then fromhex t1
      else match t1 with
           | [] => None
           | d :: t2 => match digit_val 16 c, digit_val 16 d, fromhex t2 with
                        | Some h, Some l, Some bs => Some (z2b (16 * h + l) :: bs)
                        | _, _, _ => None
                        end
           end
  end.

Lemma digit_char_not_space d : 0 <= d < 36 -> is_ascii_space (digit_char d) = false.
Proof.
  intros H. unfold is_ascii_space, digit_char.
  destruct (Z.ltb_spec d 10);
    repeat match goal with |- context [?a <=? ?b] => destruct (Z.leb_spec a b); try lia end;
    simpl; apply Z.eqb_neq; lia.
Qed.

Lemma fromhex_hex bs : fromhex (hex_of_bytes bs) = Some bs.
Proof.
  induction bs as [|b bs IH]; [done|].
  pose proof (b2z_range b) as Hb.
  assert (0 <= b2z b / 16 < 16) by (split; [apply Z.div_pos|apply Z.div_lt_upper_bound]; lia).
  assert (0 <= b2z b mod 16 < 16) by (apply Z.mod_pos_bound; lia).
  change (hex_of_bytes (b :: bs))
    with (digit_char (b2z b / 16) :: digit_char (b2z b mod 16) :: hex_of_bytes bs).
  cbn [fromhex]. rewrite digit_char_not_space, !digit_val_char, IH by lia.
  do 2 f_equal. apply b2z_inj. rewrite b2z_z2b.
  rewrite <- Z.div_mod by lia. apply Z.mod_small. lia.
Qed.

Lemma length_hex_of_bytes bs : length (hex_of_bytes bs) = (2 * length bs)%nat.
Proof.
  unfold hex_of_bytes. induction bs as [|b bs IH]; [done|].
  cbn [map concat]. rewrite length_app, IH. simpl. lia.
Qed.

(** ** Codecs *)

(** [str.encode("ascii")] and [bytes.decode("ascii", errors="replace")]
    (U+FFFD for every byte from 128). *)
Definition ascii_encode (t : text) : res bytes :=
  if forallb (fun c => (0 <=? c) && (c <? 128)) t then Ok (map z2b t)
  else raise UnicodeEncodeError (lit "ordinal not in range(128)").
Definition ascii_decode_replace (bs : bytes) : text :=
  map (fun b => if b2z b <? 128 then b2z b else 65533) bs.

Definition is_surrogate (c : Z) : bool := (55296 <=? c) && (c <=? 57343).
Definition is_cont (b : Z) : bool := (128 <=? b) && (b <? 192).

Definition utf8_char (c : Z) : list Z :=
  if c <? 128 then [c]
  else if c <? 2048 then [192 + c / 64; 128 + c mod 64]
  else if c <? 65536 then [224 + c / 4096; 128 + c / 64 mod 64; 128 + c mod 64]
  else [240 + c / 262144; 128 + c / 4096 mod 64; 128 + c / 64 mod 64; 128 + c mod 64].

(** [str.encode()]: a lone surrogate has no UTF-8 image. *)
Definition utf8_encode (t : text) : res bytes :=
  if existsb is_surrogate t then raise UnicodeEncodeError (lit "surrogates not allowed")
  else Ok (map z2b (concat (map utf8_char t))).

(** [bytes.decode("utf-8")]; [sp] selects the "surrogatepass" handler. *)
Fixpoint utf8_codes (sp : bool) (l : list Z) : option text :=
  match l with
  | [] => Some []
  | a :: l1 =>
      if a <? 128 then cons a <$> utf8_codes sp l1
      else match l1 with
      | [] => None
      | b :: l2 =>
          if negb (is_cont b) then None
          else if (194 <=? a) && (a <? 224) then
            cons ((a - 192) * 64 + (b - 128)) <$> utf8_codes sp l2
          else match l2 with
          | [] => None
          | c :: l3 =>
              if negb (is_cont c) then None
              else if (224 <=? a) && (a <? 240) then
                let v := (a - 224) * 4096 + (b - 128) * 64 + (c - 128) in
                if (v <? 2048) || (is_surrogate v && negb sp) then None
                else cons v <$> utf8_codes sp l3
              else match l3 with
              | [] => None
              | d :: l4 =>
                  let v := (a - 240) * 262144 + (b - 128) * 4096 + (c - 128) * 64 + (d - 128) in
                  if negb (is_cont d) || negb ((240 <=? a) && (a <? 245))
                     || (v <? 65536) || (1114111 <? v) then None
                  else cons v <$> utf8_codes sp l4
              end
          end
      end
  end.
Definition utf8_decode (sp : bool) (bs : bytes) : res text :=
  of_option (utf8_codes sp (codes bs))
    (Exn UnicodeDecodeError (lit "'utf-8' codec can't decode bytes")).

Definition valid_char (c : Z) : Prop := 0 <= c <= 1114111 /\ is_surrogate c = false.

(** Decide boolean comparisons of the goal by linear arithmetic. *)
Ltac bool_rw :=
  unfold is_cont, is_surrogate in *;
  repeat match goal with
  | |- context [?a <=? ?b] =>
      first [ rewrite (proj2 (Z.leb_le a b)) by lia | rewrite (proj2 (Z.leb_gt a b)) by lia ]
  | |- context [?a <? ?b] =>
      first [ rewrite (proj2 (Z.ltb_lt a b)) by lia | rewrite (proj2 (Z.ltb_ge a b)) by lia ]
  | |- context [?a =? ?b] =>
      first [ rewrite (proj2 (Z.eqb_eq a b)) by lia | rewrite (proj2 (Z.eqb_neq a b)) by lia ]
  end.
Ltac bool_lia := bool_rw; simpl.

Lemma map_b2z_z2b l : Forall (fun z => 0 <= z < 256) l -> map b2z (map z2b l) = l.
Proof.
  induction 1 as [|z l Hz _ IH]; simpl; [done|].
  by rewrite b2z_z2b, Z.mod_small, IH by lia.
Qed.

Lemma utf8_char_decode sp c l :
  valid_char c -> utf8_codes sp (utf8_char c ++ l) = cons c <$> utf8_codes sp l.
Proof.
  intros [Hr Hs]. unfold utf8_char.
  destruct (Z.ltb_spec c 128).
  { cbn [app utf8_codes]. by bool_lia. }
  pose proof (Z.div_mod c 64). pose proof (Z.mod_pos_bound c 64).
  destruct (Z.ltb_spec c 2048).
  { cbn [app utf8_codes]. bool_lia. do 2 f_equal. lia. }
  pose proof (Z.div_mod (c / 64) 64). pose proof (Z.mod_pos_bound (c / 64) 64).
  assert (c / 4096 = c / 64 / 64) as E1 by (rewrite Z.div_div by lia; done).
  destruct (Z.ltb_spec c 65536).
  { cbn [app utf8_codes]. bool_lia.
    match goal with |- context [if ?b then _ else _] => replace b with false end.
    - do 2 f_equal. lia.
    - replace (_ + _ + _) with c by lia. unfold is_surrogate in Hs. rewrite Hs. by bool_lia. }
  pose proof (Z.div_mod (c / 4096) 64). pose proof (Z.mod_pos_bound (c / 4096) 64).
  assert (c / 262144 = c / 4096 / 64) as E2 by (rewrite Z.div_div by lia; done).
  cbn [app utf8_codes]. bool_lia. do 2 f_equal. lia.
Qed.

Lemma utf8_char_bytes c : valid_char c -> Forall (fun z => 0 <= z < 256) (utf8_char c).
Proof.
  intros [Hr _]. unfold utf8_char.
  pose proof (Z.mod_pos_bound c 64). pose proof (Z.mod_pos_bound (c / 64) 64).
  pose proof (Z.mod_pos_bound (c / 4096) 64).
  assert (0 <= c / 262144 < 8) by (split; [apply Z.div_pos|apply Z.div_lt_upper_bound]; lia).
  destruct (Z.ltb_spec c 128); [repeat constructor; lia|].
  destruct (Z.ltb_spec c 2048).
  { assert (0 <= c / 64 < 32) by (split; [apply Z.div_pos|apply Z.div_lt_upper_bound]; lia).
    repeat constructor; lia. }
  destruct (Z.ltb_spec c 65536).
  { assert (0 <= c / 4096 < 16) by (split; [apply Z.div_pos|apply Z.div_lt_upper_bound]; lia).
    repeat constructor; lia. }
  repeat constructor; lia.
Qed.

Lemma utf8_chars_bytes t :
  Forall valid_char t -> Forall (fun z => 0 <= z < 256) (concat (map utf8_char t)).
Proof.
  induction 1; simpl; [constructor|]. apply Forall_app_2; [by apply utf8_char_bytes|done].
Qed.

(** Encoding then decoding is the identity on text without surrogates. *)
Lemma utf8_decode_encode sp t :
  Forall valid_char t ->
  exists bs, utf8_encode t = Ok bs /\ utf8_decode sp bs = Ok t.
Proof.
  intros H. unfold utf8_encode.
  replace (existsb is_surrogate t) with false.
  - eexists. split; [done|]. unfold utf8_decode, codes.
    rewrite map_b2z_z2b by by apply utf8_chars_bytes.
    replace (utf8_codes sp (concat (map utf8_char t))) with (Some t); [done|].
    induction H as [|c t Hc _ IH]; [done|].
    cbn [map concat]. by rewrite utf8_char_decode, <- IH.
  - induction H as [|c t [_ Hc] _ IH]; simpl; [done|]. by rewrite Hc.
Qed.

(** ASCII text: its bytes are its code points, in both codecs. *)
Definition is_ascii (t : text) : bool := forallb (fun c => (0 <=? c) && (c <? 128)) t.

Lemma is_ascii_Forall t : is_ascii t = true <-> Forall (fun c => 0 <= c < 128) t.
Proof.
  unfold is_ascii. rewrite forallb_forall, List.Forall_forall.
  split; intros H c Hc; specialize (H c Hc); lia.
Qed.

Lemma is_ascii_app a b : is_ascii (a ++ b) = is_ascii a && is_ascii b.
Proof. apply forallb_app. Qed.

Lemma utf8_decode_ascii sp t :
  is_ascii t = true -> utf8_decode sp (map z2b t) = Ok t.
Proof.
  rewrite is_ascii_Forall. intros H. unfold utf8_decode, codes.
  rewrite map_b2z_z2b by (eapply Forall_impl; [exact H|simpl; lia]).
  replace (utf8_codes sp t) with (Some t); [done|].
  induction H as [|c t Hc _ IH]; simpl; [done|].
  rewrite <- IH. by bool_lia.
Qed.

Lemma utf8_encode_ascii t : is_ascii t = true -> utf8_encode t = Ok (map z2b t).
Proof.
  rewrite is_ascii_Forall. intros H. unfold utf8_encode.
  replace (existsb is_surrogate t) with false.
  - do 2 f_equal. induction H as [|c t Hc _ IH]; [done|].
    cbn [map concat]. rewrite IH. unfold utf8_char. by bool_lia.
  - induction H as [|c t Hc _ IH]; simpl; [done|]. rewrite <- IH. by bool_lia.
Qed.

(** ** Reading back a printed number with [int] *)

Lemma length_to_digits_fuel f base n acc :
  (length (to_digits_fuel f base n acc) <= f + length acc)%nat.
Proof.
  revert n acc. induction f as [|f IH]; intros n acc; simpl; [lia|].
  destruct (n <? base); simpl; [lia|]. specialize (IH (n / base) (n mod base :: acc)).
  simpl in IH. lia.
Qed.

Lemma length_format_nat base n :
  zlen (format_nat base n) <= 1 + Z.log2 n.
Proof.
  unfold format_nat, to_digits. rewrite length_map.
  pose proof (length_to_digits_fuel (S (Z.to_nat (Z.log2 n))) base n []) as H.
  change (length (@nil Z)) with O in H. pose proof (Z.log2_nonneg n). lia.
Qed.

Lemma int_body_digits prev k acc ds :
  Forall (fun d => 0 <= d < 10) ds -> prev || bool_decide (ds <> []) = true ->
  k + zlen ds <= 4300 ->
  int_body prev k acc (map digit_char ds) =
  Some (foldl (fun acc d => acc * 10 + d) acc ds).
Proof.
  intros H. revert prev k acc. induction H as [|d ds Hd _ IH]; intros prev k acc Hp Hk.
  - rewrite bool_decide_eq_false_2, orb_false_r in Hp by naive_solver. subst.
    cbn [length] in Hk. cbn [map int_body andb]. bool_rw. done.
  - cbn [map int_body foldl]. rewrite digit_val_char by lia.
    replace (digit_char d =? 95) with false
      by (symmetry; apply Z.eqb_neq; unfold digit_char; bool_rw; lia).
    rewrite IH; [done|done|]. simpl length in *. lia.
Qed.

Lemma lstrip_id p t : match t with [] => True | c :: _ => p c = false end -> lstrip p t = t.
Proof. destruct t; simpl; [done|]. by intros ->. Qed.

Lemma strip_id p t : Forall (fun c => p c = false) t -> strip p t = t.
Proof.
  intros H. unfold strip. rewrite (lstrip_id p t) by (destruct H; auto).
  rewrite lstrip_id, reverse_involutive; [done|].
  assert (Forall (fun c => p c = false) (reverse t)) as Hr by by rewrite reverse_Permutation.
  destruct Hr; auto.
Qed.

Lemma format_nat_dec n : 0 <= n -> Forall (fun c => 48 <= c <= 57) (format_nat 10 n).
Proof.
  intros Hn. destruct (to_digits_spec 10 n) as (_ & Hr & _); [lia..|].
  unfold format_nat. apply Forall_map. eapply Forall_impl; [exact Hr|].
  intros d Hd. cbn beta in *. unfold digit_char. destruct (Z.ltb_spec d 10); simpl in *; lia.
Qed.

Lemma py_int_format sp n :
  0 <= n < 2 ^ 4000 -> (forall c, 48 <= c <= 57 -> sp c = false) ->
  py_int sp (format_nat 10 n) = Ok n.
Proof.
  intros Hn Hsp. pose proof (format_nat_dec n ltac:(lia)) as Hd.
  unfold py_int. rewrite strip_id by (eapply Forall_impl; [exact Hd|auto]).
  destruct (to_digits_spec 10 n) as (Hv & Hr & Hne); [lia..|].
  pose proof (int_body_digits false 0 0 (to_digits 10 n) Hr) as Hb.
  fold (format_nat 10 n) in Hb. fold (of_digits 10 (to_digits 10 n)) in Hb.
  rewrite Hv in Hb. rewrite Hb; [| |].
  2:{ by rewrite bool_decide_eq_true_2. }
  2:{ pose proof (length_format_nat 10 n) as Hl. unfold format_nat in Hl.
      rewrite length_map in Hl. pose proof (Z.log2_nonneg n).
      assert (Z.log2 n < 4000) by (destruct (Z.eq_dec n 0) as [->|]; [done|];
        apply Z.log2_lt_pow2; lia). lia. }
  destruct (format_nat 10 n) as [|c t]; [done|].
  apply Forall_cons in Hd as [Hc _].
  destruct c as [|c|c]; try lia. do 6 (destruct c as [c|c|]; try done; try lia).
Qed.

(** Octal literals ([0o700]) *)
Definition oct (s : string) : Z := of_digits 8 (map (fun c => c - 48) (lit s)).
