(* ===== verification/SerialText.v ===== *)
(** * Text of a byte stream

    Decoding UTF-8 with the error handler "replace", and [str.count]: what the
    conformance script does with the serial output of a session. *)

From S2P Require Import Prelude Text.

(** ** UTF-8 with replacement *)

(** [bytes.decode("utf-8", "replace")].  The second byte of a sequence is
    restricted after E0, ED, F0 and F4; a sequence that goes wrong is replaced
    by one U+FFFD as far as it was well-formed. *)
Definition REPLACEMENT := 65533.
Definition second_ok (a b : Z) : bool :=
  is_cont b && implb (a =? 224) (160 <=? b) && implb (a =? 237) (b <? 160)
  && implb (a =? 240) (144 <=? b) && implb (a =? 244) (b <? 144).

(** The next code point and the number of bytes it takes. *)
Definition utf8_head (a : Z) (r : list Z) : Z * nat :=
  if a <? 128 then (a, 1%nat)
  else if (194 <=? a) && (a <? 224) then
    match r with
    | b :: _ => if is_cont b then ((a - 192) * 64 + (b - 128), 2%nat) else (REPLACEMENT, 1%nat)
    | [] => (REPLACEMENT, 1%nat)
    end
  else if (224 <=? a) && (a <? 245) then
    match r with
    | b :: r =>
        if negb (second_ok a b) then (REPLACEMENT, 1%nat)
        else match r with
        | c :: r =>
            if negb (is_cont c) then (REPLACEMENT, 2%nat)
            else if a <? 240 then ((a - 224) * 4096 + (b - 128) * 64 + (c - 128), 3%nat)
            else match r with
            | d :: _ =>
                if is_cont d then
                  ((a - 240) * 262144 + (b - 128) * 4096 + (c - 128) * 64 + (d - 128), 4%nat)
                else (REPLACEMENT, 3%nat)
            | [] => (REPLACEMENT, 3%nat)
            end
        | [] => (REPLACEMENT, 2%nat)
        end
    | [] => (REPLACEMENT, 1%nat)
    end
  else (REPLACEMENT, 1%nat).
Fixpoint utf8_replace (fuel : nat) (l : list Z) : text :=
  match fuel, l with
  | S fuel', a :: r => let '(c, k) := utf8_head a r in c :: utf8_replace fuel' (drop k l)
  | _, _ => []
  end.
Definition decode_replace (bs : bytes) : text := utf8_replace (length bs) (codes bs).

Lemma utf8_head_size a r : (1 <= snd (utf8_head a r))%nat.
Proof. unfold utf8_head. repeat case_match; cbn; lia. Qed.
Lemma utf8_head_valid a r : 0 <= a < 256 -> valid_char (fst (utf8_head a r)).
Proof.
  intros Ha. unfold utf8_head, second_ok, is_cont, valid_char, is_surrogate, REPLACEMENT.
  repeat case_match; cbn [fst]; lia.
Qed.

(** Whatever the bytes are, the result is text that can be encoded. *)
Lemma utf8_replace_valid fuel l : Forall (fun a => 0 <= a < 256) l -> Forall valid_char (utf8_replace fuel l).
Proof.
  revert l. induction fuel as [|fuel IH]; intros [|a r] Hl; [constructor..|]. cbn [utf8_replace].
  destruct (utf8_head a r) as [c k] eqn:E. constructor; [|by apply IH, Forall_drop].
  pose proof (utf8_head_valid a r) as H. rewrite E in H. apply H. by apply Forall_cons in Hl as [? _].
Qed.

(** On well-formed bytes it is the strict decoder. *)
Lemma utf8_replace_strict fuel l t : (length l <= fuel)%nat -> Forall (fun a => 0 <= a < 256) l ->
  utf8_codes false l = Some t -> utf8_replace fuel l = t.
Proof.
  revert l t. induction fuel as [|fuel IH]; intros [|a l1] t Hf Hl; cbn [length] in Hf;
    try (cbn; congruence || lia).
  apply Forall_cons in Hl as [Ha Hl]. cbn [utf8_codes utf8_replace]. unfold utf8_head.
  destruct (Z.ltb_spec a 128).
  { intros (t' & Ht & ->)%fmap_Some. f_equal. cbn [drop]. rewrite ?drop_0. apply IH; [lia|done|done]. }
  destruct l1 as [|b l2]; [done|]. apply Forall_cons in Hl as [Hb Hl]. cbn [length] in Hf.
  destruct (is_cont b) eqn:Eb; [|done]. cbn [negb].
  destruct ((194 <=? a) && (a <? 224)) eqn:E2.
  { intros (t' & Ht & ->)%fmap_Some. f_equal. cbn [drop]. rewrite ?drop_0. apply IH; [lia|done|done]. }
  destruct l2 as [|c l3]; [done|]. apply Forall_cons in Hl as [Hc Hl]. cbn [length] in Hf.
  destruct (is_cont c) eqn:Ec; [|done]. cbn [negb].
  unfold is_cont in Eb, Ec.
  destruct ((224 <=? a) && (a <? 240)) eqn:E3.
  { cbv zeta. destruct (_ || _) eqn:E; [done|]. unfold is_surrogate in E.
    intros (t' & Ht & ->)%fmap_Some. assert (second_ok a b = true) as -> by (unfold second_ok, is_cont; lia).
    rewrite (proj2 (andb_true_iff (224 <=? a) (a <? 245))) by lia. rewrite (proj2 (Z.ltb_lt a 240)) by lia.
    cbn [negb drop]. rewrite ?drop_0. f_equal. apply IH; [lia|done|done]. }
  destruct l3 as [|d l4]; [done|]. apply Forall_cons in Hl as [Hd Hl]. cbn [length] in Hf.
  cbv zeta. destruct (_ || _) eqn:E; [done|]. unfold is_cont in E.
  intros (t' & Ht & ->)%fmap_Some. assert (second_ok a b = true) as -> by (unfold second_ok, is_cont; lia).
  rewrite (proj2 (andb_true_iff (224 <=? a) (a <? 245))) by lia. rewrite (proj2 (Z.ltb_ge a 240)) by lia.
  assert (is_cont d = true) as -> by (unfold is_cont; lia).
  cbn [negb drop]. rewrite ?drop_0. f_equal. apply IH; [lia|done|done].
Qed.

Lemma codes_range bs : Forall (fun a => 0 <= a < 256) (codes bs).
Proof. unfold codes. induction bs as [|b bs IH]; constructor; [apply b2z_range|done]. Qed.
Lemma decode_replace_valid bs : Forall valid_char (decode_replace bs).
Proof. apply utf8_replace_valid, codes_range. Qed.
Lemma decode_replace_strict bs t : utf8_decode false bs = Ok t -> decode_replace bs = t.
Proof.
  unfold utf8_decode. intros H%of_option_ok. apply utf8_replace_strict; [|apply codes_range|done].
  unfold codes. by rewrite length_map.
Qed.

(** ** Occurrences *)

(** [t.count(sub)]: occurrences that do not overlap, from the left. *)
Fixpoint count_from (fuel : nat) (sub t : text) : Z :=
  match fuel, t with
  | S fuel', _ :: t' =>
      if starts_with sub t then 1 + count_from fuel' sub (drop (length sub) t) else count_from fuel' sub t'
  | _, _ => 0
  end.
Definition text_count (sub t : text) : Z :=
  if bool_decide (sub = []) then zlen t + 1 else count_from (length t) sub t.

Lemma starts_with_app p t : starts_with p t = true -> exists b, t = p ++ b.
Proof.
  revert t. induction p as [|x p IH]; intros [|y t] H; cbn [starts_with] in H; try done; [by eexists..|].
  apply andb_prop in H as [->%Z.eqb_eq (b & ->)%IH]. by exists b.
Qed.
Lemma count_from_nonneg fuel sub t : 0 <= count_from fuel sub t.
Proof.
  revert t. induction fuel as [|fuel IH]; intros [|x t]; cbn [count_from]; try lia.
  destruct (starts_with _ _); [|done]. pose proof (IH (drop (length sub) (x :: t))). lia.
Qed.
Lemma count_from_occurs fuel sub t : 0 < count_from fuel sub t -> exists a b, t = a ++ sub ++ b.
Proof.
  revert t. induction fuel as [|fuel IH]; intros [|x t]; cbn [count_from]; try lia.
  destruct (starts_with sub (x :: t)) eqn:E.
  - intros _. apply starts_with_app in E as [b ->]. by exists [], b.
  - intros (a & b & ->)%IH. by exists (x :: a), b.
Qed.
Lemma text_count_occurs sub t : sub <> [] -> 1 <= text_count sub t -> exists a b, t = a ++ sub ++ b.
Proof. intros Hs. unfold text_count. rewrite bool_decide_false by done. intros H. apply (count_from_occurs (length t)). lia. Qed.
