(* ===== verification/Regex.v ===== *)
(** * Regular expressions

    The patterns the modules compile with [re] contain no back references,
    so [pattern.fullmatch(text) is not None] is membership in a regular
    language.  [re_match] decides it with Brzozowski derivatives;
    [re_match_spec] shows it agrees with the language [lang] of the
    expression. *)

From S2P Require Import Prelude Text.

Inductive re :=
  | RVoid
  | REps
  | RCls (p : Z -> bool)
  | RCat (r s : re)
  | RAlt (r s : re)
  | RStar (r : re).

Inductive lang : re -> text -> Prop :=
  | LEps : lang REps []
  | LCls p c : p c = true -> lang (RCls p) [c]
  | LCat r s a b : lang r a -> lang s b -> lang (RCat r s) (a ++ b)
  | LAltL r s a : lang r a -> lang (RAlt r s) a
  | LAltR r s a : lang s a -> lang (RAlt r s) a
  | LStarNil r : lang (RStar r) []
  | LStarCons r c a b : lang r (c :: a) -> lang (RStar r) b -> lang (RStar r) (c :: a ++ b).

Fixpoint nullable (r : re) : bool :=
  match r with
  | RVoid | RCls _ => false
  | REps | RStar _ => true
  | RCat r s => nullable r && nullable s
  | RAlt r s => nullable r || nullable s
  end.

(** Smart constructors keep the derivatives small. *)
Definition cat (r s : re) : re :=
  match r, s with
  | RVoid, _ | _, RVoid => RVoid
  | REps, _ => s
  | _, _ => RCat r s
  end.
Definition alt (r s : re) : re :=
  match r, s with
  | RVoid, _ => s
  | _, RVoid => r
  | _, _ => RAlt r s
  end.

Fixpoint deriv (c : Z) (r : re) : re :=
  match r with
  | RVoid | REps => RVoid
  | RCls p => if p c then REps else RVoid
  | RCat r s => if nullable r then alt (cat (deriv c r) s) (deriv c s)
                else cat (deriv c r) s
  | RAlt r s => alt (deriv c r) (deriv c s)
  | RStar r => cat (deriv c r) (RStar r)
  end.

Fixpoint re_match (r : re) (t : text) : bool :=
  match t with
  | [] => nullable r
  | c :: t' => re_match (deriv c r) t'
  end.

#[export] Hint Constructors lang : sim.

Lemma lang_cat r s t : lang (cat r s) t <-> lang (RCat r s) t.
Proof.
  split.
  - intros H. destruct r, s; simpl in H; try (inversion H; fail); auto;
      rewrite <- (app_nil_l t); auto with sim.
  - intros H. inversion H as [| |? ? a b Ha Hb| | | |]; subst.
    destruct r, s; simpl; try (inversion Ha; fail); try (inversion Hb; fail); auto with sim;
      inversion Ha; subst; auto.
Qed.

Lemma lang_alt r s t : lang (alt r s) t <-> lang (RAlt r s) t.
Proof.
  split; intros H; destruct r, s; simpl in *; auto with sim; inversion H; subst;
    auto with sim; match goal with H : lang RVoid _ |- _ => inversion H end.
Qed.

Lemma nullable_spec r : nullable r = true <-> lang r [].
Proof.
  induction r; simpl; rewrite ?andb_true_iff, ?orb_true_iff.
  - split; [done|]. intros H; inversion H.
  - split; auto with sim.
  - split; [done|]. intros H; inversion H.
  - rewrite IHr1, IHr2. split.
    + intros [Ha Hb]. rewrite <- (app_nil_l []). auto with sim.
    + intros H. inversion H as [| |? ? a b Ha Hb Ea Eb| | | |]; subst.
      apply app_eq_nil in Eb as [-> ->]. done.
  - rewrite IHr1, IHr2. split; [intros []; auto with sim|].
    intros H; inversion H; auto.
  - split; auto with sim.
Qed.

Lemma deriv_spec c r t : lang (deriv c r) t <-> lang r (c :: t).
Proof.
  revert t. induction r as [| |p|r1 IH1 r2 IH2|r1 IH1 r2 IH2|r IH]; intros t; simpl.
  - split; intros H; inversion H.
  - split; intros H; inversion H.
  - destruct (p c) eqn:Hp; split; intros H; inversion H; subst; auto with sim; congruence.
  - assert (lang (cat (deriv c r1) r2) t <->
            exists a b, t = a ++ b /\ lang r1 (c :: a) /\ lang r2 b) as Hcat.
    { rewrite lang_cat. split.
      - intros H. inversion H as [| |? ? a b Ha Hb| | | |]; subst.
        exists a, b. by rewrite <- IH1.
      - intros (a & b & -> & Ha & Hb). apply IH1 in Ha. auto with sim. }
    assert (lang (RCat r1 r2) (c :: t) <->
            (lang r1 [] /\ lang r2 (c :: t)) \/ lang (cat (deriv c r1) r2) t) as Hsplit.
    { rewrite Hcat. split.
      - intros H. inversion H as [| |? ? a b Ha Hb Er Et| | | |]; subst.
        destruct a as [|c' a]; simpl in *; simplify_eq; [by left|right; eauto].
      - intros [[Ha Hb]|(a & b & -> & Ha & Hb)].
        + rewrite <- (app_nil_l (c :: t)). auto with sim.
        + rewrite app_comm_cons. auto with sim. }
    rewrite Hsplit, <- nullable_spec. destruct (nullable r1).
    + rewrite lang_alt, <- IH2. split; [|intros [[_ ?]|?]; auto with sim].
      intros H. inversion H; subst; auto.
    + naive_solver.
  - rewrite lang_alt. split; intros H; inversion H; subst; [apply IH1 in H3|apply IH2 in H3| |];
      auto with sim; [apply LAltL; by apply IH1|apply LAltR; by apply IH2].
  - rewrite lang_cat. split.
    + intros H. inversion H as [| |? ? a b Ha Hb| | | |]; subst. apply IH in Ha. auto with sim.
    + intros H. inversion H as [| | | | | |? ? a b Ha Hb]; subst. apply IH in Ha. auto with sim.
Qed.

(** The decision procedure is exact. *)
Lemma re_match_spec r t : re_match r t = true <-> lang r t.
Proof.
  revert r. induction t as [|c t IH]; intros r; simpl.
  - apply nullable_spec.
  - by rewrite IH, deriv_spec.
Qed.

(** ** Pattern syntax *)

Definition rcls (p : Z -> bool) : re := RCls p.
Definition rchr (c : Z) : re := RCls (fun d => d =? c).
Definition rrange (a b : Z) : re := RCls (fun c => (a <=? c) && (c <=? b)).
Fixpoint rseq (rs : list re) : re :=
  match rs with [] => REps | [r] => r | r :: rs' => RCat r (rseq rs') end.
(** A literal. *)
Definition rlit (s : string) : re := rseq (map rchr (lit s)).
Definition rplus (r : re) : re := RCat r (RStar r).
Definition ropt (r : re) : re := RAlt REps r.
(** [r{n}] and [r{0,n}] *)
Fixpoint rrep (n : nat) (r : re) : re :=
  match n with O => REps | S n' => RCat r (rrep n' r) end.
Fixpoint rupto (n : nat) (r : re) : re :=
  match n with O => REps | S n' => ropt (RCat r (rupto n' r)) end.

(** Character classes: [ [0-9a-f] ], [ [a-z0-9] ], ... *)
Definition in_range (a b c : Z) : bool := (a <=? c) && (c <=? b).
Definition is_dec (c : Z) : bool := in_range 48 57 c.
Definition is_lower (c : Z) : bool := in_range 97 122 c.
Definition is_upper (c : Z) : bool := in_range 65 90 c.
Definition is_hex_lower (c : Z) : bool := is_dec c || in_range 97 102 c.
Definition one_of (s : string) (c : Z) : bool := existsb (Z.eqb c) (lit s).

Lemma lang_cls_rep p n t :
  lang (rrep n (RCls p)) t <-> length t = n /\ Forall (fun c => p c = true) t.
Proof.
  revert t. induction n as [|n IH]; intros t; simpl.
  - split; [intros H; inversion H; subst; auto|].
    intros [H _]. destruct t; [auto with sim|done].
  - split.
    + intros H. inversion H as [| |? ? a b Ha Hb| | | |]; subst.
      inversion Ha; subst. apply IH in Hb as [<- Hb]. split; [done|by constructor].
    + intros [Hl Hp]. destruct t as [|c t]; [done|]. inversion Hp; subst.
      apply (LCat _ _ [c] t); [auto with sim|]. apply IH. simpl in Hl. auto.
Qed.

Lemma lang_cls_upto p n t :
  lang (rupto n (RCls p)) t <-> (length t <= n)%nat /\ Forall (fun c => p c = true) t.
Proof.
  revert t. induction n as [|n IH]; intros t; simpl.
  - split; [intros H; inversion H; subst; auto|].
    intros [H _]. destruct t; simpl in *; [auto with sim|lia].
  - split.
    + intros H. inversion H as [| | |? ? ? Ha|? ? ? Ha| |]; subst.
      * inversion Ha; subst. split; [simpl; lia|constructor].
      * inversion Ha as [| |? ? a b Hc Hb| | | |]; subst. inversion Hc; subst.
        apply IH in Hb as [Hb1 Hb2]. split; [simpl; lia|by constructor].
    + intros [Hl Hp]. destruct t as [|c t]; [apply LAltL; auto with sim|].
      inversion Hp; subst. apply LAltR. apply (LCat _ _ [c] t); [auto with sim|].
      apply IH. simpl in Hl. split; [lia|done].
Qed.

Lemma lang_cls p t : lang (RCls p) t <-> exists c, t = [c] /\ p c = true.
Proof.
  split; [intros H; inversion H; subst; eauto|intros (c & -> & H); auto with sim].
Qed.

Lemma lang_rcat r s t :
  lang (RCat r s) t <-> exists a b, t = a ++ b /\ lang r a /\ lang s b.
Proof.
  split; [intros H; inversion H; subst; eauto|intros (a & b & -> & ? & ?); auto with sim].
Qed.

Lemma lang_ralt r s t : lang (RAlt r s) t <-> lang r t \/ lang s t.
Proof. split; [intros H; inversion H; subst; auto|intros []; auto with sim]. Qed.

Lemma lang_ropt r t : lang (ropt r) t <-> t = [] \/ lang r t.
Proof.
  unfold ropt. rewrite lang_ralt. split; (intros [H|H]; [left|by right]).
  - by inversion H.
  - subst. constructor.
Qed.

Lemma lang_star_cls p t : lang (RStar (RCls p)) t <-> Forall (fun c => p c = true) t.
Proof.
  split.
  - remember (RStar (RCls p)) as r eqn:E. intros H.
    induction H as [| | | | | |r c a b Ha _ Hb IH]; try discriminate; [constructor|].
    injection E as ->. apply lang_cls in Ha as (d & [= -> ->] & Hd). constructor; auto.
  - induction 1 as [|c t Hc _ IH]; [constructor|]. apply (LStarCons _ c []); [by constructor|done].
Qed.
Lemma lang_plus_cls p t :
  lang (rplus (RCls p)) t <-> t <> [] /\ Forall (fun c => p c = true) t.
Proof.
  unfold rplus. rewrite lang_rcat. split.
  - intros (a & b & -> & (c & -> & Hc)%lang_cls & Hb%lang_star_cls). split; [done|by constructor].
  - intros [Hn Ht]. destruct Ht as [|c t Hc Ht]; [done|]. exists [c], t. split; [done|].
    split; [apply lang_cls; eauto|by apply lang_star_cls].
Qed.

Lemma lang_chars l t : lang (rseq (map rchr l)) t <-> t = l.
Proof.
  revert t. induction l as [|c l IH]; intros t; cbn [map rseq]; [split; [by inversion 1|by intros ->; constructor]|].
  assert (forall u, lang (rchr c) u <-> u = [c]) as Hc.
  { intros u. unfold rchr. rewrite lang_cls. split; [intros (d & -> & Hd); f_equal; lia|].
    intros ->. exists c. split; [done|lia]. }
  destruct l as [|d l]; [apply Hc|]. cbn [map] in *. rewrite lang_rcat. split.
  - intros (a & b & -> & ->%Hc & ->%IH). done.
  - intros ->. exists [c], (d :: l). split; [done|]. split; [by apply Hc|by apply IH].
Qed.
Lemma lang_lit s t : lang (rlit s) t <-> t = lit s.
Proof. apply lang_chars. Qed.
