(* ===== verification/PyFloat.v ===== *)
(** * Python floats

    A Python [float] is an IEEE-754 binary64 number.  The Standard
    Library's executable specification [SpecFloat] (Flocq's algorithms, no
    primitive type) gives the arithmetic: precision 53, emax 1024, rounding
    to nearest even. *)

From Stdlib Require Export Floats.SpecFloat.
From S2P Require Import Prelude.

Abbreviation float := spec_float.

#[export] Instance float_eq_dec : EqDecision float.
Proof. solve_decision. Defined.

Definition fmul (x y : float) : float := SFmul 53 1024 x y.
Definition fdiv (x y : float) : float := SFdiv 53 1024 x y.
Definition fsub (x y : float) : float := SFsub 53 1024 x y.
(** [float(n)]: correctly rounded. *)
Definition fadd (x y : float) : float := SFadd 53 1024 x y.
(** [x < y] and [x <= y], false as soon as one of them is not a number. *)
Definition fltb (x y : float) : bool := SFltb x y.
Definition fleb (x y : float) : bool := SFleb x y.

Definition float_of_int (n : Z) : float := binary_normalize 53 1024 n 0 false.

Definition is_finite (x : float) : bool :=
  match x with S754_zero _ | S754_finite _ _ _ => true | _ => false end.

(** The value of [s * m * 10^e] for a decimal literal: an exact quotient of
    integers, rounded once. *)
Definition float_of_decimal (neg : bool) (m e : Z) : float :=
  match m with
  | Zpos p =>
      if 0 <=? e then binary_normalize 53 1024 (if neg then - (m * 10 ^ e) else m * 10 ^ e) 0 neg
      else let '(q, ez, l) := SFdiv_core_binary 53 1024 m 0 (10 ^ (- e)) 0 in
           binary_round_aux 53 1024 neg q ez l
  | _ => S754_zero neg
  end.

(** [round(x)]: to the nearest integer, ties to even.  [None] stands for the
    [OverflowError]/[ValueError] of infinities and NaN. *)
Definition round_half_even (n d : Z) : Z :=
  let q := n / d in
  match Z.compare (2 * (n mod d)) d with
  | Lt => q
  | Gt => q + 1
  | Eq => if Z.even q then q else q + 1
  end.
Definition py_round (x : float) : option Z :=
  match x with
  | S754_zero _ => Some 0
  | S754_finite s m e =>
      let v := if 0 <=? e then Z.pos m * 2 ^ e else round_half_even (Z.pos m) (2 ^ (- e)) in
      Some (if s then - v else v)
  | _ => None
  end.

(** [x == n] for an integer that a binary64 represents. *)
Definition float_eq_int (x : float) (n : Z) : bool := SFeqb x (float_of_int n).

Example float_lit : float_of_decimal false 1 0 = float_of_int 1 /\
  float_of_decimal false 15 (-1) = S754_finite false 6755399441055744 (-52) /\
  py_round (float_of_decimal true 25 (-1)) = Some (-2).
Proof. vm_compute. auto. Qed.

Lemma round_half_even_le n d B : 0 < d -> n <= B * d -> round_half_even n d <= B.
Proof.
  intros Hd Hn. unfold round_half_even.
  pose proof (Z.div_mod n d). pose proof (Z.mod_pos_bound n d).
  destruct (Z.compare_spec (2 * (n mod d)) d); [destruct (Z.even _)| |]; nia.
Qed.

(** ** A bound on rounded values

    Rounding to binary64 is monotone; the modules need only that a value at
    most an integer [K < 2^53], which is itself representable, is still at
    most [K] after rounding. *)

Lemma iter_pos_nat {A} (f : A -> A) p x : SpecFloat.iter_pos f p x = Nat.iter (Pos.to_nat p) f x.
Proof.
  revert x. induction p as [p IH|p IH|]; intros x; cbn [SpecFloat.iter_pos].
  - rewrite !IH, Pos2Nat.inj_xI. cbn [Nat.mul]. rewrite Nat.add_0_r, Nat.iter_succ_r, Nat.iter_add.
    done.
  - rewrite !IH, Pos2Nat.inj_xO. cbn [Nat.mul]. by rewrite Nat.add_0_r, Nat.iter_add.
  - done.
Qed.

(** After [k] right shifts: the quotient, and round or sticky bit only if
    something was shifted out. *)
Definition shifted (m0 : Z) (k : nat) (r : shr_record) : Prop :=
  shr_m r = m0 / 2 ^ Z.of_nat k /\
  (shr_r r || shr_s r = true -> shr_m r * 2 ^ Z.of_nat k < m0).

Lemma shr_1_div r : 0 <= shr_m r ->
  shr_m (shr_1 r) = shr_m r / 2 /\
  (shr_r (shr_1 r) || shr_s (shr_1 r) = true ->
    shr_r r || shr_s r = true \/ shr_m (shr_1 r) * 2 < shr_m r).
Proof.
  destruct r as [[|[p|p|]|p] a b]; simpl; intros H; try lia; split; auto;
    try (right; lia); try (by rewrite orb_false_l; auto); auto.
  - change (Z.pos p~1) with (2 * Z.pos p + 1). rewrite (Z.mul_comm 2), Z.div_add_l by lia.
    by rewrite Z.add_0_r.
  - change (Z.pos p~0) with (2 * Z.pos p). by rewrite Z.mul_comm, Z.div_mul.
Qed.

Lemma shr_iter m0 k :
  0 <= m0 -> shifted m0 k (Nat.iter k shr_1 (Build_shr_record m0 false false)).
Proof.
  intros H0. induction k as [|k [IHm IHs]].
  - split; simpl; [by rewrite Z.div_1_r|done].
  - rewrite Nat.iter_succ. set (r := Nat.iter k shr_1 _) in *.
    assert (0 <= shr_m r) as Hr by (rewrite IHm; apply Z.div_pos; lia).
    destruct (shr_1_div r Hr) as [E1 E2]. split.
    + rewrite E1, IHm, Z.div_div, Nat2Z.inj_succ, Z.pow_succ_r by lia. f_equal. lia.
    + intros H. rewrite Nat2Z.inj_succ, Z.pow_succ_r by lia.
      assert (0 < 2 ^ Z.of_nat k) by lia.
      assert (shr_m r * 2 ^ Z.of_nat k <= m0)
        by (rewrite IHm; rewrite Z.mul_comm; apply Z.mul_div_le; lia).
      assert (shr_m (shr_1 r) * 2 <= shr_m r)
        by (rewrite E1; rewrite Z.mul_comm; apply Z.mul_div_le; lia).
      destruct (E2 H) as [H'|H']; [specialize (IHs H')|]; nia.
Qed.

Lemma shr_spec m e n r e' :
  0 <= m -> shr (Build_shr_record m false false) e n = (r, e') ->
  exists k, e' = e + Z.of_nat k /\ shifted m k r /\ (n <= 0 -> k = O) /\ (0 < n -> Z.of_nat k = n).
Proof.
  intros Hm. unfold shr. destruct n as [|p|p].
  - intros [= <- <-]. exists O. repeat split; simpl; try lia. by rewrite Z.div_1_r.
  - intros [= <- <-]. exists (Pos.to_nat p). rewrite iter_pos_nat.
    split; [lia|]. split; [by apply shr_iter|]. split; lia.
  - intros [= <- <-]. exists O. repeat split; simpl; try lia. by rewrite Z.div_1_r.
Qed.

Lemma digits2_pos_lower m : 2 ^ (Z.pos (digits2_pos m) - 1) <= Z.pos m.
Proof.
  induction m as [m IH|m IH|]; cbn [digits2_pos]; [| |done];
    rewrite Pos2Z.inj_succ; replace (Z.succ _ - 1) with (Z.succ (Z.pos (digits2_pos m) - 1)) by lia;
    rewrite Z.pow_succ_r by lia; lia.
Qed.

Lemma round_nearest_le r m0 k K' :
  0 <= m0 -> shifted m0 k r -> m0 <= K' * 2 ^ Z.of_nat k ->
  0 <= round_nearest_even (shr_m r) (loc_of_shr_record r) <= K'.
Proof.
  intros Hm [Em Es] HK. assert (0 < 2 ^ Z.of_nat k) by lia.
  assert (0 <= shr_m r) by (rewrite Em; apply Z.div_pos; lia).
  assert (shr_m r * 2 ^ Z.of_nat k <= m0)
    by (rewrite Em; rewrite Z.mul_comm; apply Z.mul_div_le; lia).
  destruct r as [m rb sb]. simpl in *.
  destruct rb, sb; simpl in *; try (specialize (Es eq_refl)); try (destruct (Z.even m)); nia.
Qed.

Lemma binary_round_aux_le s mx ex K :
  0 < K < 2 ^ 53 -> ex <= 0 -> Z.pos mx <= K * 2 ^ (- ex) ->
  match binary_round_aux 53 1024 s (Z.pos mx) ex loc_Exact with
  | S754_zero _ => True
  | S754_finite s' m e => s' = s /\ ex <= e /\ Z.pos m * 2 ^ (e - ex) <= K * 2 ^ (- ex)
  | _ => False
  end.
Proof.
  intros HK Hex Hm. unfold binary_round_aux, shr_fexp. cbn [shr_record_of_loc Zdigits2].
  pose proof (digits2_pos_lower mx) as Hd. set (d := Z.pos (digits2_pos mx)) in *.
  assert (d - 1 < 53 - ex) as Hd53.
  { apply (Z.pow_lt_mono_r_iff 2); [lia|lia|]. eapply Z.le_lt_trans; [exact Hd|].
    eapply Z.le_lt_trans; [exact Hm|]. unfold Z.sub. rewrite Z.pow_add_r by lia. nia. }
  destruct (shr _ ex _) as [r1 e1] eqn:E1.
  destruct (shr_spec _ _ _ _ _ (Pos2Z.is_nonneg mx) E1) as (k1 & -> & Hs1 & Hk0 & Hk1).
  assert (ex + Z.of_nat k1 <= 0 \/ k1 = O) as He1.
  { destruct (Z.le_gt_cases (fexp 53 1024 (d + ex) - ex) 0) as [Hn|Hn]; [right; auto|].
    left. rewrite (Hk1 Hn). unfold fexp, emin in *. lia. }
  assert (exists K1, K1 * 2 ^ Z.of_nat k1 = K * 2 ^ (- ex)) as [K1 HK1].
  { exists (K * 2 ^ (- ex - Z.of_nat k1)). rewrite <- Z.mul_assoc, <- Z.pow_add_r by lia.
    f_equal. f_equal. lia. }
  pose proof (round_nearest_le r1 _ _ K1 (Pos2Z.is_nonneg mx) Hs1 ltac:(lia)) as Hr.
  set (m1 := round_nearest_even _ _) in *.
  destruct (shr _ (ex + _) _) as [r2 e2] eqn:E2.
  destruct (shr_spec _ _ _ _ _ (proj1 Hr) E2) as (k2 & -> & Hs2 & _ & Hk2).
  destruct Hs2 as [Em2 _].
  assert (shr_m r2 * 2 ^ Z.of_nat k2 <= m1) as Hm2
    by (rewrite Em2; rewrite Z.mul_comm; apply Z.mul_div_le; lia).
  assert (0 <= shr_m r2) as Hp2 by (rewrite Em2; apply Z.div_pos; lia).
  assert (shr_m r2 * 2 ^ (ex + Z.of_nat k1 + Z.of_nat k2 - ex) <= K * 2 ^ (- ex)) as Hfin.
  { replace (ex + Z.of_nat k1 + Z.of_nat k2 - ex) with (Z.of_nat k2 + Z.of_nat k1) by lia.
    rewrite Z.pow_add_r by lia. assert (0 < 2 ^ Z.of_nat k1) by lia. nia. }
  destruct (shr_m r2) as [|p|p] eqn:Ep; [done| |lia].
  destruct (Z.leb_spec (ex + Z.of_nat k1 + Z.of_nat k2) (1024 - 53)) as [Hle|Hgt]; [split; [done|split; [lia|exact Hfin]]|].
  exfalso. assert (2 ^ (ex + Z.of_nat k1 + Z.of_nat k2 - ex) <= K * 2 ^ (- ex)) by nia.
  assert (2 ^ 971 * 2 ^ (- ex) <= K * 2 ^ (- ex)).
  { etrans; [|exact H]. rewrite <- Z.pow_add_r by lia. apply Z.pow_le_mono_r; lia. }
  assert (2 ^ 53 < 2 ^ 971) by done. nia.
Qed.

(** A binary64 value in its canonical form. *)
Definition float_ok (x : float) : Prop := valid_binary 53 1024 x = true.

Lemma digits2_pos_upper m : Z.pos m < 2 ^ Z.pos (digits2_pos m).
Proof.
  induction m as [m IH|m IH|]; cbn [digits2_pos]; [| |done];
    rewrite Pos2Z.inj_succ, Z.pow_succ_r by lia; lia.
Qed.

Lemma float_ok_mantissa s m e : float_ok (S754_finite s m e) -> Z.pos m < 2 ^ 53.
Proof.
  unfold float_ok, valid_binary, bounded, canonical_mantissa, fexp, emin. intros H.
  eapply Z.lt_le_trans; [apply digits2_pos_upper|]. apply Z.pow_le_mono_r; lia.
Qed.

(** [abs(x) > M * 2^E] is false: a bound on the value of [x]. *)
Lemma not_above s m e M E :
  float_ok (S754_finite s m e) -> 2 ^ 52 <= Z.pos M ->
  SFltb (S754_finite false M E) (SFabs (S754_finite s m e)) = false ->
  e <= E /\ Z.pos m <= Z.pos M * 2 ^ (E - e).
Proof.
  intros Hok HM. pose proof (float_ok_mantissa _ _ _ Hok) as Hm.
  unfold SFltb, SFabs, SFcompare. destruct (Z.compare_spec E e) as [->|Hlt|Hgt]; [|done|].
  - rewrite Z.sub_diag, Z.mul_1_r. destruct (Pos.compare_cont Eq M m) eqn:Ec; intros; try done;
      (split; [lia|]); change (Pos.compare M m = Eq) in Ec || change (Pos.compare M m = Gt) in Ec;
      [apply Pos.compare_eq in Ec as ->|apply Pos.compare_gt_iff in Ec]; lia.
  - intros _. split; [lia|].
    assert (2 ^ 1 <= 2 ^ (E - e)) by (apply Z.pow_le_mono_r; lia). change (2 ^ 1) with 2 in *.
    change (2 ^ 53) with (2 * 2 ^ 52) in Hm. nia.
Qed.

Lemma py_round_le s m e K ex :
  0 < K -> ex <= e -> ex <= 0 -> Z.pos m * 2 ^ (e - ex) <= K * 2 ^ (- ex) ->
  exists z, py_round (S754_finite s m e) = Some z /\ - K <= z <= K.
Proof.
  intros HK He Hex H. unfold py_round.
  enough (0 <= (if 0 <=? e then Z.pos m * 2 ^ e else round_half_even (Z.pos m) (2 ^ (- e))) <= K)
    as Hv by (eexists; split; [done|]; destruct s; lia).
  destruct (Z.leb_spec 0 e) as [Hp|Hn].
  - replace (e - ex) with (e + - ex) in H by lia. rewrite Z.pow_add_r in H by lia.
    assert (0 < 2 ^ (- ex)) by lia. assert (0 < 2 ^ e) by lia. nia.
  - assert (0 < 2 ^ (- e)) by lia. split.
    + unfold round_half_even. assert (0 <= Z.pos m / 2 ^ (- e)) by (apply Z.div_pos; lia).
      repeat case_match; lia.
    + apply round_half_even_le; [lia|]. replace (- ex) with (- e + (e - ex)) in H by lia.
      rewrite Z.pow_add_r in H by lia. assert (0 < 2 ^ (e - ex)) by lia. nia.
Qed.

(** [round(x * 1000)] for [abs(x) <= B] and [B] of at most 11 bits. *)
Lemma round_scaled x M E B :
  float_ok x -> is_finite x = true -> float_of_int B = S754_finite false M E ->
  2 ^ 52 <= Z.pos M -> 0 < B < 2 ^ 11 -> Z.pos M = B * 2 ^ (- E) -> E <= 0 ->
  SFltb (float_of_int B) (SFabs x) = false ->
  exists z, py_round (fmul x (float_of_int 1000)) = Some z /\ - (B * 1000) <= z <= B * 1000.
Proof.
  intros Hok Hfin HB HM HBr HMB HE Hcmp. rewrite HB in Hcmp.
  destruct x as [s| | |s m e]; try done.
  { exists 0. split; [done|lia]. }
  destruct (not_above _ _ _ _ _ Hok HM Hcmp) as [Hle Hm].
  change (float_of_int 1000) with (S754_finite false 8796093022208000 (-43)).
  unfold fmul, SFmul. rewrite xorb_false_r.
  pose proof (binary_round_aux_le s (m * 8796093022208000) (e + -43) (B * 1000)) as Hround.
  assert (Z.pos m <= B * 2 ^ (- e)) as Hme.
  { etrans; [exact Hm|]. rewrite HMB, <- Z.mul_assoc, <- Z.pow_add_r by lia.
    apply Z.mul_le_mono_nonneg_l; [lia|]. apply Z.pow_le_mono_r; lia. }
  assert (Z.pos (m * 8796093022208000) <= B * 1000 * 2 ^ (- (e + -43))) as Hprod.
  { replace (- (e + -43)) with (- e + 43) by lia. rewrite Z.pow_add_r by lia.
    change (Z.pos (m * 8796093022208000)) with (Z.pos m * (1000 * 2 ^ 43)). nia. }
  specialize (Hround ltac:(lia) ltac:(lia) Hprod).
  destruct (binary_round_aux _ _ _ _ _ _) as [s'| | |s' m' e']; try done.
  { exists 0. split; [done|lia]. }
  destruct Hround as (-> & Hge & Hv). eapply py_round_le; [| |idtac|exact Hv]; lia.
Qed.
