(* ===== verification/Json.v ===== *)
(** * JSON values, [json.dumps] and [json.loads]

    [dumps] is [json.dumps(value, sort_keys=sort)] with the separators "," and
    ":" followed by [space]: nothing in the broker protocol and the QMP client,
    one space where the script leaves the defaults;
    [loads] is [json.loads] on bytes: encoding detection, decoding with
    "surrogatepass" and the recursive-descent scanner.  A Python [dict] is
    an association list in insertion order with distinct keys.  Floats are
    read, and printed by the argument [float_repr] (only
    QMP arguments have one).  The interpreter's recursion limit is
    not modelled. *)

From Stdlib Require Import Init.Byte.
From S2P Require Import Prelude Text PyFloat.

#[warnings="-register-all"]
Inductive json :=
  | JNull
  | JBool (b : bool)
  | JInt (z : Z)
  | JFloat (f : float)
  | JStr (t : text)
  | JArr (l : list json)
  | JObj (l : list (text * json)).

(** ** Dictionaries in insertion order *)

Section Dict.
Context {V : Type}.
Fixpoint dict_get (k : text) (d : list (text * V)) : option V :=
  match d with
  | [] => None
  | (k', v) :: d' => if decide (k = k') then Some v else dict_get k d'
  end.
(** [d[k] = v]: an existing key keeps its place. *)
Fixpoint dict_set (k : text) (v : V) (d : list (text * V)) : list (text * V) :=
  match d with
  | [] => [(k, v)]
  | (k', v') :: d' => if decide (k = k') then (k, v) :: d' else (k', v') :: dict_set k v d'
  end.
Definition dict_keys (d : list (text * V)) : list text := map fst d.
(** [set(d) == {..}] *)
Definition keys_are (d : list (text * V)) (ks : list text) : bool :=
  forallb (fun k => bool_decide (k ∈ ks)) (dict_keys d) &&
  forallb (fun k => bool_decide (k ∈ dict_keys d)) ks.

Lemma dict_set_keys k v d : k ∉ dict_keys d -> dict_set k v d = d ++ [(k, v)].
Proof.
  unfold dict_keys. induction d as [|[k' v'] d IH]; simpl; [done|]. intros H.
  apply not_elem_of_cons in H as [Hk H]. by rewrite decide_False, IH.
Qed.
Lemma dict_get_keys k v d : dict_get k d = Some v -> k ∈ dict_keys d.
Proof.
  unfold dict_keys. induction d as [|[k' v'] d IH]; cbn; [done|].
  destruct (decide (k = k')) as [->|]; [by left|]. intros H. right. auto.
Qed.
End Dict.

(** ** Printing *)

Fixpoint text_leb (a b : text) : bool :=
  match a, b with
  | [], _ => true
  | _ :: _, [] => false
  | x :: a', y :: b' => if x <? y then true else if y <? x then false else text_leb a' b'
  end.

Fixpoint insert_key {V} (p : text * V) (l : list (text * V)) : list (text * V) :=
  match l with
  | [] => [p]
  | q :: l' => if text_leb (fst p) (fst q) then p :: l else q :: insert_key p l'
  end.
Definition sort_items {V} (l : list (text * V)) : list (text * V) :=
  foldr insert_key [] l.

Definition hex4 (u : Z) : text :=
  [digit_char (u / 4096); digit_char (u / 256 mod 16); digit_char (u / 16 mod 16);
   digit_char (u mod 16)].
Definition esc_unit (u : Z) : text := 92 :: 117 :: hex4 u.
(** [ensure_ascii]: quotes, backslashes and everything outside space..tilde
    is escaped; astral characters become a surrogate pair. *)
Definition esc_char (c : Z) : text :=
  if c =? 34 then [92; 34]
  else if c =? 92 then [92; 92]
  else if (32 <=? c) && (c <=? 126) then [c]
  else if c =? 10 then [92; 110]
  else if c =? 13 then [92; 114]
  else if c =? 9 then [92; 116]
  else if c =? 12 then [92; 102]
  else if c =? 8 then [92; 98]
  else if c <? 65536 then esc_unit c
  else let n := c - 65536 in
       esc_unit (55296 + n / 1024) ++ esc_unit (56320 + n mod 1024).
Definition dump_str (t : text) : text := 34 :: concat (map esc_char t) ++ [34].

Fixpoint join (sep : text) (l : list text) : text :=
  match l with [] => [] | [x] => x | x :: l' => x ++ sep ++ join sep l' end.

Section Print.
Context (float_repr : float -> text) (sort : bool) (space : text).

Fixpoint dumps (v : json) : text :=
  match v with
  | JNull => lit "null"
  | JBool b => if b then lit "true" else lit "false"
  | JInt z => str_of_int z
  | JFloat f => float_repr f
  | JStr t => dump_str t
  | JArr l => 91 :: join (44 :: space) (map dumps l) ++ [93]
  | JObj l =>
      let items := map (fun p => (fst p, dumps (snd p))) l in
      let items := if sort then sort_items items else items in
      123 :: join (44 :: space) (map (fun p => dump_str (fst p) ++ 58 :: space ++ snd p) items) ++ [125]
  end.
End Print.

(** ** Scanning *)

Definition is_json_ws (c : Z) : bool := (c =? 32) || (c =? 9) || (c =? 10) || (c =? 13).
Definition skip_ws (t : text) : text := lstrip is_json_ws t.
(** The rest of [t] after the character [c], if it starts with [c]. *)
Definition eat (c : Z) (t : text) : option text :=
  match t with
  | d :: t' => if d =? c then Some t' else None
  | [] => None
  end.

Definition hex4_val (a b c d : Z) : option Z :=
  match digit_val 16 a, digit_val 16 b, digit_val 16 c, digit_val 16 d with
  | Some a, Some b, Some c, Some d => Some (a * 4096 + b * 256 + c * 16 + d)
  | _, _, _, _ => None
  end.

Definition simple_escape (c : Z) : option Z :=
  if (c =? 34) || (c =? 92) || (c =? 47) then Some c
  else if c =? 98 then Some 8 else if c =? 102 then Some 12
  else if c =? 110 then Some 10 else if c =? 114 then Some 13
  else if c =? 116 then Some 9 else None.

(** The characters of a string body up to its closing quote; a unit that a
    [\uXXXX] escape gave is marked, since only those form surrogate pairs. *)
Fixpoint scan_units (t : text) : option (list (bool * Z) * text) :=
  match t with
  | [] => None
  | c :: t1 =>
      if c =? 34 then Some ([], t1)
      else if c =? 92 then
        match t1 with
        | [] => None
        | e :: t2 =>
            if e =? 117 then
              match t2 with
              | a :: b :: c :: d :: t3 =>
                  match hex4_val a b c d, scan_units t3 with
                  | Some u, Some (us, r) => Some ((true, u) :: us, r)
                  | _, _ => None
                  end
              | _ => None
              end
            else match simple_escape e, scan_units t2 with
                 | Some u, Some (us, r) => Some ((false, u) :: us, r)
                 | _, _ => None
                 end
        end
      else if c <? 32 then None
      else match scan_units t1 with
           | Some (us, r) => Some ((false, c) :: us, r)
           | None => None
           end
  end.

Definition is_high (u : Z) : bool := (55296 <=? u) && (u <=? 56319).
Definition is_low (u : Z) : bool := (56320 <=? u) && (u <=? 57343).
Fixpoint join_units (us : list (bool * Z)) : text :=
  match us with
  | [] => []
  | (e1, u) :: us1 =>
      match us1 with
      | (e2, v) :: us2 =>
          if e1 && is_high u && e2 && is_low v
          then 65536 + (u - 55296) * 1024 + (v - 56320) :: join_units us2
          else u :: join_units us1
      | [] => [u]
      end
  end.
Definition scan_str (t : text) : option (text * text) :=
  match scan_units t with
  | Some (us, r) => Some (join_units us, r)
  | None => None
  end.

(** The longest prefix of digits. *)
Fixpoint span_digits (t : text) : text * text :=
  match t with
  | c :: t' => if is_digit 10 c then let '(ds, r) := span_digits t' in (c :: ds, r)
               else ([], t)
  | [] => ([], [])
  end.

Definition scan_frac (t : text) : text * text :=
  match eat 46 t with
  | Some t1 => match span_digits t1 with ([], _) => ([], t) | (ds, r) => (ds, r) end
  | None => ([], t)
  end.
(** The exponent and whether one was present. *)
Definition scan_exp (t : text) : option Z * text :=
  match t with
  | c :: t1 =>
      if (c =? 101) || (c =? 69) then
        let '(neg, t2) := match eat 45 t1, eat 43 t1 with
                          | Some t2, _ => (true, t2)
                          | None, Some t2 => (false, t2)
                          | None, None => (false, t1)
                          end in
        match span_digits t2 with
        | ([], _) => (None, t)
        | (ds, r) => match parse_digits 10 0 ds with
                     | Some e => (Some (if neg : bool then - e else e), r)
                     | None => (None, t)
                     end
        end
      else (None, t)
  | [] => (None, t)
  end.

(** An integer part without leading zeros, then optionally a fraction and
    an exponent; an integer literal has neither. *)
Definition scan_number (t : text) : option (json * text) :=
  let '(neg, t0) := match eat 45 t with Some t' => (true, t') | None => (false, t) end in
  match (match eat 48 t0 with
         | Some t1 => Some ([48], t1)
         | None => match span_digits t0 with ([], _) => None | p => Some p end
         end) with
  | None => None
  | Some (ip, t1) =>
      let '(fp, t2) := scan_frac t1 in
      let '(ex, t3) := scan_exp t2 in
      match fp, ex, parse_digits 10 0 (ip ++ fp) with
      | [], None, Some n => Some (JInt (if neg : bool then - n else n), t3)
      | _, _, Some n =>
          Some (JFloat (float_of_decimal neg n (default 0 ex - zlen fp)), t3)
      | _, _, None => None
      end
  end.

Definition strip_prefix (p t : text) : option text :=
  if starts_with p t then Some (drop (length p) t) else None.

Definition scan_const (t : text) : option (json * text) :=
  match strip_prefix (lit "null") t with Some r => Some (JNull, r) | None =>
  match strip_prefix (lit "true") t with Some r => Some (JBool true, r) | None =>
  match strip_prefix (lit "false") t with Some r => Some (JBool false, r) | None =>
  match strip_prefix (lit "NaN") t with Some r => Some (JFloat S754_nan, r) | None =>
  match strip_prefix (lit "Infinity") t with
  | Some r => Some (JFloat (S754_infinity false), r) | None =>
  match strip_prefix (lit "-Infinity") t with
  | Some r => Some (JFloat (S754_infinity true), r) | None => None end end end end end end.

(** [scan_once]: every nested value starts after at least one character, so
    the length of the input is fuel enough. *)
Fixpoint scan_value (fuel : nat) (t : text) : option (json * text) :=
  match fuel, t with
  | S f, c :: t1 =>
      if c =? 34 then match scan_str t1 with
                      | Some (s, r) => Some (JStr s, r) | None => None end
      else if c =? 123 then
        match eat 125 (skip_ws t1) with
        | Some r => Some (JObj [], r)
        | None => match scan_members f (skip_ws t1) [] with
                  | Some (d, r) => Some (JObj d, r) | None => None end
        end
      else if c =? 91 then
        match eat 93 (skip_ws t1) with
        | Some r => Some (JArr [], r)
        | None => match scan_elements f (skip_ws t1) with
                  | Some (l, r) => Some (JArr l, r) | None => None end
        end
      else match scan_const t with
           | Some p => Some p
           | None => scan_number t
           end
  | _, _ => None
  end
with scan_elements (fuel : nat) (t : text) : option (list json * text) :=
  match fuel with
  | O => None
  | S f =>
      match scan_value f t with
      | None => None
      | Some (v, r) =>
          match eat 93 (skip_ws r), eat 44 (skip_ws r) with
          | Some r', _ => Some ([v], r')
          | None, Some r' => match scan_elements f (skip_ws r') with
                             | Some (l, r'') => Some (v :: l, r'') | None => None end
          | None, None => None
          end
      end
  end
with scan_members (fuel : nat) (t : text) (acc : list (text * json))
    : option (list (text * json) * text) :=
  match fuel, eat 34 t with
  | S f, Some t1 =>
      match scan_str t1 with
      | None => None
      | Some (k, r) =>
          match eat 58 (skip_ws r) with
          | None => None
          | Some r1 =>
              match scan_value f (skip_ws r1) with
              | None => None
              | Some (v, r2) =>
                  match eat 125 (skip_ws r2), eat 44 (skip_ws r2) with
                  | Some r3, _ => Some (dict_set k v acc, r3)
                  | None, Some r3 => scan_members f (skip_ws r3) (dict_set k v acc)
                  | None, None => None
                  end
              end
          end
      end
  | _, _ => None
  end.

Definition json_error {A} : res A := raise JSONDecodeError (lit "invalid JSON").
Definition loads_text (t : text) : res json :=
  match scan_value (2 * S (length t)) (skip_ws t) with
  | Some (v, r) => match skip_ws r with [] => Ok v | _ => json_error end
  | None => json_error
  end.

(** ** [json.loads] on bytes *)

Fixpoint utf16_units (be : bool) (l : list Z) : option (list Z) :=
  match l with
  | [] => Some []
  | a :: b :: l' => cons (if be then a * 256 + b else b * 256 + a) <$> utf16_units be l'
  | _ => None
  end.
Definition utf16_decode (be : bool) (l : list Z) : option text :=
  us ← utf16_units be l; Some (join_units (map (fun u => (true, u)) us)).
Fixpoint utf32_decode (be : bool) (l : list Z) : option text :=
  match l with
  | [] => Some []
  | a :: b :: c :: d :: l' =>
      let v := if be then ((a * 256 + b) * 256 + c) * 256 + d
               else ((d * 256 + c) * 256 + b) * 256 + a in
      if 1114111 <? v then None else cons v <$> utf32_decode be l'
  | _ => None
  end.

(** [json.detect_encoding] and the decoding it selects. *)
Definition json_decode (l : list Z) : option text :=
  if starts_with [0; 0; 254; 255] l then utf32_decode true (drop 4 l)
  else if starts_with [255; 254; 0; 0] l then utf32_decode false (drop 4 l)
  else if starts_with [254; 255] l then utf16_decode true (drop 2 l)
  else if starts_with [255; 254] l then utf16_decode false (drop 2 l)
  else if starts_with [239; 187; 191] l then utf8_codes true (drop 3 l)
  else match l with
  | a :: b :: c :: d :: _ =>
      if a =? 0 then if b =? 0 then utf32_decode true l else utf16_decode true l
      else if b =? 0 then
        if (c =? 0) && (d =? 0) then utf32_decode false l else utf16_decode false l
      else utf8_codes true l
  | [a; b] =>
      if a =? 0 then utf16_decode true l
      else if b =? 0 then utf16_decode false l else utf8_codes true l
  | _ => utf8_codes true l
  end.

Definition loads (bs : bytes) : res json :=
  match json_decode (codes bs) with
  | Some t => loads_text t
  | None => raise UnicodeDecodeError (lit "invalid bytes")
  end.

(** ** Reading back what was printed *)

Section JsonInd.
Context (P : json -> Prop).
Hypotheses (Hnull : P JNull) (Hbool : forall b, P (JBool b)) (Hint : forall z, P (JInt z))
  (Hfloat : forall f, P (JFloat f)) (Hstr : forall t, P (JStr t))
  (Harr : forall l, Forall P l -> P (JArr l))
  (Hobj : forall l, Forall (fun p => P (snd p)) l -> P (JObj l)).
Fixpoint json_nested_ind (v : json) : P v :=
  match v with
  | JNull => Hnull | JBool b => Hbool b | JInt z => Hint z | JFloat f => Hfloat f
  | JStr t => Hstr t
  | JArr l => Harr l ((fix go l : Forall P l :=
      match l with
      | [] => Forall_nil_2 _
      | x :: l' => Forall_cons_2 _ _ _ (json_nested_ind x) (go l')
      end) l)
  | JObj l => Hobj l ((fix go l : Forall (fun p => P (snd p)) l :=
      match l with
      | [] => Forall_nil_2 _
      | x :: l' => Forall_cons_2 _ _ _ (json_nested_ind (snd x)) (go l')
      end) l)
  end.
End JsonInd.

(** A value that [dumps] prints faithfully: no float, no surrogate, distinct
    keys; [canon] is what a reader gets back (keys sorted). *)
#[warnings="-register-all"]
Inductive plain : json -> Prop :=
  | PlainNull : plain JNull
  | PlainBool b : plain (JBool b)
  | PlainInt z : plain (JInt z)
  | PlainStr t : Forall valid_char t -> plain (JStr t)
  | PlainArr l : Forall plain l -> plain (JArr l)
  | PlainObj l :
      NoDup (dict_keys l) ->
      Forall (fun p => Forall valid_char (fst p) /\ plain (snd p)) l -> plain (JObj l).

Section Canon.
Context (sort : bool).
Fixpoint canon (v : json) : json :=
  match v with
  | JArr l => JArr (map canon l)
  | JObj l => let items := map (fun p => (fst p, canon (snd p))) l in
              JObj (if sort then sort_items items else items)
  | _ => v
  end.
End Canon.

Definition units_of (c : Z) : list (bool * Z) :=
  if (32 <=? c) && (c <=? 126) then [(false, c)]
  else if (c =? 10) || (c =? 13) || (c =? 9) || (c =? 12) || (c =? 8) then [(false, c)]
  else if c <? 65536 then [(true, c)]
  else [(true, 55296 + (c - 65536) / 1024); (true, 56320 + (c - 65536) mod 1024)].

Lemma hex4_val_hex4 u r :
  0 <= u < 65536 -> scan_units (esc_unit u ++ r) =
  match scan_units r with Some (us, r') => Some ((true, u) :: us, r') | None => None end.
Proof.
  intros Hu. unfold esc_unit, hex4. cbn [app scan_units]. simpl Z.eqb.
  pose proof (Z.div_mod u 16). pose proof (Z.mod_pos_bound u 16).
  pose proof (Z.div_mod (u / 16) 16). pose proof (Z.mod_pos_bound (u / 16) 16).
  pose proof (Z.div_mod (u / 256) 16). pose proof (Z.mod_pos_bound (u / 256) 16).
  assert (u / 256 = u / 16 / 16) as E1 by (rewrite Z.div_div by lia; done).
  assert (u / 4096 = u / 256 / 16) as E2 by (rewrite Z.div_div by lia; done).
  unfold hex4_val. rewrite !digit_val_char by lia.
  replace (_ + _ + _ + _) with u by lia. done.
Qed.

Lemma scan_units_esc c r :
  valid_char c -> scan_units (esc_char c ++ r) =
  match scan_units r with Some (us, r') => Some (units_of c ++ us, r') | None => None end.
Proof.
  intros [Hr Hs]. unfold esc_char, units_of.
  destruct (Z.eqb_spec c 34) as [->|]; [simpl; by destruct (scan_units r) as [[]|]|].
  destruct (Z.eqb_spec c 92) as [->|]; [simpl; by destruct (scan_units r) as [[]|]|].
  destruct ((32 <=? c) && (c <=? 126)) eqn:E1.
  { cbn [app scan_units]. bool_lia. by destruct (scan_units r) as [[]|]. }
  destruct (Z.eqb_spec c 10) as [->|]; [simpl; by destruct (scan_units r) as [[]|]|].
  destruct (Z.eqb_spec c 13) as [->|]; [simpl; by destruct (scan_units r) as [[]|]|].
  destruct (Z.eqb_spec c 9) as [->|]; [simpl; by destruct (scan_units r) as [[]|]|].
  destruct (Z.eqb_spec c 12) as [->|]; [simpl; by destruct (scan_units r) as [[]|]|].
  destruct (Z.eqb_spec c 8) as [->|]; [simpl; by destruct (scan_units r) as [[]|]|].
  simpl orb. cbv iota.
  destruct (Z.ltb_spec c 65536).
  { rewrite hex4_val_hex4 by lia. by destruct (scan_units r) as [[]|]. }
  pose proof (Z.div_mod (c - 65536) 1024). pose proof (Z.mod_pos_bound (c - 65536) 1024).
  rewrite <- app_assoc, !hex4_val_hex4 by lia. by destruct (scan_units r) as [[]|].
Qed.

Lemma join_units_of c us : valid_char c -> join_units (units_of c ++ us) = c :: join_units us.
Proof.
  intros [Hr Hs]. unfold units_of.
  destruct ((32 <=? c) && (c <=? 126)); [by destruct us as [|[]]|].
  destruct (_ || _); [by destruct us as [|[]]|].
  destruct (Z.ltb_spec c 65536).
  - cbn [app join_units]. destruct us as [|[e v] us]; [done|].
    replace (is_high c) with false; [done|].
    unfold is_surrogate, is_high in *. symmetry. apply andb_false_iff.
    apply andb_false_iff in Hs as [Hs|Hs]; lia.
  - pose proof (Z.div_mod (c - 65536) 1024). pose proof (Z.mod_pos_bound (c - 65536) 1024).
    cbn [app join_units]. unfold is_high, is_low. bool_lia. f_equal. lia.
Qed.

Lemma scan_str_dump t r :
  Forall valid_char t -> scan_str (concat (map esc_char t) ++ 34 :: r) = Some (t, r).
Proof.
  intros H. unfold scan_str.
  replace (scan_units _) with (Some (concat (map units_of t), r)).
  - do 2 f_equal. induction H as [|c t Hc _ IH]; [done|].
    cbn [map concat]. by rewrite join_units_of, IH.
  - induction H as [|c t Hc _ IH]; [done|].
    cbn [map concat]. by rewrite <- app_assoc, scan_units_esc, <- IH.
Qed.

(** What may follow a number: the end of the text or a delimiter. *)
Definition value_end (r : text) : Prop :=
  match r with [] => True | c :: _ => c = 44 \/ c = 93 \/ c = 125 end.

Lemma span_digits_app ds r :
  Forall (fun c => is_digit 10 c = true) ds -> value_end r -> span_digits (ds ++ r) = (ds, r).
Proof.
  intros H Hr. induction H as [|c ds Hc _ IH]; cbn [app span_digits].
  - destruct r as [|c r]; [done|]. by destruct Hr as [->|[->| ->]].
  - by rewrite Hc, IH.
Qed.

Lemma scan_exp_end r : value_end r -> scan_exp r = (None, r).
Proof. destruct r as [|c r]; [done|]. by intros [->|[->| ->]]. Qed.
Lemma scan_frac_end r : value_end r -> scan_frac r = ([], r).
Proof. destruct r as [|c r]; [done|]. by intros [->|[->| ->]]. Qed.

Lemma scan_number_nat n r :
  0 <= n -> value_end r ->
  exists c t, format_nat 10 n ++ r = c :: t /\ 48 <= c <= 57 /\
  scan_number (c :: t) = Some (JInt n, r) /\
  scan_number (45 :: c :: t) = Some (JInt (- n), r).
Proof.
  intros Hn Hr.
  pose proof (parse_format_nat 10 n ltac:(lia) Hn) as Hp.
  pose proof (format_nat_digits 10 n ltac:(lia) Hn) as Hd.
  assert (Forall (fun c => is_digit 10 c = true) (format_nat 10 n)) as Hd'
    by (eapply Forall_impl; [exact Hd|naive_solver]).
  destruct (Z.eq_dec n 0) as [->|Hnz].
  - change (format_nat 10 0) with [48]. exists 48, r. split; [done|]. split; [lia|].
    unfold scan_number, eat. bool_rw. cbn iota beta.
    rewrite scan_frac_end by done. cbn iota beta. by rewrite scan_exp_end.
  - destruct (to_digits_head 10 n) as (d & ds & E & Hpos); [lia..|].
    destruct (to_digits_spec 10 n) as (_ & Hrange & _); [lia..|].
    rewrite E in Hrange. apply Forall_cons in Hrange as [Hd0 _].
    unfold format_nat in *. rewrite E in *. cbn [map app] in *.
    assert (digit_char d = 48 + d) as Ec by (unfold digit_char; by bool_lia).
    exists (digit_char d), (map digit_char ds ++ r). split; [done|]. split; [lia|].
    assert (span_digits (digit_char d :: map digit_char ds ++ r)
            = (digit_char d :: map digit_char ds, r)) as Hspan
      by (rewrite app_comm_cons; by apply span_digits_app).
    unfold scan_number, eat. bool_rw. cbn iota beta.
    rewrite Hspan. cbn iota beta. rewrite scan_frac_end by done. cbn iota beta.
    rewrite scan_exp_end, app_nil_r by done. cbn iota beta. by rewrite Hp.
Qed.

Lemma strip_prefix_hd p c t :
  match p with a :: _ => a <> c | [] => False end -> strip_prefix p (c :: t) = None.
Proof.
  unfold strip_prefix. destruct p as [|a p]; [done|]. intros H. cbn [starts_with].
  by rewrite (proj2 (Z.eqb_neq a c) H).
Qed.

Lemma strip_prefix_snd p c d t :
  match p with _ :: b :: _ => b <> d | _ => False end -> strip_prefix p (c :: d :: t) = None.
Proof.
  unfold strip_prefix. destruct p as [|a [|b p]]; [done..|]. intros H. cbn [starts_with].
  rewrite (proj2 (Z.eqb_neq b d) H). by rewrite andb_false_r.
Qed.

Lemma scan_const_digit c t :
  48 <= c <= 57 -> scan_const (c :: t) = None /\ scan_const (45 :: c :: t) = None.
Proof.
  intros Hc. unfold scan_const. split.
  - by rewrite !strip_prefix_hd by (cbv -[not]; intros <-; lia).
  - by rewrite !strip_prefix_snd by (cbv -[not]; intros <-; lia).
Qed.

Lemma scan_value_int f z r :
  value_end r -> scan_value (S f) (str_of_int z ++ r) = Some (JInt z, r).
Proof.
  intros Hr. unfold str_of_int, format_int.
  destruct (Z.ltb_spec z 0).
  - destruct (scan_number_nat (- z) r) as (c & t & E & Hc & _ & Hn); [lia|done|].
    cbn [app]. rewrite E. cbn [scan_value]. simpl Z.eqb. cbv iota.
    rewrite (proj2 (scan_const_digit c t Hc)), Hn. by rewrite Z.opp_involutive.
  - destruct (scan_number_nat z r) as (c & t & E & Hc & Hn & _); [lia|done|].
    rewrite E. cbn [scan_value]. bool_lia.
    by rewrite (proj1 (scan_const_digit c t Hc)), Hn.
Qed.

Lemma insert_key_map {A B} (g : A -> B) p l :
  insert_key (fst p, g (snd p)) (map (fun p => (fst p, g (snd p))) l) =
  map (fun p => (fst p, g (snd p))) (insert_key p l).
Proof. induction l as [|q l IH]; simpl; [done|]. destruct (text_leb _ _); simpl; congruence. Qed.

Lemma sort_items_map {A B} (g : A -> B) l :
  sort_items (map (fun p => (fst p, g (snd p))) l) =
  map (fun p => (fst p, g (snd p))) (sort_items l).
Proof. induction l as [|p l IH]; simpl; [done|]. by rewrite IH, insert_key_map. Qed.

Lemma insert_key_perm {A} (p : text * A) l : insert_key p l ≡ₚ p :: l.
Proof.
  induction l as [|q l IH]; simpl; [done|]. destruct (text_leb _ _); [done|].
  rewrite IH. apply Permutation_swap.
Qed.
Lemma sort_items_perm {A} (l : list (text * A)) : sort_items l ≡ₚ l.
Proof. induction l as [|p l IH]; simpl; [done|]. by rewrite insert_key_perm, IH. Qed.

Lemma skip_ws_id c t : is_json_ws c = false -> skip_ws (c :: t) = c :: t.
Proof. intros H. unfold skip_ws. simpl. by rewrite H. Qed.

Section RoundTrip.
Context (fr : float -> text) (s : bool) (sp : text) (Hsp : Forall (fun c => c = 32) sp).
Abbreviation dv := (dumps fr s sp).
Abbreviation comma := (44 :: sp).

Lemma skip_space t : skip_ws (sp ++ t) = skip_ws t.
Proof.
  induction sp as [|c l IH]; [done|]. apply Forall_cons in Hsp as [-> H]. cbn [app].
  change (skip_ws (32 :: l ++ t)) with (skip_ws (l ++ t)). by apply IH.
Qed.

Definition reads (v : json) : Prop :=
  forall f r, (2 * length (dv v) <= f)%nat -> value_end r ->
    scan_value f (dv v ++ r) = Some (canon s v, r).

Lemma dumps_head v :
  plain v -> exists c t, dv v = c :: t /\ is_json_ws c = false /\ c <> 93.
Proof.
  intros H. destruct H as [|[]|z|t|l|l]; simpl; try (by do 2 eexists).
  unfold str_of_int, format_int. destruct (Z.ltb_spec z 0); [by do 2 eexists|].
  destruct (scan_number_nat z []) as (c & t & E & Hc & _); [done..|].
  rewrite app_nil_r in E. exists c, t. split; [done|]. split; [|lia].
  unfold is_json_ws. by bool_rw.
Qed.

Lemma scan_elements_dumps l f r :
  l <> [] -> Forall plain l -> Forall reads l ->
  (2 * length (join comma (map dv l)) + 1 <= f)%nat ->
  scan_elements f (join comma (map dv l) ++ 93 :: r) = Some (map (canon s) l, r).
Proof.
  intros Hne Hp Hr. revert f. induction Hr as [|v l Hv Hl IH]; [done|].
  apply Forall_cons in Hp as [Hpv Hp]. intros [|f] Hf; [lia|].
  destruct l as [|w l].
  - cbn [map join scan_elements] in *.
    rewrite Hv by (simpl; auto || lia). done.
  - change (join comma (map dv (v :: w :: l)))
      with (dv v ++ 44 :: sp ++ join comma (map dv (w :: l))) in *.
    rewrite length_app in Hf. cbn [length] in Hf. rewrite length_app in Hf.
    rewrite <- app_assoc. cbn [app]. rewrite <- app_assoc. cbn [scan_elements].
    rewrite Hv by (simpl; auto || lia). cbn [app skip_ws lstrip].
    change (is_json_ws 44) with false. cbn [eat]. change (44 =? 93) with false.
    change (44 =? 44) with true. cbv iota.
    destruct (dumps_head w) as (c & t & Ew & Hc & _).
    { by apply Forall_cons in Hp as [? _]. }
    assert (exists t', join comma (map dv (w :: l)) ++ 93 :: r = c :: t') as [t' Et].
    { destruct l; cbn [map join]; rewrite Ew; eexists; cbn [app]; reflexivity. }
    rewrite Et, skip_space, skip_ws_id, <- Et, IH by (done || lia). done.
Qed.

Definition member (p : text * json) : text := dump_str (fst p) ++ 58 :: sp ++ dv (snd p).
Lemma member_length p : (length (dv (snd p)) + 1 <= length (member p))%nat.
Proof. unfold member. rewrite length_app. cbn [length]. rewrite length_app. lia. Qed.

Lemma scan_members_dumps l f r acc :
  l <> [] -> NoDup (dict_keys acc ++ dict_keys l) ->
  Forall (fun p => Forall valid_char (fst p) /\ plain (snd p)) l ->
  Forall (fun p => reads (snd p)) l ->
  (2 * length (join comma (map member l)) + 1 <= f)%nat ->
  scan_members f (join comma (map member l) ++ 125 :: r) acc =
  Some (acc ++ map (fun p => (fst p, canon s (snd p))) l, r).
Proof.
  intros Hne Hnd Hp Hr. revert f acc Hnd. induction Hr as [|[k v] l Hv Hl IH]; [done|].
  apply Forall_cons in Hp as [[Hk Hpv] Hp]. simpl in Hk, Hpv, Hv.
  intros [|f] acc Hnd Hf; [lia|].
  assert (forall rest, value_end rest -> (2 * length (dv v) <= f)%nat ->
    scan_members (S f) (member (k, v) ++ rest) acc =
    match eat 125 (skip_ws rest), eat 44 (skip_ws rest) with
    | Some r3, _ => Some (dict_set k (canon s v) acc, r3)
    | None, Some r3 => scan_members f (skip_ws r3) (dict_set k (canon s v) acc)
    | None, None => None
    end) as Hstep.
  { intros rest Hrest Hlen. unfold member, dump_str. cbn [fst snd scan_members].
    cbn [app eat]. change (34 =? 34) with true. cbv iota.
    repeat (rewrite <- app_assoc; cbn [app]). rewrite scan_str_dump by done.
    cbn [skip_ws lstrip eat]. change (is_json_ws 58) with false. cbn [eat].
    change (58 =? 58) with true. cbv iota.
    destruct (dumps_head v Hpv) as (c & t & Ec & Hc & _).
    rewrite skip_space, Ec. cbn [app]. rewrite skip_ws_id by done.
    rewrite app_comm_cons, <- Ec, Hv by done. done. }
  assert (k ∉ dict_keys acc) as Hfresh.
  { apply NoDup_app in Hnd as (_ & Hd & _). intros Hin.
    apply (Hd k Hin). simpl. left. }
  rewrite dict_set_keys in Hstep by done.
  destruct l as [|[k2 v2] l].
  - cbn [map join] in *. rewrite Hstep; [done|simpl; auto|].
    pose proof (member_length (k, v)) as Hm. cbn [snd] in Hm. lia.
  - change (join comma (map member ((k, v) :: (k2, v2) :: l)))
      with (member (k, v) ++ 44 :: sp ++ join comma (map member ((k2, v2) :: l))) in *.
    rewrite length_app in Hf. cbn [length] in Hf. rewrite length_app in Hf.
    rewrite <- app_assoc. cbn [app]. rewrite <- app_assoc. rewrite Hstep; [|simpl; auto|].
    2:{ pose proof (member_length (k, v)) as Hm. cbn [snd] in Hm. lia. }
    cbn [skip_ws lstrip]. change (is_json_ws 44) with false. cbn [eat].
    change (44 =? 125) with false. change (44 =? 44) with true. cbv iota.
    assert (exists t', join comma (map member ((k2, v2) :: l)) ++ 125 :: r = 34 :: t') as [t' Et].
    { destruct l; cbn [map join]; unfold member at 1, dump_str; eexists; cbn [app]; reflexivity. }
    rewrite Et, skip_space, skip_ws_id, <- Et by done. rewrite IH.
    + by rewrite <- app_assoc.
    + done.
    + done.
    + unfold dict_keys in *. rewrite map_app, <- app_assoc. done.
    + simpl in *. lia.
Qed.

Lemma reads_plain v : plain v -> reads v.
Proof.
  induction v as [|b|z|x|t|l IH|l IH] using json_nested_ind; intros Hp [|f] r Hf Hr;
    inversion Hp; subst;
    try (exfalso; destruct (dumps_head _ Hp) as (? & ? & E & _); rewrite E in Hf; simpl in Hf; lia).
  - done.
  - by destruct b.
  - by apply scan_value_int.
  - cbn [dumps]. unfold dump_str. cbn [app scan_value]. change (34 =? 34) with true. cbv iota.
    rewrite <- app_assoc. cbn [app]. by rewrite scan_str_dump.
  - cbn [dumps app scan_value] in *. change (91 =? 34) with false. change (91 =? 123) with false.
    change (91 =? 91) with true. cbv iota. rewrite <- app_assoc. cbn [app].
    destruct l as [|v l]; [done|].
    destruct (dumps_head v) as (c & t & Ev & Hc & Hne); [by inversion H0|].
    assert (exists t', join comma (map dv (v :: l)) ++ 93 :: r = c :: t') as [t' Et].
    { destruct l; cbn [map join]; rewrite Ev; eexists; cbn [app]; reflexivity. }
    rewrite Et, skip_ws_id by done. cbn [eat]. rewrite (proj2 (Z.eqb_neq c 93)) by done.
    rewrite <- Et, scan_elements_dumps; [done|done|done| |].
    + eapply Forall_impl; [|intros w Hw; exact Hw].
      apply Forall_forall. intros w Hw. apply (proj1 (Forall_forall _ _) IH); [done|].
      by apply (proj1 (Forall_forall _ _) H0).
    + cbn [length] in Hf. rewrite length_app in Hf. cbn [length] in Hf. lia.
  - cbn [dumps canon app scan_value] in *. change (123 =? 34) with false.
    change (123 =? 123) with true. cbv iota.
    assert (exists l', l' ≡ₚ l /\
      (if s then sort_items (map (fun p => (fst p, dv (snd p))) l)
       else map (fun p => (fst p, dv (snd p))) l) = map (fun p => (fst p, dv (snd p))) l' /\
      (if s then sort_items (map (fun p => (fst p, canon s (snd p))) l)
       else map (fun p => (fst p, canon s (snd p))) l) = map (fun p => (fst p, canon s (snd p))) l')
      as (l' & Hperm & E1 & E2).
    { destruct s; [exists (sort_items l)|by exists l].
      rewrite !sort_items_map. split; [apply sort_items_perm|done]. }
    rewrite E1, E2 in *. rewrite map_map. cbn [fst snd].
    change (map (fun x => dump_str (fst x) ++ 58 :: sp ++ dv (snd x)) l') with (map member l').
    rewrite <- app_assoc. cbn [app].
    destruct l' as [|p l']; [done|].
    assert (exists t', join comma (map member (p :: l')) ++ 125 :: r = 34 :: t') as [t' Et].
    { destruct l'; cbn [map join]; unfold member at 1, dump_str; eexists; cbn [app]; reflexivity. }
    rewrite Et, skip_ws_id by done. cbn [eat]. change (34 =? 125) with false. cbv iota.
    rewrite <- Et, scan_members_dumps; [done|done| | | |].
    + change (NoDup (map fst (p :: l'))). by rewrite (Permutation_map fst Hperm).
    + by rewrite Hperm.
    + rewrite Hperm. apply Forall_forall. intros q Hq.
      apply (proj1 (Forall_forall _ _) IH); [done|].
      by apply (proj1 (Forall_forall _ _) H1).
    + rewrite map_map in Hf. cbn [fst snd] in Hf.
      change (map (fun x => dump_str (fst x) ++ 58 :: sp ++ dv (snd x)) (p :: l'))
        with (map member (p :: l')) in Hf.
      cbn [length] in Hf. rewrite length_app in Hf. cbn [length] in Hf. lia.
Qed.

(** [loads] of the printed text gives the value back, its keys sorted. *)
Lemma loads_text_dumps v : plain v -> loads_text (dv v) = Ok (canon s v).
Proof.
  intros Hp. unfold loads_text.
  destruct (dumps_head v Hp) as (c & t & E & Hc & _).
  rewrite E, skip_ws_id, <- E by done.
  rewrite <- (app_nil_r (dv v)) at 2. rewrite reads_plain; [done|done|lia|done].
Qed.

(** The printed text is printable ASCII. *)
Definition printable (t : text) : Prop := Forall (fun c => 32 <= c <= 126) t.
Lemma printable_space : printable sp.
Proof. eapply Forall_impl; [exact Hsp|]. intros c ->. lia. Qed.

Lemma printable_join sep l :
  printable sep -> Forall printable l -> printable (join sep l).
Proof.
  intros Hs H. induction H as [|x l Hx Hl IH]; [constructor|].
  destruct l; [done|]. cbn [join]. repeat apply Forall_app_2; done.
Qed.

Lemma printable_esc_unit u : 0 <= u < 65536 -> printable (esc_unit u).
Proof.
  intros Hu. unfold esc_unit, hex4. assert (forall d, 0 <= d < 16 -> 32 <= digit_char d <= 126)
    as Hd by (intros d Hd; unfold digit_char; destruct (Z.ltb_spec d 10); lia).
  assert (0 <= u / 4096 < 16) by (split; [apply Z.div_pos|apply Z.div_lt_upper_bound]; lia).
  repeat constructor; try lia; apply Hd; try done; apply Z.mod_pos_bound; lia.
Qed.

Lemma printable_esc_char c : valid_char c -> printable (esc_char c).
Proof.
  intros [Hr Hs]. unfold esc_char.
  repeat match goal with
  | |- printable (if ?b then _ else _) => destruct b eqn:?
  end; try (repeat constructor; lia).
  - apply printable_esc_unit. lia.
  - pose proof (Z.mod_pos_bound (c - 65536) 1024).
    assert (0 <= (c - 65536) / 1024 < 1024)
      by (split; [apply Z.div_pos|apply Z.div_lt_upper_bound]; lia).
    apply Forall_app_2; apply printable_esc_unit; lia.
Qed.

Lemma printable_dump_str t : Forall valid_char t -> printable (dump_str t).
Proof.
  intros H. unfold dump_str. constructor; [lia|]. apply Forall_app_2; [|repeat constructor; lia].
  induction H; simpl; [constructor|]. apply Forall_app_2; [by apply printable_esc_char|done].
Qed.

Lemma printable_int z : printable (str_of_int z).
Proof.
  unfold str_of_int, format_int. destruct (Z.ltb_spec z 0); [constructor; [lia|]|];
    (eapply Forall_impl; [apply format_nat_digits; lia|naive_solver lia]).
Qed.

Lemma printable_dumps v : plain v -> printable (dv v).
Proof.
  induction v as [|b|z|x|t|l IH|l IH] using json_nested_ind; intros Hp;
    inversion Hp as [| | | |? Hl|? Hnd Hl]; subst; cbn [dumps].
  - apply (bool_decide_unpack _). by vm_compute.
  - destruct b; apply (bool_decide_unpack _); by vm_compute.
  - apply printable_int.
  - by apply printable_dump_str.
  - constructor; [lia|]. apply Forall_app_2; [|repeat constructor; lia].
    apply printable_join; [constructor; [lia|apply printable_space]|]. apply Forall_map, Forall_forall.
    intros w Hw. apply (proj1 (Forall_forall _ _) IH); [done|].
    by apply (proj1 (Forall_forall _ _) Hl).
  - constructor; [lia|]. apply Forall_app_2; [|repeat constructor; lia].
    apply printable_join; [constructor; [lia|apply printable_space]|]. apply Forall_map.
    assert (Forall (fun p => printable (dump_str (fst p) ++ 58 :: sp ++ snd p))
              (map (fun p => (fst p, dv (snd p))) l)) as H.
    { apply Forall_map, Forall_forall. intros w Hw. cbn [fst snd].
      destruct (proj1 (Forall_forall _ _) Hl w Hw) as [Hk Hv].
      apply Forall_app_2; [by apply printable_dump_str|]. constructor; [lia|].
      apply Forall_app_2; [apply printable_space|]. by apply (proj1 (Forall_forall _ _) IH). }
    destruct s; [|done]. by rewrite sort_items_perm.
Qed.

Lemma json_decode_printable t : printable t -> json_decode t = Some t.
Proof.
  intros H. assert (utf8_codes true t = Some t) as Hu.
  { induction H as [|c t Hc _ IH]; [done|]. cbn [utf8_codes]. bool_rw. by rewrite IH. }
  unfold json_decode. destruct H as [|a t Ha H]; [done|].
  cbn [starts_with]. bool_rw. cbn [andb].
  destruct H as [|b t Hb H]; [done|]. destruct H as [|c t Hc H]; [by bool_rw|].
  destruct H as [|d t Hd H]; [done|]. by bool_rw.
Qed.

Lemma encode_dumps v : plain v -> utf8_encode (dv v) = Ok (map z2b (dv v)).
Proof.
  intros Hp. apply utf8_encode_ascii, is_ascii_Forall.
  eapply Forall_impl; [by apply printable_dumps|simpl; lia].
Qed.

Lemma loads_dumps v : plain v -> loads (map z2b (dv v)) = Ok (canon s v).
Proof.
  intros Hp. pose proof (printable_dumps v Hp) as Ha. unfold loads, codes.
  rewrite map_b2z_z2b by (eapply Forall_impl; [exact Ha|simpl; lia]).
  by rewrite json_decode_printable, loads_text_dumps.
Qed.
End RoundTrip.
