(* ===== verification/PyNumber.v ===== *)
(** * Numbers in text, and truth

    [int(text)], [float(text)] and [str(float)]: what the configuration code
    reads from the environment and writes into command lines; the truth value
    of decoded JSON. *)

From S2P Require Import Prelude Text PyFloat Json.

(** ** Reading *)

(** The zeros of the decimal digits (category Nd of Unicode 15) beyond ASCII;
    the ten digits follow each other. *)
Definition UNICODE_ZEROS : list Z :=
  [1632; 1776; 1984; 2406; 2534; 2662; 2790; 2918; 3046; 3174; 3302; 3430; 3558; 3664; 3792;
   3872; 4160; 4240; 6112; 6160; 6470; 6608; 6784; 6800; 6992; 7088; 7232; 7248; 42528; 43216;
   43264; 43472; 43504; 43600; 44016; 65296; 66720; 68912; 69734; 69872; 69942; 70096; 70384;
   70736; 70864; 71248; 71360; 71472; 71904; 72016; 72784; 73040; 73120; 73552; 92768; 92864;
   93008; 120782; 120792; 120802; 120812; 120822; 123200; 123632; 124144; 125264; 130032].
(** Digits of any script become ASCII digits before a number is read. *)
Definition ascii_decimal (c : Z) : Z :=
  if c <? 128 then c
  else match List.find (fun z => (z <=? c) && (c <? z + 10)) UNICODE_ZEROS with
       | Some z => 48 + (c - z)
       | None => c
       end.

(** [int(t)] *)
Definition int_of_text (t : text) : res Z := py_int is_str_space (map ascii_decimal t).

Definition to_lower (c : Z) : Z := if (65 <=? c) && (c <=? 90) then c + 32 else c.

(** Underscores are allowed between two digits only. *)
Fixpoint drop_underscores (prev : bool) (t : text) : option text :=
  match t with
  | [] => Some []
  | c :: t' =>
      if c =? 95 then
        match t' with
        | d :: _ => if prev && is_digit 10 d then drop_underscores false t' else None
        | [] => None
        end
      else cons c <$> drop_underscores (is_digit 10 c) t'
  end.

(** The unsigned decimal or special value that [t] spells. *)
Definition unsigned_float (neg : bool) (t : text) : option float :=
  let word := map to_lower t in
  if bool_decide (word = lit "inf") || bool_decide (word = lit "infinity") then Some (S754_infinity neg)
  else if bool_decide (word = lit "nan") then Some S754_nan
  else
    let '(ip, t1) := span_digits t in
    let '(fp, t2) := match eat 46 t1 with Some t' => span_digits t' | None => ([], t1) end in
    let '(ex, t3) := scan_exp t2 in
    match t3, ip ++ fp with
    | [], _ :: _ =>
        n ← parse_digits 10 0 (ip ++ fp);
        Some (float_of_decimal neg n (default 0 ex - zlen fp))
    | _, _ => None
    end.

(** [float(t)] *)
Definition float_of_text (t : text) : res float :=
  let bad := Exn ValueError (lit "could not convert string to float") in
  match drop_underscores false (strip is_str_space (map ascii_decimal t)) with
  | None => Err bad
  | Some t' =>
      of_option (match t' with
                 | 45 :: u => unsigned_float true u
                 | 43 :: u => unsigned_float false u
                 | u => unsigned_float false u
                 end) bad
  end.

(** [x.is_integer()] *)
Definition is_integer (x : float) : bool :=
  match x with
  | S754_zero _ => true
  | S754_finite _ m e => (0 <=? e) || (Z.pos m mod 2 ^ (- e) =? 0)
  | _ => false
  end.

(** ** Writing: the shortest decimal that reads back as the same float *)

(** The position of the decimal point: [10^(k-1) <= n/d < 10^k]. *)
Definition decimal_point (n d : Z) : Z :=
  let k := zlen (to_digits 10 n) - zlen (to_digits 10 d) in
  if (if 0 <=? k then d * 10 ^ k <=? n else d <=? n * 10 ^ (- k)) then k + 1 else k.

(** The [i]-digit decimal next to [n/d] that reads back as [x], if any; of the
    two neighbours the nearer comes first. *)
Definition shortest_at (x : float) (n d k i : Z) : option Z :=
  let e := k - i in
  let '(n, d) := if 0 <=? e then (n, d * 10 ^ e) else (n * 10 ^ (- e), d) in
  let near := round_half_even n d in
  let far := if near =? n / d then near + 1 else n / d in
  List.find (fun c => bool_decide (float_of_decimal false c e = x)) [near; far].
(** Seventeen digits always suffice for binary64. *)
Definition shortest (x : float) (n d : Z) : Z * Z :=
  let k := decimal_point n d in
  let try i := c ← shortest_at x n d k i; Some (c, k - i) in
  default (0, 0) (head (omap try (map Z.of_nat (List.seq 1 17)))).

(** Digits without trailing zeros, and the position of the point. *)
Definition digits_point (c e : Z) : text * Z :=
  let ds := format_nat 10 c in
  (reverse (lstrip (Z.eqb 48) (reverse ds)), zlen ds + e).

Definition zeros (n : Z) : text := replicate (Z.to_nat n) 48.
Definition layout (ds : text) (k : Z) : text :=
  if (-4 <? k) && (k <=? 16) then
    if k <=? 0 then lit "0." ++ zeros (- k) ++ ds
    else if zlen ds <=? k then ds ++ zeros (k - zlen ds) ++ lit ".0"
    else take (Z.to_nat k) ds ++ lit "." ++ drop (Z.to_nat k) ds
  else
    let e := format_nat 10 (Z.abs (k - 1)) in
    take 1 ds ++ (match drop 1 ds with [] => [] | r => 46 :: r end)
    ++ (if k - 1 <? 0 then lit "e-" else lit "e+") ++ zeros (2 - zlen e) ++ e.

(** [str(x)], which is [repr(x)] *)
Definition str_of_float (x : float) : text :=
  match x with
  | S754_zero s => (if s then lit "-" else []) ++ lit "0.0"
  | S754_infinity s => (if s then lit "-" else []) ++ lit "inf"
  | S754_nan => lit "nan"
  | S754_finite s m e =>
      let '(n, d) := if 0 <=? e then (Z.pos m * 2 ^ e, 1) else (Z.pos m, 2 ^ (- e)) in
      let '(c, p) := shortest (S754_finite false m e) n d in
      let '(ds, k) := digits_point c p in
      (if s then lit "-" else []) ++ layout ds k
  end.

Example float_texts :
  map (fun t => str_of_float <$> float_of_text (lit t))
    ["1.0"; " 0.1 "; "1_0.5e1"; "1e22"; "-2.50"; "5.684341886080802e-14"; "0.0001"; "1e-5";
     "123456789012345678"; "1e400"; "2"; ".5"; "5e-324"]%string
  = map (fun t => Ok (lit t))
    ["1.0"; "0.1"; "105.0"; "1e+22"; "-2.5"; "5.684341886080802e-14"; "0.0001"; "1e-05";
     "1.2345678901234568e+17"; "inf"; "2.0"; "0.5"; "5e-324"]%string.
Proof. vm_compute. reflexivity. Qed.
Example bad_float_texts :
  map (fun t => is_ok (float_of_text (lit t))) [""; "1e"; "1__0"; "_1"; "1_"; "1_.5"; "0x1"; "1 2"]%string
  = replicate 8 false.
Proof. vm_compute. reflexivity. Qed.

(** Python truth of a JSON value. *)
Definition truthy (v : json) : bool :=
  match v with
  | JNull => false | JBool b => b | JInt z => negb (z =? 0)
  | JFloat f => negb (SpecFloat.SFeqb f (float_of_int 0))
  | JStr t => negb (bool_decide (t = []))
  | JArr [] | JObj [] => false
  | _ => true
  end.
