(* ===== verification/Sha256.v ===== *)
(** * SHA-256

    [hashlib.sha256(payload).hexdigest()], which [firmware.py] and
    [recording.py] call: FIPS 180-4 on 32-bit words, executable. *)

From S2P Require Import Prelude Text.

Definition w32 (x : Z) : Z := Z.land x 0xffffffff.
Definition rotr (n x : Z) : Z := Z.lor (Z.shiftr x n) (w32 (Z.shiftl x (32 - n))).
Definition xor3 (a b c : Z) : Z := Z.lxor a (Z.lxor b c).

(** The constants of the standard: the first 32 bits of the fractional parts
    of the cube roots of the first 64 primes, and of the square roots of the
    first eight. *)
Fixpoint cbrt_bits (n : nat) (x r : Z) : Z :=
  match n with
  | O => r
  | S n' => let r' := r + 2 ^ Z.of_nat n' in
            cbrt_bits n' x (if r' * r' * r' <=? x then r' else r)
  end.
Definition is_prime (n : Z) : bool :=
  forallb (fun d => negb (n mod Z.of_nat d =? 0)) (seq 2 (Z.to_nat (Z.sqrt n) - 1)).
Definition primes_below (n : nat) : list Z := List.filter is_prime (map Z.of_nat (seq 2 (n - 2))).
Definition K256 : list Z :=
  Eval vm_compute in map (fun p => w32 (cbrt_bits 36 (p * 2 ^ 96) 0)) (primes_below 312).
Definition H256 : list Z :=
  Eval vm_compute in map (fun p => w32 (Z.sqrt (p * 2 ^ 64))) (primes_below 20).

(** Padding to a multiple of 64 bytes: 0x80, zeros, the bit length. *)
Definition sha_pad (m : bytes) : bytes :=
  let n := zlen m in
  m ++ z2b 128 :: replicate (Z.to_nat ((55 - n) mod 64)) (z2b 0) ++ be_bytes 8 (8 * n).

Definition sigma0 x := xor3 (rotr 7 x) (rotr 18 x) (Z.shiftr x 3).
Definition sigma1 x := xor3 (rotr 17 x) (rotr 19 x) (Z.shiftr x 10).
Definition Sigma0 x := xor3 (rotr 2 x) (rotr 13 x) (rotr 22 x).
Definition Sigma1 x := xor3 (rotr 6 x) (rotr 11 x) (rotr 25 x).

(** The schedule, most recent word first. *)
Fixpoint sha_extend (n : nat) (w : list Z) : list Z :=
  match n with
  | O => w
  | S n' =>
      let g i := nth i w 0 in
      sha_extend n' (w32 (sigma1 (g 1%nat) + g 6%nat + sigma0 (g 14%nat) + g 15%nat) :: w)
  end.
Definition sha_schedule (block : bytes) : list Z :=
  reverse (sha_extend 48 (reverse (map be_value (chunks 4 block)))).

Definition sha_round (s : list Z) (kw : Z * Z) : list Z :=
  match s with
  | [a; b; c; d; e; f; g; h] =>
      let ch := Z.lxor (Z.land e f) (Z.land (Z.lxor e 0xffffffff) g) in
      let maj := xor3 (Z.land a b) (Z.land a c) (Z.land b c) in
      let t1 := h + Sigma1 e + ch + fst kw + snd kw in
      let t2 := Sigma0 a + maj in
      [w32 (t1 + t2); a; b; c; w32 (d + t1); e; f; g]
  | _ => s
  end.
Definition sha_block (h : list Z) (block : bytes) : list Z :=
  map (fun p => w32 (fst p + snd p))
    (zip h (foldl sha_round h (zip K256 (sha_schedule block)))).
Definition sha256 (m : bytes) : bytes :=
  concat (map (be_bytes 4) (foldl sha_block H256 (chunks 64 (sha_pad m)))).
Definition sha256_hexdigest (m : bytes) : text := hex_of_bytes (sha256 m).

Example sha256_abc :
  sha256_hexdigest (blit "abc") =
  lit "ba7816bf8f01cfea414140de5dae2223b00361a396177a9cb410ff61f20015ad".
Proof. vm_compute. reflexivity. Qed.
Example sha256_two_blocks :
  sha256_hexdigest (blit "abcdbcdecdefdefgefghfghighijhijkijkljklmklmnlmnomnopnopq") =
  lit "248d6a61d20638b8e5c026930c3e6039a33ce45964ff2167f6ecedd419db06c1".
Proof. vm_compute. reflexivity. Qed.

Lemma sha_round_length s kw : length (sha_round s kw) = length s.
Proof. by destruct s as [|? [|? [|? [|? [|? [|? [|? [|? [|]]]]]]]]]. Qed.

Lemma sha_block_length h b : length (sha_block h b) = length h.
Proof.
  unfold sha_block. rewrite length_map, length_zip_with.
  enough (forall l h, length (foldl sha_round h l) = length h) as E by (rewrite E; lia).
  intros l. induction l as [|x l IH]; intros h'; simpl; [done|].
  by rewrite IH, sha_round_length.
Qed.

Lemma sha256_length m : length (sha256 m) = 32%nat.
Proof.
  unfold sha256.
  assert (forall bs h, length (foldl sha_block h bs) = length h) as E.
  { intros bs. induction bs as [|b bs IH]; intros h; simpl; [done|].
    by rewrite IH, sha_block_length. }
  assert (forall l : list Z, length (concat (map (be_bytes 4) l)) = (4 * length l)%nat) as E2.
  { induction l; cbn [map concat length]; rewrite ?length_app, ?length_be_bytes; lia. }
  by rewrite E2, E.
Qed.
