(* ===== verification/Async.v ===== *)
(** * Coroutines of a cooperative event loop

    [async def] code as a free monad over a heap [St] of shared objects: a
    coroutine reads and writes the heap, makes synchronous calls whose answer
    the outside world chooses ([Call]), suspends on an awaited operation
    ([Await]), starts tasks ([Spawn]), asks for the current task ([Self]) and
    loops ([Iter], one constructor per [while]/[for] so that no loop needs a
    bound).  Only [Await] lets other tasks run.

    [run] executes one coroutine against a handler of the operations, [wp] is
    a rely/guarantee weakest precondition, and [step] the event loop that
    interleaves any number of tasks; [machine_safe] and [run_sound] relate
    them. *)

From S2P Require Import Prelude.

Abbreviation tid := nat.

Section Co.
Context {St E : Type} {resp : E -> Type}.

Inductive co (A : Type) : Type :=
  | Ret (r : res A)
  | Get (k : St -> co A)
  | Put (s : St) (k : co A)
  | Call (o : E) (k : res (resp o) -> co A)
  | Await (o : E) (k : res (resp o) -> co A)
  | Self (k : tid -> co A)
  | Spawn (child : co unit) (k : tid -> co A)
  | Iter (J B : Type) (body : J -> co (J + B)) (i : J) (k : res B -> co A).
#[global] Arguments Ret {A} r.
#[global] Arguments Get {A} k.
#[global] Arguments Put {A} s k.
#[global] Arguments Call {A} o k.
#[global] Arguments Await {A} o k.
#[global] Arguments Self {A} k.
#[global] Arguments Spawn {A} child k.
#[global] Arguments Iter {A} J B body i k.

(** ** Sequencing, exceptions and loops *)

Fixpoint seq {A B} (m : co A) (f : res A -> co B) : co B :=
  match m with
  | Ret r => f r
  | Get k => Get (fun s => seq (k s) f)
  | Put s k => Put s (seq k f)
  | Call o k => Call o (fun r => seq (k r) f)
  | Await o k => Await o (fun r => seq (k r) f)
  | Self k => Self (fun t => seq (k t) f)
  | Spawn c k => Spawn c (fun t => seq (k t) f)
  | Iter J C body i k => Iter J C body i (fun r => seq (k r) f)
  end.

#[global] Instance co_ret : MRet co := fun A a => Ret (Ok a).
#[global] Instance co_bind : MBind co := fun A B f m =>
  seq m (fun r => match r with Ok a => f a | Err e => Ret (Err e) end).

Definition lift {A} (r : res A) : co A := Ret r.
Definition throw {A} (c : exc) (m : text) : co A := Ret (raise c m).
(** [try: m except cs as e: h e] *)
Definition catch {A} (m : co A) (cs : list exc) (h : exn -> co A) : co A :=
  seq m (fun r => match r with
                  | Ok a => Ret (Ok a)
                  | Err e => if existsb (exc_sub (exn_class e)) cs then h e else Ret (Err e)
                  end).
(** [try: m finally: c]: an exception of [c] replaces the outcome of [m]. *)
Definition finally {A} (m : co A) (c : co unit) : co A :=
  seq m (fun r => seq c (fun r' => match r' with Ok _ => Ret r | Err e => Ret (Err e) end)).

(** [async with lock: body], given how the lock is acquired and released. *)
Definition locked {A B} (acquire : co B) (release : St -> St) (body : co A) : co A :=
  seq acquire (fun r => match r with
    | Ok _ => finally body (Get (fun s => Put (release s) (Ret (Ok tt))))
    | Err e => Ret (Err e)
    end).
(** [async with asyncio.timeout(t): m] and [asyncio.wait_for(m, t)]: the
    deadline cancels [m], and that cancellation becomes a [TimeoutError];
    [hit] tells whether the deadline has passed. *)
Definition deadline {A} (hit : co bool) (m : co A) : co A :=
  catch m [CancelledError] (fun e =>
    seq hit (fun h => match h with
      | Ok true => throw TimeoutError []
      | Ok false => Ret (Err e)
      | Err e' => Ret (Err e')
      end)).

Definition gets {A} (f : St -> A) : co A := Get (fun s => Ret (Ok (f s))).
Definition modify (f : St -> St) : co unit := Get (fun s => Put (f s) (Ret (Ok tt))).
Definition call (o : E) : co (resp o) := Call o Ret.
Definition await (o : E) : co (resp o) := Await o Ret.
Definition current_task : co tid := Self (fun t => Ret (Ok t)).
Definition create_task (c : co unit) : co tid := Spawn c (fun t => Ret (Ok t)).
(** [loop body i]: run [body] from [i]; [inl j] goes round, [inr b] leaves. *)
Definition loop {J B} (body : J -> co (J + B)) (i : J) : co B := Iter J B body i Ret.
(** [for x in l: f x] *)
Fixpoint each {X} (f : X -> co unit) (l : list X) : co unit :=
  match l with [] => mret tt | x :: l' => f x ≫= fun _ => each f l' end.
Definition skip : co unit := mret tt.
Definition when (b : bool) (c : co unit) : co unit := if b then c else skip.

(** What a coroutine did, in order. *)
Inductive event := Called (o : E) (r : res (resp o)) | Awaited (o : E) (r : res (resp o)).

(** The continuation of a loop after one round of its body. *)
Definition again {A J B} (body : J -> co (J + B)) (k : res B -> co A)
    (r : res (J + B)) : co A :=
  match r with
  | Ok (inl j) => Iter J B body j k
  | Ok (inr b) => k (Ok b)
  | Err e => k (Err e)
  end.

(** ** Execution against a handler *)

Section Run.
Context {W : Type}.
(** The handler answers calls and awaited operations; during an await it
    may also change the heap, as other tasks do. *)
Record handler := mkHandler {
  h_call : forall o, W -> St -> res (resp o) * W;
  h_await : forall o, W -> St -> res (resp o) * W * St;
  h_self : tid;
  h_spawn : co unit -> W -> tid * W }.
Context (h : handler).

Fixpoint run {A} (fuel : nat) (c : co A) (w : W) (s : St) : option (res A * W * St) :=
  match c with
  | Ret r => Some (r, w, s)
  | Get k => run fuel (k s) w s
  | Put s' k => run fuel k w s'
  | Call o k => let '(r, w') := h_call h o w s in run fuel (k r) w' s
  | Await o k => let '(r, w', s') := h_await h o w s in run fuel (k r) w' s'
  | Self k => run fuel (k (h_self h)) w s
  | Spawn c k => let '(t, w') := h_spawn h c w in run fuel (k t) w' s
  | Iter J B body i k =>
      (fix go (n : nat) (i : J) (w : W) (s : St) : option (res A * W * St) :=
         match n with
         | O => None
         | S n' =>
             match run fuel (body i) w s with
             | None => None
             | Some (Ok (inl j), w', s') => go n' j w' s'
             | Some (Ok (inr b), w', s') => run fuel (k (Ok b)) w' s'
             | Some (Err e, w', s') => run fuel (k (Err e)) w' s'
             end
         end) fuel i w s
  end.

(** Rounds of a loop, with the fuel of one [run] and a bound of their own. *)
Fixpoint rounds {A J B} (fuel n : nat) (body : J -> co (J + B)) (k : res B -> co A)
    (i : J) (w : W) (s : St) : option (res A * W * St) :=
  match n with
  | O => None
  | S n' =>
      match run fuel (body i) w s with
      | None => None
      | Some (Ok (inl j), w', s') => rounds fuel n' body k j w' s'
      | Some (Ok (inr b), w', s') => run fuel (k (Ok b)) w' s'
      | Some (Err e, w', s') => run fuel (k (Err e)) w' s'
      end
  end.

Lemma run_iter {A J B} fuel (body : J -> co (J + B)) i (k : res B -> co A) w s :
  run fuel (Iter J B body i k) w s = rounds fuel fuel body k i w s.
Proof.
  cbn [run].
  enough (forall n i w s, (fix go (n : nat) (i : J) (w : W) (s : St)
      : option (res A * W * St) := _) n i w s = rounds fuel n body k i w s) as H by apply H.
  induction n as [|n IH]; intros i' w' s'; cbn [rounds]; [done|].
  destruct (run fuel (body i') w' s') as [[[[[]|]?]?]|]; auto.
Qed.

Lemma run_seq {A B} fuel (m : co A) (f : res A -> co B) w s :
  run fuel (seq m f) w s =
  match run fuel m w s with Some (r, w', s') => run fuel (f r) w' s' | None => None end.
Proof.
  revert B f w s. induction m as [A r|A k IH|A s' k IH|A o k IH|A o k IH|A k IH|A c _ k IH|
    A J C body _ i k IH]; intros B f w s; cbn [seq]; try (cbn [run]; by auto).
  - cbn [run]. destruct (h_call h o w s). auto.
  - cbn [run]. destruct (h_await h o w s) as [[]]. auto.
  - cbn [run]. destruct (h_spawn h c w). auto.
  - rewrite !run_iter. generalize fuel at 2 4. intros n. revert i w s.
    induction n as [|n IHn]; intros i w s; cbn [rounds]; [done|].
    destruct (run fuel (body i) w s) as [[[[[j|b]|e]w']s']|]; auto.
Qed.

Lemma run_bind {A B} fuel (m : co A) (f : A -> co B) w s :
  run fuel (m ≫= f) w s =
  match run fuel m w s with
  | Some (Ok a, w', s') => run fuel (f a) w' s'
  | Some (Err e, w', s') => Some (Err e, w', s')
  | None => None
  end.
Proof.
  unfold mbind, co_bind. rewrite run_seq. by destruct (run fuel m w s) as [[[[] ?] ?]|].
Qed.
Lemma run_catch {A} fuel (m : co A) cs f w s :
  run fuel (catch m cs f) w s =
  match run fuel m w s with
  | Some (Err e, w', s') => if existsb (exc_sub (exn_class e)) cs then run fuel (f e) w' s'
                            else Some (Err e, w', s')
  | x => x
  end.
Proof.
  unfold catch. rewrite run_seq. destruct (run fuel m w s) as [[[[|e] ?] ?]|]; try done.
  by destruct (existsb _ _).
Qed.
Lemma run_loop {J B} fuel (body : J -> co (J + B)) i w s :
  run fuel (loop body i) w s = rounds fuel fuel body Ret i w s.
Proof. apply run_iter. Qed.
End Run.
#[global] Arguments handler W : clear implicits.
End Co.
#[global] Arguments co St E resp A : clear implicits.
#[global] Arguments event E resp : clear implicits.
#[global] Arguments handler St E resp W : clear implicits.

(** ** The operations a coroutine can perform *)

Section Uses.
Context {St E : Type} {resp : E -> Type}.
Abbreviation C := (co St E resp).

(** All the operations of a coroutine; [deep] includes those of the tasks it
    starts. *)
Fixpoint uses_in (deep : bool) {A} (P : E -> Prop) (c : C A) : Prop :=
  match c with
  | Ret _ => True
  | Get k => forall s, uses_in deep P (k s)
  | Put _ k => uses_in deep P k
  | Call o k | Await o k => P o /\ forall r, uses_in deep P (k r)
  | Self k => forall t, uses_in deep P (k t)
  | Spawn child k => (deep = true -> uses_in deep P child) /\ forall t, uses_in deep P (k t)
  | Iter J B body i k => (forall j, uses_in deep P (body j)) /\ forall r, uses_in deep P (k r)
  end.
Definition operation (e : event E resp) : E := match e with Called o _ | Awaited o _ => o end.

Lemma uses_any {A} deep (c : C A) : uses_in deep (fun _ => True) c.
Proof. induction c; cbn [uses_in]; auto. Qed.
Lemma uses_seq {A B} deep P (m : C A) (f : res A -> C B) :
  uses_in deep P m -> (forall r, uses_in deep P (f r)) -> uses_in deep P (seq m f).
Proof.
  intros Hm Hf. induction m as [A r|A k IH|A s' k IH|A o k IH|A o k IH|A k IH|A c _ k IH|
    A J D body _ i k IH]; cbn [uses_in seq] in *; naive_solver.
Qed.
Lemma uses_bind {A B} deep P (m : C A) (f : A -> C B) :
  uses_in deep P m -> (forall a, uses_in deep P (f a)) -> uses_in deep P (m ≫= f).
Proof. intros Hm Hf. apply uses_seq; [done|]. by intros []. Qed.
Lemma uses_catch {A} deep P (m : C A) cs h :
  uses_in deep P m -> (forall e, uses_in deep P (h e)) -> uses_in deep P (catch m cs h).
Proof. intros Hm Hh. apply uses_seq; [done|]. intros [a|e]; [done|]. by destruct (existsb _ _). Qed.
Lemma uses_finally {A} deep P (m : C A) c :
  uses_in deep P m -> uses_in deep P c -> uses_in deep P (finally m c).
Proof. intros Hm Hc. apply uses_seq; [done|]. intros r. apply uses_seq; [done|]. by intros []. Qed.
Lemma uses_locked {A B} deep P (acquire : C B) release (body : C A) :
  uses_in deep P acquire -> uses_in deep P body -> uses_in deep P (locked acquire release body).
Proof. intros Ha Hb. apply uses_seq; [done|]. intros [b|e]; [|done]. by apply uses_finally. Qed.
Lemma uses_deadline {A} deep P hit (m : C A) :
  uses_in deep P hit -> uses_in deep P m -> uses_in deep P (deadline hit m).
Proof. intros Hh Hm. apply uses_catch; [done|]. intros e. apply uses_seq; [done|]. by intros [[]|]. Qed.
Lemma uses_create deep P (c : C unit) :
  (deep = true -> uses_in deep P c) -> uses_in deep P (create_task c).
Proof. by split. Qed.
Lemma uses_loop {J B} deep P (body : J -> C (J + B)) i :
  (forall j, uses_in deep P (body j)) -> uses_in deep P (loop body i).
Proof. intros Hb. by split. Qed.
Lemma uses_each {X} deep P (f : X -> C unit) l :
  (forall x, uses_in deep P (f x)) -> uses_in deep P (each f l).
Proof. intros Hf. induction l as [|x l IH]; [done|]. by apply uses_bind. Qed.
Lemma uses_when deep P b (c : C unit) : uses_in deep P c -> uses_in deep P (when b c).
Proof. by destruct b. Qed.
End Uses.
(** The operations of the coroutine itself. *)
Abbreviation uses := (uses_in false).

Create HintDb uses.
(** Descends through the combinators; what an operation must satisfy is left
    when it is not immediate. *)
Ltac uses_tac :=
  repeat (intros; first
    [ solve [eauto with uses]
    | lazymatch goal with
      | |- uses_in _ _ (_ ≫= _) => apply uses_bind
      | |- uses_in _ _ (locked _ _ _) => apply uses_locked
      | |- uses_in _ _ (loop _ _) => apply uses_loop
      | |- uses_in _ _ (each _ _) => apply uses_each
      | |- uses_in _ _ (when _ _) => apply uses_when
      | |- uses_in _ _ (catch _ _ _) => apply uses_catch
      | |- uses_in _ _ (finally _ _) => apply uses_finally
      | |- uses_in _ _ (deadline _ _) => apply uses_deadline
      | |- uses_in _ _ (seq _ _) => apply uses_seq
      | |- uses_in false _ (create_task _) => by apply uses_create
      | |- uses_in true _ (create_task _) => apply uses_create
      | |- uses_in _ _ (match ?x with _ => _ end) => destruct x
      | |- uses_in _ _ _ =>
          first [ exact I | intros ?; exact I
                | split; [try (reflexivity || exact I)|intros; exact I] ]
      end ]).

(** ** Weakest preconditions under interference *)

Section Wp.
Context {St E : Type} {resp : E -> Type}.
(** What a call may answer, and how an awaited operation of a task may
    complete (the event loop's own effect on the heap included). *)
Context (replies : St -> forall o, res (resp o) -> Prop).
Context (answers : St -> tid -> forall o, res (resp o) -> St -> Prop).
(** The invariant of every suspension point and what a task may rely on
    while it is suspended. *)
Context (Inv : St -> Prop) (R : tid -> St -> St -> Prop).

Abbreviation C := (co St E resp).
Abbreviation T := (list (event E resp)).

Fixpoint wp {A} (self : tid) (c : C A) (Q : T -> res A -> St -> Prop) (tr : T) (s : St) : Prop :=
  match c with
  | Ret r => Q tr r s
  | Get k => wp self (k s) Q tr s
  | Put s' k => (forall t, t <> self -> R t s s') /\ wp self k Q tr s'
  | Call o k => forall r, replies s o r -> wp self (k r) Q (tr ++ [Called o r]) s
  | Await o k => Inv s /\ forall r s1 s', R self s s1 -> Inv s1 -> answers s1 self o r s' ->
                   wp self (k r) Q (tr ++ [Awaited o r]) s'
  | Self k => wp self (k self) Q tr s
  | Spawn c k => (forall t s1, Inv s1 -> wp t c (fun _ _ => Inv) [] s1) /\
                 forall t, t <> self -> wp self (k t) Q tr s
  | Iter J B body i k =>
      exists L : J -> T -> St -> Prop, L i tr s /\ forall j tr s, L j tr s ->
        wp self (body j) (fun tr' r s' =>
          match r with
          | Ok (inl j') => L j' tr' s'
          | Ok (inr b) => wp self (k (Ok b)) Q tr' s'
          | Err e => wp self (k (Err e)) Q tr' s'
          end) tr s
  end.

Lemma wp_mono {A} self (c : C A) (Q Q' : T -> res A -> St -> Prop) tr s :
  (forall tr r s, Q tr r s -> Q' tr r s) -> wp self c Q tr s -> wp self c Q' tr s.
Proof.
  revert Q Q' tr s. induction c as [A r|A k IH|A s' k IH|A o k IH|A o k IH|A k IH|A c _ k IH|
    A J B body IHb i k IH]; intros Q Q' tr s HQ H; cbn [wp] in *; eauto.
  - destruct H as [HR H]. eauto.
  - destruct H as [HI H]. eauto.
  - destruct H as [Hc H]. eauto.
  - destruct H as (L & Hi & H). exists L. split; [done|]. intros j tr' s' Hj.
  eapply IHb; [|exact (H _ _ _ Hj)]. intros tr1 [[j'|b]|e] s1 H1; try done; by eapply IH.
Qed.

Lemma wp_seq {A B} self (m : C A) (f : res A -> C B) Q tr s :
  wp self m (fun tr' r s' => wp self (f r) Q tr' s') tr s -> wp self (seq m f) Q tr s.
Proof.
  revert Q tr s. induction m as [A r|A k IH|A s' k IH|A o k IH|A o k IH|A k IH|A c _ k IH|
    A J D body _ i k IH]; intros Q tr s H; cbn [wp seq] in *; auto.
  - destruct H as [HR H]. auto.
  - destruct H as [HI H]. eauto.
  - destruct H as [Hc H]. auto.
  - destruct H as (L & Hi & H). exists L. split; [done|]. intros j tr' s' Hj.
  eapply wp_mono; [|exact (H _ _ _ Hj)]. intros tr1 [[j'|b]|e] s1 H1; auto.
Qed.

Lemma wp_and {A} self (c : C A) (Q1 Q2 : T -> res A -> St -> Prop) tr s :
  wp self c Q1 tr s -> wp self c Q2 tr s -> wp self c (fun tr r s => Q1 tr r s /\ Q2 tr r s) tr s.
Proof.
  revert Q1 Q2 tr s. induction c as [A r|A k IH|A s' k IH|A o k IH|A o k IH|A k IH|A c _ k IH|
    A J B body IHb i k IH]; intros Q1 Q2 tr s H1 H2; cbn [wp] in *; try (by auto).
  - destruct H1 as [HR H1], H2 as [_ H2]. auto.
  - destruct H1 as [HI H1], H2 as [_ H2]. split; [done|]. intros. by apply IH; [eapply H1|eapply H2].
  - destruct H1 as [Hc H1], H2 as [_ H2]. auto.
  - destruct H1 as (L1 & Hi1 & H1), H2 as (L2 & Hi2 & H2). exists (fun j tr s => L1 j tr s /\ L2 j tr s).
    split; [done|]. intros j tr' s' [Hj1 Hj2]. eapply wp_mono; [|exact (IHb j _ _ _ _ (H1 _ _ _ Hj1) (H2 _ _ _ Hj2))].
    intros tr1 [[j'|b]|e] s1 [Hq1 Hq2]; auto.
Qed.
(** Without an invariant to keep every postcondition that always holds is
    reached. *)
Lemma wp_trivial {A} self (c : C A) Q tr s :
  (forall s, Inv s) -> (forall t s s', R t s s') -> (forall tr r s, Q tr r s) ->
  wp self c Q tr s.
Proof.
  intros HI HR. revert self Q tr s. induction c as [A r|A k IH|A s' k IH|A o k IH|A o k IH|A k IH|
    A c IHc k IH|A J B body IHb i k IH]; intros self Q tr s HQ; cbn [wp]; auto.
  exists (fun _ _ _ => True). split; [done|]. intros j tr' s' _. apply IHb.
  intros tr1 [[j'|b]|e] s1; auto.
Qed.

(** Whatever every step of the task and of its environment respects holds
    from the start of a coroutine to its end. *)
Lemma wp_rel (G : relation St) {Gpre : PreOrder G} {A} self (c : C A) Q tr s0 s :
  (forall t s s', R t s s' -> G s s') ->
  (forall s t o r s', Inv s -> answers s t o r s' -> G s s') ->
  G s0 s -> wp self c Q tr s -> wp self c (fun tr' r s' => Q tr' r s' /\ G s0 s') tr s.
Proof.
  intros HR HA. revert Q tr s. induction c as [A r|A k IH|A s' k IH|A o k IH|A o k IH|A k IH|A c _ k IH|
    A J B body IHb i k IH]; intros Q tr s H0 H; cbn [wp] in *; auto.
  - destruct H as [Hr H]. split; [done|]. apply IH; [|done]. etrans; [exact H0|].
    eapply HR, (Hr (S self)). lia.
  - destruct H as [HI H]. split; [done|]. intros r s1 s' H1 H2 H3. apply IH; [|by eapply H].
    etrans; [exact H0|]. etrans; [by eapply HR|]. by eapply HA.
  - destruct H as [Hc H]. split; [done|]. intros t Ht. by apply IH, H.
  - destruct H as (L & Hi & H). exists (fun j tr s => L j tr s /\ G s0 s). split; [done|].
    intros j tr' s' [Hj Hg]. eapply wp_mono; [|apply (IHb j _ _ _ Hg (H _ _ _ Hj))].
    intros tr1 [[j'|b]|e] s1 [H1 H2]; [done| |]; by apply IH.
Qed.

Lemma wp_uses {A} P self (c : C A) Q tr s :
  uses P c -> wp self c Q tr s ->
  wp self c (fun tr' r s' => Q tr' r s' /\
    exists l, tr' = tr ++ l /\ Forall (fun e => P (operation e)) l) tr s.
Proof.
  intros HP H. enough (forall tr0, (exists l, tr = tr0 ++ l /\ Forall (fun e => P (operation e)) l) ->
    wp self c (fun tr' r s' => Q tr' r s' /\
      exists l, tr' = tr0 ++ l /\ Forall (fun e => P (operation e)) l) tr s) as Hg.
  { apply Hg. exists []. by rewrite app_nil_r. }
  revert Q tr s HP H. induction c as [A r|A k IH|A s' k IH|A o k IH|A o k IH|A k IH|A c _ k IH|
    A J B body IHb i k IH]; intros Q tr s HP H tr0 H0; cbn [wp uses_in] in *; auto.
  - destruct H as [HR H]. split; [done|]. by apply IH.
  - destruct HP as [Ho HP]. intros r Hr. apply IH; [auto|auto|].
    destruct H0 as (l & -> & Hl). exists (l ++ [Called o r]). rewrite app_assoc. split; [done|].
    apply Forall_app. by split; [|constructor].
  - destruct HP as [Ho HP], H as [HI H]. split; [done|]. intros r s1 s' H1 H2 H3.
    apply IH; [auto|by eapply H|].
    destruct H0 as (l & -> & Hl). exists (l ++ [Awaited o r]). rewrite app_assoc. split; [done|].
    apply Forall_app. by split; [|constructor].
  - destruct H as [Hc H]. split; [done|]. destruct HP as [_ HP].
    intros t Ht. apply IH; auto.
  - destruct HP as [Hb Hk], H as (L & Hi & H).
    exists (fun j tr s => L j tr s /\ exists l, tr = tr0 ++ l /\ Forall (fun e => P (operation e)) l).
    split; [done|]. intros j tr' s' [Hj Hl].
    eapply wp_mono; [|apply (IHb j _ _ _ (Hb j) (H _ _ _ Hj) tr0 Hl)].
    intros tr1 [[j'|b]|e] s1 [H1 H2]; [done| |]; by apply IH.
Qed.

(** Every value that a coroutine can return satisfies [P]. *)
Fixpoint yields {A} (P : A -> Prop) (c : C A) : Prop :=
  match c with
  | Ret r => forall a, r = Ok a -> P a
  | Get k => forall s, yields P (k s)
  | Put _ k => yields P k
  | Call _ k | Await _ k => forall r, yields P (k r)
  | Self k | Spawn _ k => forall t, yields P (k t)
  | Iter J B body _ k => exists PB : B -> Prop,
      (forall j, yields (fun x => match x with inl _ => True | inr b => PB b end) (body j)) /\
      forall r, (forall b, r = Ok b -> PB b) -> yields P (k r)
  end.
Lemma yields_seq {A B} (P : A -> Prop) (Q : B -> Prop) (m : C A) (f : res A -> C B) : yields P m ->
  (forall r, (forall a, r = Ok a -> P a) -> yields Q (f r)) -> yields Q (seq m f).
Proof.
  revert P B Q f. induction m as [A r|A k IH|A s' k IH|A o k IH|A o k IH|A k IH|A c _ k IH|
    A J D body _ i k IH]; intros P B Q f Hm Hf; cbn [yields seq] in *; eauto.
  destruct Hm as (PB & Hb & Hk). exists PB. eauto.
Qed.
Lemma yields_all {A} (P : A -> Prop) (m : C A) : (forall a, P a) -> yields P m.
Proof.
  intros HP. induction m as [| | | | | | |A J B body IHb i k IH]; cbn [yields]; auto.
  exists (fun _ => True). split; [|auto]. intros j. apply IHb. by intros [].
Qed.
Lemma yields_mono {A} (P Q : A -> Prop) (m : C A) : (forall a, P a -> Q a) -> yields P m -> yields Q m.
Proof.
  intros HPQ. induction m as [| | | | | | |A J B body IHb i k IH]; cbn [yields]; [eauto..|].
  intros (PB & Hb & Hk). exists PB. eauto.
Qed.
Lemma yields_any {A} (m : C A) : yields (fun _ => True) m.
Proof. by apply yields_all. Qed.
Lemma yields_loop {J B} (P : B -> Prop) (body : J -> C (J + B)) i :
  (forall j, yields (fun x => match x with inl _ => True | inr b => P b end) (body j)) -> yields P (loop body i).
Proof. intros Hb. exists P. split; [done|]. intros r Hr. exact Hr. Qed.
Lemma yields_bind {A B} (P : A -> Prop) (Q : B -> Prop) (m : C A) (f : A -> C B) : yields P m ->
  (forall a, P a -> yields Q (f a)) -> yields Q (m ≫= f).
Proof. intros Hm Hf. apply (yields_seq P); [done|]. intros [a|e] H; [by apply Hf, H|by intros b]. Qed.
Lemma yields_locked {A B} (P : A -> Prop) (acquire : C B) release body :
  yields P body -> yields P (locked acquire release body).
Proof.
  intros Hb. apply (yields_seq (fun _ => True)); [apply yields_any|]. intros [b|e] _; [|by intros a].
  apply (yields_seq P); [done|]. intros r Hr s. exact Hr.
Qed.
Lemma wp_yields {A} (P : A -> Prop) self (c : C A) Q tr s : yields P c -> wp self c Q tr s ->
  wp self c (fun tr' r s' => Q tr' r s' /\ forall a, r = Ok a -> P a) tr s.
Proof.
  revert Q tr s. induction c as [A r|A k IH|A s' k IH|A o k IH|A o k IH|A k IH|A c _ k IH|
    A J B body IHb i k IH]; intros Q tr s HP H; cbn [wp yields] in *; auto.
  - destruct H as [HR H]. split; [done|]. auto.
  - destruct H as [HI H]. split; [done|]. intros r s1 s' H1 H2 H3. apply IH; [done|by eapply H].
  - destruct H as [Hc H]. split; [done|]. auto.
  - destruct H as (L & Hi & H), HP as (PB & Hb & HP). exists L. split; [done|]. intros j tr' s' Hj.
    eapply wp_mono; [|apply (IHb j _ _ _ _ (Hb j) (H _ _ _ Hj))].
    intros tr1 [[j'|b]|e] s1 [H1 H2]; [done| |]; apply IH; [|done| |done].
    + apply HP. intros b' [= <-]. by apply (H2 (inr b)).
    + by apply HP.
Qed.

(** Rules for the combinators. *)
Lemma wp_bind {A B} self (m : C A) (f : A -> C B) Q tr s :
  wp self m (fun tr' r s' => match r with
                             | Ok a => wp self (f a) Q tr' s'
                             | Err e => Q tr' (Err e) s'
                             end) tr s ->
  wp self (m ≫= f) Q tr s.
Proof.
  intros H. apply wp_seq. eapply wp_mono; [|exact H]. by intros ? [|] ? ?.
Qed.

Lemma wp_catch {A} self (m : C A) cs h Q tr s :
  wp self m (fun tr' r s' => match r with
                             | Ok a => Q tr' (Ok a) s'
                             | Err e => if existsb (exc_sub (exn_class e)) cs
                                        then wp self (h e) Q tr' s' else Q tr' (Err e) s'
                             end) tr s ->
  wp self (catch m cs h) Q tr s.
Proof.
  intros H. apply wp_seq. eapply wp_mono; [|exact H]. intros ? [|e] ? ?; [done|].
  by destruct (existsb _ _).
Qed.

Lemma wp_finally {A} self (m : C A) c Q tr s :
  wp self m (fun tr' r s' => wp self c (fun tr'' r' s'' =>
    Q tr'' (match r' with Ok _ => r | Err e => Err e end) s'') tr' s') tr s ->
  wp self (finally m c) Q tr s.
Proof.
  intros H. apply wp_seq. eapply wp_mono; [|exact H]. intros ? r ? H'. apply wp_seq.
  eapply wp_mono; [|exact H']. by intros ? [|] ? ?.
Qed.

Lemma wp_locked {A B} self (acquire : C B) release (body : C A) Q tr s :
  wp self acquire (fun tr1 r s1 => match r with
    | Ok _ => wp self body (fun tr2 r2 s2 =>
        (forall t, t <> self -> R t s2 (release s2)) /\ Q tr2 r2 (release s2)) tr1 s1
    | Err e => Q tr1 (Err e) s1
    end) tr s ->
  wp self (locked acquire release body) Q tr s.
Proof.
  intros H. apply wp_seq. eapply wp_mono; [|exact H]. intros tr1 [b|e] s1 H1; [|done].
  apply wp_finally. eapply wp_mono; [|exact H1]. by intros tr2 r2 s2 [HR HQ].
Qed.
Lemma wp_deadline {A} self hit (m : C A) Q tr s :
  wp self m (fun tr1 r s1 => match r with
    | Ok a => Q tr1 (Ok a) s1
    | Err e => if exc_sub (exn_class e) CancelledError
               then wp self hit (fun tr2 h s2 => match h with
                      | Ok true => Q tr2 (raise TimeoutError []) s2
                      | Ok false => Q tr2 (Err e) s2
                      | Err e' => Q tr2 (Err e') s2
                      end) tr1 s1
               else Q tr1 (Err e) s1
    end) tr s ->
  wp self (deadline hit m) Q tr s.
Proof.
  intros H. apply wp_catch. eapply wp_mono; [|exact H]. intros tr1 [a|e] s1 H1; [done|].
  cbn [existsb]. destruct (exc_sub _ _); [|done]. cbn [orb]. apply wp_seq.
  eapply wp_mono; [|exact H1]. by intros tr2 [[]|] s2 H2.
Qed.

Lemma wp_gets {A} self (f : St -> A) Q tr s : Q tr (Ok (f s)) s -> wp self (gets f) Q tr s.
Proof. done. Qed.
Lemma wp_modify self f Q tr s :
  (forall t, t <> self -> R t s (f s)) -> Q tr (Ok tt) (f s) -> wp self (modify f) Q tr s.
Proof. done. Qed.
Lemma wp_call self o Q tr s :
  (forall r, replies s o r -> Q (tr ++ [Called o r]) r s) -> wp self (call o) Q tr s.
Proof. done. Qed.
Lemma wp_await self o Q tr s :
  Inv s -> (forall r s1 s', R self s s1 -> Inv s1 -> answers s1 self o r s' ->
              Q (tr ++ [Awaited o r]) r s') -> wp self (await o) Q tr s.
Proof. done. Qed.
Lemma wp_ret {A} self (r : res A) (Q : T -> res A -> St -> Prop) tr s :
  Q tr r s -> wp self (lift r) Q tr s.
Proof. done. Qed.
Lemma wp_skip self (Q : T -> res unit -> St -> Prop) tr s : Q tr (Ok tt) s -> wp self skip Q tr s.
Proof. done. Qed.
Lemma wp_current_task self Q tr s : Q tr (Ok self) s -> wp self current_task Q tr s.
Proof. done. Qed.
Lemma wp_create_task self c Q tr s :
  (forall t s1, Inv s1 -> wp t c (fun _ _ => Inv) [] s1) ->
  (forall t, t <> self -> Q tr (Ok t) s) -> wp self (create_task c) Q tr s.
Proof. done. Qed.
Lemma wp_loop {J B} (L : J -> T -> St -> Prop) self (body : J -> C (J + B)) i Q tr s :
  L i tr s ->
  (forall j tr s, L j tr s -> wp self (body j) (fun tr' r s' =>
     match r with
     | Ok (inl j') => L j' tr' s' | Ok (inr b) => Q tr' (Ok b) s' | Err e => Q tr' (Err e) s'
     end) tr s) ->
  wp self (loop body i) Q tr s.
Proof. intros Hi H. exists L. split; [done|]. exact H. Qed.
Lemma wp_each {X} (L : list X -> T -> St -> Prop) self (f : X -> C unit) l
    (Q : T -> res unit -> St -> Prop) tr s :
  L l tr s -> (forall tr s, L [] tr s -> Q tr (Ok tt) s) ->
  (forall x l tr s, L (x :: l) tr s -> wp self (f x) (fun tr' r s' =>
     match r with Ok _ => L l tr' s' | Err e => Q tr' (Err e) s' end) tr s) ->
  wp self (each f l) Q tr s.
Proof.
  intros Hl H0 H. revert tr s Hl. induction l as [|x l IH]; intros tr s Hl; [by apply H0|].
  cbn [each]. apply wp_bind. eapply wp_mono; [|apply (H _ _ _ _ Hl)].
  intros tr' [|] s' H'; [by apply IH|done].
Qed.
Lemma wp_when self b c (Q : T -> res unit -> St -> Prop) tr s :
  (b = true -> wp self c Q tr s) -> (b = false -> Q tr (Ok tt) s) -> wp self (when b c) Q tr s.
Proof. destruct b; intros H1 H2; [by apply H1|by apply H2]. Qed.

(** *** A run against a handler that respects the environment *)

Context {Rpre : forall t, PreOrder (R t)}.

Definition respects {W} (h : handler St E resp W) : Prop :=
  (forall o w s, replies s o (fst (h_call h o w s))) /\
  (forall o w s, Inv s -> exists s1, R (h_self h) s s1 /\ Inv s1 /\
     answers s1 (h_self h) o (fst (fst (h_await h o w s))) (snd (h_await h o w s))) /\
  (forall c w, fst (h_spawn h c w) <> h_self h).

Lemma run_sound {W} (h : handler St E resp W) {A} fuel (c : C A) Q tr w s r w' s' :
  respects h -> wp (h_self h) c Q tr s -> run h fuel c w s = Some (r, w', s') ->
  exists tr', Q tr' r s'.
Proof.
  intros (Hc & Ha & Hs). revert Q tr w s r w' s'.
  induction c as [A r0|A k IH|A s0 k IH|A o k IH|A o k IH|A k IH|A c _ k IH|
    A J B body IHb i k IH]; intros Q tr w s r w' s' H Hr; cbn [wp] in H.
  - injection Hr as <- <- <-. eauto.
  - eapply IH; [exact H|exact Hr].
  - destruct H as [_ H]. eapply IH; [exact H|exact Hr].
  - cbn [run] in Hr. specialize (Hc o w s). destruct (h_call h o w s) as [r1 w1]. eapply IH; eauto.
  - cbn [run] in Hr. destruct H as [HI H]. destruct (Ha o w s HI) as (s1 & H1 & H2 & H3).
    destruct (h_await h o w s) as [[r1 w1] s2]. eapply IH; eauto.
  - eapply IH; [exact H|exact Hr].
  - cbn [run] in Hr. destruct H as [_ H]. specialize (Hs c w).
    destruct (h_spawn h c w). eapply IH; eauto.
  - rewrite run_iter in Hr. destruct H as (L & Hi & H). revert i tr w s Hi Hr.
    generalize fuel at 2. intros n. induction n as [|n IHn]; intros i tr w s Hi Hr; [done|].
    cbn [rounds] in Hr. destruct (run h fuel (body i) w s) as [[[r1 w1] s1]|] eqn:Er; [|done].
    destruct (IHb _ _ _ _ _ _ _ _ (H _ _ _ Hi) Er) as [tr1 H1].
    destruct r1 as [[j|b]|e]; eauto.
Qed.

(** ** The event loop *)

Inductive task := Fresh (c : C unit) | Suspended (o : E) (k : res (resp o) -> C unit).
Record config := Config { heap : St; running : option (tid * C unit); pool : gmap tid task }.
(** Requests and timers start these coroutines at any time. *)
Context (entry : C unit -> Prop).

Inductive step : config -> config -> Prop :=
  | StepGet t k s p : step (Config s (Some (t, Get k)) p) (Config s (Some (t, k s)) p)
  | StepPut t s' k s p : step (Config s (Some (t, Put s' k)) p) (Config s' (Some (t, k)) p)
  | StepCall t o k r s p : replies s o r ->
      step (Config s (Some (t, Call o k)) p) (Config s (Some (t, k r)) p)
  | StepSelf t k s p : step (Config s (Some (t, Self k)) p) (Config s (Some (t, k t)) p)
  | StepSpawn t t' c k s p : t' <> t -> p !! t' = None ->
      step (Config s (Some (t, Spawn c k)) p) (Config s (Some (t, k t')) (<[t' := Fresh c]> p))
  | StepIter t J B body i k s p :
      step (Config s (Some (t, Iter J B body i k)) p)
           (Config s (Some (t, seq (body i) (again body k))) p)
  | StepAwait t o k s p :
      step (Config s (Some (t, Await o k)) p) (Config s None (<[t := Suspended o k]> p))
  | StepRet t r s p : step (Config s (Some (t, Ret r)) p) (Config s None p)
  | StepResume t o k r s s' p : p !! t = Some (Suspended o k) -> answers s t o r s' ->
      step (Config s None p) (Config s' (Some (t, k r)) (delete t p))
  | StepStart t c s p : p !! t = Some (Fresh c) ->
      step (Config s None p) (Config s (Some (t, c)) (delete t p))
  | StepAbandon t c s p : p !! t = Some (Fresh c) ->
      step (Config s None p) (Config s None (delete t p))
  | StepEntry t c s p : entry c -> p !! t = None ->
      step (Config s None p) (Config s None (<[t := Fresh c]> p)).

Definition safe (c : C unit) : Prop :=
  forall t s, Inv s -> wp t c (fun _ _ => Inv) [] s.
Definition task_ok (t : tid) (k : task) (s : St) : Prop :=
  match k with
  | Fresh c => forall s1, Inv s1 -> wp t c (fun _ _ => Inv) [] s1
  | Suspended o k => forall r s1 s', R t s s1 -> Inv s1 -> answers s1 t o r s' ->
      exists tr, wp t (k r) (fun _ _ => Inv) tr s'
  end.
Definition config_ok (c : config) : Prop :=
  (forall t k, pool c !! t = Some k -> task_ok t k (heap c)) /\
  match running c with
  | None => Inv (heap c)
  | Some (t, m) => pool c !! t = None /\ exists tr, wp t m (fun _ _ => Inv) tr (heap c)
  end.

Lemma task_ok_rely t k s s' : R t s s' -> task_ok t k s -> task_ok t k s'.
Proof.
  intros HR. destruct k as [c|o k]; [done|]. intros H r s1 s2 H1. apply H. by transitivity s'.
Qed.

Hypothesis entry_safe : forall c, entry c -> safe c.
Hypothesis answers_ok : forall s t o r s', Inv s -> answers s t o r s' ->
  forall t', t' <> t -> R t' s s'.

Lemma step_ok c c' : step c c' -> config_ok c -> config_ok c'.
Proof.
  intros Hst. unfold config_ok.
  destruct Hst; cbn [heap running pool];
    (intros [Hp Hr]; try destruct Hr as (Hn & tr & Hr)); cbn [wp] in *.
  1,3,4: split; [done|]; split; [done|]; eauto.
  - destruct Hr as [HR Hr]. split; [|eauto]. intros t' k' Hk. eapply task_ok_rely; [|by apply Hp].
    apply HR. congruence.
  - destruct Hr as [Hc Hr]. split; [|split; [by rewrite lookup_insert_ne|eauto]].
    intros t1 k1. destruct (decide (t1 = t')) as [->|].
    + rewrite lookup_insert_eq. intros [= <-] s1 H1. by apply Hc.
    + rewrite lookup_insert_ne by done. apply Hp.
  - split; [done|]. split; [done|]. exists tr. apply wp_seq. destruct Hr as (L & Hi & H).
    eapply wp_mono; [|exact (H _ _ _ Hi)]. intros tr1 [[j|b]|e] s1 H1; cbn [again]; try done.
    exists L. auto.
  - destruct Hr as [HI Hr]. split; [|done]. intros t1 k1. destruct (decide (t1 = t)) as [->|].
    + rewrite lookup_insert_eq. intros [= <-] r s1 s' ???. eexists. by eapply Hr.
    + rewrite lookup_insert_ne by done. apply Hp.
  - done.
  - split.
    + intros t1 k1 [Hne Hk]%lookup_delete_Some. eapply task_ok_rely; [|by apply Hp].
      eapply answers_ok; eauto.
    + split; [by rewrite lookup_delete_eq|].
      eapply (Hp _ _ H); eauto. reflexivity.
  - split; [|split; [by rewrite lookup_delete_eq|]].
    + intros t1 k1 [Hne Hk]%lookup_delete_Some. by apply Hp.
    + exists []. exact (Hp _ _ H s Hr).
  - split; [|done]. intros t1 k1 [Hne Hk]%lookup_delete_Some. by apply Hp.
  - split; [|done]. intros t1 k1. destruct (decide (t1 = t)) as [->|].
    + rewrite lookup_insert_eq. intros [= <-] s1 H1. by apply entry_safe.
    + rewrite lookup_insert_ne by done. apply Hp.
Qed.

(** What every observer may rely on holds along every execution. *)
Lemma step_mono (G : relation St) {Gpre : PreOrder G} c c' :
  (forall t s s', R t s s' -> G s s') -> step c c' -> config_ok c -> G (heap c) (heap c').
Proof.
  intros HG Hst [Hp Hr].
  destruct Hst; cbn [heap running pool] in *; try reflexivity.
  - destruct Hr as (_ & tr & Hr). eapply HG, (proj1 Hr (S t)). lia.
  - eapply HG, (answers_ok _ _ _ _ _ Hr H0 (S t)). lia.
Qed.

Lemma reachable_ok s0 c : Inv s0 -> rtc step (Config s0 None ∅) c -> config_ok c.
Proof.
  intros H0 Hr. assert (config_ok (Config s0 None ∅)) as Hi
    by (split; [intros t k Hk; cbn in Hk; by rewrite lookup_empty in Hk|done]).
  clear H0. induction Hr as [|c1 c2 c3 H12 _ IH]; [done|]. apply IH. by eapply step_ok.
Qed.

Lemma machine_mono (G : relation St) {Gpre : PreOrder G} s0 c c' :
  (forall t s s', R t s s' -> G s s') -> Inv s0 ->
  rtc step (Config s0 None ∅) c -> rtc step c c' -> G (heap c) (heap c').
Proof.
  intros HG H0 H1 H2. assert (config_ok c) as Hc by by eapply reachable_ok. clear H0 H1.
  induction H2 as [|c1 c2 c3 H12 _ IH]; [reflexivity|].
  transitivity (heap c2); [by apply step_mono|]. apply IH. by eapply step_ok.
Qed.

Definition reachable (s0 : St) (c : config) : Prop := rtc step (Config s0 None ∅) c.

(** Whatever all entries use is all that is ever used: no other operation is
    pending in any task. *)
Definition task_uses (P : E -> Prop) (k : task) : Prop :=
  match k with
  | Fresh c => uses_in true P c
  | Suspended o k => P o /\ forall r, uses_in true P (k r)
  end.
Lemma machine_uses P s0 c : (forall m, entry m -> uses_in true P m) -> reachable s0 c ->
  (forall t k, pool c !! t = Some k -> task_uses P k) /\
  match running c with Some (_, m) => uses_in true P m | None => True end.
Proof.
  intros He Hr. unfold reachable in Hr. remember (Config s0 None ∅) as c0 eqn:E0.
  assert ((forall t k, pool c0 !! t = Some k -> task_uses P k) /\
    match running c0 with Some (_, m) => uses_in true P m | None => True end) as H0
    by (subst c0; split; [intros t k; cbn; by rewrite lookup_empty|done]).
  clear E0. induction Hr as [|c1 c2 c3 H12 _ IH]; [done|]. apply IH. clear IH.
  assert (forall (t t' : tid) k' k (p : gmap tid task), (forall t k, p !! t = Some k -> task_uses P k) ->
    task_uses P k' -> <[t := k']> p !! t' = Some k -> task_uses P k) as Hins.
  { intros t t' k' k p Hp Hk'. destruct (decide (t' = t)) as [->|].
    - rewrite lookup_insert_eq. by intros [= <-].
    - rewrite lookup_insert_ne by done. apply Hp. }
  destruct H12; cbn [heap running pool uses_in task_uses] in *; destruct H0 as [Hp Hc];
    try (by split; [done|apply Hc]).
  - split; [|apply Hc]. intros t1 k1. apply Hins; [done|]. by apply Hc.
  - split; [done|]. apply uses_seq; [apply Hc|]. intros [[j|b]|e]; [|apply Hc..]. exact Hc.
  - split; [|done]. intros t1 k1. by apply Hins.
  - split; [|apply (Hp _ _ H)]. intros t1 k1 [_ Hk]%lookup_delete_Some. eauto.
  - split; [|apply (Hp _ _ H)]. intros t1 k1 [_ Hk]%lookup_delete_Some. eauto.
  - split; [|done]. intros t1 k1 [_ Hk]%lookup_delete_Some. eauto.
  - split; [|done]. intros t1 k1. apply Hins; [done|]. by apply He.
Qed.

(** Every state at which some task is suspended, and no task is running,
    satisfies the invariant, in every interleaving. *)
Lemma machine_safe s0 s p : Inv s0 -> reachable s0 (Config s None p) -> Inv s.
Proof.
  intros H0 Hr. by apply (reachable_ok _ _ H0 Hr).
Qed.
End Wp.

(** The same coroutine, under an equivalent invariant. *)
Lemma wp_same_inv {St E : Type} {resp : E -> Type} (replies : St -> forall o, res (resp o) -> Prop)
    (answers : St -> tid -> forall o, res (resp o) -> St -> Prop) (Inv Inv' : St -> Prop) R {A} self
    (c : co St E resp A) Q tr s : (forall s, Inv s <-> Inv' s) ->
  wp replies answers Inv R self c Q tr s -> wp replies answers Inv' R self c Q tr s.
Proof.
  intros HI. revert self Q tr s. induction c as [A r|A k IH|A s' k IH|A o k IH|A o k IH|A k IH|A c IHc k IH|
    A J B body IHb i k IH]; intros self Q tr s H; cbn [wp] in *; try (by auto).
  - destruct H as [HR H]. auto.
  - destruct H as [Hs H]. split; [by apply HI|]. intros r s1 s' H1 H2 H3. apply IH, (H r s1 s' H1); [by apply HI|done].
  - destruct H as [Hc H]. split; [|auto]. intros t s1 H1. eapply wp_mono; [|by apply IHc, Hc, HI].
    intros tr1 r1 s2. apply HI.
  - destruct H as (L & Hi & H). exists L. split; [done|]. intros j tr' s' Hj. apply IHb.
    eapply wp_mono; [|exact (H _ _ _ Hj)]. intros tr1 [[j'|b]|e] s1 H1; auto.
Qed.

(** ** Executions by computation

    A script enters, starts and wakes tasks; [oracle n o] is the answer to
    the [n]-th operation, if it is [o]; [settle] is the event loop's effect
    on the heap.  A script that runs through is an execution. *)

Inductive act {St E : Type} {resp : E -> Type} :=
  | Enter (t : tid) (c : co St E resp unit)
  | Begin (t : tid)
  | Wake (t : tid).
Arguments act : clear implicits.

Section Drive.
Context {St E : Type} {resp : E -> Type}.
Context (replies : St -> forall o, res (resp o) -> Prop).
Context (answers : St -> tid -> forall o, res (resp o) -> St -> Prop).
Context (entry : co St E resp unit -> Prop).
Context (reply_ok : St -> forall o, res (resp o) -> bool).
Context (settle : St -> tid -> forall o, res (resp o) -> option St).
Hypothesis reply_sound : forall s o r, reply_ok s o r = true -> replies s o r.
Hypothesis settle_sound : forall s t o r s', settle s t o r = Some s' -> answers s t o r s'.
Context (oracle : nat -> forall o, res (resp o)).

Abbreviation cfg := (@config St E resp).
Abbreviation steps := (rtc (step replies answers entry)).

(** Runs the current task until it suspends; [n] counts operations. *)
Fixpoint advance (fuel : nat) (n : nat) (t : tid) (c : co St E resp unit) (s : St)
    (p : gmap tid (@task St E resp)) : option (nat * cfg) :=
  match fuel with
  | O => None
  | S fuel =>
      match c with
      | Ret _ => Some (n, Config s None p)
      | Get k => advance fuel n t (k s) s p
      | Put s' k => advance fuel n t k s' p
      | Call o k => if reply_ok s o (oracle n o)
                    then advance fuel (S n) t (k (oracle n o)) s p else None
      | Await o k => Some (n, Config s None (<[t := Suspended o k]> p))
      | Self k => advance fuel n t (k t) s p
      | Spawn child k =>
          let t' := (1000 + n)%nat in
          if decide (t' = t) then None
          else match p !! t' with
               | Some _ => None
               | None => advance fuel (S n) t (k t') s (<[t' := Fresh child]> p)
               end
      | Iter J B body i k => advance fuel n t (seq (body i) (again body k)) s p
      end
  end.

Definition drive_one (fuel : nat) (a : act St E resp) (nc : nat * cfg) : option (nat * cfg) :=
  let '(n, c) := nc in
  match running c with
  | Some _ => None
  | None =>
      match a with
      | Enter t k => match pool c !! t with
                     | Some _ => None
                     | None => Some (n, Config (heap c) None (<[t := Fresh k]> (pool c)))
                     end
      | Begin t => match pool c !! t with
                   | Some (Fresh k) => advance fuel n t k (heap c) (delete t (pool c))
                   | _ => None
                   end
      | Wake t => match pool c !! t with
                  | Some (Suspended o k) =>
                      match settle (heap c) t o (oracle n o) with
                      | Some s' => advance fuel (S n) t (k (oracle n o)) s' (delete t (pool c))
                      | None => None
                      end
                  | _ => None
                  end
      end
  end.
Fixpoint drive (fuel : nat) (l : list (act St E resp)) (nc : nat * cfg) : option (nat * cfg) :=
  match l with
  | [] => Some nc
  | a :: l' => match drive_one fuel a nc with Some nc' => drive fuel l' nc' | None => None end
  end.

Lemma advance_sound fuel n t c s p n' c' :
  advance fuel n t c s p = Some (n', c') -> steps (Config s (Some (t, c)) p) c'.
Proof.
  revert n t c s p. induction fuel as [|fuel IH]; intros n t c s p H; [done|].
  destruct c; cbn [advance] in H.
  - injection H as <- <-. apply rtc_once, StepRet.
  - eapply rtc_l; [apply StepGet|]. by eapply IH.
  - eapply rtc_l; [apply StepPut|]. by eapply IH.
  - destruct (reply_ok s o _) eqn:E1; [|done].
    eapply rtc_l; [apply StepCall; by apply reply_sound|]. by eapply IH.
  - injection H as <- <-. apply rtc_once, StepAwait.
  - eapply rtc_l; [apply StepSelf|]. by eapply IH.
  - destruct (decide _) as [|Hne]; [done|]. destruct (p !! _) eqn:Ep; [done|].
    eapply rtc_l; [by apply (StepSpawn _ _ _ _ (1000 + n)%nat)|]. by eapply IH.
  - eapply rtc_l; [apply StepIter|]. by eapply IH.
Qed.

Lemma advance_idle fuel n t c s p n' c' : advance fuel n t c s p = Some (n', c') -> running c' = None.
Proof.
  revert n t c s p. induction fuel as [|fuel IH]; intros n t c s p H; [done|].
  destruct c; cbn [advance] in H; try (by eapply IH); try (by injection H as <- <-).
  - destruct (reply_ok s o _); [by eapply IH|done].
  - destruct (decide _); [done|]. destruct (p !! _); [done|by eapply IH].
Qed.
Lemma drive_one_idle fuel a nc n' c' : drive_one fuel a nc = Some (n', c') -> running c' = None.
Proof.
  destruct nc as [n [s [r|] p]]; cbn [drive_one running]; [done|].
  destruct a as [t k|t|t]; cbn [pool heap]; destruct (p !! t) as [[k'|o k']|]; try done.
  - by intros [= <- <-].
  - apply advance_idle.
  - destruct (settle s t o _); [apply advance_idle|done].
Qed.

Lemma drive_one_sound fuel a n c n' c' :
  match a with Enter _ k => entry k | _ => True end ->
  drive_one fuel a (n, c) = Some (n', c') -> steps c c'.
Proof.
  intros He. destruct c as [s [r|] p]; cbn [drive_one running]; [done|]. cbn [pool heap].
  destruct a as [t k|t|t]; destruct (p !! t) as [[k'|o k']|] eqn:Ep; try done.
  - intros [= <- <-]. by apply rtc_once, StepEntry.
  - intros H. eapply rtc_l; [by apply StepStart|]. by eapply advance_sound.
  - destruct (settle s t o _) as [s'|] eqn:Es; [|done]. intros H.
    eapply rtc_l; [eapply StepResume; [done|by apply settle_sound]|]. by eapply advance_sound.
Qed.

Lemma drive_sound fuel l n c n' c' :
  Forall (fun a => match a with Enter _ k => entry k | _ => True end) l ->
  drive fuel l (n, c) = Some (n', c') -> steps c c'.
Proof.
  intros Hl. revert n c. induction Hl as [|a l Ha _ IH]; intros n c; cbn [drive].
  - intros [= <- <-]. apply rtc_refl.
  - destruct (drive_one fuel a (n, c)) as [[n1 c1]|] eqn:E1; [|done]. intros H.
    etrans; [by eapply drive_one_sound|]. by eapply IH.
Qed.
Lemma drive_app fuel l1 l2 nc :
  drive fuel (l1 ++ l2) nc = match drive fuel l1 nc with Some nc' => drive fuel l2 nc' | None => None end.
Proof.
  revert nc. induction l1 as [|a l1 IH]; intros nc; cbn [drive app]; [done|].
  destruct (drive_one fuel a nc); [apply IH|done].
Qed.
Lemma drive_idle fuel l n c n' c' :
  running c = None -> drive fuel l (n, c) = Some (n', c') -> running c' = None.
Proof.
  revert n c. induction l as [|a l IH]; intros n c Hc; cbn [drive]; [by intros [= <- <-]|].
  destruct (drive_one fuel a (n, c)) as [[n1 c1]|] eqn:Ed; [|done].
  apply IH. by eapply drive_one_idle.
Qed.
End Drive.
