(* ===== verification/Boards.v ===== *)
(** * Board profiles ([boards.py])

    The owned device profiles: their identity, flash and display geometry
    and advertised capabilities, in the order of the [BOARD_PROFILES]
    dictionary. *)

From S2P Require Import Prelude Text PyFloat Json.

Inductive Fidelity := EMULATED | BEHAVIORAL | PLANNED | UNSUPPORTED.
Definition Fidelity_value (f : Fidelity) : text :=
  match f with
  | EMULATED => lit "emulated" | BEHAVIORAL => lit "behavioral"
  | PLANNED => lit "planned" | UNSUPPORTED => lit "unsupported"
  end.

Record Capability := mkCapability {
  cap_id : text; cap_label : text; cap_fidelity : Fidelity; cap_note : text }.

Record DisplayProfile := mkDisplay {
  controller : text; width : Z; height : Z; transport : text; rotation_degrees : Z }.

Record BoardProfile := mkBoard {
  board_id : text; board_label : text; mcu : text;
  flash_size_bytes : Z; psram_size_mib : Z;
  display : DisplayProfile; capabilities : list Capability }.

(** [asdict]: a frozen dataclass becomes a dictionary, field by field. *)
Definition capability_dict (c : Capability) : json :=
  JObj [(lit "id", JStr (cap_id c)); (lit "label", JStr (cap_label c));
        (lit "fidelity", JStr (Fidelity_value (cap_fidelity c)));
        (lit "note", JStr (cap_note c))].
Definition display_dict (d : DisplayProfile) : json :=
  JObj [(lit "controller", JStr (controller d)); (lit "width", JInt (width d));
        (lit "height", JInt (height d)); (lit "transport", JStr (transport d));
        (lit "rotation_degrees", JInt (rotation_degrees d))].
Definition as_public_dict (b : BoardProfile) : json :=
  JObj [(lit "id", JStr (board_id b)); (lit "label", JStr (board_label b));
        (lit "mcu", JStr (mcu b)); (lit "flash_size_bytes", JInt (flash_size_bytes b));
        (lit "psram_size_mib", JInt (psram_size_mib b));
        (lit "display", display_dict (display b));
        (lit "capabilities", JArr (map capability_dict (capabilities b)))].

Definition CARDPUTER_ADV : BoardProfile :=
  mkBoard (lit "cardputer-adv") (lit "Cardputer ADV compatible") (lit "ESP32-S3FN8")
    (8 * 1024 * 1024) 0
    (mkDisplay (lit "ST7789") 240 135 (lit "SPI") 90)
    [ mkCapability (lit "cpu") (lit "ESP32-S3 CPU and boot") EMULATED (lit "Espressif QEMU");
      mkCapability (lit "flash") (lit "8 MiB SPI flash") EMULATED
        (lit "Patched GigaDevice QE path");
      mkCapability (lit "serial") (lit "UART console") EMULATED
        (lit "Bidirectional byte stream");
      mkCapability (lit "display") (lit "ST7789 display") EMULATED
        (lit "SPI3 command/data model with RGB framebuffer capture");
      mkCapability (lit "keyboard") (lit "TCA8418 keyboard") EMULATED
        (lit "I2C FIFO, GPIO 11 interrupt, and typed key injection");
      mkCapability (lit "imu") (lit "BMI270 IMU") BEHAVIORAL
        (lit "I2C identification, configuration, and deterministic scripted samples");
      mkCapability (lit "power") (lit "Battery voltage") BEHAVIORAL
        (lit "ADC1 GPIO10 battery-divider model; hardware has no charge-status telemetry");
      mkCapability (lit "wifi") (lit "Wi-Fi RF") UNSUPPORTED (lit "No physical RF simulation");
      mkCapability (lit "ble") (lit "Bluetooth LE RF") UNSUPPORTED
        (lit "No physical RF simulation") ].

Definition STICKS3 : BoardProfile :=
  mkBoard (lit "sticks3") (lit "StickS3 compatible") (lit "ESP32-S3-PICO-1-N8R8")
    (8 * 1024 * 1024) 8
    (mkDisplay (lit "ST7789") 135 240 (lit "SPI") 0)
    [ mkCapability (lit "cpu") (lit "ESP32-S3 CPU and boot") EMULATED (lit "Espressif QEMU");
      mkCapability (lit "flash") (lit "8 MiB SPI flash") EMULATED
        (lit "Patched GigaDevice QE path");
      mkCapability (lit "psram") (lit "8 MiB PSRAM") EMULATED (lit "QEMU SPI PSRAM model");
      mkCapability (lit "serial") (lit "UART console") EMULATED
        (lit "Bidirectional byte stream");
      mkCapability (lit "display") (lit "ST7789 display") EMULATED
        (lit "SPI3 command/data model with RGB framebuffer capture");
      mkCapability (lit "buttons") (lit "Physical buttons") EMULATED
        (lit "Active-low GPIO 11/12 transitions from typed button input");
      mkCapability (lit "imu") (lit "BMI270 IMU") BEHAVIORAL
        (lit "I2C identification, configuration, and deterministic scripted samples");
      mkCapability (lit "power") (lit "Battery and power states") BEHAVIORAL
        (lit "M5PM1 I2C registers with scripted voltage and charging state");
      mkCapability (lit "wifi") (lit "Wi-Fi RF") UNSUPPORTED (lit "No physical RF simulation");
      mkCapability (lit "ble") (lit "Bluetooth LE RF") UNSUPPORTED
        (lit "No physical RF simulation") ].

Definition BOARD_PROFILES : list (text * BoardProfile) :=
  [(board_id CARDPUTER_ADV, CARDPUTER_ADV); (board_id STICKS3, STICKS3)].

(** [board_id in BOARD_PROFILES] *)
Definition owned_board (id : text) : bool :=
  match dict_get id BOARD_PROFILES with Some _ => true | None => false end.

Definition get_board_profile (id : text) : res BoardProfile :=
  of_option (dict_get id BOARD_PROFILES)
    (Exn ValueError (lit "unknown board profile: " ++ id)).

Lemma board_cases id b :
  dict_get id BOARD_PROFILES = Some b ->
  (id = lit "cardputer-adv" /\ b = CARDPUTER_ADV) \/ (id = lit "sticks3" /\ b = STICKS3).
Proof.
  unfold BOARD_PROFILES. cbn [dict_get].
  destruct (decide _) as [->|]; [intros; left; by simplify_eq|].
  destruct (decide _) as [->|]; [intros; right; by simplify_eq|done].
Qed.

Lemma board_lookup_id id b : dict_get id BOARD_PROFILES = Some b -> board_id b = id.
Proof. intros [[-> ->]|[-> ->]]%board_cases; done. Qed.

(** Every owned board has a positive flash of at most 8 MiB. *)
Lemma board_flash_size id b :
  dict_get id BOARD_PROFILES = Some b -> flash_size_bytes b = 8388608.
Proof. intros [[-> ->]|[-> ->]]%board_cases; done. Qed.
