(* ===== verification/Firmware.v ===== *)
(** * Firmware validation ([firmware.py])

    [validate_and_pad_firmware] and the system calls of
    [write_private_flash_image]. *)

From Stdlib Require Import Init.Byte.
From S2P Require Import Prelude Text PyFloat Json Boards Sha256.

Definition ESP_IMAGE_MAGIC : Z := 233.
Definition ELF_MAGIC : bytes := x7f :: blit "ELF".
Definition MINIMUM_IMAGE_SIZE : Z := 4 * 1024.
Definition MAXIMUM_SEGMENTS : Z := 16.

Record ValidatedFirmware := mkFirmware {
  source_size_bytes : Z;
  fw_flash_size_bytes : Z;
  source_sha256 : text;
  flash_sha256 : text;
  segment_count : Z;
  flash_mode : Z }.

Definition firmware_dict (f : ValidatedFirmware) : json :=
  JObj [(lit "source_size_bytes", JInt (source_size_bytes f));
        (lit "flash_size_bytes", JInt (fw_flash_size_bytes f));
        (lit "source_sha256", JStr (source_sha256 f));
        (lit "flash_sha256", JStr (flash_sha256 f));
        (lit "segment_count", JInt (segment_count f));
        (lit "flash_mode", JInt (flash_mode f))].

Definition bytes_startswith (p b : bytes) : bool := starts_with (codes p) (codes b).

(** [payload.ljust(n, b"\xff")] *)
Definition ljust (n : Z) (fill : byte) (b : bytes) : bytes :=
  b ++ replicate (Z.to_nat (n - zlen b)) fill.

Definition fw_error {A} (m : text) : res A := raise FirmwareValidationError m.

Definition validate_and_pad_firmware (payload : bytes) (board : BoardProfile)
    : res (bytes * ValidatedFirmware) :=
  if bytes_startswith ELF_MAGIC payload then
    fw_error (lit "ELF uploads are not bootable yet; upload a merged flash image starting at offset 0")
  else if zlen payload <? MINIMUM_IMAGE_SIZE then
    fw_error (lit "firmware image is too small to be a merged ESP32-S3 image")
  else if flash_size_bytes board <? zlen payload then
    fw_error (lit "firmware image exceeds the " ++ str_of_int (flash_size_bytes board)
              ++ lit "-byte board flash capacity")
  else
    b0 ← index payload 0;
    if negb (b2z b0 =? ESP_IMAGE_MAGIC) then
      fw_error (lit "merged ESP32-S3 image must begin with image magic 0xE9")
    else
      b1 ← index payload 1;
      let segment_count := b2z b1 in
      if negb ((1 <=? segment_count) && (segment_count <=? MAXIMUM_SEGMENTS)) then
        fw_error (lit "ESP image header contains an invalid segment count")
      else
        b2 ← index payload 2;
        let flash_mode := b2z b2 in
        if 3 <? flash_mode then
          fw_error (lit "ESP image header contains an invalid flash mode")
        else
          let normalized := ljust (flash_size_bytes board) xff payload in
          Ok (normalized,
              mkFirmware (zlen payload) (zlen normalized) (sha256_hexdigest payload)
                (sha256_hexdigest normalized) segment_count flash_mode).

(** The metadata carries the hash of the padded image. *)
Lemma validate_flash_sha256 payload board image meta :
  validate_and_pad_firmware payload board = Ok (image, meta) ->
  flash_sha256 meta = sha256_hexdigest image.
Proof.
  unfold validate_and_pad_firmware, fw_error.
  repeat (match goal with |- context [if ?b then _ else _] => destruct b end; try done).
  destruct (index payload 0) as [b0|]; [|done]. cbn [mbind res_bind].
  destruct (negb _); [done|]. destruct (index payload 1) as [b1|]; [|done]. cbn [mbind res_bind].
  destruct (negb _); [done|]. destruct (index payload 2) as [b2|]; [|done]. cbn [mbind res_bind].
  destruct (_ <? _); [done|]. intros E. by apply Ok_inj in E as [= <- <-].
Qed.

(** ** The system calls of [write_private_flash_image], in order *)

Inductive fs_call :=
  | FsMkdir (path : text) (mode : Z)
  | FsChmod (path : text) (mode : Z)
  | FsChownGroup (path : text) (gid : Z)
  | FsWrite (path : text) (content : bytes).

Definition write_private_flash_image (parent path : text) (payload : bytes)
    (directory_mode file_mode : Z) (group_gid : option Z) : list fs_call :=
  [FsMkdir parent directory_mode; FsChmod parent directory_mode]
  ++ match group_gid with Some g => [FsChownGroup parent g] | None => [] end
  ++ [FsWrite path payload; FsChmod path file_mode]
  ++ match group_gid with Some g => [FsChownGroup path g] | None => [] end.

(** A node's permission bits and group; [umask] applies to what [mkdir] and
    [open] create, [chmod] sets the bits exactly. *)
Record fs_node := mkNode { node_mode : Z; node_gid : Z; node_content : option bytes }.
Section Fs.
Context (umask gid0 : Z).
(** [None]: the call raises ([mkdir] on an existing path, or a missing node). *)
Definition fs_step (c : fs_call) (fs : gmap text fs_node) : option (gmap text fs_node) :=
  match c with
  | FsMkdir p m =>
      match fs !! p with
      | Some _ => None
      | None => Some (<[p := mkNode (Z.ldiff m umask) gid0 None]> fs)
      end
  | FsChmod p m =>
      n ← fs !! p; Some (<[p := mkNode m (node_gid n) (node_content n)]> fs)
  | FsChownGroup p g =>
      n ← fs !! p; Some (<[p := mkNode (node_mode n) g (node_content n)]> fs)
  | FsWrite p c =>
      match fs !! p with
      | Some n => Some (<[p := mkNode (node_mode n) (node_gid n) (Some c)]> fs)
      | None => Some (<[p := mkNode (Z.ldiff (oct "666") umask) gid0 (Some c)]> fs)
      end
  end.
Fixpoint fs_run (cs : list fs_call) (fs : gmap text fs_node) : option (gmap text fs_node) :=
  match cs with
  | [] => Some fs
  | c :: cs' => fs' ← fs_step c fs; fs_run cs' fs'
  end.
End Fs.

(** ** Correctness *)

Lemma index_ok {A} (l : list A) i : 0 <= i < zlen l -> exists x, index l i = Ok x.
Proof.
  intros H. unfold index. destruct (l !! Z.to_nat i) eqn:E; [eauto|].
  apply lookup_ge_None in E. lia.
Qed.

(** What a merged image must satisfy. *)
Definition valid_image (payload : bytes) (board : BoardProfile) : Prop :=
  MINIMUM_IMAGE_SIZE <= zlen payload <= flash_size_bytes board /\
  exists seg mode rest, payload = z2b ESP_IMAGE_MAGIC :: seg :: mode :: rest /\
    1 <= b2z seg <= MAXIMUM_SEGMENTS /\ b2z mode <= 3.

Lemma image_head (payload : bytes) :
  MINIMUM_IMAGE_SIZE <= zlen payload -> exists b0 b1 b2 rest, payload = b0 :: b1 :: b2 :: rest.
Proof.
  unfold MINIMUM_IMAGE_SIZE.
  destruct payload as [|b0 [|b1 [|b2 rest]]]; simpl; intros; try lia; eauto.
Qed.

Lemma esp_magic_not_elf rest : bytes_startswith ELF_MAGIC (z2b ESP_IMAGE_MAGIC :: rest) = false.
Proof. reflexivity. Qed.

(** C29: the validator accepts exactly the images within the board's flash
    whose header has the ESP magic, 1 to 16 segments and a flash mode up to
    3; it never fails with another exception than FirmwareValidationError;
    and an accepted image is padded with 0xFF to the exact flash size, the
    metadata describing upload and padded image. *)
Theorem validate_and_pad_firmware_correct payload board :
  match validate_and_pad_firmware payload board with
  | Ok (image, meta) =>
      valid_image payload board /\
      zlen image = flash_size_bytes board /\
      image = payload ++ replicate (Z.to_nat (flash_size_bytes board - zlen payload)) xff /\
      source_size_bytes meta = zlen payload /\
      fw_flash_size_bytes meta = flash_size_bytes board /\
      source_sha256 meta = sha256_hexdigest payload /\
      flash_sha256 meta = sha256_hexdigest image /\
      1 <= segment_count meta <= 16 /\ 0 <= flash_mode meta <= 3
  | Err e => exn_class e = FirmwareValidationError /\ ~ valid_image payload board
  end.
Proof.
  unfold validate_and_pad_firmware.
  destruct (bytes_startswith ELF_MAGIC payload) eqn:Eelf.
  { split; [done|]. intros (_ & s & m & r & -> & _). by rewrite esp_magic_not_elf in Eelf. }
  destruct (Z.ltb_spec (zlen payload) MINIMUM_IMAGE_SIZE).
  { split; [done|]. intros [? _]. lia. }
  destruct (Z.ltb_spec (flash_size_bytes board) (zlen payload)).
  { split; [done|]. intros [? _]. lia. }
  destruct (image_head payload) as (b0 & b1 & b2 & rest & ->); [done|].
  change (index (b0 :: b1 :: b2 :: rest) 0) with (Ok b0).
  change (index (b0 :: b1 :: b2 :: rest) 1) with (Ok b1).
  change (index (b0 :: b1 :: b2 :: rest) 2) with (Ok b2).
  cbn [mbind res_bind].
  destruct (Z.eqb_spec (b2z b0) ESP_IMAGE_MAGIC) as [E0|E0]; cbn [negb].
  2:{ split; [done|]. intros (_ & s & m & r & E & _). simplify_eq. }
  destruct (((1 <=? b2z b1) && (b2z b1 <=? MAXIMUM_SEGMENTS))) eqn:E1; cbn [negb].
  2:{ split; [done|]. intros (_ & s & m & r & E & ? & _). simplify_eq. lia. }
  destruct (Z.ltb_spec 3 (b2z b2)).
  { split; [done|]. intros (_ & s & m & r & E & _ & ?). simplify_eq. lia. }
  pose proof (b2z_range b2). unfold MAXIMUM_SEGMENTS in *.
  assert (zlen (ljust (flash_size_bytes board) xff (b0 :: b1 :: b2 :: rest))
          = flash_size_bytes board) as El.
  { unfold ljust. rewrite length_app, length_replicate. lia. }
  cbn [source_size_bytes fw_flash_size_bytes source_sha256 flash_sha256 segment_count flash_mode].
  repeat split; try done; try lia.
  exists b1, b2, rest. rewrite <- E0, z2b_b2z. unfold MAXIMUM_SEGMENTS. repeat split; try done; lia.
Qed.

(** In a fresh session directory the writer succeeds; the directory and
    the image end with exactly the requested modes, group and content, and
    at every intermediate point at which the image exists its directory
    already has the requested mode (whatever the umask). *)
Theorem write_private_flash_image_private umask gid0 fs parent path payload dmode fmode gid :
  parent <> path -> fs !! parent = None -> fs !! path = None ->
  let ops := write_private_flash_image parent path payload dmode fmode gid in
  (exists fs', fs_run umask gid0 ops fs = Some fs' /\
    fs' !! parent = Some (mkNode dmode (default gid0 gid) None) /\
    fs' !! path = Some (mkNode fmode (default gid0 gid) (Some payload))) /\
  (forall n fs', fs_run umask gid0 (take n ops) fs = Some fs' -> is_Some (fs' !! path) ->
    node_mode <$> fs' !! parent = Some dmode).
Proof.
  intros Hne Hpar Hpath ops. subst ops. unfold write_private_flash_image.
  destruct gid as [g|]; cbn [app]; split.
  1,3: cbn [fs_run fs_step]; rewrite Hpar; simpl; simplify_map_eq;
    eexists; split; [done|]; by simplify_map_eq.
  all: intros n fs'; destruct n as [|[|[|[|[|[|n]]]]]]; cbn [take fs_run fs_step];
    rewrite ?take_nil, ?Hpar; simpl; simplify_map_eq; intros ? [? Hs];
    simplify_eq; by simplify_map_eq.
Qed.

Lemma write_private_flash_image_private_witness :
  exists fs', fs_run (oct "22") 0
    (write_private_flash_image (lit "/r") (lit "/r/flash.bin") [] (oct "2770") (oct "660") (Some 7)) ∅
    = Some fs' /\ fs' !! lit "/r" = Some (mkNode (oct "2770") 7 None).
Proof.
  destruct (write_private_flash_image_private (oct "22") 0 ∅ (lit "/r") (lit "/r/flash.bin") []
    (oct "2770") (oct "660") (Some 7)) as [(fs' & H1 & H2 & _) _];
    [discriminate|reflexivity|reflexivity|].
  exists fs'. split; [exact H1|exact H2].
Defined.
