(* ===== verification/Framebuffer.v ===== *)
(** * Framebuffers ([framebuffer.py])

    RGB frames, the QEMU screendump (P6) parser with its row-stride repair,
    and the binary packet the browser receives. *)

From Stdlib Require Import Init.Byte.
From S2P Require Import Prelude Text.

Definition FRAMEBUFFER_MAGIC : bytes := blit "ESPF".
Definition FRAMEBUFFER_PROTOCOL_VERSION : Z := 1.
Definition FRAMEBUFFER_PIXEL_FORMAT_RGB24 : Z := 1.

(** [Struct(">4sBBHHI")]: 14 bytes, big-endian, no padding. *)
Definition FRAMEBUFFER_HEADER_size : Z := 14.
Definition FRAMEBUFFER_HEADER_pack (magic : bytes) (version format width height seq : Z) : bytes :=
  magic ++ be_bytes 1 version ++ be_bytes 1 format ++ be_bytes 2 width ++ be_bytes 2 height
  ++ be_bytes 4 seq.
Definition FRAMEBUFFER_HEADER_unpack (p : bytes) : bytes * Z * Z * Z * Z * Z :=
  (slice 0 4 p, be_value (slice 4 5 p), be_value (slice 5 6 p), be_value (slice 6 8 p),
   be_value (slice 8 10 p), be_value (slice 10 14 p)).

Record RGBFrame := mkRGBFrame { fr_width : Z; fr_height : Z; fr_pixels : bytes }.

Definition fb_error {A} (m : text) : res A := raise FramebufferError m.

(** The constructor with its [__post_init__]. *)
Definition RGBFrame_init (w h : Z) (pixels : bytes) : res RGBFrame :=
  if negb ((1 <=? w) && (w <=? 65535)) || negb ((1 <=? h) && (h <=? 65535)) then
    fb_error (lit "framebuffer dimensions are outside uint16 range")
  else if negb (zlen pixels =? w * h * 3) then
    fb_error (lit "framebuffer pixel length does not match its dimensions")
  else Ok (mkRGBFrame w h pixels).

Definition pixel (f : RGBFrame) (x y : Z) : res bytes :=
  if negb ((0 <=? x) && (x <? fr_width f)) || negb ((0 <=? y) && (y <? fr_height f)) then
    raise IndexError (lit "pixel (" ++ str_of_int x ++ lit ", " ++ str_of_int y
      ++ lit ") is outside " ++ str_of_int (fr_width f) ++ lit "x" ++ str_of_int (fr_height f))
  else
    let offset := (y * fr_width f + x) * 3 in
    Ok (slice offset (offset + 3) (fr_pixels f)).

Definition is_newline (b : byte) : bool := b2z b =? 10.

(** The four header parts, the dimensions and the maximum; a wrong number of
    parts or a bad integer is a [ValueError]. *)
Definition ppm_header (payload : bytes) : res (bytes * Z * Z * Z * bytes) :=
  match split_sep is_newline 3 payload [] with
  | [magic; dimensions; maximum; pixels] =>
      match split_ws is_ascii_space (codes dimensions) [] with
      | [width_text; height_text] =>
          w ← py_int is_ascii_space width_text;
          h ← py_int is_ascii_space height_text;
          m ← py_int is_ascii_space (codes maximum);
          Ok (magic, w, h, m, pixels)
      | _ => raise ValueError (lit "not enough or too many values to unpack")
      end
  | _ => raise ValueError (lit "not enough values to unpack")
  end.

Definition qemu_row_stride (w : Z) : Z := Z.land (w * 3 + 3) (Z.lnot 3).

Definition parse_qemu_ppm (payload : bytes) : res RGBFrame :=
  '(magic, w, h, m, pixels) ←
     try_except (ppm_header payload) [ValueError; TypeError]
       (fun _ => fb_error (lit "invalid QEMU PPM header"));
  if negb (bool_decide (magic = blit "P6")) || negb (m =? 255) || (w <=? 0) || (h <=? 0) then
    fb_error (lit "unsupported QEMU PPM format")
  else
    let expected_size := w * h * 3 in
    if zlen pixels =? expected_size then RGBFrame_init w h pixels
    else
      let packed_row_size := w * 3 in
      if zlen pixels =? qemu_row_stride w * h then
        RGBFrame_init w h
          (concat (map (fun row =>
             slice (Z.of_nat row * qemu_row_stride w)
                   (Z.of_nat row * qemu_row_stride w + packed_row_size) pixels)
             (seq 0 (Z.to_nat h))))
      else fb_error (lit "framebuffer payload has " ++ str_of_int (zlen pixels)
                     ++ lit " bytes; expected " ++ str_of_int expected_size).

Definition encode_framebuffer_packet (f : RGBFrame) (sequence : Z) : res bytes :=
  if negb ((0 <=? sequence) && (sequence <=? 4294967295)) then
    fb_error (lit "framebuffer sequence is outside uint32 range")
  else
    Ok (FRAMEBUFFER_HEADER_pack FRAMEBUFFER_MAGIC FRAMEBUFFER_PROTOCOL_VERSION
          FRAMEBUFFER_PIXEL_FORMAT_RGB24 (fr_width f) (fr_height f) sequence ++ fr_pixels f).

Definition parse_framebuffer_packet (payload : bytes) : res (Z * RGBFrame) :=
  if zlen payload <? FRAMEBUFFER_HEADER_size then
    fb_error (lit "framebuffer packet is shorter than its header")
  else
    let '(magic, version, pixel_format, w, h, sequence) := FRAMEBUFFER_HEADER_unpack payload in
    if negb (bool_decide (magic = FRAMEBUFFER_MAGIC))
       || negb (version =? FRAMEBUFFER_PROTOCOL_VERSION) then
      fb_error (lit "unsupported framebuffer packet version")
    else if negb (pixel_format =? FRAMEBUFFER_PIXEL_FORMAT_RGB24) then
      fb_error (lit "unsupported framebuffer pixel format")
    else
      let pixels := drop (Z.to_nat FRAMEBUFFER_HEADER_size) payload in
      if negb (zlen pixels =? w * h * 3) then
        fb_error (lit "framebuffer packet pixel length is invalid")
      else
        frame ← RGBFrame_init w h pixels;
        Ok (sequence, frame).

(** ** Frames *)

Definition frame_ok (f : RGBFrame) : Prop :=
  1 <= fr_width f <= 65535 /\ 1 <= fr_height f <= 65535 /\
  zlen (fr_pixels f) = fr_width f * fr_height f * 3.

Lemma RGBFrame_init_ok w h px f :
  RGBFrame_init w h px = Ok f <-> f = mkRGBFrame w h px /\ frame_ok f.
Proof.
  unfold RGBFrame_init, frame_ok. split.
  - destruct (_ || _) eqn:E1; [done|]. destruct (negb (zlen px =? _)) eqn:E2; [done|].
    intros [= <-]. simpl. split; [done|]. lia.
  - intros (-> & H). simpl in H. by bool_rw.
Qed.

Lemma RGBFrame_init_err w h px e :
  RGBFrame_init w h px = Err e -> exn_class e = FramebufferError.
Proof.
  unfold RGBFrame_init. destruct (_ || _); [by intros [= <-]|].
  destruct (negb _); [by intros [= <-]|done].
Qed.

(** Every in-range coordinate of a well-formed frame yields exactly
    three bytes, those of row [y] and column [x]; every other coordinate is
    an IndexError. *)
Theorem pixel_correct f x y :
  frame_ok f ->
  if (0 <=? x) && (x <? fr_width f) && (0 <=? y) && (y <? fr_height f)
  then exists r g b, pixel f x y = Ok [r; g; b] /\
    forall i c, [r; g; b] !! i = Some c ->
      fr_pixels f !! Z.to_nat ((y * fr_width f + x) * 3 + Z.of_nat i) = Some c
  else exists m, pixel f x y = raise IndexError m.
Proof.
  intros (Hw & Hh & Hlen). unfold pixel. destruct (_ && _ && _ && _) eqn:E.
  - rewrite !andb_true_iff in E. destruct E as [[[E1 E2] E3] E4].
    rewrite E1, E2, E3, E4. cbn [andb negb orb].
    set (o := (y * fr_width f + x) * 3).
    assert (0 <= o /\ o + 3 <= zlen (fr_pixels f)) as [Ho1 Ho2] by (rewrite Hlen; unfold o; nia).
    assert (length (slice o (o + 3) (fr_pixels f)) = 3%nat) as Hl
      by (unfold slice; rewrite length_take, length_drop; lia).
    destruct (slice o (o + 3) (fr_pixels f)) as [|r [|g [|b [|]]]] eqn:Es; try done.
    exists r, g, b. split; [done|]. intros i c Hi. rewrite <- Es in Hi. unfold slice in Hi.
    rewrite lookup_take in Hi. destruct (decide _); [|done]. rewrite lookup_drop in Hi.
    rewrite <- Hi. f_equal. lia.
  - destruct (_ || _) eqn:E2; [eauto|]. lia.
Qed.

(** ** The packet *)

Lemma len1 {A} (l : list A) : length l = 1%nat -> exists a, l = [a].
Proof. destruct l as [|a [|]]; naive_solver. Qed.
Lemma len2 {A} (l : list A) : length l = 2%nat -> exists a b, l = [a; b].
Proof. destruct l as [|a [|b [|]]]; naive_solver. Qed.
Lemma len4 {A} (l : list A) : length l = 4%nat -> exists a b c d, l = [a; b; c; d].
Proof. destruct l as [|a [|b [|c [|d [|]]]]]; naive_solver. Qed.

Lemma header_unpack_pack version format w h s px :
  0 <= version < 256 -> 0 <= format < 256 -> 0 <= w < 65536 -> 0 <= h < 65536 ->
  0 <= s < 4294967296 ->
  let p := FRAMEBUFFER_HEADER_pack FRAMEBUFFER_MAGIC version format w h s ++ px in
  FRAMEBUFFER_HEADER_unpack p = (FRAMEBUFFER_MAGIC, version, format, w, h, s) /\
  drop 14 p = px /\ zlen p = 14 + zlen px.
Proof.
  intros Hv Hf Hw Hh Hs. unfold FRAMEBUFFER_HEADER_pack.
  pose proof (be_value_bytes 1 version Hv) as Ev. pose proof (be_value_bytes 1 format Hf) as Ef.
  pose proof (be_value_bytes 2 w Hw) as Ew. pose proof (be_value_bytes 2 h Hh) as Eh.
  pose proof (be_value_bytes 4 s Hs) as Es.
  destruct (len1 (be_bytes 1 version)) as (v0 & Hv0); [apply length_be_bytes|].
  destruct (len1 (be_bytes 1 format)) as (f0 & Hf0); [apply length_be_bytes|].
  destruct (len2 (be_bytes 2 w)) as (w0 & w1 & Hw0); [apply length_be_bytes|].
  destruct (len2 (be_bytes 2 h)) as (h0 & h1 & Hh0); [apply length_be_bytes|].
  destruct (len4 (be_bytes 4 s)) as (s0 & s1 & s2 & s3 & Hs0); [apply length_be_bytes|].
  rewrite Hv0, Hf0, Hw0, Hh0, Hs0 in *. split; [|split; [done|]].
  - unfold FRAMEBUFFER_HEADER_unpack.
    set (p := _ ++ px).
    change (slice 0 4 p) with FRAMEBUFFER_MAGIC. change (slice 4 5 p) with [v0].
    change (slice 5 6 p) with [f0]. change (slice 6 8 p) with [w0; w1].
    change (slice 8 10 p) with [h0; h1]. change (slice 10 14 p) with [s0; s1; s2; s3].
    by rewrite Ev, Ef, Ew, Eh, Es.
  - rewrite length_app. change (length _) with 14%nat at 1. lia.
Qed.

(** C38: the packet round trip, both ways: parsing the packet of a
    well-formed frame gives the frame and its sequence number back, and a
    packet that parses is exactly the encoding of what it parsed to. *)
Theorem framebuffer_packet_roundtrip f seq p :
  (frame_ok f /\ encode_framebuffer_packet f seq = Ok p)
  <-> parse_framebuffer_packet p = Ok (seq, f).
Proof.
  split.
  - intros ((Hw & Hh & Hpx) & E). unfold encode_framebuffer_packet in E.
    destruct (negb _) eqn:Es; [done|]. apply Ok_inj in E as <-.
    destruct (header_unpack_pack FRAMEBUFFER_PROTOCOL_VERSION FRAMEBUFFER_PIXEL_FORMAT_RGB24
                (fr_width f) (fr_height f) seq (fr_pixels f)) as (Eu & Ed & El);
      [unfold FRAMEBUFFER_PROTOCOL_VERSION, FRAMEBUFFER_PIXEL_FORMAT_RGB24; lia..|].
    unfold parse_framebuffer_packet. rewrite Eu, El.
    change (Z.to_nat FRAMEBUFFER_HEADER_size) with 14%nat. rewrite Ed.
    unfold FRAMEBUFFER_HEADER_size. bool_rw. rewrite bool_decide_eq_true_2 by done.
    cbn [negb orb].
    rewrite (proj2 (RGBFrame_init_ok _ _ _ f)); [done|]. split; [by destruct f|].
    unfold frame_ok. auto.
  - unfold parse_framebuffer_packet, FRAMEBUFFER_HEADER_size, FRAMEBUFFER_HEADER_unpack.
    destruct (Z.ltb_spec (zlen p) 14) as [|Hl]; [done|].
    do 14 (destruct p as [|? p]; [simpl in Hl; lia|]).
    intros H.
    destruct (negb (bool_decide _) || _) eqn:E1 in H; [done|].
    destruct (negb _) eqn:E2 in H; [done|].
    destruct (negb _) eqn:E3 in H; [done|].
    apply res_bind_ok in H as (fr & Hf & H). injection H as <- <-.
    apply RGBFrame_init_ok in Hf as [-> Hok]. split; [done|].
    unfold encode_framebuffer_packet. simpl fr_width. simpl fr_height. simpl fr_pixels.
    apply orb_false_iff in E1 as [E1 E1'].
    apply negb_false_iff, bool_decide_eq_true in E1.
    apply negb_false_iff, Z.eqb_eq in E1', E2.
    match goal with |- context [be_value ?l] => idtac end.
    match goal with |- context [(0 <=? be_value ?l)] => pose proof (be_value_range l) as Hr end.
    change (256 ^ _) with 4294967296 in Hr.
    rewrite (proj2 (Z.leb_le _ _)) by apply Hr. rewrite (proj2 (Z.leb_le _ _)) by lia.
    cbn [andb negb]. f_equal. unfold FRAMEBUFFER_HEADER_pack.
    rewrite <- E1, <- E1', <- E2.
    repeat match goal with |- context [be_bytes ?n (be_value ?l)] =>
      change (be_bytes n (be_value l)) with (be_bytes (length l) (be_value l));
      rewrite (be_bytes_value l) end. done.
Qed.

(** ** The screendump parser *)

Lemma py_int_err sp t e : py_int sp t = Err e -> exn_class e = ValueError.
Proof.
  unfold py_int.
  set (bad := Exn ValueError _). assert (forall o : option Z, of_option o bad = Err e ->
    exn_class e = ValueError) as H by (intros [z|] E; [done|by injection E as <-]).
  repeat case_match; apply H.
Qed.

Lemma ppm_header_err p e : ppm_header p = Err e -> exn_class e = ValueError.
Proof.
  unfold ppm_header.
  destruct (split_sep _ _ _ _) as [|m [|d [|x [|px []]]]]; try (by intros [= <-]).
  destruct (split_ws _ _ _) as [|a [|b []]]; try (by intros [= <-]).
  destruct (py_int _ a) eqn:Ea; [|intros [= <-]; by eapply py_int_err].
  cbn [mbind res_bind].
  destruct (py_int _ b) eqn:Eb; [|intros [= <-]; by eapply py_int_err].
  cbn [mbind res_bind].
  destruct (py_int _ (codes x)) eqn:Ex; [done|intros [= <-]; by eapply py_int_err].
Qed.

(** The screendump QEMU writes: rows of [L] bytes each. *)
Definition screendump (w h : Z) (rows : list bytes) : bytes :=
  blit "P6" ++ z2b 10 :: map z2b (format_nat 10 w ++ 32 :: format_nat 10 h)
  ++ z2b 10 :: blit "255" ++ z2b 10 :: concat rows.

Lemma split_ws_word sp x t cur :
  Forall (fun c => sp c = false) x -> split_ws sp (x ++ t) cur = split_ws sp t (reverse x ++ cur).
Proof.
  intros H. revert cur. induction H as [|c x Hc _ IH]; intros cur; [done|].
  cbn [app split_ws]. by rewrite Hc, IH, reverse_cons, <- app_assoc.
Qed.

Lemma split_ws_two sp c x y :
  sp c = true -> Forall (fun c => sp c = false) x -> Forall (fun c => sp c = false) y ->
  x <> [] -> y <> [] -> split_ws sp (x ++ c :: y) [] = [x; y].
Proof.
  intros Hc Hx Hy Hxn Hyn. rewrite split_ws_word by done. cbn [split_ws]. rewrite Hc, app_nil_r.
  destruct (reverse x) eqn:Ex.
  { apply (f_equal reverse) in Ex. by rewrite reverse_involutive in Ex. }
  rewrite <- Ex, reverse_involutive. f_equal.
  rewrite <- (app_nil_r y) at 1. rewrite split_ws_word by done. cbn [split_ws].
  rewrite app_nil_r. destruct (reverse y) eqn:Ey.
  { apply (f_equal reverse) in Ey. by rewrite reverse_involutive in Ey. }
  by rewrite <- Ey, reverse_involutive.
Qed.

Lemma digits_not_space n : 0 <= n -> Forall (fun c => is_ascii_space c = false) (format_nat 10 n).
Proof.
  intros Hn. eapply Forall_impl; [by apply format_nat_dec|]. intros c Hc. cbn beta in *.
  unfold is_ascii_space. by bool_rw.
Qed.

Lemma py_int_ascii n : 0 <= n < 65536 -> py_int is_ascii_space (format_nat 10 n) = Ok n.
Proof.
  intros Hn. apply py_int_format.
  - split; [lia|]. eapply Z.lt_le_trans; [apply Hn|]. by apply (Z.pow_le_mono_r 2 16).
  - intros c Hc. unfold is_ascii_space. by bool_rw.
Qed.

Lemma no_newline l :
  Forall (fun c => 32 <= c < 256) l -> Forall (fun a => is_newline a = false) (map z2b l).
Proof.
  intros H. apply Forall_map. eapply Forall_impl; [exact H|]. intros c Hc. cbn beta in *.
  unfold is_newline, compose. rewrite b2z_z2b, Z.mod_small by lia. by bool_rw.
Qed.

Lemma ppm_header_screendump w h rows :
  0 <= w < 65536 -> 0 <= h < 65536 ->
  ppm_header (screendump w h rows) = Ok (blit "P6", w, h, 255, concat rows).
Proof.
  intros Hw Hh. unfold ppm_header, screendump.
  pose proof (format_nat_dec w ltac:(lia)) as Dw. pose proof (format_nat_dec h ltac:(lia)) as Dh.
  set (dims := format_nat 10 w ++ 32 :: format_nat 10 h).
  assert (Forall (fun c => 32 <= c < 256) dims) as Hd.
  { apply Forall_app_2; [|constructor; [lia|]];
      (eapply Forall_impl; [eassumption|intros; cbn beta in *; lia]). }
  rewrite split_sep_step; [|by repeat constructor|done].
  rewrite split_sep_step; [|by apply no_newline|done].
  rewrite split_sep_step; [|by repeat constructor|done].
  rewrite split_sep_0.
  change (reverse []) with (@nil byte). cbn [app].
  assert (codes (map z2b dims) = dims) as -> by (apply map_b2z_z2b; eapply Forall_impl; [exact Hd|simpl; lia]).
  unfold dims. rewrite split_ws_two; [|done|..];
    try (apply digits_not_space; lia); try (apply format_nat_nonempty; lia).
  rewrite !py_int_ascii by lia. done.
Qed.

Lemma drop_concat {A} (rows : list (list A)) L i :
  Forall (fun r => length r = L) rows -> drop (i * L) (concat rows) = concat (drop i rows).
Proof.
  intros H. revert i. induction H as [|r rows Hr _ IH]; intros i; cbn [concat].
  - by rewrite !drop_nil.
  - destruct i as [|i]; [done|]. cbn [drop]. rewrite <- IH, <- Hr.
    rewrite drop_app_ge by lia. f_equal. lia.
Qed.

Lemma concat_rows {A} (rows : list (list A)) L p :
  Forall (fun r => length r = L) rows -> (p <= L)%nat ->
  map (fun i => take p (drop (i * L) (concat rows))) (seq 0 (length rows)) = map (take p) rows.
Proof.
  intros H Hp. apply list_eq. intros i. rewrite !list_lookup_fmap.
  destruct (rows !! i) as [r|] eqn:E.
  - rewrite lookup_seq_lt by by eapply lookup_lt_Some. cbn [fmap option_fmap option_map].
    rewrite Nat.add_0_l, drop_concat by done. rewrite (drop_S _ _ _ E). cbn [concat].
    rewrite take_app_le; [done|].
    apply (proj1 (Forall_lookup _ _) H) in E. lia.
  - rewrite lookup_ge_None_2; [done|]. rewrite length_seq. by apply lookup_ge_None in E.
Qed.

Lemma length_concat_rows {A} (rows : list (list A)) L :
  Forall (fun r => length r = L) rows -> length (concat rows) = (length rows * L)%nat.
Proof. induction 1; simpl; [done|]. rewrite length_app. lia. Qed.

Lemma stride_bounds w : 0 <= w -> 3 * w <= qemu_row_stride w <= 3 * w + 3.
Proof.
  intros Hw. unfold qemu_row_stride. change (Z.lnot 3) with (-4).
  replace (Z.land (w * 3 + 3) (-4)) with ((w * 3 + 3) / 4 * 4).
  - pose proof (Z.div_mod (w * 3 + 3) 4). pose proof (Z.mod_pos_bound (w * 3 + 3) 4). lia.
  - change (-4) with (- 2 ^ 2).
    apply Z.bits_inj'. intros n Hn. change (- 2 ^ 2) with (Z.lnot (Z.ones 2)).
    rewrite Z.land_spec, Z.lnot_spec by done.
    change 4 with (2 ^ 2). rewrite <- Z.shiftr_div_pow2, <- Z.shiftl_mul_pow2 by lia.
    destruct (Z.ltb_spec n 2).
    + rewrite Z.shiftl_spec_low, Z.ones_spec_low, andb_false_r by lia. done.
    + rewrite Z.shiftl_spec, Z.shiftr_spec, Z.ones_spec_high, andb_true_r by lia. f_equal. lia.
Qed.

(** C39: a screendump parses to its frame whether QEMU packs the rows or
    pads them to a multiple of four bytes: the padding of every row, and
    nothing else, is removed. *)
Theorem parse_qemu_ppm_screendump w h rows L :
  1 <= w <= 65535 -> 1 <= h <= 65535 -> zlen rows = h ->
  Forall (fun r => zlen r = L) rows -> L = 3 * w \/ L = qemu_row_stride w ->
  parse_qemu_ppm (screendump w h rows) =
  Ok (mkRGBFrame w h (concat (map (take (Z.to_nat (3 * w))) rows))).
Proof.
  intros Hw Hh Hn Hrows HL. pose proof (stride_bounds w ltac:(lia)) as Hs.
  assert (Forall (fun r => length r = Z.to_nat L) rows) as Hrows'
    by (eapply Forall_impl; [exact Hrows|simpl; lia]).
  pose proof (length_concat_rows _ _ Hrows') as Hc.
  assert (Forall (fun r => length r = Z.to_nat (3 * w)) (map (take (Z.to_nat (3 * w))) rows)) as Ht.
  { apply Forall_map. eapply Forall_impl; [exact Hrows|]. intros r Hr. cbn beta in *.
    unfold compose. rewrite length_take. lia. }
  assert (RGBFrame_init w h (concat (map (take (Z.to_nat (3 * w))) rows)) =
          Ok (mkRGBFrame w h (concat (map (take (Z.to_nat (3 * w))) rows)))) as Hinit.
  { apply RGBFrame_init_ok. split; [done|]. unfold frame_ok. simpl.
    rewrite (length_concat_rows _ _ Ht), length_map. lia. }
  unfold parse_qemu_ppm. rewrite ppm_header_screendump by lia.
  cbn [try_except mbind res_bind]. rewrite bool_decide_eq_true_2 by done. bool_rw. cbn [negb orb].
  destruct (Z.eqb_spec (zlen (concat rows)) (w * h * 3)) as [E|E].
  - assert (L = 3 * w) as -> by nia.
    rewrite <- Hinit. do 2 f_equal. symmetry. rewrite <- (map_id rows) at 2.
    apply map_ext_Forall. eapply Forall_impl; [exact Hrows'|]. intros r Hr. cbn beta in *.
    rewrite take_ge; [done|lia].
  - destruct HL as [->| ->]; [lia|].
    rewrite (proj2 (Z.eqb_eq _ _)) by nia.
    rewrite <- Hinit. do 2 f_equal. rewrite <- (concat_rows rows _ _ Hrows') by lia.
    replace (Z.to_nat h) with (length rows) by lia.
    apply map_ext. intros i. unfold slice. f_equal; [lia|f_equal; nia].
Qed.

(** Whatever bytes the screendump file holds, the parser ends with a
    well-formed frame (dimensions in uint16 range, exactly three bytes per
    pixel) or raises FramebufferError, never another exception. *)
Theorem parse_qemu_ppm_total payload :
  match parse_qemu_ppm payload with
  | Ok f => frame_ok f
  | Err e => exn_class e = FramebufferError
  end.
Proof.
  unfold parse_qemu_ppm.
  destruct (ppm_header payload) as [[[[[magic w] h] m] px]|e] eqn:E.
  2:{ apply ppm_header_err in E. unfold try_except. by rewrite E. }
  cbn [try_except mbind res_bind].
  assert (forall px', match RGBFrame_init w h px' with
    | Ok f => frame_ok f | Err e => exn_class e = FramebufferError end) as Hinit.
  { intros px'. destruct (RGBFrame_init w h px') eqn:Ef.
    - by apply RGBFrame_init_ok in Ef as [_ ?].
    - by eapply RGBFrame_init_err. }
  repeat match goal with |- context [if ?b then _ else _] => destruct b end;
    try apply Hinit; done.
Qed.

Example screendump_padded :
  parse_qemu_ppm (screendump 2 1 [map z2b [1; 2; 3; 4; 5; 6; 0; 0]]) =
  Ok (mkRGBFrame 2 1 (map z2b [1; 2; 3; 4; 5; 6])).
Proof. vm_compute. reflexivity. Qed.

Lemma pixel_correct_witness :
  frame_ok (mkRGBFrame 2 1 (map z2b [1; 2; 3; 4; 5; 6])) /\
  exists r g b, pixel (mkRGBFrame 2 1 (map z2b [1; 2; 3; 4; 5; 6])) 1 0 = Ok [r; g; b].
Proof.
  assert (frame_ok (mkRGBFrame 2 1 (map z2b [1; 2; 3; 4; 5; 6]))) as H
    by (repeat split; vm_compute; done).
  split; [exact H|]. destruct (pixel_correct _ 1 0 H) as (r & g & b & E & _).
  exists r, g, b. exact E.
Defined.

Lemma parse_qemu_ppm_screendump_witness :
  parse_qemu_ppm (screendump 1 1 [map z2b [10; 20; 30; 0]]) =
  Ok (mkRGBFrame 1 1 (map z2b [10; 20; 30])).
Proof.
  apply (parse_qemu_ppm_screendump 1 1 [map z2b [10; 20; 30; 0]] 4); try lia; try done.
  - by repeat constructor.
  - right. reflexivity.
Defined.
