(* ===== verification/Inputs.v ===== *)
(** * Board inputs ([inputs.py])

    The QMP arguments for keys, buttons, IMU samples and power states, with
    the guards that reject an input the selected board does not have. *)

From S2P Require Import Prelude Text PyFloat Json Boards.

Definition letters (s : string) : list (text * text) := map (fun c => ([c], [c])) (lit s).

Definition CARDPUTER_KEY_TO_QCODE : list (text * text) :=
  [(lit "grave", lit "grave_accent")]
  ++ map (fun n => (str_of_int (Z.of_nat n), str_of_int (Z.of_nat n))) (seq 0 10)
  ++ [(lit "minus", lit "minus"); (lit "equals", lit "equal");
      (lit "backspace", lit "backspace"); (lit "tab", lit "tab")]
  ++ letters "qwertyuiop"
  ++ [(lit "bracket-left", lit "bracket_left"); (lit "bracket-right", lit "bracket_right");
      (lit "backslash", lit "backslash"); (lit "fn", lit "meta_l"); (lit "shift", lit "shift")]
  ++ letters "asdfghjkl"
  ++ [(lit "semicolon", lit "semicolon"); (lit "apostrophe", lit "apostrophe");
      (lit "enter", lit "ret"); (lit "ctrl", lit "ctrl"); (lit "opt", lit "meta_r");
      (lit "alt", lit "alt")]
  ++ letters "zxcvbnm"
  ++ [(lit "comma", lit "comma"); (lit "period", lit "dot"); (lit "slash", lit "slash");
      (lit "space", lit "spc")].

Definition STICKS3_BUTTONS : list text := [lit "a"; lit "b"].
Definition STICKS3_BUTTONS_PATH : text := lit "/machine/peripheral/sticks3-buttons".
Definition STICKS3_IMU_PATH : text := lit "/machine/peripheral/sticks3-imu".
Definition STICKS3_PMIC_PATH : text := lit "/machine/peripheral/sticks3-pmic".
Definition CARDPUTER_ADV_IMU_PATH : text := lit "/machine/peripheral/cardputer-adv-imu".
Definition CARDPUTER_ADV_ADC_PATH : text := lit "/machine/soc/saradc".

Definition input_error {A} (m : text) : res A := raise BoardInputError m.
Definition board_is (b : BoardProfile) (id : string) : bool := bool_decide (board_id b = lit id).

Definition qmp_key_event (board : BoardProfile) (key : text) (pressed : bool) : res json :=
  if negb (board_is board "cardputer-adv") then
    input_error (lit "keyboard input is unavailable for board profile: " ++ board_id board)
  else
    match dict_get key CARDPUTER_KEY_TO_QCODE with
    | None => input_error (lit "unknown Cardputer ADV key: " ++ key)
    | Some qcode =>
        Ok (JObj [(lit "events", JArr [
          JObj [(lit "type", JStr (lit "key"));
                (lit "data", JObj [
                   (lit "down", JBool pressed);
                   (lit "key", JObj [(lit "type", JStr (lit "qcode"));
                                     (lit "data", JStr qcode)])])]])])
    end.

Definition qom_set (path property : text) (value : json) : json :=
  JObj [(lit "path", JStr path); (lit "property", JStr property); (lit "value", value)].

Definition qmp_button_event (board : BoardProfile) (button : text) (pressed : bool) : res json :=
  if negb (board_is board "sticks3") then
    input_error (lit "button input is unavailable for board profile: " ++ board_id board)
  else if negb (bool_decide (button ∈ STICKS3_BUTTONS)) then
    input_error (lit "unknown StickS3 button: " ++ button)
  else Ok (qom_set STICKS3_BUTTONS_PATH (lit "button-" ++ button) (JBool pressed)).

Record vector := mkVector { vx : float; vy : float; vz : float }.
Definition vector_list (v : vector) : list float := [vx v; vy v; vz v].

Definition imu_paths : list (text * text) :=
  [(lit "cardputer-adv", CARDPUTER_ADV_IMU_PATH); (lit "sticks3", STICKS3_IMU_PATH)].

(** [abs(value) > n] *)
Definition abs_gt (n : Z) (x : float) : bool := SFltb (float_of_int n) (SFabs x).

(** [[round(value * 1000) for value in values]] *)
Fixpoint scale_values (vs : list float) : res (list Z) :=
  match vs with
  | [] => Ok []
  | v :: vs' =>
      z ← of_option (py_round (fmul v (float_of_int 1000)))
            (Exn ValueError (lit "cannot convert float to integer"));
      zs ← scale_values vs';
      Ok (z :: zs)
  end.

Definition qmp_imu_sample (board : BoardProfile) (acceleration_g angular_velocity_dps : vector)
    : res json :=
  match dict_get (board_id board) imu_paths with
  | None => input_error (lit "IMU input is unavailable for board profile: " ++ board_id board)
  | Some path =>
      let values := vector_list acceleration_g ++ vector_list angular_velocity_dps in
      if negb (forallb is_finite values) then
        input_error (lit "BMI270 IMU values must be finite")
      else if existsb (abs_gt 16) (vector_list acceleration_g) then
        input_error (lit "BMI270 acceleration exceeds the 16 g model range")
      else if existsb (abs_gt 2000) (vector_list angular_velocity_dps) then
        input_error (lit "BMI270 angular velocity exceeds the 2000 dps model range")
      else
        scaled ← scale_values values;
        Ok (qom_set path (lit "sample") (JStr (join (lit ",") (map str_of_int scaled))))
  end.

Definition bool_int (b : bool) : Z := if b then 1 else 0.

Definition qmp_power_state (board : BoardProfile) (battery_mv vin_mv : Z) (charging : bool)
    : res json :=
  if negb ((0 <=? battery_mv) && (battery_mv <=? 6000))
     || negb ((0 <=? vin_mv) && (vin_mv <=? 6000)) then
    input_error (lit "board voltage must be between 0 and 6000 mV")
  else if board_is board "cardputer-adv" then
    if negb (vin_mv =? 0) || charging then
      input_error (lit "Cardputer ADV exposes battery voltage only; VIN and charging telemetry are unavailable in hardware")
    else
      mv ← of_option (py_round (fdiv (float_of_int battery_mv) (float_of_int 2)))
             (Exn ValueError (lit "cannot convert float to integer"));
      Ok (qom_set CARDPUTER_ADV_ADC_PATH (lit "adc1-ch9-millivolts") (JInt mv))
  else if negb (board_is board "sticks3") then
    input_error (lit "power input is unavailable for board profile: " ++ board_id board)
  else
    Ok (qom_set STICKS3_PMIC_PATH (lit "power-state")
          (JStr (str_of_int battery_mv ++ lit "," ++ str_of_int vin_mv ++ lit ","
                 ++ str_of_int (bool_int charging)))).

(** ** Correctness *)

Lemma dict_get_elem {V} (k : text) (v : V) d : dict_get k d = Some v -> (k, v) ∈ d.
Proof.
  induction d as [|[k' v'] d IH]; simpl; [done|].
  destruct (decide _) as [->|]; [intros [= ->]; left|right; auto].
Qed.

Definition no_dup_text (l : list text) : bool := bool_decide (NoDup l).

Lemma qcode_injective k k' q :
  dict_get k CARDPUTER_KEY_TO_QCODE = Some q -> dict_get k' CARDPUTER_KEY_TO_QCODE = Some q ->
  k = k'.
Proof.
  intros H1%dict_get_elem H2%dict_get_elem.
  assert (NoDup (map snd CARDPUTER_KEY_TO_QCODE)) as Hnd
    by (apply (bool_decide_unpack _); vm_compute; exact I).
  apply list_elem_of_lookup in H1 as [i Hi]. apply list_elem_of_lookup in H2 as [j Hj].
  assert (i = j) as <-.
  { eapply (proj1 (NoDup_alt _) Hnd i j q); rewrite list_lookup_fmap; [by rewrite Hi|by rewrite Hj]. }
  congruence.
Qed.

(** The key translation loses nothing: two key inputs that give the
    same QMP event are the same key and the same edge, and a key input is
    refused with BoardInputError or delivered, on any board. *)
Theorem qmp_key_event_injective board key pressed :
  match qmp_key_event board key pressed with
  | Ok j => board_id board = lit "cardputer-adv" /\
      forall board' key' pressed', qmp_key_event board' key' pressed' = Ok j ->
      key' = key /\ pressed' = pressed
  | Err e => exn_class e = BoardInputError
  end.
Proof.
  unfold qmp_key_event at 1, board_is. case_bool_decide as Hb; cbn [negb]; [|done].
  destruct (dict_get key _) as [q|] eqn:E; [|done].
  split; [done|]. intros board' key' pressed'. unfold qmp_key_event, board_is.
  case_bool_decide; cbn [negb]; [|done].
  destruct (dict_get key' _) as [q'|] eqn:E'; [|done].
  intros Heq. simplify_eq. split; [by eapply qcode_injective|done].
Qed.

Definition within (k z : Z) : Prop := - k <= z <= k.

Lemma abs_gt_scaled n x :
  n = 16 \/ n = 2000 -> float_ok x -> is_finite x = true -> abs_gt n x = false ->
  exists z, py_round (fmul x (float_of_int 1000)) = Some z /\ within (n * 1000) z.
Proof.
  intros [-> | ->] Hok Hf Hgt;
    (eapply round_scaled; [exact Hok|exact Hf|vm_compute; reflexivity|done|done|done|done|exact Hgt]).
Qed.

Lemma scale_values_ok n vs :
  n = 16 \/ n = 2000 -> Forall float_ok vs -> forallb is_finite vs = true ->
  existsb (abs_gt n) vs = false ->
  exists zs, scale_values vs = Ok zs /\ length zs = length vs /\ Forall (within (n * 1000)) zs.
Proof.
  intros Hn H. induction H as [|v vs Hv _ IH]; cbn [forallb existsb scale_values];
    [by exists []|].
  intros [Hf1 Hf2]%andb_true_iff [Hg1 Hg2]%orb_false_iff.
  destruct (abs_gt_scaled n v) as (z & -> & Hz); [done..|].
  destruct (IH Hf2 Hg2) as (zs & -> & Hl & Hzs). cbn [of_option mbind res_bind].
  eexists. split; [done|]. split; [simpl; lia|by constructor].
Qed.

Lemma scale_values_app xs ys :
  scale_values (xs ++ ys) = (zs ← scale_values xs; ws ← scale_values ys; Ok (zs ++ ws)).
Proof.
  induction xs as [|x xs IH]; cbn [app scale_values mbind res_bind].
  - by destruct (scale_values ys).
  - destruct (of_option _ _); cbn [mbind res_bind]; [|done]. rewrite IH.
    destruct (scale_values xs); cbn [mbind res_bind]; [|done]. by destruct (scale_values ys).
Qed.

(** An IMU sample made of floats is either refused with
    BoardInputError or sent to the board's own BMI270 as six comma-separated
    integers, of at most 16000 mg and 2000000 mdps in magnitude: the scaling
    and rounding of an accepted value neither overflows nor leaves the range
    that the guards check before scaling. *)
Theorem qmp_imu_sample_bounded board a g :
  Forall float_ok (vector_list a ++ vector_list g) ->
  match qmp_imu_sample board a g with
  | Ok j => exists path acc gyr,
      dict_get (board_id board) imu_paths = Some path /\
      length acc = 3%nat /\ length gyr = 3%nat /\
      Forall (within 16000) acc /\ Forall (within 2000000) gyr /\
      j = qom_set path (lit "sample") (JStr (join (lit ",") (map str_of_int (acc ++ gyr))))
  | Err e => exn_class e = BoardInputError
  end.
Proof.
  intros [Ha Hg]%Forall_app. unfold qmp_imu_sample.
  destruct (dict_get _ _) as [path|]; [|done].
  destruct (forallb _ _) eqn:Hfin; cbn [negb]; [|done].
  rewrite forallb_app in Hfin. apply andb_true_iff in Hfin as [Hfa Hfg].
  destruct (existsb (abs_gt 16) _) eqn:E16; [done|].
  destruct (existsb (abs_gt 2000) _) eqn:E2000; [done|].
  destruct (scale_values_ok 16 (vector_list a)) as (acc & Ea & La & Ba); [by left|done..|].
  destruct (scale_values_ok 2000 (vector_list g)) as (gyr & Eg & Lg & Bg); [by right|done..|].
  rewrite scale_values_app, Ea, Eg. cbn [mbind res_bind]. exists path, acc, gyr. auto 10.
Qed.

Lemma half_millivolts mv :
  0 <= mv <= 6000 ->
  py_round (fdiv (float_of_int mv) (float_of_int 2)) = Some (round_half_even mv 2).
Proof.
  intros H.
  assert (forallb (fun n => bool_decide (py_round (fdiv (float_of_int (Z.of_nat n)) (float_of_int 2))
    = Some (round_half_even (Z.of_nat n) 2))) (seq 0 (Z.to_nat 6001)) = true) as Hall
    by (vm_compute; reflexivity).
  rewrite forallb_forall in Hall. specialize (Hall (Z.to_nat mv)).
  rewrite Z2Nat.id in Hall by lia.
  specialize (Hall ltac:(apply in_seq; lia)). by apply bool_decide_eq_true_1 in Hall.
Qed.

(** A power state is refused with BoardInputError or accepted; the
    Cardputer ADV then gets half the battery voltage, rounded half to even
    (0 to 3000 mV), and only without VIN or charging, and the StickS3 all
    three values; both voltages of an accepted state are within 0..6000. *)
Theorem qmp_power_state_correct board battery vin charging :
  match qmp_power_state board battery vin charging with
  | Ok j => 0 <= battery <= 6000 /\ 0 <= vin <= 6000 /\
      ((board_id board = lit "cardputer-adv" /\ vin = 0 /\ charging = false /\
        exists mv, j = qom_set CARDPUTER_ADV_ADC_PATH (lit "adc1-ch9-millivolts") (JInt mv) /\
          0 <= mv <= 3000 /\ mv = round_half_even battery 2) \/
       (board_id board = lit "sticks3" /\
        j = qom_set STICKS3_PMIC_PATH (lit "power-state")
              (JStr (str_of_int battery ++ 44 :: str_of_int vin ++ 44
                     :: str_of_int (bool_int charging)))))
  | Err e => exn_class e = BoardInputError
  end.
Proof.
  unfold qmp_power_state. destruct (_ || _) eqn:E; [done|].
  assert (0 <= battery <= 6000 /\ 0 <= vin <= 6000) as [Hb Hv] by lia.
  unfold board_is. case_bool_decide as Hc.
  - destruct (Z.eqb_spec vin 0) as [->|]; cbn [negb orb]; [|done].
    destruct charging; [done|]. rewrite half_millivolts by done. cbn [of_option mbind res_bind].
    split; [done|]. split; [done|]. left. repeat split; try done. eexists. split; [done|].
    split; [|done]. unfold round_half_even.
    pose proof (Z.div_mod battery 2). pose proof (Z.mod_pos_bound battery 2).
    repeat case_match; try lia.
    all: destruct (Z.compare_spec (2 * (battery mod 2)) 2); try done; lia.
  - case_bool_decide; cbn [negb]; [|done]. auto.
Qed.

Definition g_one : vector :=
  mkVector (float_of_int 1) (float_of_decimal true 25 (-2)) (float_of_int 16).
Lemma qmp_imu_sample_bounded_witness :
  exists path acc gyr, dict_get (board_id STICKS3) imu_paths = Some path /\
    length acc = 3%nat /\ length gyr = 3%nat /\
    Forall (within 16000) acc /\ Forall (within 2000000) gyr /\
    qmp_imu_sample STICKS3 g_one g_one =
    Ok (qom_set path (lit "sample") (JStr (join (lit ",") (map str_of_int (acc ++ gyr))))).
Proof.
  assert (Forall float_ok (vector_list g_one ++ vector_list g_one)) as H
    by (repeat constructor; vm_compute; reflexivity).
  pose proof (qmp_imu_sample_bounded STICKS3 g_one g_one H) as Hb.
  destruct (qmp_imu_sample STICKS3 g_one g_one) as [j|e] eqn:E.
  - destruct Hb as (path & acc & gyr & H1 & H2 & H3 & H4 & H5 & ->).
    exists path, acc, gyr. auto 10.
  - exfalso. vm_compute in E. discriminate.
Defined.
Example imu_text : qmp_imu_sample STICKS3 g_one g_one =
  Ok (qom_set STICKS3_IMU_PATH (lit "sample") (JStr (lit "1000,-250,16000,1000,-250,16000"))).
Proof. vm_compute. reflexivity. Qed.
