(* ===== verification/Recording.v ===== *)
(** * Session recording ([recording.py])

    Events, replay actions and the public description of UART data. *)

From S2P Require Import Prelude Text PyFloat Json Sha256 Inputs.

Inductive EventCategory := CatLifecycle | CatControl | CatInput | CatDebug | CatReplay | CatPeripheral.
Inductive EventSource := SrcService | SrcUser | SrcReplay | SrcWorker.

Definition category_text (c : EventCategory) : text :=
  match c with
  | CatLifecycle => lit "lifecycle" | CatControl => lit "control" | CatInput => lit "input"
  | CatDebug => lit "debug" | CatReplay => lit "replay" | CatPeripheral => lit "peripheral"
  end.
Definition source_text (s : EventSource) : text :=
  match s with
  | SrcService => lit "service" | SrcUser => lit "user"
  | SrcReplay => lit "replay" | SrcWorker => lit "worker"
  end.

Record SessionEvent := mkEvent {
  ev_sequence : Z;
  ev_generation : Z;
  ev_offset_ms : Z;
  ev_category : EventCategory;
  ev_type : text;
  ev_source : EventSource;
  ev_data : list (text * json) }.

Definition event_public_dict (e : SessionEvent) : json :=
  JObj [(lit "sequence", JInt (ev_sequence e)); (lit "generation", JInt (ev_generation e));
        (lit "offset_ms", JInt (ev_offset_ms e));
        (lit "category", JStr (category_text (ev_category e)));
        (lit "type", JStr (ev_type e)); (lit "source", JStr (source_text (ev_source e)));
        (lit "data", JObj (ev_data e))].

Inductive action_type := AKey | AButton | AImu | APower | ASerial | AReset | APowerOff | APowerOn.
#[export] Instance action_type_eq_dec : EqDecision action_type.
Proof. solve_decision. Defined.

Definition action_text (a : action_type) : text :=
  match a with
  | AKey => lit "key" | AButton => lit "button" | AImu => lit "imu" | APower => lit "power"
  | ASerial => lit "serial" | AReset => lit "reset"
  | APowerOff => lit "power_off" | APowerOn => lit "power_on"
  end.

(** The objects stored as payloads: a pair for keys and buttons, two vectors,
    the power triple, UART bytes, or [None]. *)
Inductive action_payload :=
  | PNone
  | PBytes (b : bytes)
  | PPress (name : text) (pressed : bool)
  | PImu (acceleration_g angular_velocity_dps : vector)
  | PPower (battery_mv vin_mv : Z) (charging : bool).

Record ReplayAction := mkAction {
  ra_offset_ms : Z; ra_type : action_type; ra_payload : action_payload }.

Definition serial_metadata (payload : bytes) : list (text * json) :=
  [(lit "byte_count", JInt (zlen payload));
   (lit "sha256", JStr (sha256_hexdigest payload));
   (lit "content_included", JBool false)].
