(* ===== verification/Tracing.v ===== *)
(** * Peripheral trace lines ([tracing.py])

    The table of traced QEMU events, their per-event limits and the parser
    of one stderr line of the worker. *)

From S2P Require Import Prelude Text Regex PyFloat Json.

Definition TRACE_EVENT_TYPES : list (text * text) :=
  [(lit "i2c_event", lit "peripheral.i2c.event");
   (lit "i2c_send", lit "peripheral.i2c.send");
   (lit "i2c_send_async", lit "peripheral.i2c.send");
   (lit "i2c_recv", lit "peripheral.i2c.receive");
   (lit "i2c_ack", lit "peripheral.i2c.ack");
   (lit "esp32s3_gpspi_transaction", lit "peripheral.spi.transaction");
   (lit "st7789_command", lit "peripheral.display.command");
   (lit "st7789_window", lit "peripheral.display.window");
   (lit "esp32_gpio_input", lit "peripheral.gpio.input");
   (lit "esp32_gpio_output", lit "peripheral.gpio.output");
   (lit "tca8418_key_event", lit "peripheral.keyboard.event");
   (lit "sticks3_button", lit "peripheral.button");
   (lit "bmi270_sample", lit "peripheral.imu.sample");
   (lit "m5pm1_power_state", lit "peripheral.power.state");
   (lit "esp32s3_saradc_conversion", lit "peripheral.adc.conversion")].

Definition TRACE_EVENT_NAMES : list text := map fst TRACE_EVENT_TYPES.

Definition TRACE_EVENT_LIMITS : list (text * Z) :=
  [(lit "i2c_event", 64); (lit "i2c_send", 64); (lit "i2c_send_async", 64);
   (lit "i2c_recv", 64); (lit "i2c_ack", 64);
   (lit "esp32s3_gpspi_transaction", 128); (lit "st7789_command", 128);
   (lit "st7789_window", 64); (lit "esp32_gpio_input", 128);
   (lit "esp32_gpio_output", 128); (lit "tca8418_key_event", 256);
   (lit "sticks3_button", 256); (lit "bmi270_sample", 256);
   (lit "m5pm1_power_state", 256); (lit "esp32s3_saradc_conversion", 64)].

Definition MAX_TRACE_LINE_BYTES : Z := 2048.
Definition MAX_TRACE_DETAIL_CHARACTERS : Z := 512.

Definition is_name_char (c : Z) : bool := is_lower c || is_dec c || (c =? 95).
Definition not_newline (c : Z) : bool := negb (c =? 10).

(** The pattern: an optional timestamp (digits, at-sign, digits, dot, digits,
    colon), the event name, and optionally whitespace and the detail. *)
Definition trace_timestamp : re :=
  rseq [rplus (rcls is_dec); rchr 64; rplus (rcls is_dec); rchr 46; rplus (rcls is_dec); rchr 58].
Definition TRACE_LINE_PATTERN : re :=
  rseq [ropt trace_timestamp; rplus (rcls is_name_char);
        ropt (RCat (rplus (rcls is_str_space)) (RStar (rcls not_newline)))].

(** The longest prefix satisfying [p], and the rest. *)
Fixpoint span (p : Z -> bool) (t : text) : text * text :=
  match t with
  | c :: t' => if p c then let '(a, r) := span p t' in (c :: a, r) else ([], t)
  | [] => ([], [])
  end.

(** One or more characters of [p], then the character [c]. *)
Definition span_then (p : Z -> bool) (c : Z) (t : text) : option text :=
  match span p t with
  | (_ :: _, d :: r) => if d =? c then Some r else None
  | _ => None
  end.

Definition skip_timestamp (t : text) : text :=
  match (r1 ← span_then is_dec 64 t; r2 ← span_then is_dec 46 r1; span_then is_dec 58 r2) with
  | Some r => r
  | None => t
  end.

(** The groups [name] and [detail] of a full match.  Greedy repetition never
    needs to backtrack here: each part stops at a character the next one
    requires and it cannot contain. *)
Definition trace_match (t : text) : option (text * option text) :=
  match span is_name_char (skip_timestamp t) with
  | ([], _) => None
  | (name, []) => Some (name, None)
  | (name, rest) =>
      match span is_str_space rest with
      | ([], _) => None
      | (_, detail) => if forallb not_newline detail then Some (name, Some detail) else None
      end
  end.

Definition parse_worker_trace_line (payload : bytes) : option (text * list (text * json)) :=
  if bool_decide (payload = []) || (MAX_TRACE_LINE_BYTES <? zlen payload) then None
  else
    let t := strip is_str_space (ascii_decode_replace payload) in
    match trace_match t with
    | None => None
    | Some (name, detail) =>
        match dict_get name TRACE_EVENT_TYPES with
        | None => None
        | Some event_type =>
            Some (event_type,
                  [(lit "trace_event", JStr name);
                   (lit "detail", JStr (slice 0 MAX_TRACE_DETAIL_CHARACTERS (default [] detail)))])
        end
    end.

(** ** The matcher against the pattern *)

Lemma span_app p t a r :
  span p t = (a, r) ->
  t = a ++ r /\ Forall (fun c => p c = true) a /\
  match r with [] => True | c :: _ => p c = false end.
Proof.
  revert a r. induction t as [|c t IH]; intros a r; simpl; [by intros [= <- <-]|].
  destruct (p c) eqn:Hc; [|by intros [= <- <-]].
  destruct (span p t) as [a' r'] eqn:E. intros [= <- <-].
  destruct (IH _ _ eq_refl) as (-> & Ha & Hr). auto.
Qed.

Lemma span_max p a r :
  Forall (fun c => p c = true) a -> match r with [] => True | c :: _ => p c = false end ->
  span p (a ++ r) = (a, r).
Proof.
  intros Ha Hr. induction Ha as [|c a Hc _ IH]; cbn [app span].
  - destruct r as [|c r]; [done|]. cbn [span]. by rewrite Hr.
  - by rewrite Hc, IH.
Qed.

Lemma lang_opt r t : lang (ropt r) t <-> t = [] \/ lang r t.
Proof.
  unfold ropt. split; [intros H; inversion H; subst; auto|].
  - inversion H3; auto.
  - intros [-> |H]; auto with sim.
Qed.

Lemma lang_chr c t : lang (rchr c) t <-> t = [c].
Proof.
  unfold rchr. rewrite lang_cls. split; [intros (d & -> & H); f_equal; lia|].
  intros ->. exists c. split; [done|lia].
Qed.

Ltac char_lia :=
  unfold is_str_space, is_ascii_space, is_name_char, is_lower, is_dec, in_range, not_newline in *; lia.

Lemma space_not_name c : is_str_space c = true -> is_name_char c = false.
Proof. intros H. char_lia. Qed.
Lemma dec_name c : is_dec c = true -> is_name_char c = true.
Proof. intros H. char_lia. Qed.

Lemma span_then_spec p c t r :
  p c = false ->
  span_then p c t = Some r <->
  exists a, t = a ++ c :: r /\ a <> [] /\ Forall (fun c => p c = true) a.
Proof.
  intros Hc. unfold span_then. split.
  - destruct (span p t) as [[|x a] [|d r']] eqn:E; try done.
    destruct (Z.eqb_spec d c) as [->|]; [|done]. intros [= <-].
    apply span_app in E as (-> & Ha & _). by exists (x :: a).
  - intros (a & -> & Hne & Ha). rewrite span_max by done.
    destruct a; [done|]. by rewrite Z.eqb_refl.
Qed.

(** A timestamp of the pattern, as a prefix. *)
Definition timestamp (ts : text) : Prop :=
  exists a b c, ts = a ++ 64 :: b ++ 46 :: c ++ [58] /\
    (a <> [] /\ b <> [] /\ c <> []) /\
    Forall (fun c => is_dec c = true) (a ++ b ++ c).

Lemma lang_timestamp ts : lang trace_timestamp ts <-> timestamp ts.
Proof.
  unfold trace_timestamp, timestamp, rseq. setoid_rewrite lang_rcat. split.
  - intros (a & ? & -> & [Ha1 Ha2]%lang_plus_cls & H).
    apply lang_rcat in H as (? & ? & -> & ->%lang_chr & H).
    apply lang_rcat in H as (b & ? & -> & [Hb1 Hb2]%lang_plus_cls & H).
    apply lang_rcat in H as (? & ? & -> & ->%lang_chr & H).
    apply lang_rcat in H as (c & ? & -> & [Hc1 Hc2]%lang_plus_cls & ->%lang_chr).
    exists a, b, c. split; [done|]. split; [done|]. by repeat apply Forall_app_2.
  - intros (a & b & c & -> & (Ha & Hb & Hc) & [Fa [Fb Fc]%Forall_app]%Forall_app).
    exists a, (64 :: b ++ 46 :: c ++ [58]). split; [done|]. split; [by apply lang_plus_cls|].
    apply lang_rcat. exists [64], (b ++ 46 :: c ++ [58]). split; [done|].
    split; [by apply lang_chr|]. apply lang_rcat. exists b, (46 :: c ++ [58]). split; [done|].
    split; [by apply lang_plus_cls|]. apply lang_rcat. exists [46], (c ++ [58]). split; [done|].
    split; [by apply lang_chr|]. apply lang_rcat. exists c, [58]. split; [done|].
    split; [by apply lang_plus_cls|by apply lang_chr].
Qed.

Lemma skip_timestamp_yes ts r : timestamp ts -> skip_timestamp (ts ++ r) = r.
Proof.
  intros (a & b & c & -> & (Ha & Hb & Hc) & [Fa [Fb Fc]%Forall_app]%Forall_app).
  unfold skip_timestamp. rewrite <- !app_assoc. cbn [app].
  rewrite (proj2 (span_then_spec is_dec 64 _ _ eq_refl)) by eauto. cbn [mbind option_bind].
  rewrite <- !app_assoc. cbn [app].
  rewrite (proj2 (span_then_spec is_dec 46 _ _ eq_refl)) by eauto. cbn [mbind option_bind].
  rewrite <- !app_assoc. cbn [app].
  by rewrite (proj2 (span_then_spec is_dec 58 _ _ eq_refl)) by eauto.
Qed.

Lemma skip_timestamp_cases t :
  (exists ts, timestamp ts /\ t = ts ++ skip_timestamp t) \/ skip_timestamp t = t.
Proof.
  unfold skip_timestamp.
  destruct (span_then is_dec 64 t) as [r1|] eqn:E1; cbn [mbind option_bind]; [|by right].
  destruct (span_then is_dec 46 r1) as [r2|] eqn:E2; cbn [mbind option_bind]; [|by right].
  destruct (span_then is_dec 58 r2) as [r3|] eqn:E3; [|by right].
  apply span_then_spec in E1 as (a & -> & Ha & Fa); [|done].
  apply span_then_spec in E2 as (b & -> & Hb & Fb); [|done].
  apply span_then_spec in E3 as (c & -> & Hc & Fc); [|done].
  left. exists (a ++ 64 :: b ++ 46 :: c ++ [58]). split.
  - exists a, b, c. split; [done|]. split; [done|]. by repeat apply Forall_app_2.
  - by rewrite <- !app_assoc; cbn [app]; rewrite <- !app_assoc; cbn [app]; rewrite <- !app_assoc.
Qed.

(** The tail after the name: nothing, or whitespace and a one-line detail. *)
Definition trace_tail (tail : text) : Prop :=
  tail = [] \/ exists ws d, tail = ws ++ d /\ ws <> [] /\
    Forall (fun c => is_str_space c = true) ws /\ Forall (fun c => not_newline c = true) d.

Lemma lang_trace t :
  lang TRACE_LINE_PATTERN t <->
  exists ts name tail, t = ts ++ name ++ tail /\ (ts = [] \/ timestamp ts) /\
    name <> [] /\ Forall (fun c => is_name_char c = true) name /\ trace_tail tail.
Proof.
  assert (forall tail,
    lang (ropt (RCat (rplus (rcls is_str_space)) (RStar (rcls not_newline)))) tail
    <-> trace_tail tail) as Htail.
  { intros tail. unfold trace_tail. rewrite lang_opt, lang_rcat.
    setoid_rewrite lang_plus_cls. unfold rcls. setoid_rewrite lang_star_cls.
    split; (intros [?|(ws & d & ?)]; [by left|right; exists ws, d; tauto]). }
  unfold TRACE_LINE_PATTERN, rseq. rewrite lang_rcat. split.
  - intros (ts & r & -> & Hts & H). apply lang_rcat in H as (name & tail & -> & Hn & Ht).
    apply lang_plus_cls in Hn as [? ?]. apply lang_opt in Hts. rewrite lang_timestamp in Hts.
    exists ts, name, tail. repeat split; try done. by apply Htail.
  - intros (ts & name & tail & -> & Hts & Hne & Hn & Ht).
    exists ts, (name ++ tail). split; [done|]. split; [apply lang_opt; by rewrite lang_timestamp|].
    apply lang_rcat. exists name, tail. split; [done|].
    split; [by apply lang_plus_cls|by apply Htail].
Qed.

Lemma trace_tail_head tail :
  trace_tail tail -> match tail with [] => True | c :: _ => is_str_space c = true end.
Proof.
  intros [->|(ws & d & -> & Hne & Hws & _)]; [done|]. destruct ws as [|c ws]; [done|].
  by apply Forall_cons in Hws as [? _].
Qed.

Lemma skip_timestamp_no name tail :
  Forall (fun c => is_name_char c = true) name -> trace_tail tail ->
  skip_timestamp (name ++ tail) = name ++ tail.
Proof.
  intros Hn Ht. unfold skip_timestamp.
  destruct (span_then is_dec 64 _) as [r|] eqn:E; [|done]. exfalso.
  apply span_then_spec in E as (a & E & _ & Ha); [|done].
  assert (span is_name_char (a ++ 64 :: r) = (a, 64 :: r)) as E1
    by (apply span_max; [eapply Forall_impl; [exact Ha|intros; by apply dec_name]|done]).
  apply trace_tail_head in Ht.
  rewrite <- E, span_max in E1; [injection E1 as -> ->; done|done|].
  destruct tail; [done|by apply space_not_name].
Qed.

(** The group extraction matches exactly the lines of the regular
    expression that tracing.py compiles, and splits a matching line into
    timestamp, name, separator and detail. *)
Theorem trace_match_regex t :
  (is_Some (trace_match t) <-> re_match TRACE_LINE_PATTERN t = true) /\
  (forall name detail, trace_match t = Some (name, detail) ->
    exists ts ws, t = ts ++ name ++ ws ++ default [] detail /\
      (ts = [] \/ timestamp ts) /\ name <> [] /\
      Forall (fun c => is_name_char c = true) name /\
      Forall (fun c => is_str_space c = true) ws /\
      Forall (fun c => not_newline c = true) (default [] detail) /\
      (detail = None <-> ws = [])).
Proof.
  assert (forall name detail, trace_match t = Some (name, detail) ->
    exists ts ws, t = ts ++ name ++ ws ++ default [] detail /\
      (ts = [] \/ timestamp ts) /\ name <> [] /\
      Forall (fun c => is_name_char c = true) name /\
      Forall (fun c => is_str_space c = true) ws /\
      Forall (fun c => not_newline c = true) (default [] detail) /\
      (detail = None <-> ws = [])) as Hsound.
  { intros name detail. unfold trace_match.
    destruct (span is_name_char (skip_timestamp t)) as [[|n0 nm] rest] eqn:En; [done|].
    apply span_app in En as (Et & Hn & _).
    assert (exists ts, (ts = [] \/ timestamp ts) /\ t = ts ++ skip_timestamp t) as (ts & Hts & Ets).
    { destruct (skip_timestamp_cases t) as [(ts & ? & ?)|E]; [eauto|].
      exists []. rewrite E. auto. }
    destruct rest as [|r0 rest].
    - intros [= <- <-]. exists ts, []. rewrite Ets, Et. simpl. naive_solver.
    - destruct (span is_str_space (r0 :: rest)) as [[|w0 ws] d] eqn:Ew; [done|].
      destruct (forallb not_newline d) eqn:Hd; [|done]. intros [= <- <-].
      apply span_app in Ew as (Ew & Hws & _). exists ts, (w0 :: ws).
      rewrite Ets, Et, Ew. repeat split; try done.
      apply List.Forall_forall. by apply forallb_forall. }
  split; [|exact Hsound]. rewrite re_match_spec, lang_trace. split.
  - intros [[name detail] H]. destruct (Hsound _ _ H) as (ts & ws & -> & Hts & Hne & Hn & Hws & Hd & Hdn).
    exists ts, name, (ws ++ default [] detail). split; [done|]. split; [done|]. split; [done|].
    split; [done|]. destruct detail as [d|]; simpl in *.
    + right. exists ws, d. naive_solver.
    + left. by rewrite (proj1 Hdn eq_refl).
  - intros (ts & name & tail & -> & Hts & Hne & Hn & Htail). unfold trace_match.
    assert (skip_timestamp (ts ++ name ++ tail) = name ++ tail) as ->.
    { destruct Hts as [->|Hts]; [exact (skip_timestamp_no name tail Hn Htail)|by apply skip_timestamp_yes]. }
    pose proof (trace_tail_head _ Htail) as Hhd.
    rewrite span_max; [|done|destruct tail; [done|by apply space_not_name]].
    destruct name as [|n0 name]; [done|]. destruct tail as [|c tail]; [by eexists|].
    destruct Htail as [|(ws & d & Ew & Hwne & Hws & Hd)]; [done|].
    destruct (span is_str_space (c :: tail)) as [ws' d'] eqn:Es.
    pose proof (span_app _ _ _ _ Es) as (Ew' & Hws' & Hd').
    destruct ws' as [|w0 ws'].
    { simpl in Ew'. subst d'. congruence. }
    assert (Forall (fun c => not_newline c = true) d') as Hnn.
    { rewrite Ew' in Ew. apply app_eq_inv in Ew as [(k & E1 & E2)|(k & E1 & E2)].
      - rewrite E2 in Hd. by apply Forall_app in Hd as [_ ?].
      - destruct k as [|k0 k]; [by subst|]. exfalso. subst.
        apply Forall_app in Hws as [_ [Hk _]%Forall_cons]. congruence. }
    rewrite (proj2 (forallb_forall _ _)); [by eexists|]. by apply List.Forall_forall.
Qed.

(** A line that parses names a traced event, for which a per-event limit
    exists (the recorder's table lookup cannot fail), and its detail is at
    most 512 characters on one line; empty and over-long lines are ignored. *)
Theorem parse_worker_trace_line_known payload event_type data :
  parse_worker_trace_line payload = Some (event_type, data) ->
  0 < zlen payload <= 2048 /\
  exists name detail limit,
    data = [(lit "trace_event", JStr name); (lit "detail", JStr detail)] /\
    name ∈ TRACE_EVENT_NAMES /\ dict_get name TRACE_EVENT_TYPES = Some event_type /\
    dict_get name TRACE_EVENT_LIMITS = Some limit /\ 0 < limit /\
    zlen detail <= 512 /\ Forall (fun c => not_newline c = true) detail.
Proof.
  unfold parse_worker_trace_line, MAX_TRACE_LINE_BYTES.
  case_bool_decide as Hne; [done|]. cbn [orb].
  destruct (Z.ltb_spec 2048 (zlen payload)); [done|].
  destruct (trace_match _) as [[name detail]|] eqn:Em; [|done].
  destruct (dict_get name TRACE_EVENT_TYPES) as [et|] eqn:Et; [|done]. intros [= <- <-].
  split; [destruct payload; [done|cbn [length] in *; lia]|].
  apply trace_match_regex in Em as (ts & ws & _ & _ & _ & _ & _ & Hd & _).
  assert (exists limit, dict_get name TRACE_EVENT_LIMITS = Some limit /\ 0 < limit
    /\ name ∈ TRACE_EVENT_NAMES) as (limit & Hl & Hpos & Hin).
  { clear -Et. unfold TRACE_EVENT_TYPES in Et. cbn [dict_get] in Et.
    repeat (destruct (decide _) as [->|] in Et;
      [eexists; split; [reflexivity|]; split; [done|];
       apply (bool_decide_unpack _); vm_compute; exact I|]). done. }
  exists name, (slice 0 MAX_TRACE_DETAIL_CHARACTERS (default [] detail)), limit.
  repeat split; try done.
  - unfold slice. rewrite length_take. change (Z.to_nat MAX_TRACE_DETAIL_CHARACTERS) with 512%nat. lia.
  - unfold slice. apply Forall_take, Forall_drop, Hd.
Qed.

Lemma parse_worker_trace_line_known_witness :
  exists et data, parse_worker_trace_line (blit "1234@1699.25:i2c_send addr 0x34 ") = Some (et, data)
  /\ zlen (blit "1234@1699.25:i2c_send addr 0x34 ") <= 2048.
Proof.
  exists (lit "peripheral.i2c.send"),
    [(lit "trace_event", JStr (lit "i2c_send")); (lit "detail", JStr (lit "addr 0x34"))].
  assert (parse_worker_trace_line (blit "1234@1699.25:i2c_send addr 0x34 ") =
    Some (lit "peripheral.i2c.send",
      [(lit "trace_event", JStr (lit "i2c_send")); (lit "detail", JStr (lit "addr 0x34"))])) as H
    by (vm_compute; reflexivity).
  split; [exact H|]. apply (parse_worker_trace_line_known _ _ _ H).
Defined.
