(* ===== verification/Qemu.v ===== *)
(** * Worker command lines ([qemu.py])

    Validation of a worker configuration against the file system, the QEMU
    command line and the bubblewrap command that confines it.  Paths are
    those of [pathlib.PurePosixPath]: an anchor and a list of components. *)

From S2P Require Import Prelude Text PyFloat Json Boards Tracing.

(** ** Paths *)

Record path := mkPath { p_absolute : bool; p_parts : list text }.
#[export] Instance path_eq_dec : EqDecision path.
Proof. solve_decision. Defined.

Definition slash : text := [47].
Definition path_str (p : path) : text :=
  if p_absolute p then 47 :: join slash (p_parts p)
  else match p_parts p with [] => lit "." | l => join slash l end.
(** [p / name] *)
Definition path_child (p : path) (name : text) : path := mkPath (p_absolute p) (p_parts p ++ [name]).
(** [p.parent] *)
Definition path_parent (p : path) : path := mkPath (p_absolute p) (removelast (p_parts p)).
(** [p.absolute()] with the working directory [cwd] *)
Definition path_absolute (cwd : list text) (p : path) : path :=
  if p_absolute p then p else mkPath true (cwd ++ p_parts p).
Fixpoint parts_prefix (a b : list text) : bool :=
  match a, b with
  | [], _ => true
  | x :: a', y :: b' => bool_decide (x = y) && parts_prefix a' b'
  | _ :: _, [] => false
  end.
(** [p.is_relative_to(q)] *)
Definition is_relative_to (p q : path) : bool :=
  Bool.eqb (p_absolute p) (p_absolute q) && parts_prefix (p_parts q) (p_parts p).

(** ** Configuration *)

Inductive WorkerSandboxMode := DIRECT | BUBBLEWRAP | OCI_BROKER.
#[export] Instance sandbox_mode_eq_dec : EqDecision WorkerSandboxMode.
Proof. solve_decision. Defined.
Definition sandbox_mode_value (m : WorkerSandboxMode) : text :=
  match m with
  | DIRECT => lit "direct" | BUBBLEWRAP => lit "bubblewrap" | OCI_BROKER => lit "oci-broker"
  end.

Definition DEFAULT_SANDBOX_READONLY_PATHS : list path :=
  [mkPath true [lit "usr"]; mkPath true [lit "lib"]; mkPath true [lit "lib64"]].

Record QemuWorkerConfig := mkConfig {
  executable : path;
  rom_directory : path;
  sandbox_mode : WorkerSandboxMode;
  sandbox_executable : path;
  sandbox_readonly_paths : list path;
  broker_socket_path : path }.

(** What the queries of [validate] see of the file system: a path names
    nothing, a socket, a directory, a file (executable or not), or something
    else. *)
Inductive node_kind := Missing | Socket | Directory | File (executable : bool) | Other.
Definition fs_view := path -> node_kind.
Definition is_file (v : fs_view) (p : path) : bool := match v p with File _ => true | _ => false end.
Definition is_dir (v : fs_view) (p : path) : bool := match v p with Directory => true | _ => false end.
(** [os.access(p, os.X_OK)] of a regular file *)
Definition can_execute (v : fs_view) (p : path) : bool := match v p with File b => b | _ => false end.
Definition exists_ (v : fs_view) (p : path) : bool := match v p with Missing => false | _ => true end.

Definition not_found {A} (m : text) : res A := raise FileNotFoundError m.

Definition validate (c : QemuWorkerConfig) (v : fs_view) : res unit :=
  match sandbox_mode c with
  | OCI_BROKER =>
      match v (broker_socket_path c) with
      | Missing => not_found (lit "Worker broker socket not found: " ++ path_str (broker_socket_path c))
      | Socket => Ok tt
      | _ => not_found (lit "Worker broker path is not a Unix socket: "
                          ++ path_str (broker_socket_path c))
      end
  | mode =>
      if negb (is_file v (executable c)) || negb (can_execute v (executable c)) then
        not_found (lit "QEMU executable not found: " ++ path_str (executable c))
      else if negb (is_dir v (rom_directory c)) then
        not_found (lit "QEMU ROM directory not found: " ++ path_str (rom_directory c))
      else if bool_decide (mode = BUBBLEWRAP) then
        if negb (is_file v (sandbox_executable c)) || negb (can_execute v (sandbox_executable c)) then
          not_found (lit "Bubblewrap executable not found: " ++ path_str (sandbox_executable c))
        else
          let missing := List.filter (fun p => negb (exists_ v p)) (sandbox_readonly_paths c) in
          match missing with
          | [] => Ok tt
          | _ => not_found (lit "Bubblewrap read-only path not found: "
                              ++ join (lit ", ") (map path_str missing))
          end
      else Ok tt
  end.

(** ** Command lines *)

Definition opt_args (o : option path) (f : path -> list text) : list text :=
  match o with Some p => f p | None => [] end.

Definition build_qemu_process_command (c : QemuWorkerConfig) (board : BoardProfile)
    (flash_path : path) (qmp_socket_path gdb_socket_path : option path)
    (trace_enabled seccomp_sandbox_enabled : bool) : list text :=
  [path_str (executable c); lit "-L"; path_str (rom_directory c);
   lit "-M"; lit "esp32s3,board-profile=" ++ board_id board;
   lit "-no-user-config"; lit "-nographic"; lit "-nic"; lit "none";
   lit "-monitor"; lit "none"; lit "-serial"; lit "stdio"]
  ++ (if seccomp_sandbox_enabled then
        [lit "-sandbox"; lit "on,obsolete=deny,elevateprivileges=deny,spawn=deny,resourcecontrol=deny"]
      else [])
  ++ opt_args qmp_socket_path (fun p =>
       [lit "-qmp"; lit "unix:" ++ path_str p ++ lit ",server=on,wait=off"])
  ++ opt_args gdb_socket_path (fun p =>
       [lit "-chardev"; lit "socket,path=" ++ path_str p ++ lit ",server=on,wait=off,id=gdb0";
        lit "-gdb"; lit "chardev:gdb0"])
  ++ (if trace_enabled then
        concat (map (fun e => [lit "-trace"; lit "enable=" ++ e]) TRACE_EVENT_NAMES)
      else [])
  ++ (if psram_size_mib board =? 0 then []
      else [lit "-m"; str_of_int (psram_size_mib board) ++ lit "M"])
  ++ [lit "-drive"; lit "file=" ++ path_str flash_path ++ lit ",if=mtd,format=raw"].

Definition session_directory (flash_path : path) (qmp_socket_path gdb_socket_path : option path)
    : res path :=
  let directory := path_parent flash_path in
  let private_paths := omap (fun o => o) [qmp_socket_path; gdb_socket_path] in
  if existsb (fun p => negb (bool_decide (path_parent p = directory))) private_paths then
    raise ValueError (lit "worker flash and control sockets must share one session directory")
  else Ok directory.

(** The read-only mounts, in order: a path below one that is already mounted
    is skipped. *)
Fixpoint readonly_mounts (cwd : list text) (paths mounted : list path) : list path :=
  match paths with
  | [] => []
  | p :: rest =>
      let destination := path_absolute cwd p in
      if existsb (is_relative_to destination) mounted then readonly_mounts cwd rest mounted
      else destination :: readonly_mounts cwd rest (destination :: mounted)
  end.

Definition bwrap_options : list text :=
  [lit "--die-with-parent"; lit "--new-session"; lit "--unshare-all"; lit "--unshare-user";
   lit "--disable-userns"; lit "--hostname"; lit "esp32-s3-worker"; lit "--cap-drop"; lit "ALL";
   lit "--clearenv"; lit "--setenv"; lit "LANG"; lit "C.UTF-8"; lit "--setenv"; lit "PATH";
   lit "/usr/bin:/bin"; lit "--proc"; lit "/proc"; lit "--dev"; lit "/dev"; lit "--size";
   str_of_int (16 * 1024 * 1024); lit "--tmpfs"; lit "/tmp"].

Definition sandbox_paths (c : QemuWorkerConfig) : list path :=
  sandbox_readonly_paths c ++ [path_parent (executable c); rom_directory c].

Definition wrap_worker_command (cwd : list text) (c : QemuWorkerConfig) (worker_command : list text)
    (directory : path) : list text :=
  path_str (sandbox_executable c) :: bwrap_options
  ++ concat (map (fun d => [lit "--ro-bind"; path_str d; path_str d])
               (readonly_mounts cwd (sandbox_paths c) []))
  ++ [lit "--bind"; path_str directory; path_str directory; lit "--chdir"; path_str directory;
      lit "--"]
  ++ worker_command.

Definition build_qemu_command (cwd : list text) (c : QemuWorkerConfig) (board : BoardProfile)
    (flash_path : path) (qmp_socket_path gdb_socket_path : option path) (trace_enabled : bool)
    : res (list text) :=
  match sandbox_mode c with
  | OCI_BROKER =>
      raise ValueError (lit "OCI broker workers are launched through the broker protocol")
  | mode =>
      let qemu_command := build_qemu_process_command c board flash_path qmp_socket_path
                            gdb_socket_path trace_enabled false in
      match mode with
      | DIRECT => Ok qemu_command
      | _ => directory ← session_directory flash_path qmp_socket_path gdb_socket_path;
             Ok (wrap_worker_command cwd c qemu_command directory)
      end
  end.

(** ** Correctness *)

Lemma parts_prefix_spec a b : parts_prefix a b = true <-> a `prefix_of` b.
Proof.
  revert b. induction a as [|x a IH]; intros b; cbn; [split; [intros _; by exists b|done]|].
  destruct b as [|y b]; [split; [done|by intros [k ?]]|].
  rewrite andb_true_iff, bool_decide_eq_true, IH. split.
  - intros [-> [k ->]]. by exists k.
  - intros [k [= -> ->]]. split; [done|]. by exists k.
Qed.

Definition covers (mounts : list path) (p : path) : Prop :=
  exists m, m ∈ mounts /\ is_relative_to p m = true.

Lemma is_relative_refl p : is_relative_to p p = true.
Proof.
  unfold is_relative_to. rewrite Bool.eqb_reflx. apply parts_prefix_spec. reflexivity.
Qed.

Lemma readonly_mounts_covers cwd paths mounted p : p ∈ paths ->
  covers (readonly_mounts cwd paths mounted ++ mounted) (path_absolute cwd p).
Proof.
  revert mounted. induction paths as [|q paths IH]; intros mounted Hp; [by apply elem_of_nil in Hp|].
  cbn [readonly_mounts]. destruct (existsb _ mounted) eqn:E.
  - apply elem_of_cons in Hp as [->|Hp]; [|by apply IH].
    apply existsb_exists in E as (m & Hm & Hr). exists m. split; [|done].
    apply elem_of_app. right. by apply list_elem_of_In.
  - apply elem_of_cons in Hp as [->|Hp].
    + exists (path_absolute cwd q). split; [left|apply is_relative_refl].
    + destruct (IH (path_absolute cwd q :: mounted) Hp) as (m & Hm & Hr). exists m. split; [|done].
      cbn [app]. rewrite elem_of_cons, elem_of_app. apply elem_of_app in Hm as [?|Hm]; [auto|].
      apply elem_of_cons in Hm as [->|?]; auto.
Qed.

Lemma readonly_mounts_fresh cwd paths mounted :
  Forall (fun d => existsb (is_relative_to d) mounted = false) (readonly_mounts cwd paths mounted) /\
  forall l1 d l2, readonly_mounts cwd paths mounted = l1 ++ d :: l2 ->
    existsb (is_relative_to d) l1 = false.
Proof.
  revert mounted. induction paths as [|q paths IH]; intros mounted; cbn [readonly_mounts].
  - split; [constructor|]. by intros [|? ?] ? ?.
  - destruct (existsb _ mounted) eqn:E; [apply IH|].
    destruct (IH (path_absolute cwd q :: mounted)) as [H1 H2]. split.
    + constructor; [done|]. eapply Forall_impl; [exact H1|]. cbn. intros d.
      intros [_ ?]%orb_false_iff. done.
    + intros [|x l1] d l2; [done|]. intros [= <- El]. cbn. rewrite (H2 _ _ _ El), orb_false_r.
      rewrite El in H1. apply Forall_app in H1 as [_ [H1 _]%Forall_cons]. cbn in H1.
      by apply orb_false_iff in H1 as [? _].
Qed.

