(* ===== verification/Environment.v ===== *)
(** * Process environment and file metadata

    [os.environ], the paths its values denote and the results of [lstat], as
    the configuration code ([settings.py], [oci.py]) uses them.  The
    environment is a function from names to optional values; the file system
    answers [lstat] and [resolve] or raises. *)

From S2P Require Import Prelude Text PyFloat Json PyNumber Qemu.

(** ** Environment variables *)

Definition environ := text -> option text.
(** [os.environ.get(name, default)] *)
Definition env_get (env : environ) (name default : string) : text :=
  match env (lit name) with Some v => v | None => lit default end.

(** ** Paths *)

Definition is_slash (c : Z) : bool := c =? 47.
(** [Path(text)]: empty components and [.] vanish; exactly two leading
    slashes are an anchor of their own, kept as an empty first component. *)
Definition path_of_text (t : text) : path :=
  let parts := List.filter (fun p => negb (bool_decide (p = [])) && negb (bool_decide (p = lit ".")))
                 (split_sep is_slash (length t) t []) in
  match t with
  | 47 :: 47 :: 47 :: _ => mkPath true parts
  | 47 :: 47 :: _ => mkPath true ([] :: parts)
  | 47 :: _ => mkPath true parts
  | _ => mkPath false parts
  end.

Example path_of_texts :
  map (fun t => path_str (path_of_text (lit t)))
    ["/a//b/./c/"; "x/../y"; ""; "//h/s"; "/"; "///a"]%string
  = map lit ["/a/b/c"; "x/../y"; "."; "//h/s"; "/"; "/a"]%string.
Proof. vm_compute. reflexivity. Qed.

(** ** File metadata *)

(** [os.stat_result], the fields in use. *)
Record file_stat := mkStat { st_mode : Z; st_uid : Z; st_gid : Z; st_size : Z }.

Definition S_IFMT (mode : Z) : Z := Z.land mode (oct "170000").
Definition S_ISLNK (mode : Z) : bool := S_IFMT mode =? oct "120000".
Definition S_ISREG (mode : Z) : bool := S_IFMT mode =? oct "100000".
Definition S_ISDIR (mode : Z) : bool := S_IFMT mode =? oct "040000".
Definition S_ISSOCK (mode : Z) : bool := S_IFMT mode =? oct "140000".
Definition S_IMODE (mode : Z) : Z := Z.land mode (oct "7777").
(** [mode & bits != 0] *)
Definition any_bits (mode : Z) (bits : string) : bool := negb (Z.land mode (oct bits) =? 0).
(** [mode & bits == bits] *)
Definition all_bits (mode : Z) (bits : string) : bool := Z.land mode (oct bits) =? oct bits.

(** What the file system answers. *)
Record files := mkFiles {
  lstat : path -> res file_stat;
  resolve : path -> res path }.
