(* ===== verification/BrokerProtocol.v ===== *)
(** * The worker-broker protocol ([broker_protocol.py])

    Frames and control messages, the frame reader and writer, the buffered
    standard input of a remote worker and the client object that stands for
    the worker process.  The streams of asyncio are operations of the
    coroutine monad: their answers are arbitrary in the safety theorems and
    those of a byte stream in the functional ones. *)

From Stdlib Require Import Init.Byte.
From S2P Require Import Prelude Text Regex PyFloat Json Boards Async.

Definition PROTOCOL_VERSION := 1.
Definition MAX_FRAME_PAYLOAD := 256 * 1024.
Definition MAX_CONTROL_PAYLOAD := 4096.
Definition MAX_STREAM_CHUNK := 64 * 1024.
Definition MAX_BUFFERED_STDIN := 256 * 1024.
Definition FRAME_HEADER_size := 5.
Definition SESSION_ID_PATTERN : re := rrep 32 (RCls is_hex_lower).
Definition ERROR_CODE_PATTERN : re :=
  RCat (RCls (fun c => is_lower c || is_dec c))
       (rupto 63 (RCls (fun c => is_lower c || is_dec c || (c =? 45)))).

Definition protocol_error {A} (m : string) : res A := raise BrokerProtocolError (lit m).

Inductive FrameKind := PING | PONG | START | STARTED | STDIN | TERMINATE | KILL
  | STDOUT | STDERR | EXIT | ERROR.
#[export] Instance frame_kind_eq_dec : EqDecision FrameKind.
Proof. solve_decision. Defined.

Definition kind_value (k : FrameKind) : Z :=
  match k with
  | PING => 1 | PONG => 2 | START => 3 | STARTED => 4 | STDIN => 5 | TERMINATE => 6
  | KILL => 7 | STDOUT => 8 | STDERR => 9 | EXIT => 10 | ERROR => 11
  end.
Definition all_kinds : list FrameKind :=
  [PING; PONG; START; STARTED; STDIN; TERMINATE; KILL; STDOUT; STDERR; EXIT; ERROR].
(** [FrameKind(value)] *)
Definition kind_of (v : Z) : option FrameKind :=
  List.find (fun k => kind_value k =? v) all_kinds.

Record BrokerFrame := mkFrame { frame_kind : FrameKind; frame_payload : bytes }.

(** ** Control messages *)

Definition json_object (payload : bytes) : res (list (text * json)) :=
  if MAX_CONTROL_PAYLOAD <? zlen payload then protocol_error "payload is too large"
  else
    v ← try_except (loads payload) [UnicodeDecodeError; JSONDecodeError]
          (fun _ => protocol_error "payload is not valid JSON");
    match v with
    | JObj d => Ok d
    | _ => protocol_error "payload must be a JSON object"
    end.

(** No control message holds a float, so the float printer is irrelevant. *)
Definition json_payload (value : json) : res bytes :=
  payload ← utf8_encode (dumps (fun _ => []) true [] value);
  if MAX_CONTROL_PAYLOAD <? zlen payload then protocol_error "control payload is too large"
  else Ok payload.

Record StartRequest := mkStart { start_session_id : text; start_board_id : text }.

Definition StartRequest_init (session_id board_id : text) : res StartRequest :=
  if negb (re_match SESSION_ID_PATTERN session_id) then
    protocol_error "session ID must be 32 lowercase hexadecimal characters"
  else if negb (owned_board board_id) then
    protocol_error "board ID is not an owned simulator profile"
  else Ok (mkStart session_id board_id).

Definition StartRequest_to_payload (r : StartRequest) : res bytes :=
  json_payload (JObj [(lit "protocol", JInt PROTOCOL_VERSION);
                      (lit "session_id", JStr (start_session_id r));
                      (lit "board_id", JStr (start_board_id r))]).

(** [isinstance(protocol, bool) or protocol != PROTOCOL_VERSION]: the integer
    1 and the float 1.0 both compare equal to the version. *)
Definition bad_protocol (v : json) : bool :=
  match v with
  | JInt z => negb (z =? PROTOCOL_VERSION)
  | JFloat f => negb (float_eq_int f PROTOCOL_VERSION)
  | _ => true
  end.

(** [d[k]] for a key that was checked to be present. *)
Definition field (k : string) (d : list (text * json)) : json := default JNull (dict_get (lit k) d).

Definition StartRequest_from_payload (payload : bytes) : res StartRequest :=
  value ← json_object payload;
  if negb (keys_are value [lit "protocol"; lit "session_id"; lit "board_id"]) then
    protocol_error "start payload contains missing or unexpected fields"
  else if bad_protocol (field "protocol" value) then
    protocol_error "broker protocol version is not supported"
  else match field "session_id" value, field "board_id" value with
       | JStr session_id, JStr board_id => StartRequest_init session_id board_id
       | _, _ => protocol_error "start identifiers must be strings"
       end.

(** The argument of [ExitMessage]: an integer or, since [bool] is a subclass
    of [int], a boolean. *)
Inductive py_integer := PyInt (z : Z) | PyBool (b : bool).

Definition ExitMessage_init (returncode : py_integer) : res Z :=
  match returncode with
  | PyBool _ => protocol_error "worker return code is out of range"
  | PyInt z => if (-255 <=? z) && (z <=? 255) then Ok z
               else protocol_error "worker return code is out of range"
  end.
Definition ExitMessage_to_payload (returncode : Z) : res bytes :=
  json_payload (JObj [(lit "returncode", JInt returncode)]).
Definition ExitMessage_from_payload (payload : bytes) : res Z :=
  value ← json_object payload;
  if negb (keys_are value [lit "returncode"]) then protocol_error "exit payload is invalid"
  else match field "returncode" value with
       | JInt z => ExitMessage_init (PyInt z)
       | JBool b => ExitMessage_init (PyBool b)
       | _ => protocol_error "exit payload is invalid"
       end.

Record ErrorMessage := mkError { error_code : text; error_message : text }.

Definition ErrorMessage_init (code message : text) : res ErrorMessage :=
  if negb (re_match ERROR_CODE_PATTERN code) then protocol_error "broker error code is invalid"
  else if bool_decide (message = []) || (200 <? zlen message)
          || existsb (fun c => (c =? 13) || (c =? 10)) message then
    protocol_error "broker error message is invalid"
  else Ok (mkError code message).
Definition ErrorMessage_to_payload (e : ErrorMessage) : res bytes :=
  json_payload (JObj [(lit "code", JStr (error_code e)); (lit "message", JStr (error_message e))]).
Definition ErrorMessage_from_payload (payload : bytes) : res ErrorMessage :=
  value ← json_object payload;
  if negb (keys_are value [lit "code"; lit "message"]) then
    protocol_error "error payload is invalid"
  else match field "code" value, field "message" value with
       | JStr code, JStr message => ErrorMessage_init code message
       | _, _ => protocol_error "error payload fields must be strings"
       end.

(** ** Frames

    The reader and the writer of one connection, as its clients promise them
    to the frame functions: reading exactly [n] bytes, successive writes to
    the transport (no other task runs between them), flushing, and the lock of
    the [FrameWriter]. *)

Class Transport (St E : Type) (resp : E -> Type) := mkTransport {
  t_read_exactly : Z -> co St E resp bytes;
  t_write : list bytes -> co St E resp unit;
  t_drain : co St E resp unit;
  t_locked : co St E resp unit -> co St E resp unit }.

Section Frames.
Context `{Transport St E resp}.

Definition read_frame (max_payload : Z) : co St E resp BrokerFrame :=
  header ← catch (t_read_exactly FRAME_HEADER_size) [IncompleteReadError]
    (fun _ => lift (protocol_error "broker connection ended before a complete frame"));
  let kind := b2z (default x00 (head header)) in
  let payload_size := be_value (drop 1 header) in
  if Z.min max_payload MAX_FRAME_PAYLOAD <? payload_size then
    lift (protocol_error "broker frame payload exceeds its limit")
  else match kind_of kind with
  | None => lift (protocol_error "broker frame type is unknown")
  | Some kind =>
      payload ← catch (t_read_exactly payload_size) [IncompleteReadError]
        (fun _ => lift (protocol_error "broker connection ended inside a frame"));
      mret (mkFrame kind payload)
  end.

Definition frame_header (kind : FrameKind) (payload : bytes) : bytes :=
  z2b (kind_value kind) :: be_bytes 4 (zlen payload).
(** The wire image of a frame. *)
Definition frame_bytes (kind : FrameKind) (payload : bytes) : bytes :=
  frame_header kind payload ++ payload.

(** [FrameWriter.send]: the two writes are not separated by an await. *)
Definition send (kind : FrameKind) (payload : bytes) : co St E resp unit :=
  if MAX_FRAME_PAYLOAD <? zlen payload then
    lift (protocol_error "broker frame payload exceeds its limit")
  else t_locked (t_write [frame_header kind payload; payload] ≫= fun _ => t_drain).
End Frames.

(** ** Streams *)

(** The awaited operations of this module: reading exactly [n] bytes,
    flushing the transport, waiting for it to close, opening a connection and
    acquiring a lock; [DeadlineHit] asks, synchronously, whether the deadline
    of the enclosing [wait_for] has passed. *)
Inductive lock := FramesLock | StdinLock.
#[export] Instance lock_eq_dec : EqDecision lock.
Proof. solve_decision. Defined.
Inductive bop := ReadExactly (n : Z) | Drain | WaitClosed | OpenConnection | Acquire (l : lock)
  | DeadlineHit | WaitExit.
Definition bresp (o : bop) : Type :=
  match o with
  | ReadExactly _ => bytes
  | DeadlineHit => bool
  | WaitExit => Z
  | _ => unit
  end.

(** The heap of one connection: the bytes handed to the transport and whether
    it was closed, the locks of [FrameWriter] and [BrokerStdin], and the
    fields of [BrokerStdin] and [BrokerWorkerProcess].  [bw_stdin] is the
    attribute [stdin]: [None] once the receiver has ended.  [bs_accepted] is
    an auxiliary variable, the chunks that [BrokerStdin.write] accepted so
    far: no code reads it. *)
Record BrokerWorker := mkWorker {
  bw_wire : bytes;
  bw_closed : bool;
  bw_frames_lock : option tid;
  bw_stdin_lock : option tid;
  bs_pending : list bytes;
  bs_pending_bytes : Z;
  bs_closed : bool;
  bs_accepted : list bytes;
  bw_stdin : bool;
  bw_stdout : bytes;
  bw_stderr : bytes;
  bw_stdout_eof : bool;
  bw_stderr_eof : bool;
  bw_returncode : option Z;
  bw_waiter : option Z }.

Definition BrokerWorker_init : BrokerWorker :=
  mkWorker [] false None None [] 0 false [] true [] [] false false None None.

Definition owner (l : lock) (s : BrokerWorker) : option tid :=
  match l with FramesLock => bw_frames_lock s | StdinLock => bw_stdin_lock s end.

Definition set_wire (f : bytes -> bytes) (s : BrokerWorker) : BrokerWorker :=
  mkWorker (f (bw_wire s)) (bw_closed s) (bw_frames_lock s) (bw_stdin_lock s) (bs_pending s)
    (bs_pending_bytes s) (bs_closed s) (bs_accepted s) (bw_stdin s) (bw_stdout s) (bw_stderr s)
    (bw_stdout_eof s) (bw_stderr_eof s) (bw_returncode s) (bw_waiter s).
Definition set_owner (l : lock) (t : option tid) (s : BrokerWorker) : BrokerWorker :=
  mkWorker (bw_wire s) (bw_closed s)
    (match l with FramesLock => t | StdinLock => bw_frames_lock s end)
    (match l with StdinLock => t | FramesLock => bw_stdin_lock s end)
    (bs_pending s) (bs_pending_bytes s) (bs_closed s) (bs_accepted s) (bw_stdin s) (bw_stdout s) (bw_stderr s)
    (bw_stdout_eof s) (bw_stderr_eof s) (bw_returncode s) (bw_waiter s).
Definition set_buffer (pending : list bytes) (n : Z) (closed : bool) (s : BrokerWorker) :=
  mkWorker (bw_wire s) (bw_closed s) (bw_frames_lock s) (bw_stdin_lock s) pending n closed
    (bs_accepted s) (bw_stdin s) (bw_stdout s) (bw_stderr s) (bw_stdout_eof s) (bw_stderr_eof s)
    (bw_returncode s) (bw_waiter s).
Definition accept (l : list bytes) (s : BrokerWorker) : BrokerWorker :=
  mkWorker (bw_wire s) (bw_closed s) (bw_frames_lock s) (bw_stdin_lock s) (bs_pending s)
    (bs_pending_bytes s) (bs_closed s) (bs_accepted s ++ l) (bw_stdin s) (bw_stdout s)
    (bw_stderr s) (bw_stdout_eof s) (bw_stderr_eof s) (bw_returncode s) (bw_waiter s).
Definition feed_stdout (b : bytes) (s : BrokerWorker) : BrokerWorker :=
  mkWorker (bw_wire s) (bw_closed s) (bw_frames_lock s) (bw_stdin_lock s) (bs_pending s)
    (bs_pending_bytes s) (bs_closed s) (bs_accepted s) (bw_stdin s) (bw_stdout s ++ b) (bw_stderr s)
    (bw_stdout_eof s) (bw_stderr_eof s) (bw_returncode s) (bw_waiter s).
Definition feed_stderr (b : bytes) (s : BrokerWorker) : BrokerWorker :=
  mkWorker (bw_wire s) (bw_closed s) (bw_frames_lock s) (bw_stdin_lock s) (bs_pending s)
    (bs_pending_bytes s) (bs_closed s) (bs_accepted s) (bw_stdin s) (bw_stdout s) (bw_stderr s ++ b)
    (bw_stdout_eof s) (bw_stderr_eof s) (bw_returncode s) (bw_waiter s).
(** [_finish] *)
Definition finish (returncode : Z) (s : BrokerWorker) : BrokerWorker :=
  match bw_returncode s with
  | Some _ => s
  | None =>
      mkWorker (bw_wire s) (bw_closed s) (bw_frames_lock s) (bw_stdin_lock s) (bs_pending s)
        (bs_pending_bytes s) (bs_closed s) (bs_accepted s) (bw_stdin s) (bw_stdout s) (bw_stderr s)
        (bw_stdout_eof s) (bw_stderr_eof s) (Some returncode)
        (match bw_waiter s with Some r => Some r | None => Some returncode end)
  end.
(** The rest of the [finally] block of [_receive] after [_finish]. *)
Definition end_streams (s : BrokerWorker) : BrokerWorker :=
  mkWorker (bw_wire s) true (bw_frames_lock s) (bw_stdin_lock s)
    (if bw_stdin s then [] else bs_pending s) (if bw_stdin s then 0 else bs_pending_bytes s)
    (if bw_stdin s then true else bs_closed s) (bs_accepted s) false (bw_stdout s) (bw_stderr s) true true
    (bw_returncode s) (bw_waiter s).
Definition close_transport (s : BrokerWorker) : BrokerWorker :=
  mkWorker (bw_wire s) true (bw_frames_lock s) (bw_stdin_lock s) (bs_pending s)
    (bs_pending_bytes s) (bs_closed s) (bs_accepted s) (bw_stdin s) (bw_stdout s) (bw_stderr s)
    (bw_stdout_eof s) (bw_stderr_eof s) (bw_returncode s) (bw_waiter s).

Abbreviation bco := (co BrokerWorker bop bresp).
Definition bcall (o : bop) : bco (bresp o) := call o.
Definition bawait (o : bop) : bco (bresp o) := await o.

(** [async with lock: body] *)
Definition async_with {A} (l : lock) (body : bco A) : bco A :=
  locked (bawait (Acquire l)) (set_owner l None) body.

#[export] Instance worker_transport : Transport BrokerWorker bop bresp := {|
  t_read_exactly n := bawait (ReadExactly n);
  t_write l := modify (fun s => foldl (fun s b => set_wire (fun w => w ++ b) s) s l);
  t_drain := bawait Drain;
  t_locked := async_with FramesLock |}.

(** [FrameWriter.close] *)
Definition frames_close : bco unit :=
  modify close_transport ≫= fun _ => bawait WaitClosed.

(** ** Buffered standard input *)

(** [BrokerStdin.write] of a [bytes] object *)
Definition stdin_write (payload : bytes) (s : BrokerWorker) : res unit * BrokerWorker :=
  if bs_closed s then (raise BrokenPipeError (lit "broker worker stdin is closed"), s)
  else if MAX_BUFFERED_STDIN <? bs_pending_bytes s + zlen payload then
    (raise BufferError (lit "broker worker stdin buffer is full"), s)
  else let parts := chunks (Z.to_nat MAX_STREAM_CHUNK) payload in
       (Ok tt, accept parts (set_buffer (bs_pending s ++ parts)
                 (bs_pending_bytes s + zlen payload) (bs_closed s) s)).

(** [BrokerStdin.write] as a coroutine step. *)
Definition stdin_write_now (payload : bytes) : bco unit :=
  r ← gets (fun s => fst (stdin_write payload s));
  modify (fun s => snd (stdin_write payload s)) ≫= fun _ => lift r.

(** [BrokerStdin.drain] *)
Definition stdin_drain : bco unit :=
  async_with StdinLock (
    pending ← gets bs_pending;
    modify (fun s => set_buffer [] 0 (bs_closed s) s) ≫= fun _ =>
    each (send STDIN) pending).

(** [BrokerStdin.close] *)
Definition stdin_close : bco unit := modify (set_buffer [] 0 true).

(** ** The worker process object *)

(** [_send_control] *)
Definition send_control (kind : FrameKind) : bco unit :=
  catch (send kind []) [BrokerProtocolError; ConnectionError] (fun _ => modify (finish 125)).
(** [_queue_control] *)
Definition queue_control (kind : FrameKind) : bco unit :=
  create_task (send_control kind) ≫= fun _ => skip.
Definition terminate : bco unit :=
  rc ← gets bw_returncode; if rc is None then queue_control TERMINATE else skip.
Definition kill : bco unit :=
  rc ← gets bw_returncode; if rc is None then queue_control KILL else skip.
(** [wait]: the future is shielded, so a cancelled waiter leaves it alone. *)
Definition wait : bco Z := bawait WaitExit.

(** One round of the [while True] of [_receive]: [inr rc] is a [break] with
    the value the variable [returncode] then has. *)
Definition receive_round (_ : unit) : bco (unit + Z) :=
  frame ← read_frame MAX_FRAME_PAYLOAD;
  match frame_kind frame with
  | STDOUT => modify (feed_stdout (frame_payload frame)) ≫= fun _ => mret (inl tt)
  | STDERR => modify (feed_stderr (frame_payload frame)) ≫= fun _ => mret (inl tt)
  | EXIT => rc ← lift (ExitMessage_from_payload (frame_payload frame)); mret (inr rc)
  | ERROR =>
      e ← lift (ErrorMessage_from_payload (frame_payload frame));
      line ← lift (utf8_encode (lit "broker-error:" ++ error_code e ++ 58 :: error_message e ++ [10]));
      modify (feed_stderr line) ≫= fun _ => mret (inr 125)
  | _ => lift (protocol_error "broker sent a frame that is invalid after start")
  end.

(** [_receive]: the [finally] block runs with the value of [returncode],
    which is still 125 whenever an exception ended the loop. *)
Definition receive : bco unit :=
  seq (catch (loop receive_round tt) [BrokerProtocolError; ConnectionError] (fun _ =>
         modify (feed_stderr (blit "broker-error:protocol:worker connection failed" ++ [x0a])) ≫= fun _ =>
         mret 125))
    (fun r => modify (finish (match r with Ok rc => rc | Err _ => 125 end)) ≫= fun _ =>
              modify end_streams ≫= fun _ =>
              match r with Ok _ => skip | Err e => lift (Err e) end).

Definition wait_for {A} (m : bco A) : bco A := deadline (bcall DeadlineHit) m.

Definition connect_broker_worker (request : StartRequest) : bco unit :=
  catch (wait_for (bawait OpenConnection)) [TimeoutError; OSError]
    (fun _ => throw BrokerUnavailableError (lit "worker broker is unavailable")) ≫= fun _ =>
  catch (
    wait_for (payload ← lift (StartRequest_to_payload request); send START payload) ≫= fun _ =>
    response ← wait_for (read_frame MAX_CONTROL_PAYLOAD);
    match frame_kind response with
    | ERROR =>
        error ← lift (ErrorMessage_from_payload (frame_payload response));
        throw BrokerUnavailableError (lit "worker broker rejected launch: " ++ error_code error)
    | STARTED =>
        if bool_decide (frame_payload response = []) then create_task receive ≫= fun _ => skip
        else lift (protocol_error "worker broker did not acknowledge start")
    | _ => lift (protocol_error "worker broker did not acknowledge start")
    end)
    [TimeoutError; BrokerProtocolError; BrokerUnavailableError; ConnectionError]
    (fun e => modify close_transport ≫= fun _ => bawait WaitClosed ≫= fun _ => lift (Err e)).

Definition probe_broker : bco bool :=
  catch (
    wait_for (bawait OpenConnection) ≫= fun _ =>
    wait_for (send PING []) ≫= fun _ =>
    response ← wait_for (read_frame 0);
    frames_close ≫= fun _ =>
    mret (bool_decide (frame_kind response = PONG) && bool_decide (frame_payload response = [])))
    [TimeoutError; OSError; BrokerProtocolError; ConnectionError] (fun _ => mret false).
