(* ===== verification/BrokerMessages.v ===== *)
(** * Control messages of the broker protocol: encoding and decoding

    The round trips of [StartRequest], [ExitMessage] and [ErrorMessage], and
    what a decoder guarantees about any payload it accepts. *)

From Stdlib Require Import Init.Byte.
From S2P Require Import Prelude Text Regex Json Boards Async BrokerProtocol.

Lemma session_id_pattern t :
  re_match SESSION_ID_PATTERN t = true <->
  length t = 32%nat /\ Forall (fun c => is_hex_lower c = true) t.
Proof. rewrite re_match_spec. apply lang_cls_rep. Qed.

Lemma error_code_pattern t :
  re_match ERROR_CODE_PATTERN t = true <->
  exists c t', t = c :: t' /\ (is_lower c || is_dec c) = true /\ (length t' <= 63)%nat /\
    Forall (fun c => (is_lower c || is_dec c || (c =? 45)) = true) t'.
Proof.
  rewrite re_match_spec. unfold ERROR_CODE_PATTERN. rewrite lang_rcat. split.
  - intros (a & b & -> & (c & -> & Hc)%lang_cls & (Hl & Hb)%lang_cls_upto). exists c, b. done.
  - intros (c & b & -> & Hc & Hl & Hb). exists [c], b. split; [done|].
    split; [apply lang_cls; eauto|]. apply lang_cls_upto. done.
Qed.

(** ** Lengths of printed strings *)

Lemma length_esc_char c : (length (esc_char c) <= 12)%nat.
Proof.
  unfold esc_char, esc_unit, hex4.
  repeat match goal with |- context [if ?b then _ else _] => destruct b end; simpl; lia.
Qed.

Lemma length_dump_str t : zlen (dump_str t) <= 2 + 12 * zlen t.
Proof.
  unfold dump_str. cbn [length]. rewrite length_app. cbn [length].
  enough (length (concat (map esc_char t)) <= 12 * length t)%nat by lia.
  induction t as [|c t IH]; cbn [map concat length]; [lia|].
  rewrite length_app. pose proof (length_esc_char c). lia.
Qed.

(** ** Payloads *)

Lemma json_payload_roundtrip v l :
  plain v -> canon true v = JObj l -> zlen (dumps (fun _ => []) true [] v) <= MAX_CONTROL_PAYLOAD ->
  exists p, json_payload v = Ok p /\ json_object p = Ok l /\ zlen p <= MAX_CONTROL_PAYLOAD.
Proof.
  intros Hp Hc Hl. exists (map z2b (dumps (fun _ => []) true [] v)).
  unfold json_payload, json_object. rewrite encode_dumps by done. cbn [mbind res_bind].
  rewrite length_map. destruct (Z.ltb_spec MAX_CONTROL_PAYLOAD
    (zlen (dumps (fun _ => []) true [] v))); [lia|].
  rewrite loads_dumps, Hc by done. done.
Qed.

Lemma json_object_ok p d : json_object p = Ok d ->
  zlen p <= MAX_CONTROL_PAYLOAD /\ loads p = Ok (JObj d).
Proof.
  unfold json_object. destruct (Z.ltb_spec MAX_CONTROL_PAYLOAD (zlen p)); [done|].
  destruct (loads p) as [v|e]; cbn; [|by destruct (_ || _)]. destruct v; naive_solver.
Qed.

(** A decoder only fails with the protocol error. *)
Lemma json_object_err p e : json_object p = Err e -> exn_class e = BrokerProtocolError.
Proof.
  unfold json_object. destruct (_ <? _); [by intros [= <-]|].
  destruct (loads p) as [v|e'] eqn:El.
  - destruct v; cbn; try done; by intros [= <-].
  - assert (exn_class e' = UnicodeDecodeError \/ exn_class e' = JSONDecodeError) as H.
    { unfold loads in El. destruct (json_decode _); [|injection El as <-; auto].
      unfold loads_text in El. destruct (scan_value _ _) as [[v r]|];
        [destruct (skip_ws r)|]; [done|injection El as <-; auto..]. }
    unfold try_except. destruct H as [-> | ->]; cbn; by intros [= <-].
Qed.

Lemma keys_are_get (d : list (text * json)) ks k : keys_are d ks = true -> k ∈ ks ->
  exists v, dict_get k d = Some v.
Proof.
  unfold keys_are. intros [_ H]%andb_prop Hk.
  rewrite forallb_forall in H. specialize (H k). rewrite <- list_elem_of_In in H.
  specialize (H Hk). apply bool_decide_eq_true_1 in H. clear Hk. unfold dict_keys in H.
  induction d as [|[k' v] d IH]; cbn in *; [by apply elem_of_nil in H|].
  destruct (decide (k = k')); [eauto|]. apply IH.
  apply elem_of_cons in H as [?|?]; [done|done].
Qed.

(** ** Messages *)

Definition hex_id (t : text) : Prop :=
  length t = 32%nat /\ Forall (fun c => is_hex_lower c = true) t.

Lemma StartRequest_init_ok sid bid r :
  StartRequest_init sid bid = Ok r <->
  r = mkStart sid bid /\ hex_id sid /\ (bid = lit "cardputer-adv" \/ bid = lit "sticks3").
Proof.
  unfold StartRequest_init, owned_board. unfold hex_id. rewrite <- session_id_pattern.
  destruct (re_match _ _); cbn [negb]; [|split; [done|by intros (_ & ? & _)]].
  destruct (dict_get bid BOARD_PROFILES) as [b|] eqn:Eb; cbn [negb].
  - apply board_cases in Eb as [[-> _]|[-> _]]; (split; [intros [= <-]; auto|by intros [-> _]]).
  - split; [done|]. intros (_ & _ & [-> | ->]); done.
Qed.

Lemma hex_lower_range c : is_hex_lower c = true -> 48 <= c <= 102.
Proof. unfold is_hex_lower, is_dec, in_range. lia. Qed.

Lemma valid_ascii t : Forall (fun c => 0 <= c < 128) t -> Forall valid_char t.
Proof.
  intros Ht. eapply Forall_impl; [exact Ht|]. intros c H. cbn in H. split; [lia|]. by bool_rw.
Qed.

Lemma plain_obj l :
  NoDup (dict_keys l) ->
  Forall (fun p => Forall (fun c => 0 <= c < 128) (fst p) /\ plain (snd p)) l -> plain (JObj l).
Proof.
  intros Hn Hl. constructor; [done|]. eapply Forall_impl; [exact Hl|].
  intros p [H ?]. split; [by apply valid_ascii|done].
Qed.

Lemma plain_str t : Forall (fun c => 0 <= c < 128) t -> plain (JStr t).
Proof. intros H. constructor. by apply valid_ascii. Qed.

(** Closed side conditions on literal keys. *)
Ltac literal := apply (bool_decide_unpack _); vm_compute; exact I.

Lemma error_code_ascii t : re_match ERROR_CODE_PATTERN t = true ->
  Forall (fun c => 0 <= c < 128) t /\ (length t <= 64)%nat /\ t <> [].
Proof.
  intros (c & t' & -> & Hc & Hl & Ht)%error_code_pattern. split; [|split; [simpl; lia|done]].
  unfold is_lower, is_dec, in_range in *. constructor; [lia|].
  eapply Forall_impl; [exact Ht|]. cbn. lia.
Qed.

(** A start request that the constructor accepts survives encoding: its
    payload fits the control limit and decodes to the same request. *)
Theorem start_request_roundtrip sid bid r :
  StartRequest_init sid bid = Ok r ->
  exists p, StartRequest_to_payload r = Ok p /\ zlen p <= MAX_CONTROL_PAYLOAD /\
    StartRequest_from_payload p = Ok r.
Proof.
  intros H. pose proof (proj1 (StartRequest_init_ok _ _ _) H) as (-> & [Hl Hs] & Hb).
  unfold StartRequest_to_payload, StartRequest_from_payload.
  cbn [start_session_id start_board_id].
  assert (Forall (fun c => 0 <= c < 128) sid) as Hsa.
  { eapply Forall_impl; [exact Hs|]. intros c Hc%hex_lower_range. lia. }
  assert (Forall (fun c => 0 <= c < 128) bid) as Hba by (destruct Hb as [-> | ->]; literal).
  destruct (json_payload_roundtrip
    (JObj [(lit "protocol", JInt PROTOCOL_VERSION); (lit "session_id", JStr sid);
           (lit "board_id", JStr bid)])
    [(lit "board_id", JStr bid); (lit "protocol", JInt PROTOCOL_VERSION);
     (lit "session_id", JStr sid)]) as (p & -> & Hp & Hle).
  - apply plain_obj; [literal|]. rewrite !Forall_cons. cbn [fst snd].
    split_and!; [literal|constructor|literal|by apply plain_str|literal|by apply plain_str|done].
  - reflexivity.
  - pose proof (length_dump_str sid). pose proof (length_dump_str bid).
    assert (zlen bid <= 13) by (destruct Hb as [-> | ->]; vm_compute; done).
    unfold MAX_CONTROL_PAYLOAD. cbn [dumps map fst snd].
    change (sort_items _) with [(lit "board_id", dump_str bid);
      (lit "protocol", str_of_int PROTOCOL_VERSION); (lit "session_id", dump_str sid)].
    cbn [map join fst snd]. rewrite ?app_nil_l. autorewrite with lengths. cbn [length]. autorewrite with lengths.
    change (length (dump_str (lit "board_id"))) with 10%nat.
    change (length (dump_str (lit "protocol"))) with 10%nat.
    change (length (dump_str (lit "session_id"))) with 12%nat.
    cbn [length]. change (length (str_of_int PROTOCOL_VERSION)) with 1%nat. lia.
  - exists p. split; [done|]. split; [done|]. rewrite Hp. cbn [mbind res_bind].
    exact H.
Qed.

(** Whatever bytes arrive, a start request that decodes names a session
    by 32 lowercase hexadecimal digits and an owned board, from a payload of
    at most 4096 bytes; every other payload is the protocol error. *)
Theorem start_request_sound p :
  match StartRequest_from_payload p with
  | Ok r => zlen p <= MAX_CONTROL_PAYLOAD /\ hex_id (start_session_id r) /\
            exists b, dict_get (start_board_id r) BOARD_PROFILES = Some b
  | Err e => exn_class e = BrokerProtocolError
  end.
Proof.
  unfold StartRequest_from_payload. destruct (json_object p) as [d|e] eqn:Ep; cbn [mbind res_bind].
  2:{ by eapply json_object_err. }
  apply json_object_ok in Ep as [Hle _].
  destruct (negb (keys_are d _)); [done|]. destruct (bad_protocol _); [done|].
  destruct (field "session_id" d) as [| | | |sid| |]; try done.
  destruct (field "board_id" d) as [| | | |bid| |]; try done.
  destruct (StartRequest_init sid bid) as [r|e] eqn:Er.
  - apply StartRequest_init_ok in Er as (-> & ? & [-> | ->]);
      (split; [done|]; split; [done|eexists; vm_compute; reflexivity]).
  - unfold StartRequest_init in Er. repeat case_match; try done; by injection Er as <-.
Qed.

Lemma error_init_ok code message e :
  ErrorMessage_init code message = Ok e <->
  e = mkError code message /\ re_match ERROR_CODE_PATTERN code = true /\ message <> [] /\
  zlen message <= 200 /\ Forall (fun c => c <> 13 /\ c <> 10) message.
Proof.
  unfold ErrorMessage_init. destruct (re_match _ _); cbn [negb]; [|split; [done|naive_solver]].
  case_bool_decide as Hm; cbn [orb]; [split; [done|naive_solver]|].
  destruct (Z.ltb_spec 200 (zlen message)); cbn [orb]; [split; [done|naive_solver lia]|].
  assert (existsb (fun c => (c =? 13) || (c =? 10)) message = false <->
          Forall (fun c => c <> 13 /\ c <> 10) message) as Hx.
  { clear. induction message as [|c m IH]; cbn; [split; [constructor|done]|].
    rewrite Forall_cons, orb_false_iff, IH. intuition lia. }
  destruct (existsb _ message) eqn:E.
  - split; [done|]. intros (_ & _ & _ & _ & H'). apply Hx in H'. done.
  - split; [intros [= <-]; naive_solver|]. by intros (-> & _).
Qed.

(** An error message that the constructor accepts survives encoding
    whenever it holds no lone surrogate: even two hundred characters that all
    need two escapes fit the control limit. *)
Theorem error_message_roundtrip code message e :
  ErrorMessage_init code message = Ok e -> Forall valid_char message ->
  exists p, ErrorMessage_to_payload e = Ok p /\ zlen p <= MAX_CONTROL_PAYLOAD /\
    ErrorMessage_from_payload p = Ok e.
Proof.
  intros H Hv. pose proof (proj1 (error_init_ok _ _ _) H) as (-> & Hc & Hne & Hl & _).
  apply error_code_ascii in Hc as (Hca & Hcl & _).
  unfold ErrorMessage_to_payload, ErrorMessage_from_payload. cbn [error_code error_message].
  destruct (json_payload_roundtrip
    (JObj [(lit "code", JStr code); (lit "message", JStr message)])
    [(lit "code", JStr code); (lit "message", JStr message)]) as (p & -> & Hp & Hle).
  - apply plain_obj; [literal|]. rewrite !Forall_cons. cbn [fst snd].
    split_and!; [literal|by apply plain_str|literal|by constructor|done].
  - reflexivity.
  - pose proof (length_dump_str code). pose proof (length_dump_str message).
    unfold MAX_CONTROL_PAYLOAD. cbn [dumps map fst snd].
    change (sort_items _) with [(lit "code", dump_str code); (lit "message", dump_str message)].
    cbn [map join fst snd]. rewrite ?app_nil_l. autorewrite with lengths. cbn [length]. autorewrite with lengths.
    change (length (dump_str (lit "code"))) with 6%nat.
    change (length (dump_str (lit "message"))) with 9%nat. cbn [length]. lia.
  - exists p. split; [done|]. split; [done|]. rewrite Hp. exact H.
Qed.

Lemma error_message_roundtrip_witness :
  exists p, ErrorMessage_to_payload (mkError (lit "launch-failed") (lit "no" ++ [8364])) = Ok p /\
    zlen p <= MAX_CONTROL_PAYLOAD /\
    ErrorMessage_from_payload p = Ok (mkError (lit "launch-failed") (lit "no" ++ [8364])).
Proof.
  apply (error_message_roundtrip (lit "launch-failed") (lit "no" ++ [8364])).
  - vm_compute. reflexivity.
  - repeat constructor; vm_compute; done.
Defined.

Lemma start_request_roundtrip_witness :
  exists p, StartRequest_to_payload
      (mkStart (lit "0123456789abcdef0123456789abcdef") (lit "sticks3")) = Ok p /\
    zlen p <= MAX_CONTROL_PAYLOAD /\
    StartRequest_from_payload p =
      Ok (mkStart (lit "0123456789abcdef0123456789abcdef") (lit "sticks3")).
Proof.
  apply (start_request_roundtrip (lit "0123456789abcdef0123456789abcdef") (lit "sticks3")).
  vm_compute. reflexivity.
Defined.

Lemma exit_message_range p :
  match ExitMessage_from_payload p with
  | Ok rc => -255 <= rc <= 255
  | Err e => exn_class e = BrokerProtocolError
  end.
Proof.
  unfold ExitMessage_from_payload, ExitMessage_init.
  destruct (json_object p) as [d|e] eqn:Ep; cbn [mbind res_bind].
  2:{ by eapply json_object_err. }
  destruct (negb _); [done|]. destruct (field _ d); try done.
  destruct (_ && _) eqn:E; [|done]. lia.
Qed.

(** [ExitMessage]: exactly the return codes from -255 to 255 can be sent,
    and they arrive unchanged; JSON booleans and every other payload are the
    protocol error. *)
Theorem exit_message_roundtrip z :
  (-255 <= z <= 255 ->
    exists p, ExitMessage_to_payload z = Ok p /\ ExitMessage_from_payload p = Ok z) /\
  (forall p, match ExitMessage_from_payload p with
             | Ok rc => -255 <= rc <= 255
             | Err e => exn_class e = BrokerProtocolError
             end).
Proof.
  split.
  - intros Hz. unfold ExitMessage_to_payload, ExitMessage_from_payload.
    destruct (json_payload_roundtrip (JObj [(lit "returncode", JInt z)])
      [(lit "returncode", JInt z)]) as (p & -> & Hp & _).
    + apply plain_obj; [literal|]. rewrite !Forall_cons. split_and!; [literal|constructor|done].
    + reflexivity.
    + assert (zlen (str_of_int z) <= 10) as Hl.
      { pose proof (Z.log2_le_mono (Z.abs z) 255 ltac:(lia)). change (Z.log2 255) with 7 in *.
        unfold str_of_int, format_int. destruct (Z.ltb_spec z 0); cbn [length].
        - pose proof (length_format_nat 10 (- z)). replace (Z.abs z) with (- z) in * by lia. lia.
        - pose proof (length_format_nat 10 z). replace (Z.abs z) with z in * by lia. lia. }
      unfold MAX_CONTROL_PAYLOAD. cbn [dumps map fst snd].
      change (sort_items _) with [(lit "returncode", str_of_int z)].
      cbn [map join fst snd]. rewrite ?app_nil_l. autorewrite with lengths. cbn [length]. autorewrite with lengths.
      change (length (dump_str (lit "returncode"))) with 12%nat. cbn [length]. lia.
    + exists p. split; [done|]. rewrite Hp. cbn [mbind res_bind].
      change (negb _) with false. cbv iota. change (field _ _) with (JInt z).
      unfold ExitMessage_init. by bool_rw.
  - apply exit_message_range.
Qed.
