(* ===== verification/BrokerStreams.v ===== *)
(** * Frames of the broker protocol over a byte stream

    [read_frame] against a reader that holds some bytes: it inverts
    [frame_bytes] and refuses everything else. *)

From Stdlib Require Import Init.Byte.
From S2P Require Import Prelude Text Json Async BrokerProtocol.

(** ** A byte stream *)

(** The reader yields the bytes of the list and then the end of the stream;
    every other operation succeeds at once. *)
Definition stream_await (self : tid) (o : bop) (w : bytes) (s : BrokerWorker)
    : res (bresp o) * bytes * BrokerWorker :=
  match o with
  | ReadExactly n => if n <=? zlen w then (Ok (take (Z.to_nat n) w), drop (Z.to_nat n) w, s)
                     else (raise IncompleteReadError [], [], s)
  | Acquire l => (Ok tt, w, set_owner l (Some self) s)
  | WaitExit => (Ok (default 0 (bw_waiter s)), w, s)
  | DeadlineHit => (Ok true, w, s)
  | _ => (Ok tt, w, s)
  end.
Definition stream_call (o : bop) (w : bytes) (s : BrokerWorker) : res (bresp o) * bytes :=
  match o with
  | DeadlineHit => (Ok false, w)
  | _ => (raise RuntimeError [], w)
  end.
Definition stream (self : tid) : handler BrokerWorker bop bresp bytes :=
  mkHandler stream_call (stream_await self) self (fun _ w => (S self, w)).

Lemma kind_of_value k : kind_of (kind_value k) = Some k.
Proof. by destruct k. Qed.
Lemma kind_of_some v k : kind_of v = Some k -> kind_value k = v.
Proof. intros [_ H]%List.find_some. by apply Z.eqb_eq. Qed.
Lemma kind_value_range k : 0 <= kind_value k < 256.
Proof. by destruct k. Qed.

Lemma length_frame_header k p : length (frame_header k p) = 5%nat.
Proof. unfold frame_header. cbn [length]. by rewrite length_be_bytes. Qed.

(** Five bytes are the header of one frame kind and size at most. *)
Lemma frame_header_inv h k n : length h = 5%nat -> kind_of (b2z (default x00 (head h))) = Some k ->
  be_value (drop 1 h) = n -> h = z2b (kind_value k) :: be_bytes 4 n.
Proof.
  destruct h as [|b h]; [done|]. intros [= Hl]. cbn [head default drop from_option].
  intros Hk%kind_of_some <-. rewrite Hk, z2b_b2z. f_equal.
  rewrite <- Hl. by rewrite be_bytes_value.
Qed.

Lemma frame_header_parts k p : zlen p < 2 ^ 32 ->
  kind_of (b2z (default x00 (head (frame_header k p)))) = Some k /\
  be_value (drop 1 (frame_header k p)) = zlen p.
Proof.
  intros Hp. split.
  - change (kind_of (b2z (z2b (kind_value k))) = Some k). rewrite b2z_z2b, Z.mod_small by apply kind_value_range. apply kind_of_value.
  - change (be_value (be_bytes 4 (zlen p)) = zlen p). apply be_value_bytes. change (256 ^ Z.of_nat 4) with (2 ^ 32). lia.
Qed.

(** What [read_frame] computes. *)
Lemma read_frame_run t fuel limit w s : run (stream t) fuel (read_frame limit) w s =
  if 5 <=? zlen w then
    let h := take 5 w in let n := be_value (drop 1 h) in
    if Z.min limit MAX_FRAME_PAYLOAD <? n then
      Some (protocol_error "broker frame payload exceeds its limit", drop 5 w, s)
    else match kind_of (b2z (default x00 (head h))) with
         | None => Some (protocol_error "broker frame type is unknown", drop 5 w, s)
         | Some k => if n <=? zlen (drop 5 w)
             then Some (Ok (mkFrame k (take (Z.to_nat n) (drop 5 w))),
                        drop (Z.to_nat n) (drop 5 w), s)
             else Some (protocol_error "broker connection ended inside a frame", [], s)
         end
  else Some (protocol_error "broker connection ended before a complete frame", [], s).
Proof.
  unfold read_frame.
  cbn [seq catch t_read_exactly worker_transport bawait await mbind co_bind run h_await stream stream_await].
  change FRAME_HEADER_size with 5. destruct (5 <=? zlen w); [|done].
  cbn [seq]. change (Z.to_nat 5) with 5%nat. cbv zeta.
  destruct (_ <? _); [done|]. destruct (kind_of _); [|done].
  cbn [seq t_read_exactly worker_transport bawait await run h_await stream stream_await]. by destruct (_ <=? _).
Qed.

(** It reads back every frame within the limit. *)
Lemma read_frame_image t fuel limit k p rest s : zlen p <= Z.min limit MAX_FRAME_PAYLOAD ->
  run (stream t) fuel (read_frame limit) (frame_bytes k p ++ rest) s = Some (Ok (mkFrame k p), rest, s).
Proof.
  intros Hp. rewrite read_frame_run. unfold MAX_FRAME_PAYLOAD in *.
  assert (take 5 (frame_bytes k p ++ rest) = frame_header k p) as ->.
  { unfold frame_bytes. rewrite <- app_assoc. apply take_app_length'. by rewrite length_frame_header. }
  assert (drop 5 (frame_bytes k p ++ rest) = p ++ rest) as ->.
  { unfold frame_bytes. rewrite <- app_assoc. apply drop_app_length'. by rewrite length_frame_header. }
  assert (5 <= zlen (frame_bytes k p ++ rest)).
  { unfold frame_bytes. rewrite !length_app, length_frame_header. lia. }
  destruct (frame_header_parts k p) as [Ek En]; [lia|]. cbv zeta. rewrite Ek, En.
  rewrite (proj2 (Z.leb_le _ _)) by done. rewrite (proj2 (Z.ltb_ge _ _)) by lia.
  rewrite (proj2 (Z.leb_le _ _)) by len_lia.
  by rewrite Nat2Z.id, take_app_length, drop_app_length.
Qed.

(** C31: the frame reader is the inverse of the frame writer.  On any input
    stream [read_frame] terminates; a frame it returns is exactly the wire
    image that the stream starts with, within the limit, the rest is left
    unread, and every other outcome is the protocol error.  Conversely every
    frame within the limit is read back. *)
Theorem read_frame_stream t limit w s :
  (match run (stream t) 0 (read_frame limit) w s with
   | Some (Ok f, w', s') => w = frame_bytes (frame_kind f) (frame_payload f) ++ w' /\
       zlen (frame_payload f) <= Z.min limit MAX_FRAME_PAYLOAD /\ s' = s
   | Some (Err e, _, s') => exn_class e = BrokerProtocolError /\ s' = s
   | None => False
   end) /\
  (forall k p rest, zlen p <= Z.min limit MAX_FRAME_PAYLOAD -> w = frame_bytes k p ++ rest ->
     run (stream t) 0 (read_frame limit) w s = Some (Ok (mkFrame k p), rest, s)).
Proof.
  split; [|intros k p rest Hp ->; by apply read_frame_image]. rewrite read_frame_run.
  destruct (Z.leb_spec 5 (zlen w)) as [H5|H5]; [|done]. cbv zeta.
  destruct (Z.ltb_spec (Z.min limit MAX_FRAME_PAYLOAD) (be_value (drop 1 (take 5 w)))); [done|].
  destruct (kind_of _) as [k|] eqn:Ek; [|done].
  destruct (Z.leb_spec (be_value (drop 1 (take 5 w))) (zlen (drop 5 w))); [|done].
  cbn [frame_kind frame_payload].
  pose proof (be_value_range (drop 1 (take 5 w))) as [Hn _].
  split; [|split; [rewrite length_take; lia|done]].
  unfold frame_bytes, frame_header. rewrite <- app_assoc, take_drop, length_take.
  transitivity (take 5 w ++ drop 5 w); [by rewrite take_drop|]. f_equal.
  apply frame_header_inv; [rewrite length_take; lia|done|lia].
Qed.
