(* ===== verification/BrokerWorkerSafety.v ===== *)
(** * The broker worker object under every interleaving

    The tasks of one [BrokerWorkerProcess] share its buffers, its locks and
    the transport.  The invariant [bw_inv] holds whenever all of them are
    suspended: the transport carries whole frames, the STDIN frames are the
    accepted input in order, the buffer keeps its bound, and the return code
    is set once. *)

From Stdlib Require Import Init.Byte.
From S2P Require Import Prelude Text Json Async BrokerProtocol BrokerMessages BrokerStreams.

(** ** What a peer reads from the transport *)

Definition image (f : BrokerFrame) : bytes := frame_bytes (frame_kind f) (frame_payload f).

Fixpoint parse_frames (fuel : nat) (w : bytes) : option (list BrokerFrame) :=
  match w, fuel with
  | [], _ => Some []
  | _ :: _, O => None
  | b :: r, S fuel' =>
      let n := be_value (take 4 r) in
      match kind_of (b2z b) with
      | Some k => if (4 <=? zlen r) && (n <=? zlen (drop 4 r))
                  then cons (mkFrame k (take (Z.to_nat n) (drop 4 r))) <$>
                       parse_frames fuel' (drop (Z.to_nat n) (drop 4 r))
                  else None
      | None => None
      end
  end.
Definition wire_frames (w : bytes) : option (list BrokerFrame) := parse_frames (length w) w.
Definition stdin_payload (f : BrokerFrame) : option bytes :=
  if decide (frame_kind f = STDIN) then Some (frame_payload f) else None.
(** The payloads of the STDIN frames on the wire. *)
Definition sent (s : BrokerWorker) : list bytes :=
  omap stdin_payload (default [] (wire_frames (bw_wire s))).

Definition framed (w : bytes) (fs : list BrokerFrame) : Prop :=
  w = concat (map image fs) /\ Forall (fun f => zlen (frame_payload f) <= MAX_FRAME_PAYLOAD) fs.

Lemma parse_frames_image fs f :
  Forall (fun f => zlen (frame_payload f) <= MAX_FRAME_PAYLOAD) fs ->
  (length (concat (map image fs)) <= f)%nat -> parse_frames f (concat (map image fs)) = Some fs.
Proof.
  intros H. revert f. induction H as [|[k p] fs Hp _ IH]; intros f Hf; [by destruct f|].
  cbn [map concat] in *.
  change (image (mkFrame k p)) with (z2b (kind_value k) :: be_bytes 4 (zlen p) ++ p) in *.
  cbn [frame_kind frame_payload app length] in *. unfold MAX_FRAME_PAYLOAD in Hp.
  destruct f as [|f]; [lia|]. cbn [parse_frames].
  rewrite b2z_z2b, Z.mod_small, kind_of_value by apply kind_value_range.
  rewrite <- !app_assoc in *. rewrite take_app_length', drop_app_length' by (by rewrite length_be_bytes).
  rewrite be_value_bytes by (change (256 ^ Z.of_nat 4) with (2 ^ 32); lia).
  rewrite !length_app, length_be_bytes in Hf |- *.
  rewrite (proj2 (Z.leb_le _ _)), (proj2 (Z.leb_le _ _)) by lia. cbn [andb].
  rewrite Nat2Z.id, take_app_length, drop_app_length, IH by lia. done.
Qed.

Lemma framed_frames w fs : framed w fs -> wire_frames w = Some fs.
Proof. intros [-> H]. by apply parse_frames_image. Qed.

Lemma framed_snoc w fs k p : framed w fs -> zlen p <= MAX_FRAME_PAYLOAD ->
  framed ((w ++ frame_header k p) ++ p) (fs ++ [mkFrame k p]).
Proof.
  intros [-> H] Hp. split; [|apply Forall_app_2; by repeat constructor].
  rewrite map_app, concat_app, <- app_assoc. f_equal. cbn [map concat]. by rewrite app_nil_r.
Qed.

(** ** The environment *)

Definition bw_replies (s : BrokerWorker) (o : bop) (r : res (bresp o)) : Prop := True.

(** Reads return what was asked for or raise, the exit code is the one of the
    future, a lock is granted only while it is free; nothing else changes. *)
Definition bw_answers (s : BrokerWorker) (t : tid) (o : bop) (r : res (bresp o))
    (s' : BrokerWorker) : Prop :=
  match o return res (bresp o) -> Prop with
  | Acquire l => fun r => (owner l s = None /\ r = Ok tt /\ s' = set_owner l (Some t) s) \/
                          (is_ok r = false /\ s' = s)
  | ReadExactly n => fun r => s' = s /\ forall b, r = Ok b -> zlen b = n
  | WaitExit => fun r => s' = s /\ forall z, r = Ok z -> bw_waiter s = Some z
  | _ => fun _ => s' = s
  end r.

(** ** Invariant and rely *)

Definition exit_code (c : option Z) : Prop :=
  match c with Some z => -255 <= z <= 255 | None => True end.

Record bw_inv (s : BrokerWorker) : Prop := {
  inv_framed : exists fs, framed (bw_wire s) fs;
  inv_order : sublist (sent s ++ bs_pending s) (bs_accepted s);
  inv_bytes : bs_pending_bytes s = zlen (concat (bs_pending s));
  inv_bound : bs_pending_bytes s <= MAX_BUFFERED_STDIN;
  inv_chunks : Forall (fun c => zlen c <= MAX_STREAM_CHUNK) (bs_accepted s);
  inv_closed : bs_closed s = true -> bs_pending s = [];
  inv_waiter : bw_waiter s = bw_returncode s;
  inv_code : exit_code (bw_returncode s) }.

(** While a task waits the others keep the return code once it is set; and if the task holds the input lock they send no
    input, so that what it has in hand still fits in. *)
Record bw_rely (t : tid) (s s' : BrokerWorker) : Prop := {
  rely_code : forall c, bw_returncode s = Some c -> bw_returncode s' = Some c;
  rely_lock : bw_stdin_lock s = Some t -> bw_stdin_lock s' = Some t /\
    forall x, sublist (sent s ++ x ++ bs_pending s) (bs_accepted s) ->
              sublist (sent s' ++ x ++ bs_pending s') (bs_accepted s') }.

#[export] Instance bw_rely_preorder t : PreOrder (bw_rely t).
Proof.
  split; [by constructor; auto|].
  intros s1 s2 s3 [A1 A2] [B1 B2]. constructor; auto.
  intros H. destruct (A2 H) as [H2 Hx]. destruct (B2 H2) as [H3 Hy]. split; auto.
Qed.

Abbreviation bwp := (wp bw_replies bw_answers bw_inv bw_rely).
Abbreviation btrace := (list (event bop bresp)).

(** ** Steps *)

Lemma bw_await self o (Q : btrace -> res (bresp o) -> BrokerWorker -> Prop) tr s :
  bw_inv s -> (forall r s1 s', bw_rely self s s1 -> bw_inv s1 -> bw_answers s1 self o r s' ->
                 Q (tr ++ [Awaited o r]) r s') -> bwp self (bawait o) Q tr s.
Proof. done. Qed.
Ltac await_step :=
  cbn [t_drain t_read_exactly worker_transport];
  match goal with |- wp _ _ _ _ _ (bawait ?o) _ _ _ => apply (bw_await _ o); [try done|] end.

(** [x] is the input that the drain which holds the lock has still in hand. *)
Definition in_hand (self : tid) (x : list bytes) (s : BrokerWorker) : Prop :=
  bw_stdin_lock s = Some self /\ sublist (sent s ++ x ++ bs_pending s) (bs_accepted s).

Lemma in_hand_rely self x s s' : bw_rely self s s' -> in_hand self x s -> in_hand self x s'.
Proof. intros [_ H] [Hl Hx]. destruct (H Hl) as [Hl' Hx']. split; auto. Qed.

Definition put_frame (k : FrameKind) (p : bytes) (s : BrokerWorker) : BrokerWorker :=
  set_wire (fun w => w ++ p) (set_wire (fun w => w ++ frame_header k p) s).

Lemma sent_put_frame k p s :
  (exists fs, framed (bw_wire s) fs) -> zlen p <= MAX_FRAME_PAYLOAD ->
  sent (put_frame k p s) = sent s ++ (if decide (k = STDIN) then [p] else []).
Proof.
  intros [fs Hf] Hp. unfold sent. cbn [put_frame bw_wire set_wire].
  rewrite (framed_frames _ _ (framed_snoc _ _ k p Hf Hp)), (framed_frames _ _ Hf).
  cbn [from_option id]. rewrite omap_app. f_equal. cbn. unfold stdin_payload. cbn.
  by destruct (decide (k = STDIN)).
Qed.

(** Updates that touch neither the buffers nor the wire nor the return code. *)
Record frame_only (s s' : BrokerWorker) : Prop := {
  fo_wire : bw_wire s' = bw_wire s; fo_pending : bs_pending s' = bs_pending s;
  fo_bytes : bs_pending_bytes s' = bs_pending_bytes s; fo_closed : bs_closed s' = bs_closed s;
  fo_accepted : bs_accepted s' = bs_accepted s; fo_code : bw_returncode s' = bw_returncode s;
  fo_waiter : bw_waiter s' = bw_waiter s }.

Lemma frame_only_inv s s' : frame_only s s' -> bw_inv s -> bw_inv s'.
Proof.
  intros [E1 E2 E3 E4 E5 E6 E7] [H1 H2 H3 H4 H5 H6 H7 H8].
  constructor; unfold sent in *; rewrite ?E1, ?E2, ?E3, ?E4, ?E5, ?E6, ?E7; auto.
Qed.
Lemma frame_only_rely t s s' : frame_only s s' ->
  (bw_stdin_lock s = Some t -> bw_stdin_lock s' = Some t) -> bw_rely t s s'.
Proof.
  intros [E1 E2 E3 E4 E5 E6 E7] Hl. constructor; [by rewrite E6|]. intros H. split; [auto|].
  intros x. unfold sent. by rewrite E1, E2, E5.
Qed.
Lemma frame_only_owner l o s : frame_only s (set_owner l o s).
Proof. by constructor. Qed.
#[export] Hint Resolve frame_only_owner : sim.
Lemma in_hand_owner self x o s : in_hand self x s -> in_hand self x (set_owner FramesLock o s).
Proof. done. Qed.

Lemma wp_send k p x self (tr : btrace) s :
  zlen p <= MAX_FRAME_PAYLOAD -> bw_inv s -> (k = STDIN -> in_hand self (p :: x) s) ->
  bwp self (send k p) (fun _ r s' => bw_inv s' /\
    (k = STDIN -> bw_stdin_lock s' = Some self /\ (is_ok r = true -> in_hand self x s'))) tr s.
Proof.
  intros Hp Hi Hh. unfold send. rewrite (proj2 (Z.ltb_ge _ _)) by done.
  apply wp_locked. await_step.
  intros r s1 s' HR Hi1. cbn [bw_answers]. assert (k = STDIN -> in_hand self (p :: x) s1) as Hh1
    by (intros Hk; eapply in_hand_rely; eauto).
  intros [(Hn & -> & ->)|[Hr ->]].
  2:{ destruct r; [done|]. split; [done|]. intros Hk. split; [apply Hh1, Hk|done]. }
  apply wp_bind, wp_modify.
  { intros t Ht. change (bw_rely t (set_owner FramesLock (Some self) s1)
      (put_frame k p (set_owner FramesLock (Some self) s1))).
    constructor; [done|]. intros Hl. split; [done|]. intros y.
    rewrite sent_put_frame by (done || apply Hi1). destruct (decide (k = STDIN)) as [Hk|].
    - destruct (Hh1 Hk) as [Hl1 _]. cbn in Hl. congruence.
    - by rewrite app_nil_r. }
  change (foldl _ _ _) with (put_frame k p (set_owner FramesLock (Some self) s1)).
  set (s2 := put_frame k p _).
  assert (sent s2 = sent s1 ++ (if decide (k = STDIN) then [p] else [])) as Hsent
    by exact (sent_put_frame k p (set_owner FramesLock (Some self) s1) (inv_framed _ Hi1) Hp).
  assert (bw_inv s2) as Hi2.
  { destruct Hi1 as [[fs H1] H2 H3 H4 H5 H6 H7 H8]. constructor; auto.
    - exists (fs ++ [mkFrame k p]). by apply framed_snoc.
    - rewrite Hsent. destruct (decide (k = STDIN)) as [Hk|]; [|by rewrite app_nil_r].
      destruct (Hh1 Hk) as [_ Hx]. etrans; [|exact Hx]. cbn [s2 put_frame set_wire set_owner bs_pending].
      rewrite <- app_assoc. apply sublist_app; [done|]. cbn [app]. apply sublist_skip.
      by apply sublist_inserts_l. }
  assert (k = STDIN -> in_hand self x s2) as Hh2.
  { intros Hk. destruct (Hh1 Hk) as [Hl Hx]. split; [done|]. rewrite Hsent, decide_True by done.
    rewrite <- app_assoc. exact Hx. }
  await_step. intros r s3 s4 HR3 Hi3 ->.
  split; [intros t _; apply frame_only_rely; auto with sim|].
  split; [by eapply frame_only_inv; auto with sim|].
  intros Hk. specialize (in_hand_rely _ _ _ _ HR3 (Hh2 Hk)) as [Hl Hx]. split; [done|]. done.
Qed.

(** A step that keeps the invariant and that no other task minds. *)
Definition mild (f : BrokerWorker -> BrokerWorker) : Prop :=
  forall s, bw_inv s -> bw_inv (f s) /\ forall t, bw_rely t s (f s).

Lemma wp_mild self f (Q : btrace -> res unit -> BrokerWorker -> Prop) tr s :
  mild f -> bw_inv s -> (bw_inv (f s) -> Q tr (Ok tt) (f s)) -> bwp self (modify f) Q tr s.
Proof. intros Hf Hi HQ. destruct (Hf s Hi) as [Hi' HR]. apply wp_modify; auto. Qed.

Lemma mild_stdout b : mild (feed_stdout b).
Proof.
  intros s Hi. assert (frame_only s (feed_stdout b s)) as Hf by by constructor.
  split; [by eapply frame_only_inv|]. intros t. by apply frame_only_rely.
Qed.
Lemma mild_stderr b : mild (feed_stderr b).
Proof.
  intros s Hi. assert (frame_only s (feed_stderr b s)) as Hf by by constructor.
  split; [by eapply frame_only_inv|]. intros t. by apply frame_only_rely.
Qed.

Lemma mild_finish rc : -255 <= rc <= 255 -> mild (finish rc).
Proof.
  intros Hrc s [H1 H2 H3 H4 H5 H6 H7 H8]. unfold finish.
  destruct (bw_returncode s) as [c|] eqn:Ec.
  - split; [|reflexivity]. constructor; rewrite ?Ec; auto.
  - split; [|intros t; constructor; [by rewrite Ec|by intros Hl]].
    constructor; auto. cbn. by rewrite H7.
Qed.

(** Dropping what is buffered. *)
Lemma mild_clear s s' :
  bw_wire s' = bw_wire s -> bs_accepted s' = bs_accepted s ->
  bw_returncode s' = bw_returncode s -> bw_waiter s' = bw_waiter s ->
  bw_stdin_lock s' = bw_stdin_lock s -> bs_pending s' = [] -> bs_pending_bytes s' = 0 ->
  bw_inv s -> bw_inv s' /\ forall t, bw_rely t s s'.
Proof.
  intros E1 E2 E3 E4 E5 E6 E7 [H1 H2 H3 H4 H5 H6 H7 H8].
  assert (sent s' = sent s) as Es by (unfold sent; by rewrite E1). split.
  - constructor; rewrite ?Es, ?E1, ?E2, ?E3, ?E4, ?E6, ?E7; auto; [|done].
    etrans; [|exact H2]. apply sublist_app; [done|apply sublist_nil_l].
  - intros t. constructor; [by rewrite E3|]. rewrite E5. intros Hl. split; [done|].
    intros x Hx. rewrite Es, E2, E6. etrans; [|exact Hx].
    apply sublist_app; [done|]. apply sublist_app; [done|apply sublist_nil_l].
Qed.

Lemma mild_end_streams : mild end_streams.
Proof.
  intros s Hi. unfold end_streams. destruct (bw_stdin s); [by apply mild_clear|].
  assert (frame_only s (mkWorker (bw_wire s) true (bw_frames_lock s) (bw_stdin_lock s)
    (bs_pending s) (bs_pending_bytes s) (bs_closed s) (bs_accepted s) false (bw_stdout s)
    (bw_stderr s) true true (bw_returncode s) (bw_waiter s))) as Hf by by constructor.
  split; [by eapply frame_only_inv|]. intros t. by apply frame_only_rely.
Qed.
Lemma mild_close : mild (set_buffer [] 0 true).
Proof. intros s Hi. by apply mild_clear. Qed.

Lemma mild_write p : mild (fun s => snd (stdin_write p s)).
Proof.
  intros s Hi. unfold stdin_write. destruct (bs_closed s) eqn:Ec; [split; [done|reflexivity]|].
  destruct (Z.ltb_spec MAX_BUFFERED_STDIN (bs_pending_bytes s + zlen p)); [split; [done|reflexivity]|].
  cbn [snd]. set (parts := chunks _ p). destruct Hi as [H1 H2 H3 H4 H5 H6 H7 H8].
  assert (0 < Z.to_nat MAX_STREAM_CHUNK)%nat as H0 by (unfold MAX_STREAM_CHUNK; lia).
  assert (concat parts = p) as Hc by by apply chunks_concat.
  assert (Forall (fun c => zlen c <= MAX_STREAM_CHUNK) parts) as Hb.
  { eapply Forall_impl; [by apply chunks_bound|]. intros c [_ Hl]. lia. }
  split.
  - constructor; cbn; auto.
    + rewrite app_assoc. by apply sublist_app.
    + rewrite concat_app, length_app, Hc. lia.
    + by apply Forall_app_2.
    + congruence.
  - intros t. constructor; [done|]. intros Hl. split; [done|]. intros x Hx. cbn.
    rewrite 2!app_assoc. apply sublist_app; [|done]. by rewrite <- app_assoc.
Qed.
#[export] Hint Resolve mild_stdout mild_stderr mild_end_streams mild_close mild_write : sim.

(** ** Every task keeps the invariant *)

Abbreviation keeps := (fun (_ : btrace) _ s' => bw_inv s').

Lemma Forall_sublist {A} (P : A -> Prop) l k : sublist l k -> Forall P k -> Forall P l.
Proof. induction 1; rewrite ?Forall_cons; naive_solver. Qed.

Lemma drain_safe self tr s : bw_inv s -> bwp self stdin_drain keeps tr s.
Proof.
  intros Hi. apply wp_locked. await_step. intros r s1 s2 HR Hi1.
  intros [(Hn & -> & ->)|[Hr ->]]; [|by destruct r]. cbn [owner] in Hn.
  apply wp_bind, wp_gets, wp_bind, wp_modify.
  { intros t Ht. constructor; [done|]. cbn. congruence. }
  cbn [bs_pending set_owner bs_closed].
  set (s2 := set_buffer [] 0 _ _).
  assert (bw_inv s2) as Hi2.
  { destruct Hi1 as [H1 H2 H3 H4 H5 H6 H7 H8]. constructor; cbn; auto; [|done].
    etrans; [|exact H2]. apply sublist_app; [done|apply sublist_nil_l]. }
  apply (wp_each _ _ _ _ (fun l _ s => bw_inv s /\ in_hand self l s /\
    Forall (fun c => zlen c <= MAX_STREAM_CHUNK) l)).
  - split; [done|]. split; [split; [done|]|].
    + cbn. rewrite app_nil_r. apply Hi1.
    + eapply Forall_sublist; [|apply Hi1].
      etrans; [|apply Hi1]. by apply sublist_inserts_l.
  - intros tr' s' (Hi' & [Hl _] & _). split.
    + intros t Ht. apply frame_only_rely; [auto with sim|]. cbn. congruence.
    + by eapply frame_only_inv; [apply frame_only_owner|].
  - intros c l tr' s' (Hi' & Hh & [Hc Hl]%Forall_cons).
    eapply wp_mono; [|apply (wp_send STDIN c l)]; [|unfold MAX_STREAM_CHUNK, MAX_FRAME_PAYLOAD in *; lia|done|done].
    intros tr2 [[]|e] s3 [Hi3 H3]; destruct (H3 eq_refl) as [Hl3 Hx]; [auto|].
    split.
    + intros t Ht. apply frame_only_rely; [auto with sim|]. cbn. congruence.
    + by eapply frame_only_inv; [apply frame_only_owner|].
Qed.

Lemma read_frame_safe limit self tr s : bw_inv s -> bwp self (read_frame limit) keeps tr s.
Proof.
  intros Hi. apply wp_bind, wp_catch. await_step. intros r s1 s2 _ Hi1 [-> _].
  destruct r as [h|e]; [|by destruct (existsb _ _)]. cbv zeta.
  destruct (_ <? _); [done|]. destruct (kind_of _); [|done].
  apply wp_bind, wp_catch. await_step. intros r s3 s4 _ Hi3 [-> _].
  destruct r as [p|e]; [done|by destruct (existsb _ _)].
Qed.

Lemma control_safe k self tr s : k <> STDIN -> bw_inv s -> bwp self (send_control k) keeps tr s.
Proof.
  intros Hk Hi. apply wp_catch. eapply wp_mono; [|apply (wp_send k [] []); done].
  intros tr1 r s1 [Hi1 _]. destruct r as [|e]; [done|]. destruct (existsb _ _); [|done].
  apply wp_mild; [by apply mild_finish|done|done].
Qed.

Lemma receive_round_safe self u tr s : bw_inv s ->
  bwp self (receive_round u) (fun _ r s' => bw_inv s' /\
    match r with Ok (inr rc) => -255 <= rc <= 255 | _ => True end) tr s.
Proof.
  intros Hi. apply wp_bind. eapply wp_mono; [|by apply read_frame_safe].
  intros tr1 [f|e] s1 Hi1; [|done].
  destruct (frame_kind f); try done.
  - by apply wp_bind, wp_mild; [auto with sim| |].
  - by apply wp_bind, wp_mild; [auto with sim| |].
  - apply wp_bind. pose proof (exit_message_range (frame_payload f)) as H.
    destruct (ExitMessage_from_payload _); done.
  - apply wp_bind. destruct (ErrorMessage_from_payload _); [|done].
    apply wp_bind. destruct (utf8_encode _); [|done].
    apply wp_bind, wp_mild; auto with sim. intros ?. split; [done|lia].
Qed.

Lemma receive_safe self tr s : bw_inv s -> bwp self receive keeps tr s.
Proof.
  intros Hi. unfold receive. apply wp_seq, wp_catch.
  apply (wp_loop _ _ _ _ (fun _ _ s => bw_inv s)); [done|]. intros [] tr1 s1 Hi1.
  eapply wp_mono; [|by apply receive_round_safe]. intros tr2 r s2 [Hi2 Hr].
  assert (forall rc (c : res unit), -255 <= rc <= 255 -> bwp self (modify (finish rc) ≫= fun _ =>
    modify end_streams ≫= fun _ => lift c) keeps tr2 s2) as Hend.
  { intros rc c Hrc. apply wp_bind, wp_mild; [by apply mild_finish|done|]. intros H3.
    apply wp_bind, wp_mild; auto with sim. }
  destruct r as [[[]|rc]|e]; [done|by apply (Hend rc (Ok tt))|].
  destruct (existsb _ _); [|by apply (Hend 125 (Err e))].
  apply wp_bind, wp_mild; [auto with sim|done|]. intros H3.
  apply wp_bind, wp_mild; [by apply mild_finish|done|]. intros H4.
  apply wp_bind, wp_mild; auto with sim.
Qed.

(** What clients and the constructor start on one worker object. *)
Inductive bw_entry : bco unit -> Prop :=
  | EntryWrite p : bw_entry (stdin_write_now p ≫= fun _ => stdin_drain)
  | EntryDrain : bw_entry stdin_drain
  | EntryClose : bw_entry stdin_close
  | EntryTerminate : bw_entry terminate
  | EntryKill : bw_entry kill
  | EntryReceive : bw_entry receive
  | EntryWait : bw_entry (wait ≫= fun _ => skip).

Lemma queue_control_safe k self tr s : k <> STDIN -> bw_inv s ->
  bwp self (queue_control k) keeps tr s.
Proof.
  intros Hk Hi. apply wp_bind, wp_create_task; [|done]. intros t s1 Hi1. by apply control_safe.
Qed.

Lemma bw_entry_safe c : bw_entry c -> safe bw_replies bw_answers bw_inv bw_rely c.
Proof.
  intros H t s Hi. destruct H.
  - apply wp_bind, wp_bind, wp_gets, wp_bind, wp_mild; [apply mild_write|done|]. intros Hi1.
    destruct (fst _); [|done]. by apply drain_safe.
  - by apply drain_safe.
  - apply wp_mild; auto with sim.
  - apply wp_bind, wp_gets. destruct (bw_returncode s); [done|]. by apply queue_control_safe.
  - apply wp_bind, wp_gets. destruct (bw_returncode s); [done|]. by apply queue_control_safe.
  - by apply receive_safe.
  - apply wp_bind. unfold wait. await_step. intros r s1 s2 _ Hi1 [-> _]. by destruct r.
Qed.

Lemma bw_answers_rely s t o r s' : bw_inv s -> bw_answers s t o r s' ->
  forall t', t' <> t -> bw_rely t' s s'.
Proof.
  intros _ H t' Ht. destruct o; cbn in H; try (subst; reflexivity);
    try (destruct H as [-> _]; reflexivity).
  destruct H as [(Hn & -> & ->)|[_ ->]]; [|reflexivity].
  apply frame_only_rely; [auto with sim|]. destruct l; [done|]. cbn in *. congruence.
Qed.

Lemma bw_init_inv : bw_inv BrokerWorker_init.
Proof. constructor; try done. by exists []. Qed.

Abbreviation bw_reachable := (reachable bw_replies bw_answers bw_entry BrokerWorker_init).

(** C30: in every interleaving of writes, drains, closes, signals and the
    receiver, whenever all tasks are suspended the transport holds a sequence
    of whole frames; their STDIN payloads, followed by what is still
    buffered, are accepted chunks in the order in which they were accepted;
    every chunk is at most 64 KiB, the buffer at most 256 KiB and its size
    exact; a closed input buffers nothing. *)
Theorem stdin_in_order s p : bw_reachable (Config s None p) ->
  (exists fs, bw_wire s = concat (map image fs) /\
     sublist (omap stdin_payload fs ++ bs_pending s) (bs_accepted s) /\
     Forall (fun c => zlen c <= MAX_STREAM_CHUNK) (omap stdin_payload fs)) /\
  bs_pending_bytes s = zlen (concat (bs_pending s)) /\
  zlen (concat (bs_pending s)) <= MAX_BUFFERED_STDIN /\
  (bs_closed s = true -> bs_pending s = []).
Proof.
  intros Hr.
  pose proof (machine_safe _ _ _ _ _ bw_entry_safe bw_answers_rely _ _ _ bw_init_inv Hr)
    as [[fs Hf] H2 H3 H4 H5 H6 _ _].
  split; [|split; [done|split; [lia|done]]].
  exists fs. split; [apply Hf|].
  unfold sent in H2. rewrite (framed_frames _ _ Hf) in H2. cbn [from_option id] in H2.
  split; [done|]. eapply Forall_sublist; [|exact H5].
  etrans; [|exact H2]. by apply sublist_inserts_r.
Qed.

(** The return code of a broker worker is set at most once: from the
    moment it is set it never changes again, in any interleaving; and whenever
    all tasks are suspended it lies between -255 and 255 and is the value that
    [wait] delivers. *)
Theorem returncode_once c c' code :
  rtc (step bw_replies bw_answers bw_entry) (Config BrokerWorker_init None ∅) c ->
  rtc (step bw_replies bw_answers bw_entry) c c' ->
  bw_returncode (heap c) = Some code ->
  bw_returncode (heap c') = Some code /\
  (running c' = None -> bw_waiter (heap c') = Some code /\ -255 <= code <= 255).
Proof.
  intros H1 H2 Hc.
  set (G := fun s s' => forall z, bw_returncode s = Some z -> bw_returncode s' = Some z).
  assert (PreOrder G) as HG by (split; unfold G; [intros ?; auto|intros ???; auto]).
  assert (bw_returncode (heap c') = Some code) as Hc'.
  { eapply (machine_mono _ _ _ _ _ bw_entry_safe bw_answers_rely G);
      [|exact bw_init_inv|exact H1|exact H2|exact Hc]. intros t s s' [HR _]. exact HR. }
  split; [done|]. intros Hn.
  assert (config_ok bw_replies bw_answers bw_inv bw_rely c') as [_ Hi].
  { eapply reachable_ok; [apply _|exact bw_entry_safe|exact bw_answers_rely|exact bw_init_inv|by etrans]. }
  rewrite Hn in Hi. rewrite (inv_waiter _ Hi), Hc'. split; [done|].
  pose proof (inv_code _ Hi) as He. by rewrite Hc' in He.
Qed.

(** ** An execution: one write, drained to the transport *)

(** Runs the current task to its next suspension. *)
Ltac walk :=
  repeat (eapply rtc_l;
    [first [apply StepGet|apply StepPut|apply StepSelf|apply StepIter|apply StepAwait|apply StepRet]|]).
Ltac enter c := eapply rtc_l; [apply (StepEntry _ _ _ 0%nat c); [constructor|reflexivity]|];
  eapply rtc_l; [eapply (StepStart _ _ _ 0%nat); reflexivity|].
Ltac resume o r tac :=
  eapply rtc_l; [eapply (StepResume _ _ _ 0%nat o _ (r : res (bresp o))); [reflexivity|tac]|].

Lemma demo_write : exists s p, bw_reachable (Config s None p) /\
  bw_wire s = frame_bytes STDIN (blit "AB") /\ bw_returncode s = None.
Proof.
  do 2 eexists. split.
  - unfold reachable. enter (stdin_write_now (blit "AB") ≫= fun _ => stdin_drain). walk.
    resume (Acquire StdinLock) (Ok tt) ltac:(left; split; [|split]; reflexivity). walk.
    resume (Acquire FramesLock) (Ok tt) ltac:(left; split; [|split]; reflexivity). walk.
    resume Drain (Ok tt) ltac:(reflexivity). walk.
    apply rtc_refl.
  - split; reflexivity.
Qed.

Lemma demo_finish : exists s p, bw_reachable (Config s None p) /\ bw_returncode s = Some 125.
Proof.
  do 2 eexists. split.
  - unfold reachable. enter receive. walk.
    resume (ReadExactly FRAME_HEADER_size) (raise (A := bytes) IncompleteReadError [])
      ltac:(split; [reflexivity|done]). walk.
    apply rtc_refl.
  - reflexivity.
Qed.

Lemma stdin_in_order_witness : exists s p, bw_reachable (Config s None p) /\
  bw_wire s = frame_bytes STDIN (blit "AB") /\
  exists fs, bw_wire s = concat (map image fs) /\
     sublist (omap stdin_payload fs ++ bs_pending s) (bs_accepted s).
Proof.
  destruct demo_write as (s & p & Hr & Hw & _). exists s, p. split; [done|]. split; [done|].
  destruct (stdin_in_order s p Hr) as [(fs & H1 & H2 & _) _]. by exists fs.
Defined.

Lemma returncode_once_witness : exists s p, bw_reachable (Config s None p) /\
  bw_waiter s = Some 125.
Proof.
  destruct demo_finish as (s & p & Hr & Hc). exists s, p. split; [done|].
  apply (returncode_once (Config s None p) (Config s None p) 125 Hr); [apply rtc_refl|done|done].
Defined.
