(* ===== verification/Oci.v ===== *)
(** * The OCI policy of the worker broker ([oci.py])

    The fixed container policy: validation of its settings, the checks of a
    session directory, the [docker] command lines, and the names of the
    containers.  The environment, the user id and the file system are
    arguments. *)

From S2P Require Import Prelude Text Regex PyFloat Json PyNumber Boards Qemu BrokerProtocol.
From S2P Require Import Environment.

Definition policy_error {A} (m : text) : res A := raise OciPolicyError m.

(** ** Patterns and names *)

Definition is_ref_head (c : Z) : bool := is_lower c || is_dec c.
Definition is_host_char (c : Z) : bool := is_ref_head c || one_of "._-" c.
Definition is_repository_char (c : Z) : bool := is_ref_head c || one_of "._/-" c.
Definition is_alnum (c : Z) : bool := is_upper c || is_lower c || is_dec c.
Definition HEX64 : re := rrep 64 (RCls is_hex_lower).
Definition IMAGE_REFERENCE : re :=
  RCat (RAlt (rseq [RCls is_ref_head; RStar (RCls is_host_char);
                    ropt (RCat (rchr 58) (rplus (RCls is_dec))); rchr 47;
                    RCls is_ref_head; RStar (RCls is_repository_char); rlit "@sha256:"])
             (rlit "sha256:")) HEX64.
Definition APPARMOR_PROFILE : re :=
  RCat (RCls is_alnum) (rupto 127 (RCls (fun c => is_alnum c || one_of "_.-" c))).
Definition UNIX_DOCKER_HOST : re :=
  rseq [rlit "unix:///run/user/"; RCls (in_range 49 57); RStar (RCls is_dec); rlit "/docker.sock"].
Definition CONTAINER_NAME_PREFIX : text := lit "esp32-s3-worker-".
Definition CONTAINER_NAME : re := RCat (rlit "esp32-s3-worker-") SESSION_ID_PATTERN.
Definition MANAGED_LABEL : text := lit "com.zillionvisionary.esp32-simulator.managed=true".
Definition SESSION_LABEL_PREFIX : text := lit "com.zillionvisionary.esp32-simulator.session=".

(** ** Settings *)

Record OciBrokerSettings := mkOci {
  socket_path : path;
  runtime_root : path;
  docker_executable : path;
  docker_host : text;
  image_reference : text;
  seccomp_profile_path : path;
  apparmor_profile : text;
  allowed_core_uid : Z;
  shared_group_gid : Z;
  max_workers : Z;
  memory_mib : Z;
  cpus : float;
  pids_limit : Z;
  tmpfs_mib : Z;
  wall_time_seconds : Z;
  stop_timeout_seconds : Z;
  qemu_executable : path;
  qemu_rom_directory : path;
  allow_same_identity_for_tests : bool }.

Section Environ.
Context (env : environ).

Definition required_environment (name : string) : res text :=
  let value := env_get env name "" in
  if bool_decide (value = []) then
    policy_error (lit "required broker setting is missing: " ++ lit name)
  else Ok value.

Definition parse_integer (name : string) (value : text) : res Z :=
  try_except (int_of_text value) [ValueError]
    (fun _ => policy_error (lit "broker setting is not an integer: " ++ lit name)).

Definition parse_float (name : string) (value : text) : res float :=
  parsed ← try_except (float_of_text value) [ValueError]
    (fun _ => policy_error (lit "broker setting is not a number: " ++ lit name));
  if negb (is_integer parsed) && negb (fltb (float_of_int 0) parsed && fltb parsed (float_of_int 100))
  then policy_error (lit "broker setting is not a finite number: " ++ lit name)
  else Ok parsed.
End Environ.

Section Policy.
Context (getuid : Z) (fs : files).

Definition validate_cli_path (p : path) (label : string) : res path :=
  if negb (p_absolute p) then policy_error (lit label ++ lit " must be an absolute path")
  else
    path_stat ← try_except (lstat fs p) [FileNotFoundError]
      (fun _ => policy_error (lit label ++ lit " does not exist"));
    if S_ISLNK (st_mode path_stat) || negb (S_ISREG (st_mode path_stat)) then
      policy_error (lit label ++ lit " must be a non-symlink regular file")
    else if any_bits (st_mode path_stat) "22" then
      policy_error (lit label ++ lit " must not be group- or world-writable")
    else Ok p.

Definition validate_mount_text (value : text) (label : string) : res unit :=
  if existsb (Z.eqb 44) value || existsb (fun c => c <? 32) value then
    policy_error (lit label ++ lit " cannot be represented safely in Docker mount syntax")
  else Ok tt.

(** [if b: raise OciPolicyError(m)] *)
Definition reject (b : bool) (m : string) : res unit :=
  if b then policy_error (lit m) else Ok tt.
Definition outside (low x high : Z) : bool := negb ((low <=? x) && (x <=? high)).
Definition outside_container (p : path) : bool :=
  negb (p_absolute p) || negb (starts_with (lit "/opt/esp32-s3/") (path_str p)).

Definition OciBrokerSettings_validate (s : OciBrokerSettings) : res unit :=
  reject (negb (p_absolute (socket_path s)) || negb (p_absolute (runtime_root s)))
    "broker socket and runtime root must be absolute paths" ≫= fun _ =>
  validate_mount_text (path_str (runtime_root s)) "runtime root" ≫= fun _ =>
  validate_cli_path (docker_executable s) "Docker client" ≫= fun _ =>
  validate_cli_path (seccomp_profile_path s) "seccomp profile" ≫= fun _ =>
  reject (negb (re_match UNIX_DOCKER_HOST (docker_host s)) ||
          negb (bool_decide (docker_host s =
            lit "unix:///run/user/" ++ str_of_int getuid ++ lit "/docker.sock")))
    "Docker host must be a dedicated rootless Unix socket" ≫= fun _ =>
  reject (negb (re_match IMAGE_REFERENCE (image_reference s)))
    "worker image must use an immutable sha256 digest" ≫= fun _ =>
  reject (negb (re_match APPARMOR_PROFILE (apparmor_profile s)))
    "AppArmor profile name is invalid" ≫= fun _ =>
  reject ((allowed_core_uid s <=? 0) || (shared_group_gid s <=? 0))
    "core UID and shared group GID must be non-root identities" ≫= fun _ =>
  reject ((allowed_core_uid s =? getuid) && negb (allow_same_identity_for_tests s))
    "broker and core must use different operating-system identities" ≫= fun _ =>
  reject (outside 1 (max_workers s) 8) "maximum workers must be between 1 and 8" ≫= fun _ =>
  reject (outside 256 (memory_mib s) 2048)
    "worker memory must be between 256 and 2048 MiB" ≫= fun _ =>
  reject (negb (fleb (float_of_decimal false 1 (-1)) (cpus s) && fleb (cpus s) (float_of_int 2)))
    "worker CPUs must be between 0.1 and 2.0" ≫= fun _ =>
  reject (outside 16 (pids_limit s) 256) "worker PID limit must be between 16 and 256" ≫= fun _ =>
  reject (outside 1 (tmpfs_mib s) 64) "worker tmpfs must be between 1 and 64 MiB" ≫= fun _ =>
  reject (outside 30 (wall_time_seconds s) 900)
    "worker wall time must be between 30 and 900 seconds" ≫= fun _ =>
  reject (outside 1 (stop_timeout_seconds s) 10)
    "worker stop timeout must be between 1 and 10 seconds" ≫= fun _ =>
  reject (outside_container (qemu_executable s))
    "container QEMU executable must stay under /opt/esp32-s3" ≫= fun _ =>
  reject (outside_container (qemu_rom_directory s))
    "container QEMU ROM directory must stay under /opt/esp32-s3".

Definition OciBrokerSettings_from_environment (env : environ) : res OciBrokerSettings :=
  let get := env_get env in
  let integer name value := parse_integer name value in
  docker_host ← required_environment env "SIMULATOR_ROOTLESS_DOCKER_HOST";
  image_reference ← required_environment env "SIMULATOR_WORKER_IMAGE";
  seccomp ← required_environment env "SIMULATOR_WORKER_SECCOMP_PROFILE";
  apparmor_profile ← required_environment env "SIMULATOR_WORKER_APPARMOR_PROFILE";
  uid ← required_environment env "SIMULATOR_ALLOWED_CORE_UID";
  allowed_core_uid ← integer "SIMULATOR_ALLOWED_CORE_UID" uid;
  gid ← required_environment env "SIMULATOR_SHARED_GROUP_GID";
  shared_group_gid ← integer "SIMULATOR_SHARED_GROUP_GID" gid;
  max_workers ← integer "SIMULATOR_BROKER_MAX_WORKERS" (get "SIMULATOR_BROKER_MAX_WORKERS" "2");
  memory_mib ← integer "SIMULATOR_WORKER_MEMORY_MIB" (get "SIMULATOR_WORKER_MEMORY_MIB" "1536");
  cpus ← parse_float "SIMULATOR_WORKER_CPUS" (get "SIMULATOR_WORKER_CPUS" "1.0");
  pids_limit ← integer "SIMULATOR_WORKER_PIDS" (get "SIMULATOR_WORKER_PIDS" "96");
  tmpfs_mib ← integer "SIMULATOR_WORKER_TMPFS_MIB" (get "SIMULATOR_WORKER_TMPFS_MIB" "16");
  wall_time_seconds ←
    integer "SIMULATOR_WORKER_WALL_SECONDS" (get "SIMULATOR_WORKER_WALL_SECONDS" "240");
  stop_timeout_seconds ←
    integer "SIMULATOR_WORKER_STOP_SECONDS" (get "SIMULATOR_WORKER_STOP_SECONDS" "3");
  let settings := mkOci
    (path_of_text (get "SIMULATOR_WORKER_BROKER_SOCKET" "/run/esp32-simulator/worker-broker.sock"))
    (path_of_text (get "SIMULATOR_RUNTIME_ROOT" "/run/esp32-simulator/sessions"))
    (path_of_text (get "SIMULATOR_ROOTLESS_DOCKER" "/usr/bin/docker"))
    docker_host image_reference (path_of_text seccomp) apparmor_profile allowed_core_uid
    shared_group_gid max_workers memory_mib cpus pids_limit tmpfs_mib wall_time_seconds
    stop_timeout_seconds (path_of_text (lit "/opt/esp32-s3/bin/qemu-system-xtensa"))
    (path_of_text (lit "/opt/esp32-s3/share/qemu")) false in
  OciBrokerSettings_validate settings ≫= fun _ => Ok settings.

(** ** Session directories *)

Section Broker.
Context (s : OciBrokerSettings).

Definition board_of (request : StartRequest) : res BoardProfile :=
  of_option (dict_get (start_board_id request) BOARD_PROFILES)
    (Exn KeyError (start_board_id request)).

Definition validate_flash (flash_path : path) (request : StartRequest) : res unit :=
  flash_stat ← try_except (lstat fs flash_path) [FileNotFoundError]
    (fun _ => policy_error (lit "session flash image is unavailable"));
  reject (S_ISLNK (st_mode flash_stat) || negb (S_ISREG (st_mode flash_stat)))
    "session flash image must be a non-symlink regular file" ≫= fun _ =>
  reject (negb (st_uid flash_stat =? allowed_core_uid s) || negb (st_gid flash_stat =? shared_group_gid s))
    "session flash image has unexpected ownership" ≫= fun _ =>
  let flash_mode := S_IMODE (st_mode flash_stat) in
  reject (any_bits flash_mode "7" || negb (all_bits flash_mode "660"))
    "session flash image permissions do not match shared isolation" ≫= fun _ =>
  board ← board_of request;
  reject (negb (st_size flash_stat =? flash_size_bytes board))
    "session flash image size does not match the board".

(** [session_directory] *)
Definition session_directory (request : StartRequest) : res path :=
  '(root_stat, resolved_root) ← try_except
    (root_stat ← lstat fs (runtime_root s);
     resolved_root ← resolve fs (runtime_root s); Ok (root_stat, resolved_root))
    [FileNotFoundError] (fun _ => policy_error (lit "runtime root is unavailable"));
  reject (S_ISLNK (st_mode root_stat) || negb (S_ISDIR (st_mode root_stat)))
    "runtime root must be a non-symlink directory" ≫= fun _ =>
  let root_mode := S_IMODE (st_mode root_stat) in
  reject (negb (st_uid root_stat =? allowed_core_uid s) || negb (st_gid root_stat =? shared_group_gid s)
          || any_bits root_mode "7" || negb (all_bits root_mode "70"))
    "runtime root ownership or permissions are unsafe" ≫= fun _ =>
  let expected := path_child (runtime_root s) (start_session_id request) in
  '(directory_stat, resolved_directory) ← try_except
    (directory_stat ← lstat fs expected;
     resolved_directory ← resolve fs expected; Ok (directory_stat, resolved_directory))
    [FileNotFoundError] (fun _ => policy_error (lit "session directory is unavailable"));
  reject (S_ISLNK (st_mode directory_stat) || negb (S_ISDIR (st_mode directory_stat))
          || negb (bool_decide (path_parent resolved_directory = resolved_root))
          || negb (bool_decide (resolved_directory =
                                path_child resolved_root (start_session_id request))))
    "session directory escaped the runtime root" ≫= fun _ =>
  reject (negb (st_uid directory_stat =? allowed_core_uid s))
    "session directory has an unexpected owner" ≫= fun _ =>
  reject (negb (st_gid directory_stat =? shared_group_gid s))
    "session directory has an unexpected group" ≫= fun _ =>
  let mode := S_IMODE (st_mode directory_stat) in
  reject (any_bits mode "7" || negb (all_bits mode "70"))
    "session directory permissions do not match shared isolation" ≫= fun _ =>
  validate_mount_text (path_str resolved_directory) "session directory" ≫= fun _ =>
  validate_flash (path_child resolved_directory (lit "flash.bin")) request ≫= fun _ =>
  Ok resolved_directory.
End Broker.
End Policy.

(** ** Command lines *)

Definition docker_prefix (s : OciBrokerSettings) : list text :=
  [path_str (docker_executable s); lit "--host"; docker_host s].

(** The table of boards is not empty. *)
Definition container_name (session_id : text) : res text :=
  request ← StartRequest_init session_id (default [] (head (dict_keys BOARD_PROFILES)));
  Ok (CONTAINER_NAME_PREFIX ++ start_session_id request).

Definition mount_option (directory : path) : text :=
  lit "type=bind,src=" ++ path_str directory ++ lit ",dst=/runtime,bind-propagation=rprivate".
Definition mib (n : Z) : text := str_of_int n ++ lit "m".
Definition tmpfs_option (s : OciBrokerSettings) : text :=
  lit "/tmp:rw,noexec,nosuid,nodev,size=" ++ mib (tmpfs_mib s) ++ lit ",mode=1777".
Definition runtime_path (name : string) : path := mkPath true [lit "runtime"; lit name].

(** The process inside the container. *)
Definition container_process (s : OciBrokerSettings) (board : BoardProfile) : list text :=
  build_qemu_process_command
    (mkConfig (qemu_executable s) (qemu_rom_directory s) DIRECT (mkPath true [lit "usr"; lit "bin"; lit "bwrap"])
       DEFAULT_SANDBOX_READONLY_PATHS
       (mkPath true [lit "run"; lit "esp32-simulator"; lit "worker-broker.sock"]))
    board (runtime_path "flash.bin") (Some (runtime_path "qmp.sock")) (Some (runtime_path "gdb.sock"))
    true true.

(** The arguments between [run] and the image. *)
Definition container_options (s : OciBrokerSettings) (request : StartRequest) (directory : path)
    : list text :=
  [lit "--rm"; lit "--interactive"; lit "--pull=never";
   lit "--name"; CONTAINER_NAME_PREFIX ++ start_session_id request;
   lit "--label"; MANAGED_LABEL;
   lit "--label"; SESSION_LABEL_PREFIX ++ start_session_id request;
   lit "--network=none"; lit "--ipc=none"; lit "--read-only"; lit "--cap-drop=ALL";
   lit "--security-opt"; lit "no-new-privileges=true";
   lit "--security-opt"; lit "seccomp=" ++ path_str (seccomp_profile_path s);
   lit "--security-opt"; lit "apparmor=" ++ apparmor_profile s;
   lit "--pids-limit"; str_of_int (pids_limit s);
   lit "--memory"; mib (memory_mib s); lit "--memory-swap"; mib (memory_mib s);
   lit "--cpus"; str_of_float (cpus s);
   lit "--ulimit"; lit "nofile=64:64"; lit "--ulimit"; lit "fsize=67108864:67108864";
   lit "--stop-timeout"; str_of_int (stop_timeout_seconds s);
   lit "--stop-signal"; lit "SIGTERM"; lit "--log-driver=none";
   lit "--tmpfs"; tmpfs_option s;
   lit "--mount"; mount_option directory;
   lit "--workdir"; lit "/runtime"; lit "--env"; lit "LANG=C.UTF-8";
   lit "--env"; lit "PATH=/opt/esp32-s3/bin:/usr/bin:/bin"].

Definition build_worker_command (fs : files) (s : OciBrokerSettings) (request : StartRequest)
    : res (list text) :=
  directory ← session_directory fs s request;
  board ← board_of request;
  Ok (docker_prefix s ++ lit "run" :: container_options s request directory
      ++ image_reference s :: container_process s board).

Definition control_command (s : OciBrokerSettings) (action session_id : text) : res (list text) :=
  if negb (bool_decide (action ∈ [lit "stop"; lit "kill"; lit "rm"])) then
    policy_error (lit "Docker control action is not allowed")
  else
    name ← container_name session_id;
    if bool_decide (action = lit "stop") then
      Ok (docker_prefix s ++ [lit "stop"; lit "--time"; str_of_int (stop_timeout_seconds s); name])
    else if bool_decide (action = lit "rm") then Ok (docker_prefix s ++ [lit "rm"; lit "--force"; name])
    else Ok (docker_prefix s ++ [lit "kill"; name]).

Definition list_managed_command (s : OciBrokerSettings) : list text :=
  docker_prefix s ++
    [lit "ps"; lit "--all"; lit "--format"; lit "{{.Names}}"; lit "--filter"; lit "label=" ++ MANAGED_LABEL].

Definition session_id_from_container_name (value : text) : res text :=
  if re_match CONTAINER_NAME value then Ok (drop (length CONTAINER_NAME_PREFIX) value)
  else policy_error (lit "Docker returned an invalid managed container name").
