(* ===== verification/OciSafety.v ===== *)
(** * What the OCI policy guarantees

    The settings it accepts, the session directories and mounts it lets into
    a container, the options of the command line, and the names of the
    containers. *)

From S2P Require Import Prelude Text Regex PyFloat Json PyNumber Boards Qemu BrokerProtocol.
From S2P Require Import BrokerMessages Environment Oci.

(** ** Guards *)

Lemma reject_bind {A} b m (k : unit -> res A) x :
  (reject b m ≫= k) = Ok x <-> b = false /\ k tt = Ok x.
Proof. unfold reject. destruct b; cbn; [split; [done|by intros []]|]. split; [by intros|by intros []]. Qed.
Lemma reject_ok b m : reject b m = Ok tt <-> b = false.
Proof. by destruct b. Qed.

Lemma policy_try {A} (m : res A) c t a :
  try_except m [c] (fun _ => policy_error t) = Ok a <-> m = Ok a.
Proof. destruct m as [|e]; [done|]. cbn. by destruct (_ || _). Qed.

Definition mountable (t : text) : Prop := Forall (fun c => c <> 44 /\ 32 <= c) t.
Lemma existsb_false {A} (p : A -> bool) l : existsb p l = false <-> Forall (fun x => p x = false) l.
Proof. induction l; cbn [existsb]; [by split|]. by rewrite orb_false_iff, Forall_cons, IHl. Qed.
Lemma mount_text_ok t label : validate_mount_text t label = Ok tt <-> mountable t.
Proof.
  unfold validate_mount_text, mountable. rewrite Forall_and. 
  assert (Forall (fun c => c <> 44) t <-> existsb (Z.eqb 44) t = false) as ->
    by (rewrite existsb_false; apply Forall_proper; [intros c; lia|done]).
  assert (Forall (fun c => 32 <= c) t <-> existsb (fun c => c <? 32) t = false) as ->
    by (rewrite existsb_false; apply Forall_proper; [intros c; lia|done]).
  rewrite <- orb_false_iff. by destruct (_ || _).
Qed.
Lemma mount_text_bind {A} t label (k : unit -> res A) x :
  (validate_mount_text t label ≫= k) = Ok x <-> mountable t /\ k tt = Ok x.
Proof.
  rewrite res_bind_ok, <- (mount_text_ok t label). split; [by intros ([] & ? & ?)|].
  intros []. by exists tt.
Qed.

(** ** Accepted settings *)

(** A file that nobody but its owner can change, as [lstat] shows it. *)
Definition trusted_file (fs : files) (p : path) : Prop :=
  p_absolute p = true /\ exists st, lstat fs p = Ok st /\ S_ISLNK (st_mode st) = false /\
    S_ISREG (st_mode st) = true /\ Z.land (st_mode st) (oct "22") = 0.

Lemma cli_path_bind {A} fs p label (k : path -> res A) x :
  (validate_cli_path fs p label ≫= k) = Ok x <-> trusted_file fs p /\ k p = Ok x.
Proof.
  unfold validate_cli_path, trusted_file. destruct (p_absolute p); cbn [negb].
  2:{ split; [done|by intros [[]]]. }
  rewrite res_bind_ok. split.
  - intros (q & H & Hk). apply res_bind_ok in H as (st & Hst%policy_try & H).
    destruct (S_ISLNK (st_mode st)) eqn:El; [done|]. destruct (S_ISREG (st_mode st)) eqn:Er; [|done].
    unfold any_bits in H. destruct (Z.eqb_spec (Z.land (st_mode st) (oct "22")) 0) as [Hw|]; [|done].
    apply Ok_inj in H as <-. split; [|done]. split; [done|]. by exists st.
  - intros [(_ & st & Hst & Hl & Hr & Hw) Hk]. exists p. split; [|done].
    rewrite Hst. cbn [try_except mbind res_bind]. rewrite Hl, Hr. unfold any_bits. by rewrite Hw.
Qed.

Lemma outside_false low x high : outside low x high = false <-> low <= x <= high.
Proof. unfold outside. lia. Qed.

(** [host[:port]/repository@sha256:] or [sha256:], and then the digest. *)
Definition pinned (image : text) : Prop :=
  exists front digest, image = front ++ digest /\ length digest = 64%nat /\
    Forall (fun c => is_hex_lower c = true) digest /\
    (front = lit "sha256:" \/ exists h host port r repository,
       front = h :: host ++ port ++ 47 :: r :: repository ++ lit "@sha256:" /\
       is_ref_head h = true /\ Forall (fun c => is_host_char c = true) host /\
       (port = [] \/ exists ds, port = 58 :: ds /\ ds <> [] /\ Forall (fun c => is_dec c = true) ds) /\
       is_ref_head r = true /\ Forall (fun c => is_repository_char c = true) repository).

Lemma lang_rchr c t : lang (rchr c) t <-> t = [c].
Proof. apply (lang_chars [c]). Qed.
Lemma image_pattern image : re_match IMAGE_REFERENCE image = true <-> pinned image.
Proof.
  rewrite re_match_spec. unfold IMAGE_REFERENCE, HEX64, pinned. cbn [rseq]. rewrite lang_rcat.
  split.
  - intros (a & b & -> & Ha & (Hl & Hb)%lang_cls_rep). exists a, b. do 3 (split; [done|]).
    apply lang_ralt in Ha as [Ha|Ha%lang_lit]; [right|by left].
    apply lang_rcat in Ha as (? & ? & -> & (h & -> & Hh)%lang_cls & Ha).
    apply lang_rcat in Ha as (host & ? & -> & Hhost%lang_star_cls & Ha).
    apply lang_rcat in Ha as (port & ? & -> & Hport & Ha).
    apply lang_rcat in Ha as (? & ? & -> & ->%lang_rchr & Ha).
    apply lang_rcat in Ha as (? & ? & -> & (r & -> & Hr)%lang_cls & Ha).
    apply lang_rcat in Ha as (repository & ? & -> & Hrep%lang_star_cls & ->%lang_lit).
    exists h, host, port, r, repository. split; [done|]. do 2 (split; [done|]).
    split; [|done]. apply lang_ropt in Hport as [->|Hport]; [by left|right].
    apply lang_rcat in Hport as (? & ds & -> & ->%lang_rchr & [Hn Hd]%lang_plus_cls). by exists ds.
  - intros (a & b & -> & Hl & Hb & Ha). exists a, b. split; [done|].
    split; [|by apply lang_cls_rep]. apply lang_ralt.
    destruct Ha as [->|(h & host & port & r & repository & -> & Hh & Hhost & Hport & Hr & Hrep)];
      [right; by apply lang_lit|left].
    apply lang_rcat. exists [h], (host ++ port ++ 47 :: r :: repository ++ lit "@sha256:").
    split; [done|]. split; [apply lang_cls; eauto|].
    apply lang_rcat. eexists _, _. split; [done|]. split; [by apply lang_star_cls|].
    apply lang_rcat. eexists _, _. split; [done|]. split.
    { apply lang_ropt. destruct Hport as [->|(ds & -> & Hn & Hd)]; [by left|right].
      apply lang_rcat. exists [58], ds. split; [done|]. split; [by apply lang_rchr|].
      by apply lang_plus_cls. }
    apply lang_rcat. exists [47], (r :: repository ++ lit "@sha256:"). split; [done|].
    split; [by apply lang_rchr|]. apply lang_rcat. exists [r], (repository ++ lit "@sha256:").
    split; [done|]. split; [apply lang_cls; eauto|]. apply lang_rcat. eexists _, _. split; [done|].
    split; [by apply lang_star_cls|by apply lang_lit].
Qed.

(** The socket of the rootless daemon of user [uid]. *)
Definition rootless_socket (uid : Z) : text :=
  lit "unix:///run/user/" ++ str_of_int uid ++ lit "/docker.sock".
Lemma docker_host_pattern uid :
  re_match UNIX_DOCKER_HOST (rootless_socket uid) = true <-> 1 <= uid.
Proof.
  rewrite re_match_spec. unfold UNIX_DOCKER_HOST, rootless_socket. cbn [rseq]. rewrite lang_rcat.
  split.
  - intros (a & b & E & ->%lang_lit & Hb). apply app_inv_head in E as <-.
    apply lang_rcat in Hb as (? & b' & E & (c & -> & Hc)%lang_cls & _).
    destruct (Z.lt_trichotomy uid 0) as [H|[->|H]]; [|by injection E as <-|lia].
    unfold str_of_int, format_int in E. destruct (Z.ltb_spec uid 0); [|lia]. by injection E as <-.
  - intros H. exists (lit "unix:///run/user/"), (str_of_int uid ++ lit "/docker.sock").
    split; [done|]. split; [by apply lang_lit|].
    unfold str_of_int, format_int. destruct (Z.ltb_spec uid 0); [lia|].
    destruct (to_digits_head 10 uid) as (d & ds & Ed & Hd); [lia..|].
    pose proof (format_nat_dec uid ltac:(lia)) as Hf. unfold format_nat in *. rewrite Ed in *.
    cbn [map app] in *. apply Forall_cons in Hf as [Hh Ht].
    apply lang_rcat. exists [digit_char d], (map digit_char ds ++ lit "/docker.sock").
    split; [done|]. split.
    + apply lang_cls. exists (digit_char d). split; [done|].
      unfold in_range, digit_char in *. destruct (Z.ltb_spec d 10); lia.
    + apply lang_rcat. eexists _, _. split; [done|]. split; [|by apply lang_lit].
      apply lang_star_cls. eapply Forall_impl; [exact Ht|]. intros c Hc. cbn beta in Hc.
      unfold is_dec, in_range. lia.
Qed.

Definition inside_container (p : path) : Prop :=
  p_absolute p = true /\ exists rest, path_str p = lit "/opt/esp32-s3/" ++ rest.
Lemma starts_with_spec p t : starts_with p t = true <-> exists rest, t = p ++ rest.
Proof.
  revert t. induction p as [|c p IH]; intros t; cbn [starts_with]; [split; eauto|].
  destruct t as [|d t]; [split; [done|by intros [? ?]]|].
  rewrite andb_true_iff, IH. split.
  - intros [Hc [rest ->]]. exists rest. cbn. f_equal. lia.
  - intros [rest [= -> ->]]. split; [lia|eauto].
Qed.
Lemma outside_container_false p : outside_container p = false <-> inside_container p.
Proof.
  unfold outside_container, inside_container. rewrite <- starts_with_spec.
  destruct (p_absolute p), (starts_with _ _); naive_solver.
Qed.

(** C12: the settings check accepts exactly the settings of a confined broker:
    absolute socket and runtime paths, a runtime root that fits in Docker's
    mount syntax, a Docker client and a seccomp profile that only their owner
    can write, the rootless daemon of the broker's own (non-root) user, an image
    pinned by digest, a core user that is neither root nor the broker, and
    every resource limit within its range. *)
Theorem settings_accepted uid fs s :
  OciBrokerSettings_validate uid fs s = Ok tt <->
  (p_absolute (socket_path s) = true /\ p_absolute (runtime_root s) = true) /\
  mountable (path_str (runtime_root s)) /\
  trusted_file fs (docker_executable s) /\ trusted_file fs (seccomp_profile_path s) /\
  (1 <= uid /\ docker_host s = rootless_socket uid) /\
  pinned (image_reference s) /\
  re_match APPARMOR_PROFILE (apparmor_profile s) = true /\
  (1 <= allowed_core_uid s /\ 1 <= shared_group_gid s) /\
  (allowed_core_uid s = uid -> allow_same_identity_for_tests s = true) /\
  1 <= max_workers s <= 8 /\ 256 <= memory_mib s <= 2048 /\
  (fleb (float_of_decimal false 1 (-1)) (cpus s) = true /\ fleb (cpus s) (float_of_int 2) = true) /\
  16 <= pids_limit s <= 256 /\ 1 <= tmpfs_mib s <= 64 /\ 30 <= wall_time_seconds s <= 900 /\
  1 <= stop_timeout_seconds s <= 10 /\
  inside_container (qemu_executable s) /\ inside_container (qemu_rom_directory s).
Proof.
  unfold OciBrokerSettings_validate.
  rewrite reject_bind, mount_text_bind, !cli_path_bind, !reject_bind, reject_ok.
  rewrite !orb_false_iff, !outside_false, !outside_container_false, !negb_false_iff, image_pattern.
  rewrite bool_decide_eq_true, andb_true_iff. fold (rootless_socket uid).
  assert (re_match UNIX_DOCKER_HOST (docker_host s) = true /\ docker_host s = rootless_socket uid <->
          1 <= uid /\ docker_host s = rootless_socket uid) as ->
    by (rewrite <- (docker_host_pattern uid); split; intros [H E]; rewrite E in *; by split).
  assert ((allowed_core_uid s <=? 0) = false /\ (shared_group_gid s <=? 0) = false <->
          1 <= allowed_core_uid s /\ 1 <= shared_group_gid s) as -> by lia.
  assert ((allowed_core_uid s =? uid) && negb (allow_same_identity_for_tests s) = false <->
          (allowed_core_uid s = uid -> allow_same_identity_for_tests s = true)) as ->.
  { destruct (Z.eqb_spec (allowed_core_uid s) uid), (allow_same_identity_for_tests s); naive_solver. }
  done.
Qed.

(** ** Session directories and their mount *)

(** Nobody outside owner and group has access, the group has [group_bits]. *)
Definition shared_mode (mode : Z) (group_bits : string) : Prop :=
  Z.land (S_IMODE mode) (oct "7") = 0 /\ Z.land (S_IMODE mode) (oct group_bits) = oct group_bits.
Lemma shared_mode_bool mode bits :
  any_bits (S_IMODE mode) "7" || negb (all_bits (S_IMODE mode) bits) = false <-> shared_mode mode bits.
Proof. unfold any_bits, all_bits, shared_mode. lia. Qed.

Definition owned (s : OciBrokerSettings) (st : file_stat) : Prop :=
  st_uid st = allowed_core_uid s /\ st_gid st = shared_group_gid s.
(** A real directory that only the core user and the shared group can use. *)
Definition shared_directory (fs : files) (s : OciBrokerSettings) (p : path) : Prop :=
  exists st, lstat fs p = Ok st /\ S_ISLNK (st_mode st) = false /\ S_ISDIR (st_mode st) = true /\
    owned s st /\ shared_mode (st_mode st) "70".
(** A real flash image of the board's size, for core user and group only. *)
Definition shared_image (fs : files) (s : OciBrokerSettings) (board : BoardProfile) (p : path) : Prop :=
  exists st, lstat fs p = Ok st /\ S_ISLNK (st_mode st) = false /\ S_ISREG (st_mode st) = true /\
    owned s st /\ shared_mode (st_mode st) "660" /\ st_size st = flash_size_bytes board.

Lemma board_of_ok r b : board_of r = Ok b <-> dict_get (start_board_id r) BOARD_PROFILES = Some b.
Proof. apply of_option_ok. Qed.

Lemma flash_ok fs s p r :
  validate_flash fs s p r = Ok tt <-> exists board, board_of r = Ok board /\ shared_image fs s board p.
Proof.
  unfold validate_flash, shared_image, owned. rewrite res_bind_ok. split.
  - intros (st & Hst%policy_try & H). rewrite !reject_bind, res_bind_ok in H.
    destruct H as (Ht & Ho & Hm%shared_mode_bool & board & Hb & Hz%reject_ok).
    exists board. split; [done|]. exists st. apply orb_false_elim in Ht as [Hl Hr%negb_false_iff].
    do 3 (split; [done|]). split; [lia|]. split; [done|lia].
  - intros (board & Hb & st & Hst & Hl & Hr & [Hu Hg] & Hm & Hz). exists st. split; [by apply policy_try|].
    rewrite !reject_bind, res_bind_ok, shared_mode_bool, Hl, Hr. split; [done|]. split; [lia|].
    split; [done|]. exists board. split; [done|]. apply reject_ok. lia.
Qed.

Lemma lstat_resolve {A} fs p t (k : file_stat * path -> res A) x :
  (try_except (st ← lstat fs p; q ← resolve fs p; Ok (st, q)) [FileNotFoundError]
     (fun _ => policy_error t) ≫= k) = Ok x <->
  exists st q, lstat fs p = Ok st /\ resolve fs p = Ok q /\ k (st, q) = Ok x.
Proof.
  rewrite res_bind_ok. split.
  - intros ([st q] & H%policy_try & Hk). apply res_bind_ok in H as (st' & Hst & H).
    apply res_bind_ok in H as (q' & Hq & H). apply Ok_inj in H as [= <- <-]. by exists st', q'.
  - intros (st & q & Hst & Hq & Hk). exists (st, q). split; [|done]. apply policy_try.
    rewrite Hst. cbn. by rewrite Hq.
Qed.

Lemma path_parent_child p n : path_parent (path_child p n) = p.
Proof. destruct p. unfold path_parent, path_child. cbn. by rewrite removelast_last. Qed.

Lemma session_directory_ok fs s r d :
  session_directory fs s r = Ok d <->
  exists root board, resolve fs (runtime_root s) = Ok root /\ d = path_child root (start_session_id r) /\
    resolve fs (path_child (runtime_root s) (start_session_id r)) = Ok d /\
    shared_directory fs s (runtime_root s) /\
    shared_directory fs s (path_child (runtime_root s) (start_session_id r)) /\
    mountable (path_str d) /\
    board_of r = Ok board /\ shared_image fs s board (path_child d (lit "flash.bin")).
Proof.
  unfold session_directory, shared_directory, owned. rewrite lstat_resolve. split.
  - intros (rst & root & Hr & Hroot & H). rewrite !reject_bind, lstat_resolve in H.
    destruct H as (Ht & Ho & dst & dir & Hd & Hdir & H). rewrite !reject_bind, mount_text_bind in H.
    destruct H as (Ht' & Hu & Hg & Hm%shared_mode_bool & Hmt & H).
    apply res_bind_ok in H as ([] & (board & Hb & Hf)%flash_ok & H). apply Ok_inj in H as <-.
    rewrite !orb_false_iff, !negb_false_iff in *.
    destruct Ho as [[[Hou Hog] Ho7] Ho70], Ht' as [[[Hl' Hd'] _] ->%bool_decide_eq_true].
    exists root, board. split; [done|]. split; [done|]. split; [done|]. split.
    { exists rst. split; [done|]. split; [by apply Ht|]. split; [by apply Ht|]. split; [lia|].
      apply shared_mode_bool. by rewrite Ho7, Ho70. }
    split; [|done]. exists dst. do 3 (split; [done|]). split; [lia|done].
  - intros (root & board & Hroot & -> & Hdir & (rst & Hr & Hl & Ht & [Hu Hg] & Hm) &
      (dst & Hd & Hl' & Ht' & [Hu' Hg'] & Hm') & Hmt & Hb & Hf).
    exists rst, root. split; [done|]. split; [done|]. rewrite !reject_bind, lstat_resolve.
    rewrite Hl, Ht. split; [done|]. split.
    { apply shared_mode_bool in Hm. rewrite <- orb_assoc, Hm. lia. }
    exists dst, (path_child root (start_session_id r)). split; [done|]. split; [done|].
    rewrite !reject_bind, mount_text_bind, Hl', Ht', path_parent_child.
    rewrite !bool_decide_eq_true_2 by done. split; [done|]. split; [lia|]. split; [lia|].
    split; [by apply shared_mode_bool|]. split; [done|]. apply res_bind_ok. exists tt. split; [|done].
    apply flash_ok. eauto.
Qed.

Definition is_comma (c : Z) : bool := c =? 44.
Definition commas (t : text) : list text := split_sep is_comma (length t) t [].

Lemma split_sep_last {A} (sep : A -> bool) m x cur :
  Forall (fun a => sep a = false) x -> split_sep sep m x cur = [reverse cur ++ x].
Proof.
  intros H. revert cur. induction H as [|a x Ha _ IH]; intros cur.
  - destruct m; cbn [split_sep]; by rewrite app_nil_r.
  - destruct m; cbn [split_sep]; [done|]. rewrite Ha, IH, reverse_cons, <- app_assoc. done.
Qed.

Lemma mount_fields d : mountable (path_str d) ->
  commas (mount_option d) =
    [lit "type=bind"; lit "src=" ++ path_str d; lit "dst=/runtime"; lit "bind-propagation=rprivate"].
Proof.
  intros Hd. unfold commas, mount_option.
  set (t := lit "type=bind,src=" ++ path_str d ++ lit ",dst=/runtime,bind-propagation=rprivate").
  assert (exists n, length t = S (S (S n))) as [n ->]
    by (exists (length t - 3)%nat; subst t; rewrite length_app; cbn; lia).
  change t with (lit "type=bind" ++ 44 :: (lit "src=" ++ path_str d ++ 44 ::
    (lit "dst=/runtime" ++ 44 :: lit "bind-propagation=rprivate"))). clear t.
  rewrite split_sep_step by (done || by repeat constructor). rewrite app_assoc.
  rewrite split_sep_step.
  - rewrite split_sep_step by (done || by repeat constructor).
    by rewrite split_sep_last by repeat constructor.
  - apply Forall_app. split; [by repeat constructor|]. eapply Forall_impl; [exact Hd|].
    intros c [Hc _]. unfold is_comma. lia.
  - done.
Qed.


(** ** Arguments that Docker reads as options *)

Definition dashed (t : text) : bool := starts_with (lit "-") t.

Lemma dashed_head c t : c <> 45 -> dashed (c :: t) = false.
Proof. intros Hc. change (dashed (c :: t)) with ((45 =? c) && true). lia. Qed.
Lemma dashed_int n : 0 <= n -> dashed (str_of_int n) = false.
Proof.
  intros Hn. unfold dashed, str_of_int, format_int. destruct (Z.ltb_spec n 0); [lia|].
  pose proof (format_nat_dec n Hn) as Hf. destruct (format_nat 10 n) as [|c t]; [done|].
  apply Forall_cons in Hf as [Hc _]. apply dashed_head. lia.
Qed.
Lemma dashed_app t u : t <> [] -> dashed (t ++ u) = dashed t.
Proof. by destruct t. Qed.
Lemma dashed_path p : p_absolute p = true -> dashed (path_str p) = false.
Proof. unfold path_str. by intros ->. Qed.
Lemma str_of_int_nonempty n : 0 <= n -> str_of_int n <> [].
Proof.
  intros Hn. unfold str_of_int, format_int. destruct (Z.ltb_spec n 0); [lia|]. by apply format_nat_nonempty.
Qed.
Lemma dashed_mib n : 0 <= n -> dashed (mib n) = false.
Proof. intros Hn. unfold mib. rewrite dashed_app by by apply str_of_int_nonempty. by apply dashed_int. Qed.

(** The decimal digits of a float are digits. *)
Lemma shortest_at_nonneg x n d k i c : 0 <= n -> 0 < d ->
  shortest_at x n d k i = Some c -> 0 <= c.
Proof.
  intros Hn Hd. unfold shortest_at.
  set (nd := if 0 <=? k - i then (n, d * 10 ^ (k - i)) else (n * 10 ^ (- (k - i)), d)).
  assert (0 <= fst nd /\ 0 < snd nd) as [Hn' Hd'].
  { subst nd. destruct (Z.leb_spec 0 (k - i)); cbn [fst snd].
    - split; [done|]. apply Z.mul_pos_pos; [done|]. apply Z.pow_pos_nonneg; lia.
    - split; [|done]. apply Z.mul_nonneg_nonneg; [done|]. by apply Z.pow_nonneg. }
  destruct nd as [n' d']. cbn [fst snd] in *. cbv zeta.
  pose proof (Z.div_pos n' d' Hn' Hd').
  intros [[<-|[<-|[]]] _]%List.find_some.
  - unfold round_half_even. destruct (_ ?= _); [destruct (Z.even _)| |]; lia.
  - destruct (_ =? _); [|done]. unfold round_half_even.
    destruct (_ ?= _); [destruct (Z.even _)| |]; lia.
Qed.
Lemma shortest_nonneg x n d : 0 <= n -> 0 < d -> 0 <= fst (shortest x n d).
Proof.
  intros Hn Hd. unfold shortest. set (k := decimal_point n d). generalize (map Z.of_nat (List.seq 1 17)).
  intros l. induction l as [|i l IH]; [done|]. cbn [omap list_omap].
  destruct (shortest_at x n d k i) as [c|] eqn:E; [|exact IH].
  exact (shortest_at_nonneg x n d k i c Hn Hd E).
Qed.
Lemma Forall_lstrip p t : Forall (fun c => 48 <= c <= 57) t -> Forall (fun c => 48 <= c <= 57) (lstrip p t).
Proof. induction 1 as [|c t Hc Ht IH]; cbn; [done|]. destruct (p c); [done|by constructor]. Qed.
Lemma dashed_digits t u : Forall (fun c => 48 <= c <= 57) t -> dashed u = false -> dashed (t ++ u) = false.
Proof. intros H Hu. destruct H as [|c t Hc _]; [done|]. apply dashed_head. lia. Qed.

Lemma dashed_layout ds k : Forall (fun c => 48 <= c <= 57) ds -> dashed (layout ds k) = false.
Proof.
  intros H. unfold layout. destruct (_ && _).
  - destruct (k <=? 0); [done|]. destruct (_ <=? _); [|apply dashed_digits; [by apply Forall_take|done]].
    apply dashed_digits; [done|]. apply dashed_digits; [|done]. by apply Forall_replicate.
  - apply dashed_digits; [by apply Forall_take|]. by destruct (drop 1 ds), (k - 1 <? 0).
Qed.
Lemma dashed_float x : fltb (float_of_int 0) x = true -> dashed (str_of_float x) = false.
Proof.
  destruct x as [s|s| |s m e]; [done|by destruct s|done|]. destruct s; [done|]. intros _.
  unfold str_of_float.
  set (nd := if 0 <=? e then (Z.pos m * 2 ^ e, 1) else (Z.pos m, 2 ^ (- e))).
  assert (0 <= fst nd /\ 0 < snd nd) as [Hn Hd].
  { subst nd. destruct (Z.leb_spec 0 e); cbn [fst snd]; [|split; [lia|apply Z.pow_pos_nonneg; lia]].
    split; [|lia]. apply Z.mul_nonneg_nonneg; [lia|by apply Z.pow_nonneg]. }
  destruct nd as [n d]. cbn [fst snd] in *.
  pose proof (shortest_nonneg (S754_finite false m e) n d Hn Hd) as Hc.
  destruct (shortest _ n d) as [c p]. cbn [fst] in Hc. unfold digits_point. cbn [app].
  apply dashed_layout. apply Forall_reverse, Forall_lstrip, Forall_reverse. by apply format_nat_dec.
Qed.
Lemma cpus_positive x : fleb (float_of_decimal false 1 (-1)) x = true -> fltb (float_of_int 0) x = true.
Proof. destruct x as [s|s| |s m e]; [by destruct s..|done|]. by destruct s. Qed.

Lemma pinned_head image : pinned image -> dashed image = false.
Proof.
  intros (front & digest & -> & _ & _ & [->|(h0 & host & port & r & rep & -> & Hh & _)]); [done|].
  unfold is_ref_head, is_lower, is_dec, in_range in Hh. apply dashed_head. lia.
Qed.

(** The options of every worker container. *)
Definition CONTAINER_OPTIONS : list text :=
  map lit ["--rm"; "--interactive"; "--pull=never"; "--name"; "--label"; "--network=none";
    "--ipc=none"; "--read-only"; "--cap-drop=ALL"; "--security-opt"; "--pids-limit"; "--memory";
    "--memory-swap"; "--cpus"; "--ulimit"; "--stop-timeout"; "--stop-signal"; "--log-driver=none";
    "--tmpfs"; "--mount"; "--workdir"; "--env"]%string.

(** C11: nothing in the settings, the session or the file system can add an
    option to [docker run].  For accepted settings every argument between
    [run] and the image that starts with a dash is one of the fixed options,
    the image reference is the first argument after them, and what follows
    it is the QEMU command of the board. *)
Theorem worker_command_options uid fs s r cmd :
  OciBrokerSettings_validate uid fs s = Ok tt -> build_worker_command fs s r = Ok cmd ->
  exists options board,
    cmd = docker_prefix s ++ lit "run" :: options ++ image_reference s :: container_process s board /\
    Forall (fun a => dashed a = true -> a ∈ CONTAINER_OPTIONS) options /\
    dashed (image_reference s) = false /\
    dict_get (start_board_id r) BOARD_PROFILES = Some board.
Proof.
  intros Hs H. apply settings_accepted in Hs as (_ & _ & _ & _ & _ & Himage & _ & _ & _ & _ & Hmem &
    [Hcpus _] & Hpids & _ & _ & Hstop & _).
  apply res_bind_ok in H as (d & Hd & H). apply res_bind_ok in H as (b & Hb & H).
  apply Ok_inj in H as <-. exists (container_options s r d), b. split; [done|].
  split; [|split; [by apply pinned_head|by apply board_of_ok]].
  unfold container_options. repeat (apply Forall_cons; split).
  all: lazymatch goal with
    | |- Forall _ [] => constructor
    | |- dashed (str_of_int _) = true -> _ => (rewrite dashed_int by lia); discriminate
    | |- dashed (mib _) = true -> _ => (rewrite dashed_mib by lia); discriminate
    | |- dashed (str_of_float _) = true -> _ => rewrite (dashed_float _ (cpus_positive _ Hcpus)); discriminate
    | |- dashed (_ ++ _) = true -> _ => discriminate
    | |- dashed (mount_option _) = true -> _ => discriminate
    | |- dashed (tmpfs_option _) = true -> _ => discriminate
    | |- _ => first [discriminate | intros _; apply (bool_decide_unpack _); vm_compute; exact I]
    end.
Qed.

(** ** Container names *)

Lemma start_request_init_ok id board r :
  StartRequest_init id board = Ok r <->
  r = mkStart id board /\ re_match SESSION_ID_PATTERN id = true /\ owned_board board = true.
Proof.
  unfold StartRequest_init. destruct (re_match _ _); cbn [negb]; [|by split; [|intros (_ & ? & _)]].
  destruct (owned_board board); cbn [negb]; [|by split; [|intros (_ & _ & ?)]].
  split; [by intros <-%Ok_inj|by intros (-> & _)].
Qed.
Lemma container_name_ok id name :
  container_name id = Ok name <->
  re_match SESSION_ID_PATTERN id = true /\ name = CONTAINER_NAME_PREFIX ++ id.
Proof.
  unfold container_name. rewrite res_bind_ok. split.
  - intros (r & (-> & Hid & _)%start_request_init_ok & E). by apply Ok_inj in E as <-.
  - intros [Hid ->]. eexists. split; [by apply start_request_init_ok|done].
Qed.
Lemma session_of_name_ok name id :
  session_id_from_container_name name = Ok id <->
  re_match SESSION_ID_PATTERN id = true /\ name = CONTAINER_NAME_PREFIX ++ id.
Proof.
  unfold session_id_from_container_name, CONTAINER_NAME.
  assert (re_match (RCat (rlit "esp32-s3-worker-") SESSION_ID_PATTERN) name = true <->
    exists b, name = CONTAINER_NAME_PREFIX ++ b /\ re_match SESSION_ID_PATTERN b = true) as Hn.
  { setoid_rewrite re_match_spec. rewrite lang_rcat. split.
    - intros (a & b & -> & ->%lang_lit & Hb). by exists b.
    - intros (b & -> & Hb). exists CONTAINER_NAME_PREFIX, b. split; [done|]. split; [by apply lang_lit|done]. }
  destruct (re_match _ name) eqn:E.
  - destruct (proj1 Hn eq_refl) as (b & -> & Hb). rewrite drop_app_length. split.
    + by intros <-%Ok_inj.
    + by intros [_ <-%app_inv_head].
  - split; [done|]. intros [Hid ->]. assert (false = true) by (apply Hn; by exists id). done.
Qed.

(** Container names and session identifiers correspond one to one: the
    name of a session's container exists exactly for identifiers of 32
    lowercase hexadecimal digits, the parser of Docker's container list
    inverts it, and a control command names a session's container and one of the
    three allowed actions. *)
Theorem container_names_roundtrip s :
  (forall id name, container_name id = Ok name <-> session_id_from_container_name name = Ok id) /\
  (forall id, is_ok (container_name id) = true <->
     length id = 32%nat /\ Forall (fun c => is_hex_lower c = true) id) /\
  (forall action id cmd, control_command s action id = Ok cmd ->
     exists name, container_name id = Ok name /\ last cmd = Some name /\
       action ∈ [lit "stop"; lit "kill"; lit "rm"] /\
       take 4 cmd = docker_prefix s ++ [action]).
Proof.
  split; [|split].
  - intros id name. by rewrite container_name_ok, session_of_name_ok.
  - intros id. rewrite <- session_id_pattern. split.
    + destruct (container_name id) as [name|] eqn:E; [|done]. by apply container_name_ok in E as [E _].
    + intros H. by rewrite (proj2 (container_name_ok id _) (conj H eq_refl)).
  - intros action id cmd H. unfold control_command in H.
    case_bool_decide as Ha; [|done]. cbn [negb] in H. apply res_bind_ok in H as (name & Hn & H).
    exists name. split; [done|].
    case_bool_decide as E1; [subst action; by apply Ok_inj in H as <-|].
    case_bool_decide as E2; [subst action; by apply Ok_inj in H as <-|].
    assert (action = lit "kill") as -> by set_solver. by apply Ok_inj in H as <-.
Qed.

(** ** A broker *)

Definition demo_id : text := replicate 32 97.
Definition demo_oci : OciBrokerSettings :=
  let p l := mkPath true (map lit l) in
  mkOci (p ["run"; "broker.sock"]%string) (p ["run"; "sessions"]%string)
    (p ["usr"; "bin"; "docker"]%string) (rootless_socket 1001)
    (lit "sha256:" ++ replicate 64 48) (p ["etc"; "seccomp.json"]%string) (lit "esp32-worker")
    1000 2000 2 1536 (float_of_int 1) 96 16 240 3
    (p ["opt"; "esp32-s3"; "bin"; "qemu-system-xtensa"]%string) (p ["opt"; "esp32-s3"; "share"; "qemu"]%string)
    false.
(** Files of the session [demo_id]; every other path is a root-owned file. *)
Definition demo_files : files :=
  let session := path_child (runtime_root demo_oci) demo_id in
  mkFiles (fun p =>
    Ok (if bool_decide (p = runtime_root demo_oci) || bool_decide (p = session)
        then mkStat (oct "042770") 1000 2000 0
        else if bool_decide (p = path_child session (lit "flash.bin"))
        then mkStat (oct "100660") 1000 2000 8388608
        else mkStat (oct "100644") 0 0 0))
    (fun p => Ok p).
Definition demo_start : StartRequest := mkStart demo_id (lit "sticks3").

Lemma demo_oci_valid : OciBrokerSettings_validate 1001 demo_files demo_oci = Ok tt.
Proof. vm_compute. reflexivity. Qed.
Lemma demo_command : exists cmd, build_worker_command demo_files demo_oci demo_start = Ok cmd.
Proof. eexists. vm_compute. reflexivity. Qed.

Lemma worker_command_options_witness : exists cmd options board,
  build_worker_command demo_files demo_oci demo_start = Ok cmd /\
  cmd = docker_prefix demo_oci ++ lit "run" :: options ++
        image_reference demo_oci :: container_process demo_oci board.
Proof.
  destruct demo_command as [cmd H].
  destruct (worker_command_options 1001 demo_files demo_oci demo_start cmd demo_oci_valid H)
    as (options & board & Hc & _).
  exists cmd, options, board. split; [exact H|exact Hc].
Defined.
