(* ===== verification/WorkerBroker.v ===== *)
(** * The worker broker ([worker_broker.py])

    The service on the other side of the broker protocol: it admits the core
    user only, claims a slot per session, runs one container per claim,
    relays its streams within a budget, and removes the container at the end.
    Every method of [OciWorkerBroker] is a coroutine over the shared heap
    [Broker]; processes, connections and Docker are operations. *)

From Stdlib Require Import Init.Byte.
From S2P Require Import Prelude Text Regex PyFloat Json Async Boards Qemu BrokerProtocol.
From S2P Require Import Environment Oci.

(** ** The heap *)

(** [_OutputBudget]: the event is a flag. *)
Record OutputBudget := mkBudget { remaining : Z; exceeded : bool; budget_lock : option tid }.

(** [_active] maps each claimed session to the task that claimed it; the task
    is auxiliary, no code reads it.  Connections (each with its frame writer)
    and budgets are numbered. *)
Record Broker := mkBroker {
  active : gmap text tid;
  processes : gmap text Z;
  broker_lock : option tid;
  runtime_healthy : bool;
  server : bool;
  reconcile_task : option tid;
  frame_locks : gmap Z tid;
  budgets : gmap Z OutputBudget;
  next_budget : Z }.

Definition Broker_init : Broker := mkBroker ∅ ∅ None false false None ∅ ∅ 0.

Definition set_active (f : gmap text tid -> gmap text tid) (b : Broker) : Broker :=
  mkBroker (f (active b)) (processes b) (broker_lock b) (runtime_healthy b) (server b)
    (reconcile_task b) (frame_locks b) (budgets b) (next_budget b).
Definition set_processes (f : gmap text Z -> gmap text Z) (b : Broker) : Broker :=
  mkBroker (active b) (f (processes b)) (broker_lock b) (runtime_healthy b) (server b)
    (reconcile_task b) (frame_locks b) (budgets b) (next_budget b).
Definition set_broker_lock (t : option tid) (b : Broker) : Broker :=
  mkBroker (active b) (processes b) t (runtime_healthy b) (server b) (reconcile_task b)
    (frame_locks b) (budgets b) (next_budget b).
Definition set_healthy (h : bool) (b : Broker) : Broker :=
  mkBroker (active b) (processes b) (broker_lock b) h (server b) (reconcile_task b)
    (frame_locks b) (budgets b) (next_budget b).
Definition set_server (h : bool) (b : Broker) : Broker :=
  mkBroker (active b) (processes b) (broker_lock b) (runtime_healthy b) h (reconcile_task b)
    (frame_locks b) (budgets b) (next_budget b).
Definition set_reconcile_task (t : option tid) (b : Broker) : Broker :=
  mkBroker (active b) (processes b) (broker_lock b) (runtime_healthy b) (server b) t
    (frame_locks b) (budgets b) (next_budget b).
Definition set_frame_locks (f : gmap Z tid -> gmap Z tid) (b : Broker) : Broker :=
  mkBroker (active b) (processes b) (broker_lock b) (runtime_healthy b) (server b)
    (reconcile_task b) (f (frame_locks b)) (budgets b) (next_budget b).
Definition set_budgets (f : gmap Z OutputBudget -> gmap Z OutputBudget) (b : Broker) : Broker :=
  mkBroker (active b) (processes b) (broker_lock b) (runtime_healthy b) (server b)
    (reconcile_task b) (frame_locks b) (f (budgets b)) (next_budget b).
Definition set_budget_lock (g : Z) (t : option tid) : Broker -> Broker :=
  set_budgets (alter (fun x => mkBudget (remaining x) (exceeded x) t) g).
(** [_OutputBudget.create]: a new object. *)
Definition new_budget (limit_bytes : Z) (b : Broker) : Broker :=
  mkBroker (active b) (processes b) (broker_lock b) (runtime_healthy b) (server b) (reconcile_task b)
    (frame_locks b) (<[next_budget b := mkBudget limit_bytes false None]> (budgets b)) (next_budget b + 1).

(** ** Operations *)

Inductive wop :=
  (* awaited: locks, the client's stream, processes, tasks, the server *)
  | AcquireBroker | AcquireFrames (c : Z) | AcquireBudget (g : Z)
  | ReadExactly (c n : Z) | DrainFrames (c : Z) | WaitClosed (c : Z)
  | SpawnWorker (command : list text) | SpawnControl (command : list text)
  | SpawnQuery (command : list text)
  | WaitProcess (p : Z) | WaitProcessFor (p : Z) | Communicate (p : Z)
  | ReadStream (p : Z) (kind : FrameKind) (n : Z) | DrainStdin (p : Z)
  | WaitExceeded (g : Z) | Sleep (seconds : Z) | WaitFirst (tasks : list tid) | GatherTask (t : tid)
  | StartServer | StartServing | WaitServerClosed | ServeForever | WaitStop
  (* synchronous *)
  | PeerCredentials (c : Z) | WriteChunks (c : Z) (l : list bytes) | CloseConnection (c : Z) | DeadlineHit
  | ReturnCode (p : Z) | KillProcess (p : Z) | HasStdin (p : Z) | HasStream (p : Z) (kind : FrameKind)
  | WriteStdin (p : Z) (b : bytes) | CancelTask (t : tid) | CloseServer
  | FileView | Unlink (p : path) | ChownGroup (p : path) (gid : Z) | Chmod (p : path) (mode : Z).

Definition wresp (o : wop) : Type :=
  match o with
  | ReadExactly _ _ | Communicate _ | ReadStream _ _ _ => bytes
  | SpawnWorker _ | SpawnControl _ | SpawnQuery _ | WaitProcess _ | WaitProcessFor _ => Z
  | WaitFirst _ => list tid
  | PeerCredentials _ => option bytes
  | ReturnCode _ => option Z
  | HasStdin _ | HasStream _ _ | DeadlineHit => bool
  | FileView => files
  | _ => unit
  end.

Abbreviation wco := (co Broker wop wresp).
Definition wcall (o : wop) : wco (wresp o) := call o.
Definition wawait (o : wop) : wco (wresp o) := await o.

(** The [FrameWriter] and the reader of connection [c]. *)
Definition connection (c : Z) : Transport Broker wop wresp := {|
  t_read_exactly n := wawait (ReadExactly c n);
  t_write l := wcall (WriteChunks c l);
  t_drain := wawait (DrainFrames c);
  t_locked := locked (wawait (AcquireFrames c)) (set_frame_locks (delete c)) |}.
Definition read (c : Z) (max_payload : Z) : wco BrokerFrame := @read_frame _ _ _ (connection c) max_payload.
Definition send_frame (c : Z) (kind : FrameKind) (payload : bytes) : wco unit :=
  @send _ _ _ (connection c) kind payload.

(** ** Text of Docker's answers *)

Definition container_lines (output : text) : list text :=
  List.filter (fun l => negb (bool_decide (l = []))) (map (strip is_str_space) (splitlines output [])).

(** The user id in [struct.Struct("3i").unpack(credentials)], on a
    little-endian machine. *)
Definition signed32 (z : Z) : Z := if z <? 2 ^ 31 then z else z - 2 ^ 32.
Definition unpack_uid (credentials : bytes) : res Z :=
  if zlen credentials =? 12 then Ok (signed32 (le_value (slice 4 8 credentials)))
  else raise Exception (lit "unpack requires a buffer of 12 bytes").

Section Service.
Context (settings : OciBrokerSettings) (getuid output_limit_bytes : Z).

Definition policy {A} (m : string) : wco A := throw OciPolicyError (lit m).
(** [async with self._lock] *)
Definition with_lock {A} (m : wco A) : wco A := locked (wawait AcquireBroker) (set_broker_lock None) m.

(** ** Messages to the client *)

(** [_safe_send] *)
Definition safe_send (c : Z) (kind : FrameKind) (payload : bytes) : wco unit :=
  catch (send_frame c kind payload) [BrokerProtocolError; ConnectionError; BrokenPipeError]
    (fun _ => skip).
(** [_safe_error] *)
Definition safe_error (c : Z) (code message : string) : wco unit :=
  e ← lift (ErrorMessage_init (lit code) (lit message));
  payload ← lift (ErrorMessage_to_payload e);
  safe_send c ERROR payload.

(** [_peer_uid] *)
Definition peer_uid (c : Z) : wco (option Z) :=
  catch (
    credentials ← wcall (PeerCredentials c);
    match (credentials : option bytes) with
    | None => mret None
    | Some b => uid ← lift (unpack_uid b); mret (Some uid)
    end) [OSError] (fun _ => mret None).

(** ** Docker *)

(** [_docker_control] *)
Definition docker_control (action : string) (session_id : text) : wco bool :=
  command ← lift (control_command settings (lit action) session_id);
  catch (
    p ← wawait (SpawnControl command);
    catch (rc ← wawait (WaitProcessFor p); mret (rc =? 0)) [TimeoutError] (fun _ =>
      wcall (KillProcess p) ≫= fun _ => wawait (WaitProcess p) ≫= fun _ => mret false))
    [OSError] (fun _ => mret false).

(** [_docker_output] *)
Definition docker_output (arguments : list text) : wco text :=
  p ← wawait (SpawnQuery (docker_prefix settings ++ arguments));
  stdout ← catch (wawait (Communicate p)) [TimeoutError] (fun _ =>
    wcall (KillProcess p) ≫= fun _ => wawait (WaitProcess p) ≫= fun _ =>
    policy "Docker runtime verification timed out");
  rc ← wcall (ReturnCode p);
  if negb (bool_decide (rc = Some 0)) || (64 * 1024 <? zlen stdout) then
    policy "Docker runtime verification failed"
  else
    t ← lift (try_except (utf8_decode false stdout) [UnicodeDecodeError] (fun _ =>
          policy_error (lit "Docker runtime verification returned invalid text")));
    mret (strip is_str_space t).

Definition is_string (v : json) : bool := match v with JStr _ => true | _ => false end.
Definition IMAGE_ID : re := RCat (rlit "sha256:") HEX64.
Definition has_option (p : text -> bool) (l : list json) : bool :=
  existsb (fun v => match v with JStr t => p t | _ => false end) l.

(** [verify_runtime] *)
Definition verify_runtime : wco unit :=
  security_output ← docker_output [lit "info"; lit "--format"; lit "{{json .SecurityOptions}}"];
  security_options ← lift (try_except (loads_text security_output) [JSONDecodeError] (fun _ =>
    policy_error (lit "Docker returned invalid security metadata")));
  match security_options with
  | JArr l =>
      if negb (forallb is_string l) then policy "Docker returned invalid security options"
      else if negb (has_option (fun t => bool_decide (t = lit "name=rootless")) l) then
        policy "the configured Docker daemon is not rootless"
      else if negb (has_option (starts_with (lit "name=seccomp")) l) then
        policy "the configured Docker daemon does not report seccomp"
      else
        cgroup_version ← docker_output [lit "info"; lit "--format"; lit "{{.CgroupVersion}}"];
        if negb (bool_decide (cgroup_version = lit "2")) then
          policy "the rootless Docker daemon must use cgroup v2"
        else
          image_id ← docker_output [lit "image"; lit "inspect"; lit "--format"; lit "{{.Id}}";
                                    image_reference settings];
          if re_match IMAGE_ID image_id then skip else policy "the pinned worker image is unavailable"
  | _ => policy "Docker returned invalid security options"
  end.

(** [reconcile_managed_containers] *)
Definition reconcile_managed_containers (preserve_active : bool) : wco unit :=
  output ← docker_output (drop 3 (list_managed_command settings));
  kept ← with_lock (b ← gets active; mret (if preserve_active then b else ∅));
  each (fun name =>
    session_id ← lift (session_id_from_container_name name);
    match (kept : gmap text tid) !! session_id with
    | Some _ => skip
    | None =>
        removed ← docker_control "rm" session_id;
        if removed : bool then skip else policy "managed container reconciliation failed"
    end) (container_lines output).

(** [_reconcile_loop] *)
Definition reconcile_loop : wco unit :=
  loop (fun _ : unit =>
    wawait (Sleep 30) ≫= fun _ =>
    catch (
      verify_runtime ≫= fun _ =>
      reconcile_managed_containers true ≫= fun _ =>
      modify (set_healthy true)) [OciPolicyError] (fun _ => modify (set_healthy false)) ≫= fun _ =>
    mret (@inl unit unit tt)) tt.

(** ** Slots *)

(** [_claim] *)
Definition claim (session_id : text) : wco bool :=
  with_lock (
    b ← gets id;
    if negb (runtime_healthy b) || bool_decide (is_Some (active b !! session_id))
       || (max_workers settings <=? Z.of_nat (size (active b))) then mret false
    else
      self ← current_task;
      modify (set_active (insert session_id self)) ≫= fun _ => mret true).
(** [_release] *)
Definition release (session_id : text) : wco unit :=
  with_lock (modify (set_active (delete session_id)) ≫= fun _ =>
             modify (set_processes (delete session_id))).

(** ** The tasks of a worker *)

(** [_OutputBudget.consume] of the budget [g] *)
Definition consume (g size : Z) : wco bool :=
  locked (wawait (AcquireBudget g)) (set_budget_lock g None) (
    found ← gets (fun b => budgets b !! g);
    match found with
    | Some x =>
        if remaining x <? size then
          modify (set_budgets (<[g := mkBudget (remaining x) true (budget_lock x)]>)) ≫= fun _ => mret false
        else
          modify (set_budgets (<[g := mkBudget (remaining x - size) (exceeded x) (budget_lock x)]>))
            ≫= fun _ => mret true
    | None => mret false
    end).

(** [_pump_output] *)
Definition pump_output (c p : Z) (kind : FrameKind) (budget : Z) : wco unit :=
  available ← wcall (HasStream p kind);
  if negb available then skip
  else loop (fun _ : unit =>
    chunk ← wawait (ReadStream p kind MAX_STREAM_CHUNK);
    match (chunk : bytes) with
    | [] => mret (inr tt)
    | _ =>
        granted ← consume budget (zlen chunk);
        if granted : bool then send_frame c kind chunk ≫= fun _ => mret (inl tt)
        else mret (inr tt)
    end) tt.

(** [_relay_control] *)
Definition relay_control (c p : Z) (session_id : text) : wco unit :=
  loop (fun _ : unit =>
    rc ← wcall (ReturnCode p);
    match (rc : option Z) with
    | Some _ => mret (inr tt)
    | None =>
        frame ← read c MAX_STREAM_CHUNK;
        match frame_kind frame, frame_payload frame with
        | STDIN, payload =>
            stdin ← wcall (HasStdin p);
            if negb stdin then lift (protocol_error "worker stdin is unavailable")
            else wcall (WriteStdin p payload) ≫= fun _ => wawait (DrainStdin p) ≫= fun _ => mret (inl tt)
        | TERMINATE, [] => docker_control "stop" session_id ≫= fun _ => mret (inl tt)
        | KILL, [] => docker_control "kill" session_id ≫= fun _ => mret (inl tt)
        | _, _ => lift (protocol_error "worker control frame is invalid")
        end
    end) tt.

(** ** One worker *)

Definition kill_and_wait (p : Z) : wco unit :=
  wcall (KillProcess p) ≫= fun _ => wawait (WaitProcess p) ≫= fun _ => skip.

(** The body of [_run_worker] once the process exists. *)
Definition supervise (c p : Z) (session_id : text) : wco unit :=
  with_lock (modify (set_processes (insert session_id p))) ≫= fun _ =>
  send_frame c STARTED [] ≫= fun _ =>
  budget ← gets next_budget;
  modify (new_budget output_limit_bytes) ≫= fun _ =>
  stdout_task ← create_task (pump_output c p STDOUT budget);
  stderr_task ← create_task (pump_output c p STDERR budget);
  control_task ← create_task (relay_control c p session_id);
  wait_task ← create_task (wawait (WaitProcess p) ≫= fun _ => skip);
  wall_task ← create_task (wawait (Sleep (wall_time_seconds settings)) ≫= fun _ => skip);
  budget_task ← create_task (wawait (WaitExceeded budget) ≫= fun _ => skip);
  finished ← wawait (WaitFirst [control_task; wait_task; wall_task; budget_task]);
  when (negb (bool_decide (wait_task ∈ (finished : list tid))))
    (docker_control "kill" session_id ≫= fun _ =>
     rc ← wcall (ReturnCode p);
     match (rc : option Z) with
     | None => wcall (KillProcess p) ≫= fun _ => skip
     | Some _ => skip
     end ≫= fun _ =>
     wawait (WaitProcess p) ≫= fun _ => skip) ≫= fun _ =>
  rc ← wcall (ReturnCode p);
  let returncode := Z.max (-255) (Z.min 255 (default 125 (rc : option Z))) in
  each (fun t => wcall (CancelTask t)) [control_task; wall_task; budget_task] ≫= fun _ =>
  each (fun t => wawait (GatherTask t)) [control_task; wall_task; budget_task] ≫= fun _ =>
  each (fun t => wawait (GatherTask t)) [stdout_task; stderr_task] ≫= fun _ =>
  code ← lift (ExitMessage_init (PyInt returncode));
  payload ← lift (ExitMessage_to_payload code);
  safe_send c EXIT payload.

(** The [finally] block of [_run_worker]; [process] is the local variable. *)
Definition cleanup (process : option Z) (session_id : text) : wco unit :=
  match process with
  | Some p =>
      rc ← wcall (ReturnCode p);
      match (rc : option Z) with
      | None => docker_control "kill" session_id ≫= fun _ => kill_and_wait p
      | Some _ => skip
      end
  | None => skip
  end ≫= fun _ =>
  docker_control "rm" session_id ≫= fun _ =>
  release session_id.

(** The part of the [try] block before the process exists. *)
Definition launch_container (c : Z) (request : StartRequest) : wco (option Z) :=
  fs ← wcall FileView;
  command ← lift (build_worker_command fs settings request);
  catch (p ← wawait (SpawnWorker command); mret (Some (p : Z))) [OSError] (fun _ =>
    safe_error c "launch" "Isolated worker could not start" ≫= fun _ => mret None).

(** [_run_worker] *)
Definition run_worker (c : Z) (request : StartRequest) : wco unit :=
  claimed ← claim (start_session_id request);
  if negb (claimed : bool) then safe_error c "capacity" "All isolated workers are busy"
  else seq (launch_container c request) (fun r =>
    match r with
    | Ok (Some p) => finally (supervise c p (start_session_id request)) (cleanup (Some p) (start_session_id request))
    | Ok None => finally skip (cleanup None (start_session_id request))
    | Err e => finally (lift (Err e)) (cleanup None (start_session_id request))
    end).

(** ** Connections *)

Definition close_connection (c : Z) : wco unit :=
  wcall (CloseConnection c) ≫= fun _ => wawait (WaitClosed c).

(** What a connection of the core user asks for. *)
Definition serve_request (c : Z) : wco unit :=
  first ← deadline (wcall DeadlineHit) (read c MAX_CONTROL_PAYLOAD);
  if bool_decide (frame_kind first = PING) && bool_decide (frame_payload first = []) then
    h ← gets runtime_healthy;
    if h : bool then send_frame c PONG []
    else safe_error c "runtime" "Worker runtime is unavailable"
  else if negb (bool_decide (frame_kind first = START)) then
    lift (protocol_error "first broker frame must be ping or start")
  else
    request ← lift (StartRequest_from_payload (frame_payload first));
    h ← gets runtime_healthy;
    if negb (h : bool) then safe_error c "runtime" "Worker runtime is unavailable"
    else run_worker c request.

(** [_handle_connection] *)
Definition handle_connection (c : Z) : wco unit :=
  uid ← peer_uid c;
  if negb (bool_decide (uid = Some (allowed_core_uid settings))) then close_connection c
  else finally
    (catch (serve_request c)
      [TimeoutError; BrokerProtocolError; OciPolicyError; ConnectionError; BrokenPipeError] (fun e =>
        if exc_sub (exn_class e) TimeoutError then safe_error c "timeout" "Broker request timed out"
        else if exc_sub (exn_class e) BrokerProtocolError then
          safe_error c "protocol" "Broker request was invalid"
        else if exc_sub (exn_class e) OciPolicyError then
          safe_error c "policy" "Worker policy validation failed"
        else skip))
    (close_connection c).

(** ** The service *)

(** [_force_cleanup] *)
Definition force_cleanup (session_id : text) (process : option Z) : wco unit :=
  docker_control "kill" session_id ≫= fun _ =>
  match process with
  | Some p =>
      rc ← wcall (ReturnCode p);
      match (rc : option Z) with None => kill_and_wait p | Some _ => skip end
  | None => skip
  end ≫= fun _ =>
  docker_control "rm" session_id ≫= fun _ => skip.

(** [_validate_socket_parent] *)
Definition validate_socket_parent : wco unit :=
  fs ← wcall FileView;
  lift (parent_stat ← try_except (lstat fs (path_parent (socket_path settings))) [FileNotFoundError]
          (fun _ => policy_error (lit "broker socket parent is unavailable"));
        reject (S_ISLNK (st_mode parent_stat) || negb (S_ISDIR (st_mode parent_stat)))
          "broker socket parent must be a non-symlink directory" ≫= fun _ =>
        reject (negb (st_gid parent_stat =? shared_group_gid settings))
          "broker socket parent has an unexpected group" ≫= fun _ =>
        reject (any_bits (S_IMODE (st_mode parent_stat)) "7")
          "broker socket parent must not be accessible to other users").

(** [_remove_stale_socket] *)
Definition remove_stale_socket : wco unit :=
  fs ← wcall FileView;
  match lstat fs (socket_path settings) with
  | Err e => if exc_sub (exn_class e) FileNotFoundError then skip else lift (Err e)
  | Ok socket_stat =>
      if negb (S_ISSOCK (st_mode socket_stat)) || negb (st_uid socket_stat =? getuid) then
        policy "refusing to replace an unowned broker socket path"
      else wcall (Unlink (socket_path settings))
  end.

(** [start] *)
Definition start (verify : bool) : wco unit :=
  fs ← wcall FileView;
  lift (OciBrokerSettings_validate getuid fs settings) ≫= fun _ =>
  validate_socket_parent ≫= fun _ =>
  when verify (verify_runtime ≫= fun _ => reconcile_managed_containers false) ≫= fun _ =>
  modify (set_healthy true) ≫= fun _ =>
  remove_stale_socket ≫= fun _ =>
  wawait StartServer ≫= fun _ =>
  modify (set_server true) ≫= fun _ =>
  wcall (ChownGroup (socket_path settings) (shared_group_gid settings)) ≫= fun _ =>
  wcall (Chmod (socket_path settings) (oct "660")) ≫= fun _ =>
  wawait StartServing ≫= fun _ =>
  when verify (t ← create_task reconcile_loop; modify (set_reconcile_task (Some t))).

(** [asyncio.gather] wraps each coroutine in a task. *)
Fixpoint start_all (l : list (wco unit)) : wco (list tid) :=
  match l with
  | [] => mret []
  | m :: l' => t ← create_task m; ts ← start_all l'; mret (t :: ts)
  end.
(** [close] *)
Definition close : wco unit :=
  modify (set_healthy false) ≫= fun _ =>
  had_server ← gets server;
  when had_server (wcall CloseServer ≫= fun _ => modify (set_server false)) ≫= fun _ =>
  task ← gets reconcile_task;
  match task with
  | Some t => wcall (CancelTask t) ≫= fun _ => wawait (GatherTask t) ≫= fun _ =>
              modify (set_reconcile_task None)
  | None => skip
  end ≫= fun _ =>
  snapshot ← with_lock (b ← gets id; mret (active b, processes b));
  let '(claims, procs) := (snapshot : gmap text tid * gmap text Z) in
  tasks ← start_all (map (fun claimed => force_cleanup (fst claimed) (procs !! fst claimed)) (map_to_list claims));
  each (fun t => wawait (GatherTask t)) tasks ≫= fun _ =>
  when had_server (wawait WaitServerClosed) ≫= fun _ =>
  remove_stale_socket.

(** [serve_forever] *)
Definition serve_forever : wco unit :=
  s ← gets server;
  if negb s then throw RuntimeError (lit "worker broker has not started") else wawait ServeForever.

(** [_run] *)
Definition run_service : wco unit :=
  start true ≫= fun _ => wawait WaitStop ≫= fun _ => close.
End Service.
