(* ===== verification/WorkerBrokerSafety.v ===== *)
(** * The worker broker under every interleaving

    Slots, processes and budgets keep their invariant whatever the
    connections do; a worker's slot is released and its container removed;
    output stays within its budget and only the core user is served. *)

From Stdlib Require Import Init.Byte.
From S2P Require Import Prelude Text Regex Json Async Boards Qemu BrokerProtocol BrokerMessages.
From S2P Require Import Environment Oci OciSafety WorkerBroker.

Create HintDb calm.

(** ** The environment *)

Definition w_never_fails (o : wop) : bool :=
  match o with
  | CloseConnection _ | DeadlineHit | ReturnCode _ | HasStdin _ | HasStream _ _ | CancelTask _
  | CloseServer | FileView => true
  | _ => false
  end.
(** [Process.kill] raises [ProcessLookupError] when the transport of the
    process is gone. *)
Definition w_replies (b : Broker) (o : wop) (r : res (wresp o)) : Prop :=
  (w_never_fails o = true -> is_ok r = true) /\
  match o return res (wresp o) -> Prop with
  | KillProcess _ => fun r => forall e, r = Err e -> exn_class e = ProcessLookupError
  | _ => fun _ => True
  end r.

Definition fails_with {A} (cs : list exc) (r : res A) : Prop :=
  match r with Ok _ => True | Err e => existsb (exc_sub (exn_class e)) cs = true end.
Definition cancelled {A} (r : res A) : Prop := is_ok r = false /\ fails_with [CancelledError] r.

(** A lock is granted while it is free; waiting ends when what is waited for
    has happened, or with a cancellation; processes start or raise OSError;
    [readexactly] returns as many bytes as it was asked for or raises, [read]
    at most as many. *)
Definition w_answers (b : Broker) (t : tid) (o : wop) (r : res (wresp o)) (b' : Broker) : Prop :=
  match o return res (wresp o) -> Prop with
  | AcquireBroker => fun r =>
      (broker_lock b = None /\ r = Ok tt /\ b' = set_broker_lock (Some t) b) \/ (cancelled r /\ b' = b)
  | AcquireFrames c => fun r =>
      (frame_locks b !! c = None /\ r = Ok tt /\ b' = set_frame_locks (insert c t) b) \/
      (cancelled r /\ b' = b)
  | AcquireBudget g => fun r =>
      (match budgets b !! g with Some x => budget_lock x = None | None => True end /\ r = Ok tt /\
       b' = set_budget_lock g (Some t) b) \/ (cancelled r /\ b' = b)
  | WaitExceeded g => fun r => b' = b /\ fails_with [CancelledError] r /\
      (is_ok r = true -> exists x, budgets b !! g = Some x /\ exceeded x = true)
  | WaitFirst l => fun r => b' = b /\ fails_with [CancelledError] r /\
      forall d, r = Ok d -> d <> [] /\ d ⊆ l
  | WaitProcess _ | Sleep _ | GatherTask _ => fun r => b' = b /\ fails_with [CancelledError] r
  | WaitProcessFor _ | Communicate _ => fun r => b' = b /\ fails_with [CancelledError; TimeoutError] r
  | SpawnWorker _ | SpawnControl _ | SpawnQuery _ => fun r =>
      b' = b /\ fails_with [CancelledError; OSError] r
  | ReadExactly _ n => fun r => b' = b /\ forall x, r = Ok x -> zlen x = n
  | ReadStream _ _ n => fun r => b' = b /\ forall x, r = Ok x -> zlen x <= n
  | _ => fun _ => b' = b
  end r.

Section Safety.
Context (settings : OciBrokerSettings) (getuid output_limit_bytes : Z).
Hypothesis workers_positive : 0 <= max_workers settings.
Hypothesis limit_positive : 0 <= output_limit_bytes.

(** ** Invariant and rely *)

Record broker_inv (b : Broker) : Prop := {
  inv_slots : Z.of_nat (size (active b)) <= max_workers settings;
  inv_processes : forall id p, processes b !! id = Some p -> is_Some (active b !! id);
  inv_budgets : forall g x, budgets b !! g = Some x ->
    0 <= remaining x <= output_limit_bytes /\ g < next_budget b }.

(** The specification of the slots: a pool of at most [max_workers] named
    places, each held by one task. *)
Inductive slot_step : gmap text tid -> gmap text tid -> Prop :=
  | SlotClaim t id m : m !! id = None -> Z.of_nat (size m) < max_workers settings ->
      slot_step m (<[id := t]> m)
  | SlotRelease t id m : m !! id = Some t -> slot_step m (delete id m).

(** A task keeps the slots it claimed until it releases them itself; budgets
    are never topped up and stay exceeded; the slots follow their
    specification. *)
Record broker_rely (t : tid) (b b' : Broker) : Prop := {
  rely_spec : rtc slot_step (active b) (active b');
  rely_slots : forall id, active b !! id = Some t -> active b' !! id = Some t;
  rely_budgets : forall g x, budgets b !! g = Some x ->
    exists x', budgets b' !! g = Some x' /\ remaining x' <= remaining x /\
      (exceeded x = true -> exceeded x' = true) }.
#[export] Instance broker_rely_preorder t : PreOrder (broker_rely t).
Proof.
  split; [intros b; constructor; [done|done|]|].
  - intros g x Hx. by exists x.
  - intros b1 b2 b3 [A0 A1 A2] [B0 B1 B2]. constructor; [by etrans|auto|]. intros g x Hx.
    destruct (A2 g x Hx) as (y & Hy & Hle & He). destruct (B2 g y Hy) as (z & Hz & Hle' & He').
    exists z. split_and!; [done|lia|auto].
Qed.

Abbreviation wwp := (wp w_replies w_answers broker_inv broker_rely).
Abbreviation wtrace := (list (event wop wresp)).

(** A change of the heap that every task may rely on. *)
Definition mild (f : Broker -> Broker) : Prop :=
  forall b, broker_inv b -> broker_inv (f b) /\ forall t, broker_rely t b (f b).
Definition same_slots (f : Broker -> Broker) : Prop :=
  forall b, active (f b) = active b /\ processes (f b) = processes b /\ budgets (f b) = budgets b /\
    next_budget (f b) = next_budget b.
Lemma mild_same f : same_slots f -> mild f.
Proof.
  intros Hf b [H1 H2 H3]. destruct (Hf b) as (E1 & E2 & E3 & E4). split.
  - constructor; rewrite ?E1, ?E2, ?E3, ?E4; auto.
  - intros t. constructor; rewrite ?E1, ?E3; eauto using rtc_refl. intros g x Hx. by exists x.
Qed.
Lemma mild_budget g y b : broker_inv b -> 0 <= remaining y <= output_limit_bytes ->
  (exists x, budgets b !! g = Some x /\ remaining y <= remaining x /\
     (exceeded x = true -> exceeded y = true)) ->
  broker_inv (set_budgets (<[g := y]>) b) /\ forall t, broker_rely t b (set_budgets (<[g := y]>) b).
Proof.
  intros [H1 H2 H3] Hy (x & Hx & Hle & He). split.
  - constructor; [done|done|]. intros g' x'. cbn. destruct (decide (g = g')) as [->|].
    + rewrite lookup_insert_eq. intros [= <-]. split; [done|]. by apply (H3 g' x).
    + rewrite lookup_insert_ne by done. apply H3.
  - intros t. constructor; [done|done|]. intros g' x'. cbn. destruct (decide (g = g')) as [->|].
    + rewrite lookup_insert_eq. intros Hx'. exists y. split; [done|]. assert (x = x') as <- by congruence. done.
    + rewrite lookup_insert_ne by done. intros Hx'. by exists x'.
Qed.
Lemma mild_budget_lock g t : mild (set_budget_lock g t).
Proof.
  intros b [H1 H2 H3]. split.
  - constructor; [done|done|]. intros g' x. cbn. intros [(-> & y & Hy & ->)|[_ Hx]]%lookup_alter_Some;
      [by apply (H3 g' y)|by apply H3].
  - intros t'. constructor; [done|done|]. intros g' x Hx. cbn. rewrite lookup_alter.
    case_decide; [subst|by exists x]. rewrite Hx. by eexists.
Qed.
Lemma mild_new_budget : mild (new_budget output_limit_bytes).
Proof.
  intros b [H1 H2 H3]. split.
  - constructor; [done|done|]. intros g x. cbn. destruct (decide (g = next_budget b)) as [->|].
    + rewrite lookup_insert_eq. intros [= <-]. cbn. lia.
    + rewrite lookup_insert_ne by done. intros [H4 H5]%H3. lia.
  - intros t. constructor; [done|done|]. intros g x Hx. exists x. cbn.
    assert (g <> next_budget b) by (intros ->; apply H3 in Hx as [_ ?]; lia).
    by rewrite lookup_insert_ne.
Qed.

(** The event loop's own steps are mild. *)
Lemma answers_good b t o r b' : w_answers b t o r b' -> broker_inv b ->
  broker_inv b' /\ forall t', broker_rely t' b b'.
Proof.
  intros H Hb. assert (forall f, mild f -> b' = f b -> broker_inv b' /\ forall t', broker_rely t' b b') as Hm
    by (intros f Hf ->; by apply Hf).
  assert (b' = b -> broker_inv b' /\ forall t', broker_rely t' b b') as H0 by (intros ->; by split).
  destruct o; cbn in H; try (by apply H0); try (by destruct H as [-> _]; apply H0).
  - destruct H as [(_ & _ & E)|[_ E]]; [|by apply H0]. eapply Hm, E. by apply mild_same.
  - destruct H as [(_ & _ & E)|[_ E]]; [|by apply H0]. eapply Hm, E. by apply mild_same.
  - destruct H as [(_ & _ & E)|[_ E]]; [|by apply H0]. eapply Hm, E. apply mild_budget_lock.
Qed.

(** ** Calm coroutines

    They keep the invariant and everything their own task relies on. *)

Definition calm {A} (m : wco A) : Prop := forall self tr b, broker_inv b ->
  wwp self m (fun _ _ b' => broker_inv b' /\ broker_rely self b b') tr b.

(** A step of a proof: a calm part, then the rest from where it leaves off. *)
Lemma calm_then {A B} (m : wco A) (k : res A -> wco B) self Q tr b : calm m -> broker_inv b ->
  (forall tr' r b', broker_inv b' -> broker_rely self b b' -> wwp self (k r) Q tr' b') ->
  wwp self (seq m k) Q tr b.
Proof.
  intros Hm Hb Hk. apply wp_seq. eapply wp_mono; [|by apply Hm]. intros tr' r b' [H1 H2]. by apply Hk.
Qed.
Lemma calm_seq {A B} (m : wco A) (k : res A -> wco B) : calm m -> (forall r, calm (k r)) -> calm (seq m k).
Proof.
  intros Hm Hk self tr b Hb. apply calm_then; [done|done|]. intros tr' r b' Hb' HR.
  eapply wp_mono; [|by apply Hk]. intros tr2 r2 b2 [H2 HR2]. split; [done|by etrans].
Qed.
Lemma calm_ret {A} (r : res A) : calm (Ret r).
Proof. intros self tr b Hb. by split. Qed.
Lemma calm_bind {A B} (m : wco A) (k : A -> wco B) : calm m -> (forall a, calm (k a)) -> calm (m ≫= k).
Proof. intros Hm Hk. apply calm_seq; [done|]. intros [a|e]; [apply Hk|apply calm_ret]. Qed.
Lemma calm_catch {A} (m : wco A) cs h : calm m -> (forall e, calm (h e)) -> calm (catch m cs h).
Proof. intros Hm Hh. apply calm_seq; [done|]. intros [a|e]; [apply calm_ret|]. destruct (existsb _ _); [apply Hh|apply calm_ret]. Qed.
Lemma calm_finally {A} (m : wco A) c : calm m -> calm c -> calm (finally m c).
Proof.
  intros Hm Hc. apply calm_seq; [done|]. intros r. apply calm_seq; [done|]. intros []; apply calm_ret.
Qed.
Lemma calm_modify f : mild f -> calm (modify f).
Proof. intros Hf self tr b Hb. destruct (Hf b Hb) as [H1 H2]. apply wp_modify; [intros t _; apply H2|by split]. Qed.
Lemma calm_gets {A} (f : Broker -> A) : calm (gets f).
Proof. intros self tr b Hb. by split. Qed.
Lemma calm_call o : calm (wcall o).
Proof. intros self tr b Hb r _. by split. Qed.
Lemma calm_await o : calm (wawait o).
Proof.
  intros self tr b Hb. split; [done|]. intros r b1 b' HR Hb1 Ha.
  destruct (answers_good _ _ _ _ _ Ha Hb1) as [H1 H2]. split; [done|]. etrans; [exact HR|apply H2].
Qed.
Lemma calm_locked {A} o f (m : wco A) : mild f -> calm m -> calm (locked (wawait o) f m).
Proof.
  intros Hf Hm. apply calm_seq; [apply calm_await|]. intros [a|e]; [|apply calm_ret].
  apply calm_finally; [done|]. by apply calm_modify.
Qed.
Lemma calm_current : calm current_task.
Proof. intros self tr b Hb. by split. Qed.
Lemma calm_create c : calm c -> calm (create_task c).
Proof.
  intros Hc self tr b Hb. apply wp_create_task; [|by split].
  intros t b1 Hb1. eapply wp_mono; [|by apply Hc]. by intros tr' r b' [H _].
Qed.
Lemma calm_loop {J B} (body : J -> wco (J + B)) i : (forall j, calm (body j)) -> calm (loop body i).
Proof.
  intros Hbody self tr b Hb. apply (wp_loop _ _ _ _ (fun _ _ b' => broker_inv b' /\ broker_rely self b b'));
    [by split|]. intros j tr1 b1 [H1 R1]. eapply wp_mono; [|by apply Hbody].
  intros tr2 r b2 [H2 R2]. assert (broker_rely self b b2) by by etrans. by destruct r as [[|]|].
Qed.
Lemma calm_each {X} (f : X -> wco unit) l : (forall x, calm (f x)) -> calm (each f l).
Proof. intros Hf. induction l as [|x l IH]; [apply calm_ret|]. by apply calm_bind. Qed.
Lemma calm_when b c : calm c -> calm (when b c).
Proof. destruct b; [done|intros _; apply calm_ret]. Qed.
Lemma calm_deadline {A} hit (m : wco A) : calm hit -> calm m -> calm (deadline hit m).
Proof.
  intros Hh Hm. apply calm_catch; [done|]. intros e. apply calm_seq; [done|].
  intros [[]|e']; apply calm_ret.
Qed.
Ltac calm_step :=
  lazymatch goal with
  | |- calm (wawait ?o) => exact (calm_await o)
  | |- calm (wcall ?o) => exact (calm_call o)
  | |- calm (_ ≫= _) => apply calm_bind
  | |- calm (lift _) => apply calm_ret
  | |- calm (throw _ _) => apply calm_ret
  | |- calm (policy _) => apply calm_ret
  | |- calm (mret _) => apply calm_ret
  | |- calm skip => apply calm_ret
  | |- calm (gets _) => apply calm_gets
  | |- calm (catch _ _ _) => apply calm_catch
  | |- calm (finally _ _) => apply calm_finally
  | |- calm (locked (wawait _) _ _) => apply calm_locked
  | |- calm (deadline _ _) => apply calm_deadline
  | |- calm (loop _ _) => apply calm_loop
  | |- calm (each _ _) => apply calm_each
  | |- calm (when _ _) => apply calm_when
  | |- calm (create_task _) => apply calm_create
  | |- calm current_task => apply calm_current
  | |- calm (modify _) => apply calm_modify
  | |- mild (set_budget_lock _ _) => apply mild_budget_lock
  | |- mild (new_budget _) => apply mild_new_budget
  | |- mild _ => apply mild_same; intros ?; by split_and!
  | |- calm (match ?x with _ => _ end) => destruct x
  | |- calm (let '_ := ?x in _) => destruct x
  end.
Ltac calm_tac := repeat (intros; first [solve [eauto with calm nocore] | calm_step]).

Lemma calm_read c limit : calm (read c limit).
Proof. unfold read, read_frame. cbn [t_read_exactly connection]. cbv zeta. calm_tac. Qed.
Lemma calm_send_frame c kind payload : calm (send_frame c kind payload).
Proof. unfold send_frame, send. cbn [t_locked t_write t_drain connection]. calm_tac. Qed.
Hint Resolve calm_read calm_send_frame : calm.
Lemma calm_safe_send c kind payload : calm (safe_send c kind payload).
Proof. unfold safe_send. calm_tac. Qed.
Hint Resolve calm_safe_send : calm.
Lemma calm_safe_error c code message : calm (safe_error c code message).
Proof. unfold safe_error. calm_tac. Qed.
Lemma calm_peer_uid c : calm (peer_uid c).
Proof. unfold peer_uid. calm_tac. Qed.
Lemma calm_docker_control action id : calm (docker_control settings action id).
Proof. unfold docker_control. calm_tac. Qed.
Lemma calm_docker_output arguments : calm (docker_output settings arguments).
Proof. unfold docker_output. calm_tac. Qed.
Hint Resolve calm_safe_error calm_peer_uid calm_docker_control calm_docker_output : calm.
Lemma calm_verify : calm (verify_runtime settings).
Proof. unfold verify_runtime. calm_tac. Qed.
Lemma calm_reconcile keep : calm (reconcile_managed_containers settings keep).
Proof. unfold reconcile_managed_containers, with_lock. calm_tac. Qed.
Hint Resolve calm_verify calm_reconcile : calm.
Lemma calm_reconcile_loop : calm (reconcile_loop settings).
Proof. unfold reconcile_loop. calm_tac. Qed.

(** ** Budgets *)

(** Payload bytes that a task handed to transports: a frame is written as a
    header and a payload. *)
Definition forwarded1 (e : event wop wresp) : Z :=
  match operation e with WriteChunks _ l => zlen (default [] (last l)) | _ => 0 end.
Definition forwarded (tr : wtrace) : Z := foldr (fun e n => forwarded1 e + n) 0 tr.
Lemma forwarded_app tr l : forwarded (tr ++ l) = forwarded tr + forwarded l.
Proof. induction tr as [|e tr IH]; cbn [app forwarded foldr]; [done|]. fold (forwarded (tr ++ l)) (forwarded tr). lia. Qed.
Lemma forwarded_none l : Forall (fun e => forwarded1 e = 0) l -> forwarded l = 0.
Proof. induction 1 as [|e l He _ IH]; [done|]. cbn [forwarded foldr]. fold (forwarded l). lia. Qed.

(** The spec of a granted or refused chunk. *)
Definition granted (g size : Z) (b b' : Broker) (r : res bool) : Prop :=
  forall x, budgets b !! g = Some x -> exists x', budgets b' !! g = Some x' /\
    (r = Ok true -> remaining x' + size <= remaining x) /\ (r = Ok false -> exceeded x' = true).

Lemma consume_grants g size self tr b : 0 <= size -> broker_inv b ->
  wwp self (consume g size) (fun tr' r b' => broker_inv b' /\ broker_rely self b b' /\
    forwarded tr' = forwarded tr /\ granted g size b b' r) tr b.
Proof.
  intros Hz Hb. unfold consume. apply wp_locked. split; [done|]. intros r b1 b2 R1 Hb1 Ha.
  destruct (answers_good _ _ _ _ _ Ha Hb1) as [Hb2 R2]. specialize (R2 self).
  assert (forwarded (tr ++ [Awaited (AcquireBudget g) r]) = forwarded tr) as Etr
    by (rewrite forwarded_app; cbn; lia).
  assert (broker_rely self b b2) as R by by etrans.
  destruct r as [[]|e].
  2:{ split_and!; [done..|]. intros x Hx. destruct (rely_budgets _ _ _ R g x Hx) as (x' & Hx' & _).
      by exists x'. }
  apply wp_bind, wp_gets. destruct (budgets b2 !! g) as [x|] eqn:Hx.
  2:{ destruct (mild_budget_lock g None b2 Hb2) as [Hb3 R3]. cbn [wp mret co_ret].
      split; [intros t _; apply R3|]. split; [done|]. split; [etrans; [exact R|apply R3]|]. split; [done|].
      intros x0 Hx0. destruct (rely_budgets _ _ _ R g x0 Hx0) as (x' & Hx' & _). congruence. }
  pose proof (inv_budgets _ Hb2 g x Hx) as [Hr _].
  assert (forall y v, 0 <= remaining y <= remaining x ->
    (exceeded x = true -> exceeded y = true) -> (v = true -> remaining y + size <= remaining x) ->
    (v = false -> exceeded y = true) ->
    wwp self (modify (set_budgets (<[g := y]>)) ≫= fun _ => mret v) (fun tr2 r2 b3 =>
      (forall t, t <> self -> broker_rely t b3 (set_budget_lock g None b3)) /\
      broker_inv (set_budget_lock g None b3) /\ broker_rely self b (set_budget_lock g None b3) /\
      forwarded tr2 = forwarded tr /\ granted g size b (set_budget_lock g None b3) r2)
      (tr ++ [Awaited (AcquireBudget g) (Ok tt : res (wresp (AcquireBudget g)))]) b2) as Hput.
  { intros y v Hy He Hv Hf. destruct (mild_budget g y b2 Hb2) as [Hb3 R3]; [lia|exists x; split_and!; [done|lia|done]|].
    apply wp_bind, wp_modify; [intros t _; apply R3|].
    destruct (mild_budget_lock g None _ Hb3) as [Hb4 R4]. cbn [wp mret co_ret].
    split; [intros t _; apply R4|]. split; [done|]. split; [etrans; [exact R|]; etrans; [apply R3|apply R4]|].
    split; [done|]. intros x0 Hx0. destruct (rely_budgets _ _ _ R g x0 Hx0) as (x1 & Hx1 & Hle & _).
    assert (x1 = x) as -> by congruence.
    destruct (rely_budgets _ _ _ (R4 self) g y) as (y' & Hy' & Hle' & He'); [apply lookup_insert_eq|].
    exists y'. split; [done|]. split; [|intros [= ->]; auto]. intros [= ->]. specialize (Hv eq_refl). lia. }
  destruct (Z.ltb_spec (remaining x) size); apply Hput; cbn [remaining exceeded]; (done || lia).
Qed.

Lemma calm_consume g size : 0 <= size -> calm (consume g size).
Proof. intros Hz self tr b Hb. eapply wp_mono; [|by apply consume_grants]. by intros tr' r b' (H & R & _). Qed.

(** [m] hands over at most [n] payload bytes. *)
Definition forwards {A} (m : wco A) (n : Z) : Prop := forall self tr b, broker_inv b ->
  wwp self m (fun tr' _ b' => broker_inv b' /\ broker_rely self b b' /\ forwarded tr' <= forwarded tr + n) tr b.
Lemma send_forwards c kind payload : forwards (send_frame c kind payload) (zlen payload).
Proof.
  intros self tr b Hb. unfold send_frame, send. cbn [t_locked t_write t_drain connection].
  destruct (_ <? _); [by split_and!; [|reflexivity|lia]|].
  apply wp_locked. split; [done|]. intros r b1 b2 R1 Hb1 Ha.
  destruct (answers_good _ _ _ _ _ Ha Hb1) as [Hb2 R2]. specialize (R2 self).
  assert (broker_rely self b b2) as R by by etrans. clear Ha.
  destruct r as [[]|e]; [|by split_and!; [done|done|rewrite forwarded_app; cbn; lia]].
  assert (forall tr' b', broker_inv b' -> broker_rely self b b' -> forwarded tr' <= forwarded tr + zlen payload ->
    (forall t, t <> self -> broker_rely t b' (set_frame_locks (delete c) b')) /\
    broker_inv (set_frame_locks (delete c) b') /\ broker_rely self b (set_frame_locks (delete c) b') /\
    forwarded tr' <= forwarded tr + zlen payload) as Hend.
  { intros tr' b' Hb' R' Hf. destruct (mild_same (set_frame_locks (delete c)) ltac:(intros ?; by split_and!) b' Hb') as [H4 R4].
    split; [intros t _; apply R4|]. split; [done|]. split; [by etrans; [|apply R4]|done]. }
  apply wp_bind. intros r _. destruct r as [[]|e].
  2:{ apply Hend; [done|done|]. rewrite !forwarded_app. cbn. lia. }
  split; [done|]. intros r b3 b4 R3 Hb3 Ha. destruct (answers_good _ _ _ _ _ Ha Hb3) as [Hb4 R4].
  apply Hend; [done|etrans; [exact R|]; etrans; [exact R3|apply R4]|]. rewrite !forwarded_app. cbn. lia.
Qed.

(** C32: a worker cannot send more than its budget.  Under any interference, the
    output that a pump forwards to the client is paid for from the budget it
    shares with the other pump: what it forwarded and what is left never
    exceed what was left when it started. *)
Theorem pump_within_budget c p kind g self tr b : broker_inv b ->
  wwp self (pump_output c p kind g) (fun tr' _ b' => broker_inv b' /\ broker_rely self b b' /\
    forall x, budgets b !! g = Some x -> exists x', budgets b' !! g = Some x' /\
      0 <= remaining x' /\ forwarded tr' + remaining x' <= forwarded tr + remaining x) tr b.
Proof.
  intros Hb. set (L := fun (tr' : wtrace) b' => broker_inv b' /\ broker_rely self b b' /\
    forall x, budgets b !! g = Some x -> exists x', budgets b' !! g = Some x' /\
      forwarded tr' + remaining x' <= forwarded tr + remaining x).
  assert (forall tr' b', L tr' b' -> broker_inv b' /\ broker_rely self b b' /\
    forall x, budgets b !! g = Some x -> exists x', budgets b' !! g = Some x' /\
      0 <= remaining x' /\ forwarded tr' + remaining x' <= forwarded tr + remaining x) as Hend.
  { intros tr' b' (Hb' & R & H). split; [done|]. split; [done|]. intros x Hx.
    destruct (H x Hx) as (x' & Hx' & Hle). exists x'. split; [done|].
    by pose proof (inv_budgets _ Hb' g x' Hx') as [[? _] _]. }
  assert (forall tr1 tr2 b1 b2, L tr1 b1 -> broker_inv b2 -> broker_rely self b1 b2 ->
    forwarded tr2 = forwarded tr1 -> L tr2 b2) as Hstep.
  { intros tr1 tr2 b1 b2 (Hb1 & R1 & H1) Hb2 R2 E. split; [done|]. split; [by etrans|].
    intros x Hx. destruct (H1 x Hx) as (x1 & Hx1 & Hle). destruct (rely_budgets _ _ _ R2 g x1 Hx1) as (x2 & Hx2 & Hle2 & _).
    exists x2. split; [done|]. rewrite E. lia. }
  unfold pump_output. apply wp_bind. intros r Hr. assert (L (tr ++ [Called (HasStream p kind) r]) b) as HL.
  { split; [done|]. split; [reflexivity|]. intros x Hx. exists x. split; [done|]. rewrite forwarded_app. cbn. lia. }
  destruct r as [[]|e]; [|by apply Hend|by apply Hend]. cbn [negb].
  apply (wp_loop _ _ _ _ (fun _ tr' b' => L tr' b')); [done|]. intros [] tr1 b1 HL1.
  apply wp_bind. split; [apply HL1|]. intros r b2 b3 R2 Hb2 Ha.
  destruct (answers_good _ _ _ _ _ Ha Hb2) as [Hb3 R3]. clear Ha Hr.
  assert (L (tr1 ++ [Awaited (ReadStream p kind MAX_STREAM_CHUNK) r]) b3) as HL3.
  { eapply Hstep; [exact HL1|done|etrans; [exact R2|apply R3]|]. rewrite forwarded_app. cbn. lia. }
  revert HL3. generalize (tr1 ++ [Awaited (ReadStream p kind MAX_STREAM_CHUNK) r]). intros tr3 HL3.
  destruct r as [[|x0 chunk]|e]; [by apply Hend| |by apply Hend].
  apply wp_bind. eapply wp_mono; [|apply consume_grants; [lia|apply HL3]].
  intros tr4 r4 b4 (Hb4 & R4 & E4 & Hg). destruct r4 as [[]|e]; [|by apply Hend; eapply Hstep..].
  apply wp_bind. eapply wp_mono; [|by apply send_forwards].
  intros tr5 r5 b5 (Hb5 & R5 & F5). assert (L tr5 b5) as HL5.
  { destruct HL3 as (_ & R & H). split; [done|]. split; [etrans; [exact R|by etrans]|]. intros x Hx.
    destruct (H x Hx) as (x1 & Hx1 & Hle). destruct (Hg x1 Hx1) as (x2 & Hx2 & Hle2 & _).
    destruct (rely_budgets _ _ _ R5 g x2 Hx2) as (x3 & Hx3 & Hle3 & _). exists x3. split; [done|].
    specialize (Hle2 eq_refl). lia. }
  destruct r5 as [[]|e]; [done|by apply Hend].
Qed.

(** ** Slots *)

Lemma calm_pump c p kind g : calm (pump_output c p kind g).
Proof.
  unfold pump_output. apply calm_bind; [apply calm_call|]. intros [|]; [cbn [negb]|apply calm_ret].
  apply calm_loop. intros []. apply calm_bind; [apply calm_await|]. intros [|x chunk]; [apply calm_ret|].
  apply calm_bind; [apply calm_consume; lia|]. intros [|]; calm_tac.
Qed.
Lemma calm_relay c p id : calm (relay_control settings c p id).
Proof. unfold relay_control. calm_tac. Qed.
Lemma calm_force id process : calm (force_cleanup settings id process).
Proof. unfold force_cleanup, kill_and_wait. calm_tac. Qed.
Lemma calm_launch c request : calm (launch_container settings c request).
Proof. unfold launch_container. calm_tac. Qed.
Hint Resolve calm_pump calm_relay calm_force calm_launch : calm.

Lemma claim_claims sid self tr b : broker_inv b ->
  wwp self (claim settings sid) (fun _ r b' => broker_inv b' /\ broker_rely self b b' /\
    (r = Ok true -> active b' !! sid = Some self)) tr b.
Proof.
  intros Hb. unfold claim, with_lock. apply wp_locked. split; [done|]. intros r b1 b2 R1 Hb1 Ha.
  destruct (answers_good _ _ _ _ _ Ha Hb1) as [Hb2 R2]. specialize (R2 self). clear Ha.
  assert (broker_rely self b b2) as R by by etrans. destruct r as [[]|e]; [|by split_and!].
  assert (forall b', broker_inv b' -> broker_inv (set_broker_lock None b') /\
    forall t, broker_rely t b' (set_broker_lock None b')) as Hfree
    by (apply mild_same; intros ?; by split_and!).
  apply wp_bind, wp_gets. cbn [id].
  destruct (runtime_healthy b2), (bool_decide (is_Some (active b2 !! sid))) eqn:Ea,
    (Z.leb_spec (max_workers settings) (Z.of_nat (size (active b2)))); cbn [negb orb];
    try (cbn [wp mret co_ret]; destruct (Hfree b2 Hb2) as [H4 R4];
         split; [intros t _; apply R4|]; split; [done|]; split; [by etrans; [|apply R4]|done]).
  apply bool_decide_eq_false, eq_None_not_Some in Ea.
  apply wp_bind, wp_current_task.
  assert (broker_inv (set_active (insert sid self) b2)) as Hb3.
  { destruct Hb2 as [H1 H2 H3]. constructor; [|intros i p Hp|done]; cbn.
    - rewrite map_size_insert_None by done. lia.
    - destruct (decide (i = sid)) as [->|]; [by rewrite lookup_insert_eq|].
      rewrite lookup_insert_ne by done. by eapply H2. }
  assert (forall t, broker_rely t b2 (set_active (insert sid self) b2)) as R3.
  { intros t. constructor; [by apply rtc_once, SlotClaim| |intros g x Hx; by exists x]. intros i Hi. cbn.
    rewrite lookup_insert_ne; [done|]. intros ->. congruence. }
  apply wp_bind, wp_modify; [intros t _; apply R3|]. cbn [wp mret co_ret].
  destruct (Hfree _ Hb3) as [H4 R4]. split; [intros t _; apply R4|]. split; [done|].
  split; [etrans; [exact R|]; etrans; [apply R3|apply R4]|]. intros _. apply lookup_insert_eq.
Qed.

(** Releasing one's own slot; only a cancellation can prevent it. *)
Lemma release_releases id self tr b : broker_inv b -> active b !! id = Some self ->
  wwp self (release id) (fun _ r b' => broker_inv b' /\
    match r with Ok _ => active b' !! id = None | Err e => exc_sub (exn_class e) CancelledError = true end)
    tr b.
Proof.
  intros Hb Hid. unfold release, with_lock. apply wp_locked. split; [done|]. intros r b1 b2 R1 Hb1 Ha.
  destruct (answers_good _ _ _ _ _ Ha Hb1) as [Hb2 R2]. specialize (R2 self).
  destruct r as [[]|e].
  2:{ split; [done|]. destruct Ha as [(_ & ? & _)|[[_ Hc] _]]; [done|]. cbn in Hc. by rewrite orb_false_r in Hc. }
  assert (active b2 !! id = Some self) as Hid2 by by apply R2, R1.
  assert (forall f t, t <> self -> broker_rely t b2 (set_processes f (set_active (delete id) b2))) as Hothers.
  { intros f t Ht. constructor; [by apply rtc_once, (SlotRelease self)| |intros g x Hx; by exists x].
    intros i Hi. cbn.
    rewrite lookup_delete_ne; [done|]. congruence. }
  apply wp_bind, wp_modify; [intros t Ht; apply (Hothers (fun m => m) t Ht)|].
  apply wp_modify; [intros t Ht; constructor; [done|done|intros g x Hx; by exists x]|].
  assert (broker_inv (set_processes (delete id) (set_active (delete id) b2))) as Hb3.
  { destruct Hb2 as [H1 H2 H3]. constructor; [|intros i p|done]; cbn.
    - rewrite map_size_delete, Hid2. cbn. lia.
    - intros [Hne Hp]%lookup_delete_Some. rewrite lookup_delete_ne by done. by eapply H2. }
  split; [intros t Ht; constructor; [done|done|intros g x Hx; by exists x]|]. split.
  - by apply mild_same; [intros ?; split_and!|].
  - cbn. apply lookup_delete_eq.
Qed.

(** ** Cleaning up after a worker *)

Definition spawns (o : wop) : bool :=
  match o with SpawnWorker _ | SpawnControl _ | SpawnQuery _ => true | _ => false end.
(** The last process that was started is the Docker command [action] for the
    session. *)
Definition last_spawned (action : string) (id : text) (tr : wtrace) : Prop :=
  exists tr0 cmd r l, tr = tr0 ++ Awaited (SpawnControl cmd) r :: l /\
    control_command settings (lit action) id = Ok cmd /\
    Forall (fun e => spawns (operation e) = false) l.
Definition no_spawn (o : wop) : Prop := spawns o = false.

Lemma last_spawned_app action id tr l :
  last_spawned action id tr -> Forall (fun e => spawns (operation e) = false) l ->
  last_spawned action id (tr ++ l).
Proof.
  intros (tr0 & cmd & r & l0 & -> & Hc & Hl) Hl'. exists tr0, cmd, r, (l0 ++ l).
  rewrite <- app_assoc. split; [done|]. split; [done|]. by apply Forall_app.
Qed.

Lemma w_await self o (Q : wtrace -> res (wresp o) -> Broker -> Prop) tr b : broker_inv b ->
  (forall r b1 b', broker_rely self b b1 -> broker_inv b1 -> w_answers b1 self o r b' ->
     Q (tr ++ [Awaited o r]) r b') -> wwp self (wawait o) Q tr b.
Proof. intros Hb H. split; [done|]. intros r b1 b' HR Hb1 Ha. exact (H r b1 b' HR Hb1 Ha). Qed.
Lemma w_call self o (Q : wtrace -> res (wresp o) -> Broker -> Prop) tr b :
  (forall r, w_replies b o r -> Q (tr ++ [Called o r]) r b) -> wwp self (wcall o) Q tr b.
Proof. intros H r Hr. exact (H r Hr). Qed.
Ltac w_await_step :=
  match goal with |- wp _ _ _ _ _ (wawait ?o) _ _ _ => apply (w_await _ o); [done|] end.
Ltac w_call_step :=
  match goal with |- wp _ _ _ _ _ (wcall ?o) _ _ _ => apply (w_call _ o) end.

(** What is not caught is a cancellation. *)
Lemma uncaught e c cs : existsb (exc_sub (exn_class e)) (c :: cs) = true ->
  existsb (exc_sub (exn_class e)) cs = false -> existsb (exc_sub (exn_class e)) [c] = true.
Proof. cbn [existsb]. intros H Hn. by rewrite Hn in H. Qed.

Ltac returns := cbn [wp mret co_ret skip lift]; split_and!.
Lemma control_spawns action id self tr b :
  re_match SESSION_ID_PATTERN id = true -> lit action ∈ [lit "stop"; lit "kill"; lit "rm"] -> broker_inv b ->
  wwp self (docker_control settings action id) (fun tr' r b' => broker_inv b' /\ broker_rely self b b' /\
    fails_with [CancelledError] r /\ last_spawned action id tr') tr b.
Proof.
  intros Hid Ha Hb. unfold docker_control.
  assert (exists cmd, control_command settings (lit action) id = Ok cmd) as [cmd Hcmd].
  { unfold control_command. rewrite bool_decide_eq_true_2 by done. cbn [negb].
    rewrite (proj2 (container_name_ok id _) (conj Hid eq_refl)). cbn [mbind res_bind].
    repeat case_bool_decide; eauto. }
  apply wp_bind. rewrite Hcmd. cbn [wp lift].
  apply wp_catch, wp_bind. w_await_step. intros r b1 b2 R1 Hb1 (-> & Hf).
  assert (last_spawned action id (tr ++ [Awaited (SpawnControl cmd) r])) as Hl
    by (exists tr, cmd, r, []; by repeat split).
  destruct r as [p|e].
  2:{ cbv beta iota. destruct (existsb (exc_sub (exn_class e)) [OSError]) eqn:E; [by returns|].
      split_and!; [done..| |done].
      exact (uncaught _ _ _ Hf E). }
  revert Hl. generalize (tr ++ [Awaited (SpawnControl cmd) (Ok p : res (wresp (SpawnControl cmd)))]). intros tr1 Hl.
  apply wp_catch, wp_bind. w_await_step. intros r b3 b4 R3 Hb3 (-> & Hf').
  assert (broker_rely self b b3) as R by by etrans.
  assert (last_spawned action id (tr1 ++ [Awaited (WaitProcessFor p) r])) as Hl1
    by (apply last_spawned_app; [done|by repeat constructor]).
  destruct r as [rc|e]; [by returns|]. cbv beta iota.
  destruct (existsb (exc_sub (exn_class e)) [TimeoutError]) eqn:E.
  2:{ pose proof (uncaught _ _ _ Hf' E) as Hc.
      destruct (existsb (exc_sub (exn_class e)) [OSError]); by returns. }
  revert Hl1. generalize (tr1 ++ [Awaited (WaitProcessFor p) (Err e : res (wresp (WaitProcessFor p)))]). intros tr2 Hl2.
  apply wp_bind. w_call_step. intros r [_ Hk].
  assert (last_spawned action id (tr2 ++ [Called (KillProcess p) r])) as Hl3
    by (apply last_spawned_app; [done|by repeat constructor]).
  destruct r as [[]|e']; [|by rewrite (Hk e' eq_refl); split_and!].
  apply wp_bind. w_await_step. intros r b5 b6 R5 Hb5 (-> & Hf5).
  assert (last_spawned action id ((tr2 ++ [Called (KillProcess p) (Ok tt : res (wresp (KillProcess p)))])
    ++ [Awaited (WaitProcess p) r])) as Hl5 by (apply last_spawned_app; [done|by repeat constructor]).
  assert (broker_rely self b b5) as R' by by etrans.
  destruct r as [rc|e']; [by returns|]. cbv beta iota. destruct (existsb (exc_sub (exn_class e')) [OSError]); by returns.
Qed.

(** Exceptions that cut a cleanup short: a cancellation, or [Process.kill] on
    a process that is already gone. *)
Definition cut_short (e : exn) : Prop :=
  exc_sub (exn_class e) CancelledError = true \/ exn_class e = ProcessLookupError.
Lemma fails_cancelled {A} (e : exn) : fails_with (A := A) [CancelledError] (Err e) -> cut_short e.
Proof. cbn. rewrite orb_false_r. by left. Qed.

Lemma kill_calm p self tr b : broker_inv b ->
  wwp self (kill_and_wait p) (fun _ r b' => broker_inv b' /\ broker_rely self b b' /\
    forall e, r = Err e -> cut_short e) tr b.
Proof.
  intros Hb. unfold kill_and_wait. apply wp_bind. w_call_step. intros r [_ Hk].
  destruct r as [[]|e]; [|split_and!; [done|done|intros e' [= <-]; right; by apply Hk]].
  apply wp_bind. w_await_step. intros r b1 b2 R1 Hb1 (-> & Hf).
  destruct r as [rc|e]; split_and!; [done|done|done|done|done|].
  intros e' [= <-]. by eapply fails_cancelled.
Qed.

Lemma cleanup_cleans process id self tr b :
  re_match SESSION_ID_PATTERN id = true -> broker_inv b -> active b !! id = Some self ->
  wwp self (cleanup settings process id) (fun tr' r b' => broker_inv b' /\
    match r with
    | Ok _ => active b' !! id = None /\ last_spawned "rm" id tr'
    | Err e => cut_short e
    end) tr b.
Proof.
  intros Hid Hb Ho. unfold cleanup.
  assert (forall tr1 b1, broker_inv b1 -> broker_rely self b b1 ->
    wwp self (docker_control settings "rm" id ≫= fun _ => release id) (fun tr' r b' => broker_inv b' /\
      match r with
      | Ok _ => active b' !! id = None /\ last_spawned "rm" id tr'
      | Err e => cut_short e
      end) tr1 b1) as Hrm.
  { intros tr1 b1 Hb1 R1. apply wp_bind. eapply wp_mono; [|by apply control_spawns; [|set_solver|]].
    intros tr2 [ok|e] b2 (Hb2 & R2 & Hf & Hl); [|split; [done|by eapply fails_cancelled]].
    eapply wp_mono; [|eapply (wp_uses _ _ _ _ no_spawn); [|apply release_releases; [done|]]].
    - intros tr3 r b3 ((Hb3 & Hr) & l & -> & Hl'). split; [done|].
      destruct r as [[]|e]; [|by left]. split; [done|]. by apply last_spawned_app.
    - unfold release, with_lock. uses_tac.
    - by apply R2, R1. }
  apply wp_bind. destruct process as [p|]; [|by apply Hrm].
  apply wp_bind. w_call_step. intros r [Hn _]. destruct r as [rc|e]; [|by specialize (Hn eq_refl)].
  destruct rc as [rc|]; [by apply Hrm|]. apply wp_bind.
  eapply wp_mono; [|apply control_spawns; [done|set_solver|done]].
  intros tr2 [ok|e] b2 (Hb2 & R2 & Hf & _); [|split; [done|by eapply fails_cancelled]].
  eapply wp_mono; [|by apply kill_calm]. intros tr3 [[]|e] b3 (Hb3 & R3 & He); [|split; [done|by apply He]].
  apply Hrm; [done|by etrans].
Qed.

Lemma record_process p id self tr b : broker_inv b -> active b !! id = Some self ->
  wwp self (with_lock (modify (set_processes (insert id p))))
    (fun _ _ b' => broker_inv b' /\ broker_rely self b b') tr b.
Proof.
  intros Hb Ho. unfold with_lock. apply wp_locked.
  w_await_step. intros r b1 b2 R1 Hb1 Ha. destruct (answers_good _ _ _ _ _ Ha Hb1) as [Hb2 R2].
  assert (broker_rely self b b2) as R by by etrans. clear Ha. destruct r as [[]|e]; [|by split].
  assert (active b2 !! id = Some self) as Ho2 by by apply R.
  assert (forall t, broker_rely t b2 (set_processes (insert id p) b2)) as R3
    by (intros t; constructor; [done|done|intros g x Hx; by exists x]).
  assert (broker_inv (set_processes (insert id p) b2)) as Hb3.
  { destruct Hb2 as [H1 H2 H3]. constructor; [done| |done]. intros i q. cbn.
    destruct (decide (i = id)) as [->|]; [by rewrite Ho2|]. rewrite lookup_insert_ne by done. apply H2. }
  apply wp_modify; [intros t _; apply R3|].
  destruct (mild_same (set_broker_lock None) ltac:(intros ?; by split_and!) _ Hb3) as [Hb4 R4].
  split; [intros t _; apply R4|]. split; [done|]. etrans; [exact R|]. etrans; [apply R3|apply R4].
Qed.
Lemma supervise_owned c p id self tr b : broker_inv b -> active b !! id = Some self ->
  wwp self (supervise settings output_limit_bytes c p id)
    (fun _ _ b' => broker_inv b' /\ broker_rely self b b') tr b.
Proof.
  intros Hb Ho. unfold supervise. apply wp_bind. eapply wp_mono; [|by apply record_process].
  intros tr1 [[]|e] b1 [Hb1 R1]; [|by split].
  eapply wp_mono; [|eapply (calm_bind (send_frame c STARTED []))]; [| | |exact Hb1].
  - intros tr' r b' [H H']. split; [done|by etrans].
  - apply calm_send_frame.
  - cbv zeta. unfold kill_and_wait. calm_tac.
Qed.

Lemma run_worker_contract c request self tr b :
  re_match SESSION_ID_PATTERN (start_session_id request) = true -> broker_inv b ->
  wwp self (run_worker settings output_limit_bytes c request) (fun tr' r b' => broker_inv b' /\
    ((exists l, tr' = tr ++ l /\ Forall (fun e => no_spawn (operation e)) l) \/
     (active b' !! start_session_id request = None /\ last_spawned "rm" (start_session_id request) tr') \/
     (exists e, r = Err e /\ cut_short e))) tr b.
Proof.
  intros Hid Hb. set (id := start_session_id request) in *. unfold run_worker. fold id.
  apply wp_bind. eapply wp_mono; [|eapply (wp_uses _ _ _ _ no_spawn); [|by apply claim_claims]].
  2:{ unfold claim, with_lock. uses_tac. }
  intros tr1 r b1 ((Hb1 & R1 & Hc) & l & -> & Hl). destruct r as [claimed|e].
  2:{ split; [done|]. left. by exists l. }
  destruct claimed; cbn [negb].
  2:{ eapply wp_mono; [|eapply (wp_uses _ _ _ _ no_spawn); [|by apply calm_safe_error]].
      - intros tr2 r b2 ((Hb2 & _) & l2 & -> & Hl2). split; [done|]. left. exists (l ++ l2).
        rewrite app_assoc. split; [done|by apply Forall_app].
      - unfold safe_error, safe_send, send_frame, send. cbn [t_locked t_write t_drain connection]. uses_tac. }
  specialize (Hc eq_refl).
  assert (forall (m : wco unit) process tr2 b2, broker_inv b2 -> active b2 !! id = Some self ->
    wwp self m (fun _ _ b' => broker_inv b' /\ broker_rely self b2 b') tr2 b2 ->
    wwp self (finally m (cleanup settings process id)) (fun tr' r b' => broker_inv b' /\
      ((exists l, tr' = tr ++ l /\ Forall (fun e => no_spawn (operation e)) l) \/
       (active b' !! id = None /\ last_spawned "rm" id tr') \/
       (exists e, r = Err e /\ cut_short e))) tr2 b2) as Hend.
  { intros m process tr2 b2 Hb2 Ho2 Hm. apply wp_finally. eapply wp_mono; [|exact Hm].
    intros tr3 r3 b3 [Hb3 R3]. eapply wp_mono; [|apply cleanup_cleans; [done|done|by apply R3]].
    intros tr4 [[]|e] b4 [Hb4 H4]; (split; [done|right]); [by left|right; by exists e]. }
  apply calm_then; [apply calm_launch|done|]. intros tr2 r2 b2 Hb2 R2.
  assert (active b2 !! id = Some self) as Ho2 by by apply R2.
  destruct r2 as [[p|]|e]; (apply Hend; [done|done|]).
  - by apply supervise_owned.
  - by split.
  - by split.
Qed.

Lemma calm_close c : calm (close_connection c).
Proof. unfold close_connection. calm_tac. Qed.
Hint Resolve calm_close : calm.

Lemma request_valid payload request : StartRequest_from_payload payload = Ok request ->
  re_match SESSION_ID_PATTERN (start_session_id request) = true /\
  owned_board (start_board_id request) = true.
Proof.
  intros H. unfold StartRequest_from_payload in H. apply res_bind_ok in H as (v & _ & H).
  destruct (negb (keys_are _ _)); [done|]. destruct (bad_protocol _); [done|].
  destruct (field "session_id" v) as [| | | |id| |]; try done.
  destruct (field "board_id" v) as [| | | |board| |]; try done.
  by apply start_request_init_ok in H as (-> & ? & ?).
Qed.

(** A coroutine that keeps the invariant, whatever it does with its slots. *)
Definition keeps {A} (m : wco A) : Prop := forall self tr b, broker_inv b ->
  wwp self m (fun _ _ b' => broker_inv b') tr b.
Lemma calm_keeps {A} (m : wco A) : calm m -> keeps m.
Proof. intros Hm self tr b Hb. eapply wp_mono; [|by apply Hm]. by intros ? ? ? []. Qed.
Lemma broker_keeps_seq {A B} (m : wco A) (k : res A -> wco B) : keeps m -> (forall r, keeps (k r)) -> keeps (seq m k).
Proof.
  intros Hm Hk self tr b Hb. apply wp_seq. eapply wp_mono; [|by apply Hm]. intros tr' r b' Hb'. by apply Hk.
Qed.
Lemma keeps_serve_request c : keeps (serve_request settings output_limit_bytes c).
Proof.
  unfold serve_request. apply broker_keeps_seq; [apply calm_keeps; calm_tac|].
  intros [first|e]; [|apply calm_keeps, calm_ret].
  destruct (_ && _); [apply calm_keeps; calm_tac|]. destruct (negb _); [apply calm_keeps, calm_ret|].
  destruct (StartRequest_from_payload (frame_payload first)) as [request|e] eqn:Hr;
    [|apply calm_keeps, calm_ret].
  change (lift (Ok request) ≫= ?k) with (k request). cbv beta.
  apply broker_keeps_seq; [apply calm_keeps, calm_gets|]. intros [[]|e]; cbn [negb];
    [|apply calm_keeps; calm_tac|apply calm_keeps, calm_ret].
  intros self tr b Hb. eapply wp_mono; [|apply run_worker_contract; [by apply (request_valid _ _ Hr)|done]].
  by intros ? ? ? [].
Qed.
Lemma keeps_handle_body c : keeps (finally
    (catch (serve_request settings output_limit_bytes c)
      [TimeoutError; BrokerProtocolError; OciPolicyError; ConnectionError; BrokenPipeError] (fun e =>
        if exc_sub (exn_class e) TimeoutError then safe_error c "timeout" "Broker request timed out"
        else if exc_sub (exn_class e) BrokerProtocolError then
          safe_error c "protocol" "Broker request was invalid"
        else if exc_sub (exn_class e) OciPolicyError then
          safe_error c "policy" "Worker policy validation failed"
        else skip))
    (close_connection c)).
Proof.
  unfold finally, catch. apply broker_keeps_seq.
  - apply broker_keeps_seq; [apply keeps_serve_request|]. intros [[]|e]; [apply calm_keeps, calm_ret|].
    destruct (existsb _ _); [|apply calm_keeps, calm_ret]. apply calm_keeps. calm_tac.
  - intros r. apply calm_keeps. apply calm_seq; [apply calm_close|]. intros []; apply calm_ret.
Qed.
Lemma keeps_handle_connection c : keeps (handle_connection settings output_limit_bytes c).
Proof.
  unfold handle_connection. apply broker_keeps_seq; [apply calm_keeps, calm_peer_uid|].
  intros [uid|e]; [|apply calm_keeps, calm_ret]. destruct (negb _); [apply calm_keeps, calm_close|].
  apply keeps_handle_body.
Qed.

(** ** The service *)

Lemma calm_start_all l : (forall m, m ∈ l -> calm m) -> calm (start_all l).
Proof.
  induction l as [|m l IH]; intros Hl; [apply calm_ret|]. cbn [start_all].
  apply calm_bind; [apply calm_create, Hl; set_solver|]. intros t.
  apply calm_bind; [apply IH; set_solver|]. intros ts. apply calm_ret.
Qed.
Lemma calm_remove_stale : calm (remove_stale_socket settings getuid).
Proof. unfold remove_stale_socket. calm_tac. Qed.
Hint Resolve calm_remove_stale calm_reconcile_loop : calm.
Lemma calm_start verify : calm (start settings getuid verify).
Proof. unfold start, validate_socket_parent. calm_tac. Qed.
Lemma calm_close_service : calm (close settings getuid).
Proof.
  unfold close, with_lock. repeat first [calm_step | solve [eauto with calm] | progress intros].
  apply calm_start_all. intros m (x & -> & _)%list_elem_of_fmap. apply calm_force.
Qed.

(** What runs on one broker: its life cycle and a task per connection. *)
Inductive broker_entry : wco unit -> Prop :=
  | EntryStart verify : broker_entry (start settings getuid verify)
  | EntryConnection c : broker_entry (handle_connection settings output_limit_bytes c)
  | EntryClose : broker_entry (close settings getuid)
  | EntryService : broker_entry (run_service settings getuid).
Lemma broker_entry_safe m : broker_entry m -> safe w_replies w_answers broker_inv broker_rely m.
Proof.
  intros Hm t b Hb. assert (keeps m) as Hk; [|by apply Hk]. destruct Hm.
  - apply calm_keeps, calm_start.
  - apply keeps_handle_connection.
  - apply calm_keeps, calm_close_service.
  - apply calm_keeps. unfold run_service. apply calm_bind; [apply calm_start|]. intros [].
    apply calm_bind; [apply calm_await|]. intros _. apply calm_close_service.
Qed.
Lemma broker_answers_rely b t o r b' : broker_inv b -> w_answers b t o r b' ->
  forall t', t' <> t -> broker_rely t' b b'.
Proof. intros Hb Ha t' _. by apply (answers_good _ _ _ _ _ Ha Hb). Qed.
Lemma broker_init_inv : broker_inv Broker_init.
Proof. constructor; [done| |]; intros ? ?; cbn; by rewrite lookup_empty. Qed.

Definition broker_reachable := reachable w_replies w_answers broker_entry Broker_init.

(** C4: the broker never runs more workers than its limit.  In every
    interleaving of connections, relays, reconciliation and shutdown: at most
    [max_workers] sessions hold a slot, no session holds two, every process on
    record belongs to a session that holds a slot, and no budget is negative
    or above the limit. *)
Theorem slots_bounded b p : broker_reachable (Config b None p) ->
  Z.of_nat (size (active b)) <= max_workers settings /\
  (forall id q, processes b !! id = Some q -> is_Some (active b !! id)) /\
  (forall g x, budgets b !! g = Some x -> 0 <= remaining x <= output_limit_bytes).
Proof.
  intros Hr. pose proof (machine_safe _ _ _ _ _ broker_entry_safe broker_answers_rely _ _ _
    broker_init_inv Hr) as [H1 H2 H3].
  split; [done|]. split; [done|]. intros g x Hx. by apply (H3 g x).
Qed.


(** C5: the broker cleans up after every worker.  When a request for a worker
    ends, whatever happened in between, either no process was ever started
    for it (it was refused), or its slot is free and removing its container is
    the last thing it asked of Docker; the exceptions are a cancelled task and
    [Process.kill] raising ProcessLookupError. *)
Theorem run_worker_cleans_up c request self tr b :
  re_match SESSION_ID_PATTERN (start_session_id request) = true -> broker_inv b ->
  wwp self (run_worker settings output_limit_bytes c request) (fun tr' r b' =>
    (exists l, tr' = tr ++ l /\ Forall (fun e => no_spawn (operation e)) l) \/
    (active b' !! start_session_id request = None /\ last_spawned "rm" (start_session_id request) tr') \/
    (exists e, r = Err e /\ cut_short e)) tr b.
Proof.
  intros Hid Hb. eapply wp_mono; [|by apply run_worker_contract]. by intros tr' r b' [_ H].
Qed.

(** ** Who is served *)

(** The user that the kernel reports for the peer. *)
Definition peer_of (r : res (option bytes)) : option Z :=
  match r with
  | Ok (Some b) => match unpack_uid b with Ok uid => Some uid | Err _ => None end
  | _ => None
  end.
Definition closes (c : Z) (o : wop) : Prop := o = CloseConnection c \/ o = WaitClosed c.

Lemma close_closes c : uses (closes c) (close_connection c).
Proof. split; [by left|]. intros [[]|e]; [|exact I]. split; [by right|]. intros r. exact I. Qed.
Lemma wp_grows {A} self (m : wco A) (Q : wtrace -> res A -> Broker -> Prop) tr b : wwp self m Q tr b ->
  wwp self m (fun tr' r b' => Q tr' r b' /\ exists l, tr' = tr ++ l) tr b.
Proof.
  intros H. eapply wp_mono; [|apply (wp_uses _ _ _ _ (fun _ => True)); [apply uses_any|exact H]].
  intros tr' r b' (HQ & l & E & _). eauto.
Qed.

(** C7: only the core user is served.  The first thing a connection does is to
    ask for the peer's credentials; unless they name the allowed user, nothing
    else happens than that the connection is closed: no byte is read or
    written, no process started, no slot claimed. *)
Theorem only_core_user c self tr b : broker_inv b ->
  wwp self (handle_connection settings output_limit_bytes c) (fun tr' _ b' => exists r l,
    tr' = tr ++ Called (PeerCredentials c) r :: l /\
    (peer_of r <> Some (allowed_core_uid settings) ->
       Forall (fun e => closes c (operation e)) l /\ broker_rely self b b')) tr b.
Proof.
  intros Hb. unfold handle_connection. apply wp_bind. unfold peer_uid. apply wp_catch, wp_bind.
  w_call_step. intros r _. set (tr1 := tr ++ [Called (PeerCredentials c) r]).
  set (Q := fun tr' (_ : res unit) b' => exists r l, tr' = tr ++ Called (PeerCredentials c) r :: l /\
    (peer_of r <> Some (allowed_core_uid settings) ->
       Forall (fun e => closes c (operation e)) l /\ broker_rely self b b')).
  assert (forall tr' r' b' l, tr' = tr1 ++ l -> (peer_of r <> Some (allowed_core_uid settings) ->
      Forall (fun e => closes c (operation e)) l /\ broker_rely self b b') -> Q tr' r' b') as HQ
    by (intros tr' r' b' l -> H; exists r, l; split; [by unfold tr1; rewrite <- app_assoc|done]).
  assert (forall (m : wco unit) uid, keeps m -> peer_of r = uid ->
    wwp self (if negb (bool_decide (uid = Some (allowed_core_uid settings))) then close_connection c else m)
      Q tr1 b) as Hgate.
  { intros m uid Hm Hu. case_bool_decide as E; cbn [negb].
    - eapply wp_mono; [|by apply wp_grows, Hm]. intros tr' r' b' (_ & l & ->). by eapply HQ; [|congruence].
    - eapply wp_mono; [|apply (wp_uses _ _ _ _ (closes c)); [apply close_closes|by apply calm_close]].
      intros tr' r' b' ([_ HR] & l & -> & Hl). by eapply HQ. }
  pose proof (keeps_handle_body c) as Hk.
  assert (forall e, Q tr1 (Err e) b) as Herr.
  { intros e. eapply (HQ _ _ _ []); [by rewrite app_nil_r|]. by intros _. }
  destruct r as [[creds|]|e]; cbv beta iota.
  - destruct (unpack_uid creds) as [uid|e] eqn:E; cbn [lift wp mbind co_bind seq mret co_ret].
    + apply Hgate; [done|]. cbn. by rewrite E.
    + destruct (existsb _ _); cbn [wp mret co_ret]; [|exact (Herr e)]. apply Hgate; [done|]. cbn. by rewrite E.
  - cbn [wp mret co_ret]. by apply Hgate.
  - destruct (existsb _ _); cbn [wp mret co_ret]; [|exact (Herr e)]. by apply Hgate.
Qed.
End Safety.
