(* ===== verification/BrokerTunnel.v ===== *)
(** * The two ends of a broker connection together

    What the worker broker puts on a connection is what the session manager's
    end reads from it, and the reverse: the frames of the pumps, of
    [_run_worker] and of [_relay_control] against [_receive], [drain] and
    [connect_broker_worker].  The broker's tasks are taken under any
    interference; what they put on the connection is read off their traces. *)

From Stdlib Require Import Init.Byte.
From S2P Require Import Prelude Text Json Async BrokerProtocol BrokerMessages BrokerStreams BrokerWorkerSafety.
From S2P Require Import Oci OciSafety WorkerBroker WorkerBrokerSafety.

(** ** Observations of a trace *)

Section Observations.
Context {X : Type} (f : event wop wresp -> list X).
Definition observe (tr : list (event wop wresp)) : list X := concat (map f tr).
Lemma observe_app l1 l2 : observe (l1 ++ l2) = observe l1 ++ observe l2.
Proof. unfold observe. by rewrite map_app, concat_app. Qed.
Lemma observe_one e : observe [e] = f e.
Proof. apply app_nil_r. Qed.
Lemma observe_nothing P l : (forall e, P (operation e) -> f e = []) ->
  Forall (fun e => P (operation e)) l -> observe l = [].
Proof.
  intros H Hl. unfold observe. induction Hl as [|e l He _ IH]; [done|]. cbn [map concat]. by rewrite H.
Qed.
End Observations.

(** The bytes a task put on connection [c] and those it took from it; the
    chunks it got from an output stream of process [p] (the end of the stream
    is no chunk); the input it gave to the process. *)
Definition written1 (c : Z) (e : event wop wresp) : bytes :=
  match e with
  | Called (WriteChunks c' l) r => if (c' =? c) && is_ok r then concat l else []
  | _ => []
  end.
Definition received1 (c : Z) (e : event wop wresp) : bytes :=
  match e with
  | Awaited o r =>
      match o return res (wresp o) -> bytes with
      | ReadExactly c' _ => fun r => match r with Ok b => if c' =? c then b else [] | Err _ => [] end
      | _ => fun _ => []
      end r
  | _ => []
  end.
Definition produced1 (p : Z) (kind : FrameKind) (e : event wop wresp) : list bytes :=
  match e with
  | Awaited o r =>
      match o return res (wresp o) -> list bytes with
      | ReadStream p' k _ => fun r =>
          match r with
          | Ok (x :: b) => if (p' =? p) && bool_decide (k = kind) then [x :: b] else []
          | _ => []
          end
      | _ => fun _ => []
      end r
  | _ => []
  end.
Definition input1 (p : Z) (e : event wop wresp) : list bytes :=
  match e with Called (WriteStdin p' b) _ => if p' =? p then [b] else [] | _ => [] end.
Abbreviation written c := (observe (written1 c)).
Abbreviation received c := (observe (received1 c)).
Abbreviation produced p kind := (observe (produced1 p kind)).
Abbreviation input p := (observe (input1 p)).

(** The wire image of a list of frames. *)
Definition images (fs : list BrokerFrame) : bytes := concat (map image fs).
Lemma images_app fs gs : images (fs ++ gs) = images fs ++ images gs.
Proof. unfold images. by rewrite map_app, concat_app. Qed.
Lemma images_one f : images [f] = image f.
Proof. apply app_nil_r. Qed.
Definition sized (fs : list BrokerFrame) : Prop :=
  Forall (fun f => zlen (frame_payload f) <= MAX_FRAME_PAYLOAD) fs.

(** Frames can be told apart on the wire. *)
Lemma image_inj f g x y : zlen (frame_payload f) <= MAX_FRAME_PAYLOAD ->
  zlen (frame_payload g) <= MAX_FRAME_PAYLOAD -> image f ++ x = image g ++ y -> f = g /\ x = y.
Proof.
  destruct f as [k p], g as [k' p']. unfold image, frame_bytes, MAX_FRAME_PAYLOAD. cbn [frame_kind frame_payload].
  intros Hp Hp' E. rewrite <- !app_assoc in E.
  destruct (frame_header_parts k p) as [K N]; [lia|]. destruct (frame_header_parts k' p') as [K' N']; [lia|].
  apply app_inj_1 in E as [Eh E]; [|by rewrite !length_frame_header].
  rewrite Eh in K, N. assert (k = k') as -> by congruence.
  apply app_inj_1 in E as [-> ->]; [done|]. apply Nat2Z.inj. congruence.
Qed.
Lemma image_cons f : exists x l, image f = x :: l.
Proof. unfold image, frame_bytes, frame_header. eauto. Qed.
Lemma framed_prefix fs gs rest : sized fs -> sized gs -> images fs ++ rest `prefix_of` images gs ->
  fs `prefix_of` gs.
Proof.
  intros Hf. revert gs. induction Hf as [|f fs Hf _ IH]; intros gs Hg [y E]; [apply prefix_nil|].
  unfold images in E. cbn [map concat] in E. destruct Hg as [|g gs Hg Hgs].
  - destruct (image_cons f) as (x & l & Ef). by rewrite Ef in E.
  - cbn [map concat] in E. rewrite <- !app_assoc in E. symmetry in E.
    apply image_inj in E as [-> E]; [|done..]. apply prefix_cons, (IH gs Hgs). exists y.
    unfold images. by rewrite <- app_assoc.
Qed.

(** ** The broker's side *)

Section Broker.
Context (settings : OciBrokerSettings) (output_limit_bytes : Z).
Hypothesis limit_positive : 0 <= output_limit_bytes.
Abbreviation broker_inv := (WorkerBrokerSafety.broker_inv settings output_limit_bytes).
Abbreviation broker_rely := (WorkerBrokerSafety.broker_rely settings).
Abbreviation wwp := (wp w_replies w_answers broker_inv broker_rely).
Abbreviation wtrace := (list (event wop wresp)).

(** What a coroutine does from any state, whatever the other tasks do. *)
Definition behaves {A} (m : wco A) (spec : Broker -> wtrace -> res A -> Broker -> Prop) : Prop :=
  forall self tr b, broker_inv b -> wwp self m (fun tr' r b' => broker_inv b' /\ broker_rely self b b' /\
    exists l, tr' = tr ++ l /\ spec b l r b') tr b.

Lemma behaves_calm {A} (m : wco A) P : calm settings output_limit_bytes m -> uses P m ->
  behaves m (fun _ l _ _ => Forall (fun e => P (operation e)) l).
Proof.
  intros Hm HP self tr b Hb. eapply wp_mono; [|apply (wp_uses _ _ _ _ P); [exact HP|by apply Hm]].
  intros tr' r b' ((Hb' & HR) & l & -> & Hl). eauto.
Qed.
Lemma behaves_uses {A} (m : wco A) spec P : behaves m spec -> uses P m ->
  behaves m (fun b l r b' => spec b l r b' /\ Forall (fun e => P (operation e)) l).
Proof.
  intros Hm HP self tr b Hb. eapply wp_mono; [|apply (wp_uses _ _ _ _ P); [exact HP|by apply Hm]].
  intros tr' r b' ((Hb' & HR & l & -> & Hs) & l' & ->%app_inv_head & Hl). eauto 7.
Qed.

(** One step of a proof: the first part behaves as specified, then the rest
    goes on from where it leaves off. *)
Lemma behaves_then {A B} (m : wco A) spec (k : res A -> wco B) self Q tr b :
  behaves m spec -> broker_inv b ->
  (forall l r b', broker_inv b' -> broker_rely self b b' -> spec b l r b' -> wwp self (k r) Q (tr ++ l) b') ->
  wwp self (seq m k) Q tr b.
Proof.
  intros Hm Hb Hk. apply wp_seq. eapply wp_mono; [|by apply Hm]. intros tr' r b' (Hb' & HR & l & -> & Hl). eauto.
Qed.

(** A frame is put on the connection whole or not at all. *)
Definition one_frame (c : Z) (k : FrameKind) (p : bytes) {A} (l : wtrace) (r : res A) : Prop :=
  (written c l = image (mkFrame k p) /\ zlen p <= MAX_FRAME_PAYLOAD) \/ (written c l = [] /\ is_ok r = false).
Lemma send_frame_writes c k p : behaves (send_frame c k p) (fun _ l r _ => one_frame c k p l r).
Proof.
  intros self tr b Hb. unfold send_frame, send. cbn [t_locked t_write t_drain connection].
  destruct (Z.ltb_spec MAX_FRAME_PAYLOAD (zlen p)).
  { split; [done|]. split; [reflexivity|]. exists []. rewrite app_nil_r. split; [done|by right]. }
  apply wp_locked. split; [done|]. intros r b1 b2 R1 Hb1 Ha.
  destruct (answers_good settings _ _ _ _ _ _ Ha Hb1) as [Hb2 R2]. specialize (R2 self). clear Ha.
  assert (broker_rely self b b2) as R by by etrans.
  destruct r as [[]|e].
  2:{ split; [done|]. split; [done|]. eexists. split; [done|]. right. by split. }
  assert (forall l (r : res unit) b', broker_inv b' -> broker_rely self b b' -> one_frame c k p l r ->
    (forall t, t <> self -> broker_rely t b' (set_frame_locks (delete c) b')) /\
    broker_inv (set_frame_locks (delete c) b') /\ broker_rely self b (set_frame_locks (delete c) b') /\
    exists l', tr ++ l = tr ++ l' /\ one_frame c k p l' r) as Hend.
  { intros l r b' Hb' R' Hl. destruct (mild_same settings _ (set_frame_locks (delete c)) ltac:(intros ?; by split_and!) b' Hb') as [H4 R4].
    split; [intros t _; apply R4|]. split; [done|]. split; [by etrans; [|apply R4]|eauto]. }
  apply wp_bind. intros r _. rewrite <- app_assoc. destruct r as [[]|e].
  2:{ apply Hend; [done|done|]. right. split; [|done]. unfold observe. cbn. by rewrite andb_false_r. }
  split; [done|]. intros r b3 b4 R3 Hb3 Ha. destruct (answers_good settings _ _ _ _ _ _ Ha Hb3) as [Hb4 R4].
  rewrite <- app_assoc. apply Hend; [done|etrans; [exact R|]; etrans; [exact R3|apply R4]|]. left.
  split; [|done]. unfold observe. cbn. rewrite Z.eqb_refl. cbn. by rewrite !app_nil_r.
Qed.

(** The bytes taken from the connection are the frame that was read. *)
Lemma read_takes c limit : behaves (read c limit) (fun _ l r _ => forall f, r = Ok f ->
  received c l = image f /\ zlen (frame_payload f) <= MAX_FRAME_PAYLOAD).
Proof.
  intros self tr b Hb. unfold read, read_frame. cbn [t_read_exactly connection].
  assert (forall n (Q : wtrace -> res bytes -> Broker -> Prop) tr1 b1, broker_inv b1 -> broker_rely self b b1 ->
    (forall (r : res bytes) b2, broker_inv b2 -> broker_rely self b b2 ->
       (forall x, r = Ok x -> zlen x = n) -> Q (tr1 ++ [Awaited (ReadExactly c n) r]) r b2) ->
    wwp self (wawait (ReadExactly c n)) Q tr1 b1) as Hstep.
  { intros n Q tr1 b1 Hb1 R1 HQ. split; [done|]. intros r b2 b3 R2 Hb2 [-> Hr]. apply HQ; [done|by etrans|done]. }
  apply wp_bind, wp_catch, Hstep; [done|reflexivity|]. intros r b2 Hb2 R2 Hr. cbv zeta.
  assert (forall l e b', broker_inv b' -> broker_rely self b b' -> broker_inv b' /\ broker_rely self b b' /\
    exists l', tr ++ l = tr ++ l' /\ forall f, Err e = Ok f ->
      received c l' = image f /\ zlen (frame_payload f) <= MAX_FRAME_PAYLOAD) as bad by eauto 6 with congruence.
  destruct r as [h|e]; [|destruct (existsb _ _); by apply bad]. specialize (Hr _ eq_refl).
  destruct (Z.ltb_spec (Z.min limit MAX_FRAME_PAYLOAD) (be_value (drop 1 h))) as [|Hn]; [by apply bad|].
  destruct (kind_of _) as [k|] eqn:Ek; [|by apply bad].
  apply wp_bind, wp_catch, Hstep; [done|done|]. intros r b3 Hb3 R3 Hr'. rewrite <- app_assoc.
  destruct r as [x|e]; [|destruct (existsb _ _); by apply bad]. specialize (Hr' _ eq_refl).
  split; [done|]. split; [done|]. eexists. split; [reflexivity|]. intros f [= <-]. unfold observe. cbn.
  rewrite !Z.eqb_refl, app_nil_r. split; [|cbn [frame_payload]; lia].
  unfold image, frame_bytes, frame_header. cbn [frame_kind frame_payload].
  rewrite (frame_header_inv h k (zlen x)); [done|change FRAME_HEADER_size with 5 in Hr; lia|done|by rewrite Hr'].
Qed.

(** What a pump does: the chunks it read from the stream are the payloads of
    the frames it wrote, in order, up to a last chunk that was not sent; when
    it ends normally every chunk was sent, unless the budget is exceeded. *)
Definition pumped (c p : Z) (kind : FrameKind) (g : Z) (b : Broker) (l : wtrace) (r : res unit) (b' : Broker) : Prop :=
  exists chunks rest, produced p kind l = chunks ++ rest /\ (length rest <= 1)%nat /\
    written c l = images (map (mkFrame kind) chunks) /\ sized (map (mkFrame kind) chunks) /\
    (r = Ok tt -> is_Some (budgets b !! g) ->
       rest = [] \/ exists x, budgets b' !! g = Some x /\ exceeded x = true).

Lemma consume_behaves g size : 0 <= size -> behaves (consume g size) (fun b l r b' =>
  granted g size b b' r /\ Forall (fun e => exists g, operation e = AcquireBudget g) l).
Proof.
  intros Hz. apply (behaves_uses _ (fun b l r b' => granted g size b b' r) (fun o => exists g, o = AcquireBudget g)).
  - intros self tr b Hb. eapply wp_mono; [|by apply wp_grows, consume_grants].
    intros tr' r b' ((Hb' & HR & _ & Hg) & l & ->). eauto 6.
  - unfold consume. apply uses_locked; [|uses_tac]. by split; [eauto|intros].
Qed.
Definition sending (o : wop) : Prop :=
  match o with AcquireFrames _ | WriteChunks _ _ | DrainFrames _ => True | _ => False end.
Lemma send_sends c k p : behaves (send_frame c k p) (fun _ l r _ =>
  one_frame c k p l r /\ Forall (fun e => sending (operation e)) l).
Proof.
  apply (behaves_uses _ (fun _ l r _ => one_frame c k p l r) sending); [apply send_frame_writes|].
  unfold send_frame, send. cbn [t_locked t_write t_drain connection]. uses_tac.
Qed.

Lemma sending_quiet p kind l : Forall (fun e => sending (operation e)) l -> produced p kind l = [].
Proof. apply (observe_nothing _ sending). by intros [o r|[] r]. Qed.
Lemma budget_quiet c p kind l : Forall (fun e => exists g, operation e = AcquireBudget g) l ->
  written c l = [] /\ produced p kind l = [].
Proof.
  intros H. split; revert H; apply (observe_nothing _ (fun o => exists g, o = AcquireBudget g));
    intros [[] r|[] r]; try done; by intros [g [=]].
Qed.

(** The loop of a pump from a moment at which it has sent all it read. *)
Definition pumping (c p : Z) (kind : FrameKind) (self : tid) (b : Broker) (l : wtrace) (b' : Broker) : Prop :=
  broker_inv b' /\ broker_rely self b b' /\
  written c l = images (map (mkFrame kind) (produced p kind l)) /\ sized (map (mkFrame kind) (produced p kind l)).
Definition pump_end (c p : Z) (kind : FrameKind) (g : Z) (self : tid) (b : Broker) (l : wtrace) (r : res unit)
    (b' : Broker) : Prop := broker_inv b' /\ broker_rely self b b' /\ pumped c p kind g b l r b'.

Lemma pumping_end c p kind g self b l r b' : pumping c p kind self b l b' -> pump_end c p kind g self b l r b'.
Proof.
  intros (Hb & HR & Hw & Hs). split; [done|]. split; [done|]. exists (produced p kind l), [].
  rewrite app_nil_r. split_and!; auto.
Qed.
Lemma pumping_last c p kind g self b l b1 x l2 r b' : pumping c p kind self b l b1 ->
  produced p kind l2 = [x] -> written c l2 = [] -> broker_inv b' -> broker_rely self b1 b' ->
  (r = Ok tt -> is_Some (budgets b !! g) -> exists y, budgets b' !! g = Some y /\ exceeded y = true) ->
  pump_end c p kind g self b (l ++ l2) r b'.
Proof.
  intros (Hb & HR & Hw & Hs) Hp2 Hw2 Hb' HR' Hx. split; [done|]. split; [by etrans|].
  exists (produced p kind l), [x]. rewrite !observe_app, Hp2, Hw2, app_nil_r. split_and!; auto.
Qed.
Lemma pumping_next c p kind self b l b1 x l2 b' : pumping c p kind self b l b1 ->
  produced p kind l2 = [x] -> written c l2 = image (mkFrame kind x) -> zlen x <= MAX_FRAME_PAYLOAD ->
  broker_inv b' -> broker_rely self b1 b' -> pumping c p kind self b (l ++ l2) b'.
Proof.
  intros (Hb & HR & Hw & Hs) Hp2 Hw2 Hx Hb' HR'. split; [done|]. split; [by etrans|].
  rewrite !observe_app, Hp2, Hw2, Hw, map_app, images_app. cbn [map]. rewrite images_one. split; [done|].
  apply Forall_app_2; [done|]. by repeat constructor.
Qed.

Lemma pump_behaves c p kind g : behaves (pump_output c p kind g) (pumped c p kind g).
Proof.
  intros self tr b Hb. unfold pump_output.
  set (Q := fun (tr' : wtrace) (r : res unit) b' => broker_inv b' /\ broker_rely self b b' /\
    exists l, tr' = tr ++ l /\ pumped c p kind g b l r b').
  assert (forall l r b', pump_end c p kind g self b l r b' -> Q (tr ++ l) r b') as Hend
    by (intros l r b' (H1 & H2 & H3); unfold Q; eauto).
  apply wp_bind, (w_call settings output_limit_bytes self (HasStream p kind)). intros r _.
  assert (pumping c p kind self b [Called (HasStream p kind) r] b) as H0.
  { split; [done|]. split; [reflexivity|]. split; [done|constructor]. }
  destruct r as [[]|e]; [|by apply Hend, pumping_end|by apply Hend, pumping_end]. cbn [negb].
  apply (wp_loop _ _ _ _ (fun _ tr' b' => exists l, tr' = tr ++ l /\ pumping c p kind self b l b')); [by eexists|].
  intros [] tr1 b1 (l & -> & HL). assert (broker_inv b1) as Hb1 by apply HL.
  apply wp_bind. split; [done|]. intros r b2 b3 R2 Hb2 [-> Hr]. rewrite <- app_assoc.
  set (l1 := [Awaited (ReadStream p kind MAX_STREAM_CHUNK) r]).
  assert (pumping c p kind self b l b2) as HL2 by (destruct HL as (_ & R & H); split; [done|split; [by etrans|done]]).
  destruct r as [[|x0 x]|e]; try (apply Hend, pumping_end; destruct HL2 as (HA & HB & HC & HD);
    (split; [done|]); (split; [done|]); by rewrite !observe_app, !app_nil_r).
  set (chunk := x0 :: x) in *.
  assert (produced p kind l1 = [chunk] /\ written c l1 = []) as [P1 W1].
  { unfold l1, observe. cbn. by rewrite Z.eqb_refl, bool_decide_eq_true_2. }
  apply (behaves_then _ _ _ _ _ _ _ (consume_behaves g (zlen chunk) ltac:(lia))); [done|].
  intros l3 r3 b4 Hb4 R4 [Hg Hq]. destruct (budget_quiet c p kind l3 Hq) as [W3 P3]. rewrite <- app_assoc.
  assert (produced p kind (l1 ++ l3) = [chunk] /\ written c (l1 ++ l3) = []) as [P13 W13]
    by (rewrite !observe_app, P1, W1, P3, W3; by rewrite !app_nil_r).
  rewrite <- app_assoc. destruct r3 as [[]|e].
  - apply (behaves_then _ _ _ _ _ _ _ (send_sends c kind chunk)); [done|].
    intros l5 r5 b5 Hb5 R5 [Hf Hs%(sending_quiet p kind)]. rewrite <- !app_assoc.
    assert (produced p kind (l1 ++ l3 ++ l5) = [chunk]) as P15
      by (rewrite app_assoc, observe_app, P13, Hs; by rewrite app_nil_r).
    assert (written c (l1 ++ l3 ++ l5) = written c l5) as W15 by (by rewrite app_assoc, observe_app, W13).
    assert (broker_rely self b2 b5) as R25 by by etrans.
    destruct Hf as [[W Hz]|[W Hr5]].
    + assert (pumping c p kind self b (l ++ l1 ++ l3 ++ l5) b5) as HL5
        by (eapply pumping_next; [exact HL2|done|by rewrite W15|done..]).
      destruct r5 as [[]|e]; [by eexists|]. by apply Hend, pumping_end.
    + destruct r5 as [|e]; [done|]. apply Hend. eapply pumping_last; [exact HL2|done|by rewrite W15|done..].
  - apply Hend. eapply pumping_last; [exact HL2|done..|]. intros _ [x1 Hx1].
    destruct (rely_budgets _ _ _ _ (proj1 (proj2 HL2)) g x1 Hx1) as (x2 & Hx2 & _).
    destruct (Hg x2 Hx2) as (x3 & Hx3 & _ & He). eauto.
  - apply Hend. by eapply pumping_last.
Qed.

(** ** The frames of [_run_worker] *)

Definition writes_nothing (o : wop) : Prop := match o with WriteChunks _ _ => False | _ => True end.
Lemma quiet_written c l : Forall (fun e => writes_nothing (operation e)) l -> written c l = [].
Proof. apply (observe_nothing _ writes_nothing). by intros [[] r|o r]. Qed.
Lemma quiet {A} c (m : wco A) : calm settings output_limit_bytes m -> uses writes_nothing m ->
  behaves m (fun _ l _ _ => written c l = []).
Proof.
  intros Hm Hu self tr b Hb. eapply wp_mono; [|by apply (behaves_calm m writes_nothing)].
  intros tr' r b' (Hb' & HR & l & -> & Hl%(quiet_written c)). eauto 6.
Qed.

Definition gathered1 (e : event wop wresp) : list unit :=
  match e with Awaited (GatherTask _) r => if is_ok r then [tt] else [] | _ => [] end.
(** How many tasks a coroutine waited for. *)
Definition gathered (l : wtrace) : nat := length (observe gathered1 l).
Lemma gathered_app l1 l2 : gathered (l1 ++ l2) = (gathered l1 + gathered l2)%nat.
Proof. unfold gathered. by rewrite observe_app, length_app. Qed.
Lemma gather_behaves c ts : behaves (each (fun t => wawait (GatherTask t)) ts) (fun _ l r _ =>
  written c l = [] /\ (r = Ok tt -> gathered l = length ts)).
Proof.
  intros self tr b Hb. apply (wp_each _ _ _ _ (fun ts' tr' b' => broker_inv b' /\ broker_rely self b b' /\
    exists l, tr' = tr ++ l /\ written c l = [] /\ (gathered l + length ts')%nat = length ts)).
  - split; [done|]. split; [reflexivity|]. exists []. by rewrite app_nil_r.
  - intros tr' b' (Hb' & HR & l & -> & Hw & Hg). split; [done|]. split; [done|]. exists l.
    split_and!; [done..|]. intros _. cbn [length] in Hg. lia.
  - intros t l1 tr' b' (Hb' & HR & l & -> & Hw & Hg). split; [done|]. intros r b1 b2 R1 Hb1 [-> _].
    rewrite <- app_assoc. assert (written c (l ++ [Awaited (GatherTask t) r]) = []) as Hw'
      by (by rewrite observe_app, Hw).
    assert (broker_rely self b b1) as R by by etrans.
    destruct r as [[]|e]; (split; [done|]); (split; [done|]); (eexists; split; [done|]); (split; [done|]); [|done].
    rewrite gathered_app. cbn [gathered observe length map concat gathered1 is_ok app] in *. lia.
Qed.

(** The frames that the task of a worker writes itself: STARTED when the
    process exists; and when the process has ended and all five other tasks
    have been waited for, EXIT with its return code. *)
Definition clamped (rc : option Z) : Z := Z.max (-255) (Z.min 255 (default 125 rc)).
Definition announced (c p : Z) (l : wtrace) (r : res unit) : Prop :=
  (is_ok r = false /\ (written c l = [] \/ written c l = image (mkFrame STARTED []))) \/
  exists l1 l2 rc payload, l = l1 ++ l2 /\ written c l1 = image (mkFrame STARTED []) /\
    (5 <= gathered l1)%nat /\ Called (ReturnCode p) (Ok rc) ∈ l1 /\
    ExitMessage_to_payload (clamped rc) = Ok payload /\
    (written c l2 = [] \/ written c l2 = image (mkFrame EXIT payload)).

Lemma announced_early c p l e : written c l = [] \/ written c l = image (mkFrame STARTED []) ->
  announced c p l (Err e).
Proof. by left. Qed.

Lemma await_quiet c o : writes_nothing o -> behaves (wawait o) (fun _ l _ _ => written c l = []).
Proof. intros Ho. apply quiet; [apply calm_await|by split; [|intros]]. Qed.
Lemma docker_quiet c action id : behaves (docker_control settings action id) (fun _ l _ _ => written c l = []).
Proof. apply quiet; [apply calm_docker_control|]. unfold docker_control. uses_tac. Qed.
Lemma kill_quiet c p id still : behaves (when still
    (docker_control settings "kill" id ≫= fun _ =>
     rc ← wcall (ReturnCode p);
     match (rc : option Z) with
     | None => wcall (KillProcess p) ≫= fun _ => skip
     | Some _ => skip
     end ≫= fun _ =>
     wawait (WaitProcess p) ≫= fun _ => skip)) (fun _ l _ _ => written c l = []).
Proof.
  apply quiet.
  - apply calm_when. apply calm_bind; [apply calm_docker_control|]. intros _. apply calm_bind; [apply calm_call|].
    intros rc. apply calm_bind; [|intros _; apply calm_bind; [apply calm_await|intros; apply calm_ret]].
    destruct rc; [apply calm_ret|]. apply calm_bind; [apply calm_call|intros; apply calm_ret].
  - unfold docker_control. uses_tac.
Qed.

Lemma finish_announced c p l0 rc self tr b b0 : broker_inv b -> broker_rely self b0 b ->
  written c l0 = image (mkFrame STARTED []) -> (5 <= gathered l0)%nat -> Called (ReturnCode p) (Ok rc) ∈ l0 ->
  wwp self (code ← lift (ExitMessage_init (PyInt (clamped rc))); payload ← lift (ExitMessage_to_payload code);
            safe_send c EXIT payload) (fun tr' r b' => broker_inv b' /\ broker_rely self b0 b' /\
    exists l, tr' = tr ++ l /\ announced c p l r) (tr ++ l0) b.
Proof.
  intros Hb HR Hw Hg Hrc. assert (-255 <= clamped rc <= 255) as Hc by (unfold clamped; lia).
  unfold ExitMessage_init. rewrite (proj2 (Z.leb_le _ _)), (proj2 (Z.leb_le _ _)) by lia. cbn [andb].
  destruct (proj1 (exit_message_roundtrip _) Hc) as (payload & Hp & _).
  change (wwp self (lift (ExitMessage_to_payload (clamped rc)) ≫= fun payload => safe_send c EXIT payload)
    (fun tr' r b' => broker_inv b' /\ broker_rely self b0 b' /\ exists l, tr' = tr ++ l /\ announced c p l r)
    (tr ++ l0) b).
  rewrite Hp. change (wwp self (safe_send c EXIT payload)
    (fun tr' r b' => broker_inv b' /\ broker_rely self b0 b' /\ exists l, tr' = tr ++ l /\ announced c p l r)
    (tr ++ l0) b).
  unfold safe_send, catch. apply (behaves_then _ _ _ _ _ _ _ (send_frame_writes c EXIT payload)); [done|].
  intros l1 r b' Hb' HR' Hf. rewrite <- app_assoc.
  assert (forall r' : res unit, wwp self (Ret r') (fun tr' r b' => broker_inv b' /\ broker_rely self b0 b' /\
    exists l, tr' = tr ++ l /\ announced c p l r) (tr ++ l0 ++ l1) b') as Hend.
  { intros r'. split; [done|]. split; [by etrans|]. eexists. split; [done|]. right. exists l0, l1, rc, payload.
    split_and!; try done. destruct Hf as [[W _]|[W _]]; auto. }
  destruct r as [a|e]; [apply Hend|]. destruct (existsb _ _); apply Hend.
Qed.

(** The end of [_run_worker]: the other tasks are cancelled and waited for. *)
Lemma wrap_up c p l0 rc cancelled pumps self tr b b0 : broker_inv b -> broker_rely self b0 b ->
  written c l0 = image (mkFrame STARTED []) -> Called (ReturnCode p) (Ok rc) ∈ l0 ->
  (length cancelled + length pumps = 5)%nat ->
  wwp self (each (fun t => wcall (CancelTask t)) cancelled ≫= fun _ =>
            each (fun t => wawait (GatherTask t)) cancelled ≫= fun _ =>
            each (fun t => wawait (GatherTask t)) pumps ≫= fun _ =>
            code ← lift (ExitMessage_init (PyInt (clamped rc))); payload ← lift (ExitMessage_to_payload code);
            safe_send c EXIT payload) (fun tr' r b' => broker_inv b' /\ broker_rely self b0 b' /\
    exists l, tr' = tr ++ l /\ announced c p l r) (tr ++ l0) b.
Proof.
  intros Hb HR W M Hn. set (Q := fun (tr' : wtrace) (r : res unit) b' => broker_inv b' /\ broker_rely self b0 b' /\
    exists l, tr' = tr ++ l /\ announced c p l r).
  assert (forall l e b', broker_inv b' -> broker_rely self b0 b' ->
    written c l = image (mkFrame STARTED []) -> Q (tr ++ l) (Err e) b') as Hfail
    by (intros l e b' H1 H2 H3; split_and!; [done..|]; eexists; split; [done|]; apply announced_early; auto).
  assert (behaves (each (fun t => wcall (CancelTask t)) cancelled) (fun _ l _ _ => written c l = [])) as Hc
    by (apply quiet; [apply calm_each; intros t; apply calm_call|uses_tac]).
  apply (behaves_then _ _ _ _ _ _ _ Hc); [done|].
  intros l1 r1 b1 Hb1 R1 W1. rewrite <- (app_assoc tr). assert (broker_rely self b0 b1) as R01 by by etrans.
  assert (written c (l0 ++ l1) = image (mkFrame STARTED [])) as W01 by (by rewrite observe_app, W, W1, app_nil_r).
  destruct r1 as [[]|e]; [|by apply Hfail].
  apply (behaves_then _ _ _ _ _ _ _ (gather_behaves c _)); [done|].
  intros l2 r2 b2 Hb2 R2 [W2 G2]. rewrite <- (app_assoc tr). assert (broker_rely self b0 b2) as R02 by by etrans.
  assert (written c ((l0 ++ l1) ++ l2) = image (mkFrame STARTED [])) as W02 by (by rewrite observe_app, W01, W2, app_nil_r).
  destruct r2 as [[]|e]; [|by apply Hfail].
  apply (behaves_then _ _ _ _ _ _ _ (gather_behaves c _)); [done|].
  intros l3 r3 b3 Hb3 R3 [W3 G3]. rewrite <- (app_assoc tr). assert (broker_rely self b0 b3) as R03 by by etrans.
  assert (written c (((l0 ++ l1) ++ l2) ++ l3) = image (mkFrame STARTED [])) as W03
    by (by rewrite observe_app, W02, W3, app_nil_r).
  destruct r3 as [[]|e]; [|by apply Hfail].
  apply finish_announced; [done..| |].
  - rewrite !gathered_app, (G2 eq_refl), (G3 eq_refl). lia.
  - rewrite !elem_of_app. auto.
Qed.

(** Waiting for one operation, as a task. *)
Lemma calm_waiter o : calm settings output_limit_bytes (wawait o ≫= fun _ => skip).
Proof. apply calm_bind; [apply calm_await|intros; apply calm_ret]. Qed.
Create HintDb task.
Hint Resolve calm_waiter calm_pump calm_relay : task.

(** A coroutine of the task [self] that holds the slot [id]. *)
Lemma supervise_announces c p id self tr b : broker_inv b -> active b !! id = Some self ->
  wwp self (supervise settings output_limit_bytes c p id) (fun tr' r b' => broker_inv b' /\ broker_rely self b b' /\
    exists l, tr' = tr ++ l /\ announced c p l r) tr b.
Proof.
  intros Hb Ho. unfold supervise.
  set (Q := fun (tr' : wtrace) (r : res unit) b' => broker_inv b' /\ broker_rely self b b' /\
    exists l, tr' = tr ++ l /\ announced c p l r).
  assert (forall l e b', broker_inv b' -> broker_rely self b b' ->
    written c l = [] \/ written c l = image (mkFrame STARTED []) -> Q (tr ++ l) (Err e) b') as Hfail
    by (intros l e b' H1 H2 H3; split_and!; [done..|]; eexists; split; [done|]; by apply announced_early).
  apply wp_bind. eapply wp_mono; [|apply (wp_uses _ _ _ _ writes_nothing);
    [unfold with_lock; uses_tac|by apply record_process]].
  intros tr1 r1 b1 ((Hb1 & R1) & l1 & -> & W1%(quiet_written c)).
  destruct r1 as [[]|e]; [|by apply Hfail; auto].
  apply (behaves_then _ _ _ _ _ _ _ (send_frame_writes c STARTED [])); [done|].
  intros l2 r2 b2 Hb2 R2 Hf. rewrite <- app_assoc. assert (broker_rely self b b2) as R by by etrans.
  assert (written c (l1 ++ l2) = [] \/ written c (l1 ++ l2) = image (mkFrame STARTED [])) as W2.
  { rewrite observe_app, W1. destruct Hf as [[W _]|[W _]]; rewrite W; auto. }
  destruct r2 as [[]|e]; [|by apply Hfail].
  assert (written c (l1 ++ l2) = image (mkFrame STARTED [])) as W.
  { destruct Hf as [[Wf _]|[_ [=]]]. by rewrite observe_app, W1, Wf. }
  revert W. generalize (l1 ++ l2). clear l1 l2 W1 W2 Hf R1 R2. intros l W.
  assert (forall A (m : wco A) (k : A -> wco unit) l b2, behaves m (fun _ l _ _ => written c l = []) ->
    broker_inv b2 -> broker_rely self b b2 -> written c l = image (mkFrame STARTED []) ->
    (forall a l' b', broker_inv b' -> broker_rely self b b' -> written c l' = image (mkFrame STARTED []) ->
       wwp self (k a) Q (tr ++ l') b') -> wwp self (m ≫= k) Q (tr ++ l) b2) as Hstep.
  { intros A m k l0 b3 Hm Hb3 R3 W3 Hk. apply (behaves_then _ _ _ _ _ _ _ Hm); [done|].
    intros l4 r4 b4 Hb4 R4 W4. rewrite <- app_assoc. assert (broker_rely self b b4) as R5 by by etrans.
    assert (written c (l0 ++ l4) = image (mkFrame STARTED [])) as W5 by (by rewrite observe_app, W3, W4, app_nil_r).
    destruct r4 as [a|e]; [by apply Hk|by apply Hfail; auto]. }
  apply Hstep; [by apply quiet; [apply calm_gets|]|done..|]. intros g l1 b3 Hb3 R3 W3.
  apply Hstep; [by apply quiet; [apply calm_modify, mild_new_budget|]|done..|]. intros [] l4 b4 Hb4 R4 W4.
  do 6 (apply Hstep; [apply quiet; [apply calm_create; solve [eauto with task]|uses_tac]|done..|];
    clear l1 b3 Hb3 R3 W3; rename l4 into l1, b4 into b3, Hb4 into Hb3, R4 into R3, W4 into W3;
    intros ? l4 b4 Hb4 R4 W4).
  apply Hstep; [by apply await_quiet|done..|]. intros finished l5 b5 Hb5 R5 W5.
  apply Hstep; [apply kill_quiet|done..|]. intros [] l6 b6 Hb6 R6 W6.
  clear - Hb6 R6 W6 Hfail Hstep. revert l6 W6. intros l6 W6.
  apply wp_bind, (w_call settings output_limit_bytes self (ReturnCode p)). intros r [Hr _]. rewrite <- app_assoc.
  destruct r as [rc|e]; [|by specialize (Hr eq_refl)].
  set (l7 := l6 ++ [Called (ReturnCode p) (Ok rc)]).
  assert (written c l7 = image (mkFrame STARTED [])) as W7 by (unfold l7; by rewrite observe_app, W6).
  assert (Called (ReturnCode p) (Ok rc) ∈ l7) as M7 by (unfold l7; set_solver).
  clearbody l7. clear l6 W6 Hr.
  by apply (wrap_up c p l7 rc).
Qed.

(** ** The input relay *)

(** The input that the process was given is the payloads of the STDIN frames
    among the whole frames read, in order. *)
Definition relayed (c p : Z) (l : wtrace) : Prop :=
  exists fs rest, received c l = images fs ++ rest /\ sized fs /\ input p l = omap stdin_payload fs.

Definition unrelated (o : wop) : Prop := match o with ReadExactly _ _ | WriteStdin _ _ => False | _ => True end.
Lemma unrelated_quiet c p l : Forall (fun e => unrelated (operation e)) l -> received c l = [] /\ input p l = [].
Proof. intros H. split; revert H; apply (observe_nothing _ unrelated); by intros [[] r|[] r]. Qed.
Lemma docker_unrelated c p action id : behaves (docker_control settings action id)
  (fun _ l _ _ => received c l = [] /\ input p l = []).
Proof.
  intros self tr b Hb. eapply wp_mono; [|apply (behaves_calm _ unrelated); [apply calm_docker_control| |exact Hb]].
  - intros tr' r b' (Hb' & HR & l & -> & Hl%(unrelated_quiet c p)). eauto 6.
  - unfold docker_control. uses_tac.
Qed.
Lemma read_no_input c p limit : behaves (read c limit) (fun _ l r _ => input p l = [] /\ forall f, r = Ok f ->
  received c l = image f /\ zlen (frame_payload f) <= MAX_FRAME_PAYLOAD).
Proof.
  set (reading := fun o => match o with ReadExactly _ _ => True | _ => False end).
  intros self tr b Hb. eapply wp_mono; [|apply (behaves_uses _ _ reading (read_takes c limit)); [|exact Hb]].
  - intros tr' r b' (Hb' & HR & l & -> & Hf & Hl). split; [done|]. split; [done|]. exists l. split_and!; [done| |done].
    revert Hl. apply (observe_nothing _ reading). by intros [[] e|o e].
  - unfold read, read_frame. cbn [t_read_exactly connection]. cbv zeta. uses_tac.
Qed.

(** After whole frames; one more frame; a frame that is not relayed. *)
Definition relaying (c p : Z) (l : wtrace) (fs : list BrokerFrame) : Prop :=
  received c l = images fs /\ sized fs /\ input p l = omap stdin_payload fs.
Lemma relaying_end c p l fs l2 : relaying c p l fs -> input p l2 = [] -> relayed c p (l ++ l2).
Proof.
  intros (Hr & Hs & Hi) H2. exists fs, (received c l2). by rewrite !observe_app, Hr, Hi, H2, app_nil_r.
Qed.
Lemma relaying_next c p l fs l2 f : relaying c p l fs -> received c l2 = image f ->
  zlen (frame_payload f) <= MAX_FRAME_PAYLOAD -> input p l2 = omap stdin_payload [f] -> relaying c p (l ++ l2) (fs ++ [f]).
Proof.
  intros (Hr & Hs & Hi) H2 Hz Hi2. unfold relaying. rewrite !observe_app, Hr, Hi, H2, Hi2, images_app, images_one, omap_app.
  split; [done|]. split; [|done]. apply Forall_app_2; [done|]. by repeat constructor.
Qed.
Lemma relaying_relayed c p l fs : relaying c p l fs -> relayed c p l.
Proof. intros H. rewrite <- (app_nil_r l). by eapply relaying_end. Qed.


(** The relay at the head of its loop, and when it has ended. *)
Definition relay_at (c p : Z) (self : tid) (tr : wtrace) (b : Broker) (tr' : wtrace) (b' : Broker) : Prop :=
  broker_inv b' /\ broker_rely self b b' /\ exists l fs, tr' = tr ++ l /\ relaying c p l fs.
Definition relay_over (c p : Z) (self : tid) (tr : wtrace) (b : Broker) (tr' : wtrace) (b' : Broker) : Prop :=
  broker_inv b' /\ broker_rely self b b' /\ exists l, tr' = tr ++ l /\ relayed c p l.
Definition relay_round (c p : Z) (self : tid) (tr : wtrace) (b : Broker) (tr' : wtrace) (r : res (unit + unit))
    (b' : Broker) : Prop :=
  match r with Ok (inl _) => relay_at c p self tr b tr' b' | _ => relay_over c p self tr b tr' b' end.
Lemma relay_at_over c p self tr b tr' b' : relay_at c p self tr b tr' b' -> relay_over c p self tr b tr' b'.
Proof. intros (H1 & H2 & l & fs & -> & H). split_and!; eauto using relaying_relayed. Qed.

(** The rest of a round, when the frame [mkFrame k x] was just read. *)
Section Round.
Context (c p : Z) (id : text) (self : tid) (tr : wtrace) (b : Broker) (l : wtrace) (fs : list BrokerFrame)
  (l2 : wtrace) (k : FrameKind) (x : bytes) (b2 : Broker).
Context (Hl : relaying c p l fs) (Hb2 : broker_inv b2) (R : broker_rely self b b2).
Context (V2 : received c l2 = image (mkFrame k x)) (I2 : input p l2 = []) (Z2 : zlen x <= MAX_FRAME_PAYLOAD).

Lemma relay_stop tr' r : (forall y, r <> Ok (inl y)) -> tr' = tr ++ l ++ l2 -> relay_round c p self tr b tr' r b2.
Proof.
  intros Hr ->. assert (relay_over c p self tr b (tr ++ l ++ l2) b2) by (split_and!; eauto using relaying_end).
  destruct r as [[y|]|]; [by destruct (Hr y)|done|done].
Qed.
Lemma relay_signal action : k <> STDIN -> wwp self
  (docker_control settings action id ≫= fun _ => mret (inl ())) (relay_round c p self tr b) (tr ++ l ++ l2) b2.
Proof.
  intros Hk. apply (behaves_then _ _ _ _ _ _ _ (docker_unrelated c p action id)); [done|].
  intros l3 r3 b3 Hb3 R3 [V3 I3]. rewrite <- (app_assoc tr), <- app_assoc.
  assert (relaying c p (l ++ l2 ++ l3) (fs ++ [mkFrame k x])) as Hn.
  { eapply relaying_next; [done|by rewrite observe_app, V2, V3, app_nil_r|done|].
    rewrite observe_app, I2, I3. cbn. unfold stdin_payload. by rewrite decide_False. }
  assert (relay_at c p self tr b (tr ++ l ++ l2 ++ l3) b3) as HL3 by (split_and!; [done|by etrans|eauto]).
  destruct r3 as [v|e]; [done|by apply relay_at_over].
Qed.
Lemma relay_stdin : k = STDIN -> wwp self
  (wcall (WriteStdin p x) ≫= fun _ => wawait (DrainStdin p) ≫= fun _ => mret (inl ()))
  (relay_round c p self tr b) (tr ++ l ++ l2) b2.
Proof.
  intros Hk. apply wp_bind, (w_call settings output_limit_bytes self (WriteStdin p x)). intros r _.
  rewrite <- (app_assoc tr), <- app_assoc. set (l4 := l2 ++ [Called (WriteStdin p x) r]).
  assert (received c l4 = image (mkFrame k x) /\ input p l4 = [x]) as [V4 I4].
  { unfold l4. rewrite !observe_app, V2, I2. split; [apply app_nil_r|]. unfold observe. cbn. by rewrite Z.eqb_refl. }
  assert (relaying c p (l ++ l4) (fs ++ [mkFrame k x])) as Hn.
  { eapply relaying_next; [done..|]. rewrite I4. cbn. unfold stdin_payload. by rewrite decide_True. }
  clearbody l4. assert (relay_at c p self tr b (tr ++ l ++ l4) b2) as Ha by (split_and!; eauto).
  destruct r as [[]|e]; [|by apply relay_at_over]. apply wp_bind. split; [done|]. intros r b3 b4 R4 Hb4 ->.
  rewrite <- (app_assoc tr).
  assert (relaying c p ((l ++ l4) ++ [Awaited (DrainStdin p) r]) (fs ++ [mkFrame k x])) as Hn'
    by (unfold relaying; by rewrite !observe_app, !app_nil_r, <- !observe_app).
  assert (relay_at c p self tr b (tr ++ (l ++ l4) ++ [Awaited (DrainStdin p) r]) b3) as HL4
    by (split_and!; [done|by etrans|eauto]).
  destruct r as [[]|e]; [done|by apply relay_at_over].
Qed.
End Round.

Lemma relay_behaves c p id : behaves (relay_control settings c p id) (fun _ l _ _ => relayed c p l).
Proof.
  intros self tr b Hb. unfold relay_control.
  apply (wp_loop _ _ _ _ (fun _ => relay_at c p self tr b)).
  { split; [done|]. split; [reflexivity|]. exists [], []. rewrite app_nil_r. split; [done|].
    split_and!; [done|constructor|done]. }
  intros [] tr1 b1 (Hb1 & R1 & l & fs & -> & Hl).
  eapply (wp_mono _ _ _ _ _ _ (relay_round c p self tr b)).
  { intros tr' [[[]|[]]|e] b' H; exact H. }
  apply wp_bind, (w_call settings output_limit_bytes self (ReturnCode p)). intros r [Hr _]. rewrite <- app_assoc.
  destruct r as [rc|e]; [|by specialize (Hr eq_refl)]. clear Hr.
  set (l1 := l ++ [Called (ReturnCode p) (Ok rc)]).
  assert (relaying c p l1 fs) as Hl1 by (unfold relaying, l1; by rewrite !observe_app, !app_nil_r).
  clearbody l1. clear Hl l. rename l1 into l, Hl1 into Hl.
  destruct rc as [rc|]; [apply relay_at_over; split_and!; eauto|].
  apply (behaves_then _ _ _ _ _ _ _ (read_no_input c p MAX_STREAM_CHUNK)); [done|].
  intros l2 r2 b2 Hb2 R2 [I2 F2]. rewrite <- app_assoc. assert (broker_rely self b b2) as R by by etrans.
  destruct r2 as [[k x]|e]; [|by eapply relay_stop].
  destruct (F2 _ eq_refl) as [V2 Z2]. clear F2. cbn [frame_kind frame_payload] in *.
  destruct k; try (by eapply relay_stop).
  - apply wp_bind, (w_call settings output_limit_bytes self (HasStdin p)). intros r _. rewrite <- (app_assoc tr), <- app_assoc.
    assert (received c (l2 ++ [Called (HasStdin p) r]) = image (mkFrame STDIN x)) as V3 by (by rewrite observe_app, V2, app_nil_r).
    assert (input p (l2 ++ [Called (HasStdin p) r]) = []) as I3 by (by rewrite observe_app, I2).
    destruct r as [[]|e]; [by eapply relay_stdin|by eapply relay_stop..].
  - destruct x; [by eapply relay_signal|by eapply relay_stop].
  - destruct x; [by eapply relay_signal|by eapply relay_stop].
Qed.
End Broker.

(** ** The manager's side *)

(** Interleavings of two sequences. *)
Inductive merged {A} : list A -> list A -> list A -> Prop :=
  | merged_nil : merged [] [] []
  | merged_left x l1 l2 l : merged l1 l2 l -> merged (x :: l1) l2 (x :: l)
  | merged_right x l1 l2 l : merged l1 l2 l -> merged l1 (x :: l2) (x :: l).

(** What [_receive] does with the output frames. *)
Definition feed (f : BrokerFrame) (s : BrokerWorker) : BrokerWorker :=
  match frame_kind f with
  | STDOUT => feed_stdout (frame_payload f) s
  | STDERR => feed_stderr (frame_payload f) s
  | _ => s
  end.
Definition is_output (f : BrokerFrame) : Prop := frame_kind f = STDOUT \/ frame_kind f = STDERR.
Definition feed_all (fs : list BrokerFrame) (s : BrokerWorker) : BrokerWorker := foldl (fun s f => feed f s) s fs.

Lemma receive_frame t fuel f w s : is_output f -> zlen (frame_payload f) <= MAX_FRAME_PAYLOAD ->
  run (stream t) fuel (receive_round tt) (image f ++ w) s = Some (Ok (inl tt), w, feed f s).
Proof.
  destruct f as [k p]. intros Hk Hp. unfold receive_round. rewrite run_bind.
  change (image (mkFrame k p)) with (frame_bytes k p). rewrite read_frame_image by (cbn [frame_payload] in Hp; lia).
  cbn [frame_kind frame_payload]. by destruct Hk as [E|E]; cbn in E; subst k.
Qed.
Lemma receive_frames {B} t fuel n fs (k : res Z -> co BrokerWorker bop bresp B) w s : Forall is_output fs -> sized fs ->
  rounds (stream t) fuel (length fs + n) receive_round k tt (images fs ++ w) s =
  rounds (stream t) fuel n receive_round k tt w (feed_all fs s).
Proof.
  intros Ho Hs. revert s. induction Ho as [|f fs Hf Ho IH]; intros s; [done|].
  apply Forall_cons in Hs as [Hz Hs]. unfold images. cbn [map concat length Nat.add rounds]. rewrite <- app_assoc.
  rewrite receive_frame by done. apply IH, Hs.
Qed.
Lemma receive_exit t fuel payload code w s : zlen payload <= MAX_FRAME_PAYLOAD ->
  ExitMessage_from_payload payload = Ok code ->
  run (stream t) fuel (receive_round tt) (image (mkFrame EXIT payload) ++ w) s = Some (Ok (inr code), w, s).
Proof.
  intros Hp Hc. unfold receive_round. rewrite run_bind.
  change (image (mkFrame EXIT payload)) with (frame_bytes EXIT payload). rewrite read_frame_image by lia.
  cbn [frame_kind frame_payload]. by rewrite Hc.
Qed.
Lemma receive_run t fuel fs payload code w s : Forall is_output fs -> sized fs -> zlen payload <= MAX_FRAME_PAYLOAD ->
  ExitMessage_from_payload payload = Ok code -> (length fs < fuel)%nat ->
  run (stream t) fuel receive (images fs ++ image (mkFrame EXIT payload) ++ w) s
    = Some (Ok tt, w, end_streams (finish code (feed_all fs s))).
Proof.
  intros Ho Hs Hp Hc Hf. unfold receive. rewrite run_seq, run_catch, run_loop.
  replace (rounds (stream t) fuel fuel) with (rounds (A := Z) (J := unit) (B := Z) (stream t) fuel (length fs + (fuel - length fs)))
    by (f_equal; lia).
  rewrite receive_frames by done. destruct (fuel - length fs)%nat as [|n] eqn:E; [lia|]. cbn [rounds].
  by rewrite (receive_exit _ _ _ code).
Qed.

Lemma finish_fresh code s : bw_returncode s = None ->
  bw_returncode (finish code s) = Some code /\ bw_stdout (finish code s) = bw_stdout s /\
  bw_stderr (finish code s) = bw_stderr s.
Proof. intros H. unfold finish. by rewrite H. Qed.
Lemma feed_merged outs errs fs s : merged (map (mkFrame STDOUT) outs) (map (mkFrame STDERR) errs) fs ->
  Forall is_output fs /\ bw_returncode (feed_all fs s) = bw_returncode s /\
  bw_stdout (feed_all fs s) = bw_stdout s ++ concat outs /\ bw_stderr (feed_all fs s) = bw_stderr s ++ concat errs.
Proof.
  intros H. remember (map (mkFrame STDOUT) outs) as fo eqn:Eo. remember (map (mkFrame STDERR) errs) as fe eqn:Ee.
  revert outs errs Eo Ee s. induction H as [|x l1 l2 l H IH|x l1 l2 l H IH]; intros outs errs Eo Ee s.
  - apply eq_sym, map_eq_nil in Eo as ->. apply eq_sym, map_eq_nil in Ee as ->. cbn. by rewrite !app_nil_r.
  - destruct outs as [|o outs]; [done|]. injection Eo as -> ->.
    destruct (IH outs errs eq_refl Ee (feed_stdout o s)) as (H1 & H2 & H3 & H4). unfold feed_all in *. cbn [foldl feed frame_kind frame_payload].
    rewrite H2, H3, H4. split; [constructor; [by left|done]|]. split; [done|]. cbn. by rewrite <- app_assoc.
  - destruct errs as [|o errs]; [done|]. injection Ee as -> ->.
    destruct (IH outs errs Eo eq_refl (feed_stderr o s)) as (H1 & H2 & H3 & H4). unfold feed_all in *. cbn [foldl feed frame_kind frame_payload].
    rewrite H2, H3, H4. split; [constructor; [by right|done]|]. split; [done|]. cbn. by rewrite <- app_assoc.
Qed.
Lemma merged_length {A} (l1 l2 l : list A) : merged l1 l2 l -> length l = (length l1 + length l2)%nat.
Proof. induction 1; cbn [length]; lia. Qed.
Lemma merged_sized l1 l2 l : merged l1 l2 l -> sized l1 -> sized l2 -> sized l.
Proof.
  intros H. induction H as [|x l1 l2 l _ IH|x l1 l2 l _ IH]; intros H1 H2; [done| |].
  - apply Forall_cons in H1 as [Hx H1]. constructor; [done|by apply IH].
  - apply Forall_cons in H2 as [Hx H2]. constructor; [done|by apply IH].
Qed.

Lemma json_payload_bound v p : json_payload v = Ok p -> zlen p <= MAX_CONTROL_PAYLOAD.
Proof.
  unfold json_payload. destruct (utf8_encode _) as [x|e]; cbn [mbind res_bind]; [|done].
  destruct (Z.ltb_spec MAX_CONTROL_PAYLOAD (zlen x)) as [|Hx]; [done|]. intros <-%Ok_inj. exact Hx.
Qed.

(** The exchange that starts a worker: the request is one START frame, and
    after STARTED the receiver takes over. *)
Lemma connect_run t fuel request payload w s : StartRequest_to_payload request = Ok payload ->
  zlen payload <= MAX_FRAME_PAYLOAD ->
  exists s', run (stream t) fuel (connect_broker_worker request) (image (mkFrame STARTED []) ++ w) s = Some (Ok tt, w, s') /\
    bw_wire s' = bw_wire s ++ image (mkFrame START payload) /\ bw_returncode s' = bw_returncode s /\
    bw_stdout s' = bw_stdout s /\ bw_stderr s' = bw_stderr s.
Proof.
  intros Hp Hz. eexists. split.
  - unfold connect_broker_worker. rewrite run_bind. cbn [wait_for deadline catch seq bawait await run h_await stream stream_await].
    rewrite run_catch, run_bind. unfold wait_for, deadline. rewrite run_catch, Hp.
    change (lift (Ok payload) ≫= ?k) with (k payload). cbv beta.
    unfold send. rewrite (proj2 (Z.ltb_ge _ _)) by done. cbn [t_locked t_write t_drain worker_transport].
    cbn [async_with locked finally modify mbind co_bind catch seq bawait await run h_await stream stream_await foldl].
    rewrite run_bind, run_catch. change (image (mkFrame STARTED [])) with (frame_bytes STARTED []).
    rewrite read_frame_image by done. cbn [frame_kind frame_payload]. reflexivity.
  - cbn. split; [|done]. by rewrite <- app_assoc.
Qed.

(** ** Both ends *)

(** A connection that carries, towards the manager, STARTED, the output of a
    worker and its exit code: the manager's end asks for the worker with a
    frame that decodes to the request, its receiver hands the output to the
    two readers, reports the code and leaves the rest of the stream alone. *)
Definition delivered (request : StartRequest) (outs errs : list bytes) (code : Z) (wire : bytes) : Prop :=
  forall t fuel w s, (length outs + length errs < fuel)%nat -> bw_returncode s = None ->
    exists asked w1 s1 s2,
      run (stream t) fuel (connect_broker_worker request) (wire ++ w) s = Some (Ok tt, w1, s1) /\
      bw_wire s1 = bw_wire s ++ image (mkFrame START asked) /\ StartRequest_from_payload asked = Ok request /\
      run (stream t) fuel receive w1 s1 = Some (Ok tt, w, s2) /\
      bw_stdout s2 = bw_stdout s ++ concat outs /\ bw_stderr s2 = bw_stderr s ++ concat errs /\
      bw_returncode s2 = Some code /\ bw_stdout_eof s2 = true /\ bw_stderr_eof s2 = true.


(** C9: the input of a worker crosses the broker unchanged.  Take any moment
    of any interleaving of the manager's end, and any execution of the
    broker's relay whose bytes from the connection are (after frames that
    carry no input, such as START) the beginning of what the manager's end
    has put on it: then the process was given a beginning of the STDIN
    payloads sent, in that order, which are accepted chunks. *)
Theorem worker_input_delivered settings limit c p id s q start self tr b :
  bw_reachable (Config s None q) -> broker_inv settings limit b ->
  sized start -> omap stdin_payload start = [] ->
  wp w_replies w_answers (broker_inv settings limit) (broker_rely settings) self
    (relay_control settings c p id) (fun tr' _ _ => exists l, tr' = tr ++ l /\
      (images start ++ received c l `prefix_of` bw_wire s ->
       input p l `prefix_of` sent s /\ sublist (input p l) (bs_accepted s))) tr b.
Proof.
  intros Hr Hb Hst H0. eapply wp_mono; [|by apply (relay_behaves settings limit)].
  intros tr' r b' (_ & _ & l & -> & fs & rest & Hrec & Hfs & Hin). exists l. split; [done|]. intros Hpre.
  pose proof (machine_safe _ _ _ _ _ bw_entry_safe bw_answers_rely _ _ _ bw_init_inv Hr) as Hi.
  destruct (inv_framed _ Hi) as [gs Hg]. assert (sent s = omap stdin_payload gs) as Es
    by (unfold sent; by rewrite (framed_frames _ _ Hg)).
  destruct Hg as [Hw Hgs]. rewrite Hw, Hrec, app_assoc, <- images_app in Hpre.
  apply framed_prefix in Hpre as [gs' ->]; [|by apply Forall_app_2|done].
  rewrite !omap_app, H0, <- Hin in Es. cbn [app] in Es.
  assert (input p l `prefix_of` sent s) as Hp by (rewrite Es; by eexists). split; [done|].
  etrans; [|exact (inv_order _ Hi)]. rewrite Es, <- app_assoc. by apply sublist_inserts_r.
Qed.

(** ** Instances *)


Lemma worker_input_delivered_witness : exists s q, bw_reachable (Config s None q) /\ sent s = [blit "AB"] /\
  wp w_replies w_answers (broker_inv demo_oci 4096) (broker_rely demo_oci) 3%nat
    (relay_control demo_oci 5 7 demo_id) (fun l _ _ =>
      received 5 l `prefix_of` bw_wire s -> input 7 l `prefix_of` [blit "AB"]) [] Broker_init.
Proof.
  destruct demo_write as (s & q & Hr & Hw & _). exists s, q.
  assert (sent s = [blit "AB"]) as Hs by (unfold sent; rewrite Hw; vm_compute; reflexivity).
  split; [exact Hr|]. split; [exact Hs|].
  eapply wp_mono; [|apply (worker_input_delivered demo_oci 4096 5 7 demo_id s q [] 3%nat [] Broker_init Hr)].
  - intros tr r b (l & -> & H) Hp. rewrite <- Hs. apply (H Hp).
  - apply broker_init_inv. discriminate.
  - constructor.
  - reflexivity.
Defined.
