(* ===== verification/WorkerBrokerPolicy.v ===== *)
(** * What the broker asks of the host, and executions of it

    Every operation that any task of the broker ever performs is allowed by
    the policy, and concrete executions: a worker that runs, and one whose
    slot is lost. *)

From Stdlib Require Import Init.Byte.
From S2P Require Import Prelude Text Regex Json Async Boards Qemu BrokerProtocol BrokerMessages.
From S2P Require Import Environment Oci OciSafety WorkerBroker WorkerBrokerSafety.

(** ** The policy *)

Section Policy.
Context (settings : OciBrokerSettings) (getuid output_limit_bytes : Z).

(** The queries that the broker puts to Docker. *)
Definition docker_queries : list (list text) :=
  [[lit "info"; lit "--format"; lit "{{json .SecurityOptions}}"];
   [lit "info"; lit "--format"; lit "{{.CgroupVersion}}"];
   [lit "image"; lit "inspect"; lit "--format"; lit "{{.Id}}"; image_reference settings];
   drop 3 (list_managed_command settings)].
(** Stopping, killing or removing the container [name]. *)
Definition docker_controls (name : text) : list (list text) :=
  [[lit "stop"; lit "--time"; str_of_int (stop_timeout_seconds settings); name];
   [lit "kill"; name]; [lit "rm"; lit "--force"; name]].

Definition policy_operation (o : wop) : Prop :=
  match o with
  | SpawnWorker command => exists fs payload request,
      StartRequest_from_payload payload = Ok request /\ build_worker_command fs settings request = Ok command
  | SpawnControl command => exists id arguments,
      re_match SESSION_ID_PATTERN id = true /\ arguments ∈ docker_controls (CONTAINER_NAME_PREFIX ++ id) /\
      command = docker_prefix settings ++ arguments
  | SpawnQuery command => exists arguments,
      arguments ∈ docker_queries /\ command = docker_prefix settings ++ arguments
  | Unlink p => p = socket_path settings
  | ChownGroup p gid => p = socket_path settings /\ gid = shared_group_gid settings
  | Chmod p mode => p = socket_path settings /\ mode = oct "660"
  | _ => True
  end.
Abbreviation allowed := (uses_in true policy_operation).

Lemma control_allowed action id command : control_command settings action id = Ok command ->
  policy_operation (SpawnControl command).
Proof.
  unfold control_command. intros H. case_bool_decide as Ha; [|done]. cbn [negb] in H.
  apply res_bind_ok in H as (name & [Hid ->]%container_name_ok & H). exists id. unfold docker_controls.
  repeat case_bool_decide; apply Ok_inj in H as <-; eexists; (split; [done|]);
    (split; [|reflexivity]); set_solver.
Qed.

Lemma uses_docker_control action id : allowed (docker_control settings action id).
Proof.
  unfold docker_control. destruct (control_command _ _ _) as [command|e] eqn:E; [|exact I].
  change (lift (Ok command) ≫= ?k) with (k command). cbv beta. uses_tac.
  by eapply control_allowed.
Qed.
Lemma uses_docker_output arguments : arguments ∈ docker_queries -> allowed (docker_output settings arguments).
Proof.
  intros Ha. unfold docker_output. uses_tac. by exists arguments.
Qed.
Hint Resolve uses_docker_control : uses.
Lemma uses_read_frame c limit : allowed (read c limit).
Proof. unfold read, read_frame. cbn [t_read_exactly connection]. cbv zeta. uses_tac. Qed.
Lemma uses_send c kind payload : allowed (send_frame c kind payload).
Proof. unfold send_frame, send. cbn [t_locked t_write t_drain connection]. uses_tac. Qed.
Hint Resolve uses_read_frame uses_send : uses.
Lemma uses_safe_send c kind payload : allowed (safe_send c kind payload).
Proof. unfold safe_send. uses_tac. Qed.
Hint Resolve uses_safe_send : uses.
Lemma uses_safe_error c code message : allowed (safe_error c code message).
Proof. unfold safe_error. uses_tac. Qed.
Hint Resolve uses_safe_error : uses.
Lemma uses_verify : allowed (verify_runtime settings).
Proof.
  unfold verify_runtime, policy. apply uses_bind; [apply uses_docker_output; set_solver|]. intros a. uses_tac.
  - apply uses_docker_output. set_solver.
  - apply uses_docker_output. set_solver.
Qed.
Lemma uses_reconcile keep : allowed (reconcile_managed_containers settings keep).
Proof.
  unfold reconcile_managed_containers, with_lock. uses_tac. apply uses_docker_output. set_solver.
Qed.
Hint Resolve uses_verify uses_reconcile : uses.
Lemma uses_reconcile_loop : allowed (reconcile_loop settings).
Proof. unfold reconcile_loop. uses_tac. Qed.
Lemma uses_pump c p kind g : allowed (pump_output c p kind g).
Proof. unfold pump_output, consume. uses_tac. Qed.
Lemma uses_relay c p id : allowed (relay_control settings c p id).
Proof. unfold relay_control. uses_tac. Qed.
Lemma uses_force id process : allowed (force_cleanup settings id process).
Proof. unfold force_cleanup, kill_and_wait. uses_tac. Qed.
Lemma uses_cleanup process id : allowed (cleanup settings process id).
Proof. unfold cleanup, kill_and_wait, release, with_lock. uses_tac. Qed.
Hint Resolve uses_reconcile_loop uses_pump uses_relay uses_force uses_cleanup : uses.
Lemma uses_supervise c p id : allowed (supervise settings output_limit_bytes c p id).
Proof. unfold supervise, with_lock. cbv zeta. uses_tac. Qed.
Hint Resolve uses_supervise : uses.
Lemma uses_run_worker c payload request : StartRequest_from_payload payload = Ok request ->
  allowed (run_worker settings output_limit_bytes c request).
Proof.
  intros Hr. unfold run_worker. apply uses_bind; [unfold claim, with_lock; uses_tac|].
  intros claimed. destruct (negb claimed); [apply uses_safe_error|]. apply uses_seq; [|uses_tac].
  unfold launch_container. apply uses_bind; [uses_tac|]. intros fs.
  destruct (build_worker_command _ _ _) as [command|e] eqn:E; [|exact I].
  change (lift (Ok command) ≫= ?k) with (k command). cbv beta. uses_tac. by eexists _, _, _.
Qed.
Lemma uses_close c : allowed (close_connection c).
Proof. unfold close_connection. uses_tac. Qed.
Hint Resolve uses_close : uses.
Lemma uses_handle_connection c : allowed (handle_connection settings output_limit_bytes c).
Proof.
  unfold handle_connection, peer_uid. uses_tac. unfold serve_request. apply uses_bind; [uses_tac|].
  intros first. destruct (_ && _); [uses_tac|]. destruct (negb _); [exact I|].
  destruct (StartRequest_from_payload _) as [request|e] eqn:E; [|exact I].
  change (lift (Ok request) ≫= ?k) with (k request). cbv beta. uses_tac. by eapply uses_run_worker.
Qed.
Lemma uses_stale : allowed (remove_stale_socket settings getuid).
Proof. unfold remove_stale_socket, policy. uses_tac. Qed.
Hint Resolve uses_stale : uses.
Lemma uses_start verify : allowed (start settings getuid verify).
Proof. unfold start, validate_socket_parent. uses_tac; by split. Qed.
Lemma uses_start_all l : (forall m, m ∈ l -> allowed m) -> allowed (start_all l).
Proof.
  induction l as [|m l IH]; intros Hl; [exact I|]. cbn [start_all].
  apply uses_bind; [apply uses_create; intros _; apply Hl; set_solver|]. intros t.
  apply uses_bind; [apply IH; set_solver|]. intros ts. exact I.
Qed.
Lemma uses_close_service : allowed (close settings getuid).
Proof.
  unfold close, with_lock. uses_tac. apply uses_start_all.
  intros m (x & -> & _)%list_elem_of_fmap. apply uses_force.
Qed.
Hint Resolve uses_start uses_close_service : uses.
Lemma uses_entry m : broker_entry settings getuid output_limit_bytes m -> allowed m.
Proof.
  intros []; [apply uses_start|apply uses_handle_connection|apply uses_close_service|].
  unfold run_service. uses_tac.
Qed.

(** The operation that a task has just performed or waits for. *)
Definition pending (o : wop) (c : @config Broker wop wresp) : Prop :=
  (exists t k, pool c !! t = Some (Suspended o k)) \/ (exists t k, running c = Some (t, Call o k)).

(** C6: only policy commands reach the host.  In every interleaving of
    connections, relays, reconciliation and shutdown, each process that any
    task starts is either [docker run] as the policy builds it for a start
    request that parsed, one of the three container controls on a container that
    bears a valid session identifier, or one of four fixed queries; and the
    only path that is removed or changes owner or mode is the socket's. *)
Theorem only_policy_commands c o :
  broker_reachable settings getuid output_limit_bytes c -> pending o c -> policy_operation o.
Proof.
  intros Hr Hp. destruct (machine_uses _ _ _ policy_operation _ _ uses_entry Hr) as [Hpool Hrun].
  destruct Hp as [(t & k & Hk)|(t & k & Hk)].
  - by apply Hpool in Hk as [Ho _].
  - rewrite Hk in Hrun. by destruct Hrun as [Ho _].
Qed.
End Policy.
