(* ===== verification/WorkerBrokerScenarios.v ===== *)
(** * Executions of the worker broker

    Concrete interleavings, computed with [drive]: the service starts, a
    client of the core user asks for a worker.  They show that the hypotheses
    of the safety theorems hold somewhere, and that a slot can be lost. *)

From Stdlib Require Import Init.Byte.
From S2P Require Import Prelude Text Regex Json Async Boards Qemu BrokerProtocol BrokerMessages.
From S2P Require Import Environment Oci OciSafety WorkerBroker WorkerBrokerSafety WorkerBrokerPolicy.

(** ** The computed environment *)

Definition w_reply_ok (b : Broker) (o : wop) (r : res (wresp o)) : bool :=
  implb (w_never_fails o) (is_ok r) &&
  match o return res (wresp o) -> bool with
  | KillProcess _ => fun r => match r with
                              | Ok _ => true
                              | Err e => bool_decide (exn_class e = ProcessLookupError)
                              end
  | _ => fun _ => true
  end r.

(** Only what the scripts below await. *)
Definition w_settle (b : Broker) (t : tid) (o : wop) (r : res (wresp o)) : option Broker :=
  match o return res (wresp o) -> option Broker with
  | AcquireBroker => fun r =>
      match r, broker_lock b with Ok _, None => Some (set_broker_lock (Some t) b) | _, _ => None end
  | AcquireFrames c => fun r =>
      match r, frame_locks b !! c with
      | Ok _, None => Some (set_frame_locks (insert c t) b)
      | _, _ => None
      end
  | SpawnWorker _ | SpawnControl _ | WaitProcessFor _ => fun r =>
      match r with Ok _ => Some b | Err _ => None end
  | ReadExactly _ n => fun r =>
      match r with Ok x => if zlen x =? n then Some b else None | Err _ => Some b end
  | DrainFrames _ | WaitClosed _ | StartServer | StartServing => fun _ => Some b
  | _ => fun _ => None
  end r.

Lemma w_reply_sound b o r : w_reply_ok b o r = true -> w_replies b o r.
Proof.
  intros [H1 H2]%andb_prop. split; [intros E; by rewrite E in H1|]. destruct o; try done.
  cbn in *. intros e ->. by apply bool_decide_eq_true in H2.
Qed.
Lemma w_settle_sound b t o r b' : w_settle b t o r = Some b' -> w_answers b t o r b'.
Proof.
  destruct o; cbn; try done; try (by intros [= <-]).
  - destruct r as [[]|]; [|done]. destruct (broker_lock b) eqn:E; [done|]. intros [= <-]. by left.
  - destruct r as [[]|]; [|done]. destruct (frame_locks b !! c) eqn:E; [done|]. intros [= <-]. by left.
  - destruct r as [x|]; [destruct (Z.eqb_spec (zlen x) n); [|done]|]; intros [= <-]; split; try done.
    by intros x' [= <-].
  - destruct r as [p|]; [|done]. by intros [= <-].
  - destruct r as [p|]; [|done]. by intros [= <-].
  - destruct r as [p'|]; [|done]. by intros [= <-].
Qed.

(** ** A host and a client

    The socket's directory belongs to the shared group; there is no stale
    socket.  The client runs as user 1000 and sends a start request; whether
    it still reads is a parameter. *)

Definition demo_host : files :=
  mkFiles (fun p =>
    if bool_decide (p = socket_path demo_oci) then raise FileNotFoundError []
    else if bool_decide (p = path_parent (socket_path demo_oci)) then Ok (mkStat (oct "042750") 1001 2000 0)
    else lstat demo_files p)
    (resolve demo_files).
Definition demo_request : bytes :=
  match StartRequest_to_payload demo_start with Ok payload => frame_bytes START payload | Err _ => [] end.
Definition demo_credentials : bytes := le_bytes 4 77 ++ le_bytes 4 1000 ++ le_bytes 4 1000.

Section Oracle.
Context (client_reads : bool).
Definition w_oracle (n : nat) (o : wop) : res (wresp o) :=
  match o return res (wresp o) with
  | ReadExactly _ k => Ok (if k =? FRAME_HEADER_size then take 5 demo_request else drop 5 demo_request)
  | DrainFrames _ => if client_reads then Ok tt else raise ConnectionError (lit "Connection lost")
  | SpawnWorker _ => Ok 7
  | SpawnControl _ | SpawnQuery _ => Ok 8
  | WaitProcess _ | WaitProcessFor _ => Ok 0
  | Communicate _ | ReadStream _ _ _ => Ok []
  | WaitFirst l => Ok l
  | PeerCredentials _ => Ok (Some demo_credentials)
  | ReturnCode _ => Ok None
  | HasStdin _ | HasStream _ _ | DeadlineHit => Ok true
  | FileView => Ok demo_host
  | KillProcess _ => raise ProcessLookupError []
  | AcquireBroker | AcquireFrames _ | AcquireBudget _ | WaitClosed _ | DrainStdin _ | WaitExceeded _
  | Sleep _ | GatherTask _ | StartServer | StartServing | WaitServerClosed | ServeForever | WaitStop
  | WriteChunks _ _ | CloseConnection _ | WriteStdin _ _ | CancelTask _ | CloseServer | Unlink _
  | ChownGroup _ _ | Chmod _ _ => Ok tt
  end.
End Oracle.

Abbreviation demo_limit := 1048576.
Abbreviation wscript := (list (act Broker wop wresp)).
Abbreviation wconfig := (@config Broker wop wresp).
Definition broker_start : wconfig := Config Broker_init None ∅.
Definition drive_broker (client_reads : bool) (l : wscript) : option (nat * wconfig) :=
  drive w_reply_ok w_settle (w_oracle client_reads) 1000 l (0%nat, broker_start).
Definition broker_after (client_reads : bool) (l : wscript) : wconfig :=
  match drive_broker client_reads l with Some (_, c) => c | None => broker_start end.

Abbreviation demo_entry := (broker_entry demo_oci 1001 demo_limit).
Abbreviation demo_reachable := (broker_reachable demo_oci 1001 demo_limit).
Definition broker_entries (l : wscript) : Prop :=
  Forall (fun a => match a with Enter _ k => demo_entry k | _ => True end) l.

Lemma broker_after_reachable client_reads l : broker_entries l ->
  demo_reachable (Config (heap (broker_after client_reads l)) None (pool (broker_after client_reads l))).
Proof.
  intros Hl. unfold broker_after, drive_broker.
  destruct (drive _ _ _ _ _ _) as [[n c]|] eqn:E; [|apply rtc_refl].
  assert (running c = None) as Hc by by eapply drive_idle in E.
  eapply (drive_sound _ _ demo_entry _ _ w_reply_sound w_settle_sound) in E; [|exact Hl].
  by destruct c as [b r p]; cbn in *; subst r.
Qed.

(** Task 0 starts the service, task 1 serves connection 5. *)
Definition demo_service : wscript :=
  [Enter 0%nat (start demo_oci 1001 false); Begin 0%nat; Wake 0%nat; Wake 0%nat].
Definition demo_client : wscript :=
  Enter 1%nat (handle_connection demo_oci demo_limit 5) :: Begin 1%nat :: replicate 3 (Wake 1%nat).
Lemma demo_client_entries n : broker_entries (demo_service ++ demo_client ++ replicate n (Wake 1%nat)).
Proof.
  unfold broker_entries, demo_service, demo_client. cbn [app replicate].
  apply Forall_cons; split; [apply EntryStart|]. do 3 (apply Forall_cons; split; [exact I|]).
  apply Forall_cons; split; [apply EntryConnection|]. do 4 (apply Forall_cons; split; [exact I|]).
  by apply Forall_replicate.
Qed.
(** What can be seen of a configuration. *)
Definition summary (c : wconfig) : list text * list Z * bool * nat :=
  (map fst (map_to_list (active (heap c))), map snd (map_to_list (processes (heap c))),
   runtime_healthy (heap c), size (pool c)).

(** ** Witnesses *)

Abbreviation demo_all n := (demo_service ++ demo_client ++ replicate n (Wake 1%nat)).
Abbreviation wwp := (wp w_replies w_answers (broker_inv demo_oci demo_limit) (broker_rely demo_oci)).
Abbreviation demo_heap n := (heap (broker_after true (demo_all n))).

Lemma demo_all_reachable client_reads n :
  demo_reachable (Config (heap (broker_after client_reads (demo_all n))) None
    (pool (broker_after client_reads (demo_all n)))).
Proof. apply broker_after_reachable, demo_client_entries. Qed.

(** A worker is being started: one session, no process yet; two steps later
    the process is on record. *)
Example demo_claimed : summary (broker_after true (demo_all 0)) = ([demo_id], [], true, 1%nat).
Proof. vm_compute. reflexivity. Qed.
Example demo_started : summary (broker_after true (demo_all 2)) = ([demo_id], [7], true, 1%nat).
Proof. vm_compute. reflexivity. Qed.
Lemma workers_demo : 0 <= max_workers demo_oci. Proof. done. Qed.
Lemma limit_demo : 0 <= demo_limit. Proof. done. Qed.

Lemma slots_bounded_witness :
  processes (demo_heap 2) !! demo_id = Some 7 /\ Z.of_nat (size (active (demo_heap 2))) <= 2 /\
  is_Some (active (demo_heap 2) !! demo_id).
Proof.
  assert (processes (demo_heap 2) !! demo_id = Some 7) as Hp by (vm_compute; reflexivity).
  destruct (slots_bounded demo_oci 1001 demo_limit workers_demo limit_demo _ _ (demo_all_reachable true 2))
    as (H1 & H2 & _).
  split; [exact Hp|]. split; [exact H1|exact (H2 _ _ Hp)].
Defined.


Definition spawning (c : wconfig) : option (list text) :=
  match pool c !! 1%nat with Some (Suspended (SpawnWorker command) _) => Some command | _ => None end.
Lemma spawning_pending c command : spawning c = Some command -> pending (SpawnWorker command) c.
Proof.
  unfold spawning. intros H. left. exists 1%nat. destruct (pool c !! 1%nat) as [[|[] k]|]; try done.
  injection H as ->. by exists k.
Qed.
Lemma only_policy_commands_witness : exists command fs payload request,
  spawning (broker_after true (demo_all 0)) = Some command /\
  StartRequest_from_payload payload = Ok request /\ build_worker_command fs demo_oci request = Ok command.
Proof.
  destruct (spawning (broker_after true (demo_all 0))) as [command|] eqn:E.
  - destruct (only_policy_commands demo_oci 1001 demo_limit _ (SpawnWorker command)
      (demo_all_reachable true 0) (spawning_pending _ _ E)) as (fs & payload & request & H).
    exists command, fs, payload, request. split; [reflexivity|exact H].
  - apply (f_equal (fun x => match x with Some _ => true | None => false end)) in E. vm_compute in E. discriminate.
Defined.

Lemma demo_inv n : broker_inv demo_oci demo_limit (demo_heap n).
Proof.
  exact (machine_safe _ _ _ _ _ (broker_entry_safe demo_oci 1001 demo_limit workers_demo limit_demo)
    (broker_answers_rely _ _) _ _ _ (broker_init_inv _ _ workers_demo) (demo_all_reachable true n)).
Qed.

(** The heap of [demo_started] with a fresh budget, which has the number 0. *)
Definition demo_budget : Broker := new_budget demo_limit (demo_heap 2).
Lemma demo_budget_found : budgets demo_budget !! 0 = Some (mkBudget demo_limit false None).
Proof. vm_compute. reflexivity. Qed.
Lemma pump_within_budget_witness :
  wwp 9%nat (pump_output 5 7 STDOUT 0) (fun tr' _ b' => forwarded tr' <= demo_limit) [] demo_budget.
Proof.
  eapply wp_mono; [|apply (pump_within_budget demo_oci demo_limit 5 7 STDOUT 0 9%nat [] demo_budget)].
  - intros tr r b' (_ & _ & H). destruct (H _ demo_budget_found) as (x & _ & Hx & Hle).
    cbn [forwarded foldr remaining] in Hle. lia.
  - apply (mild_new_budget demo_oci demo_limit limit_demo _ (demo_inv 2)).
Defined.
Lemma run_worker_cleans_up_witness :
  wwp 9%nat (run_worker demo_oci demo_limit 6 demo_start) (fun tr' r b' =>
    (r = Ok tt -> active b' !! demo_id = None) \/ Forall (fun e => no_spawn (operation e)) tr')
    [] (demo_heap 2).
Proof.
  eapply wp_mono; [|apply (run_worker_cleans_up demo_oci demo_limit workers_demo limit_demo 6 demo_start
    9%nat [] (demo_heap 2)); [vm_compute; reflexivity|apply demo_inv]].
  intros tr r b' [(l & -> & H)|[[H _]|(e & -> & _)]]; [right; exact H|left; intros _; exact H|left; intros [=]].
Defined.
Lemma only_core_user_witness :
  wwp 9%nat (handle_connection demo_oci demo_limit 6) (fun tr' _ b' => exists r l,
    tr' = Called (PeerCredentials 6) r :: l /\
    (r = Ok None -> Forall (fun e => closes 6 (operation e)) l)) [] (demo_heap 2).
Proof.
  eapply wp_mono; [|apply (only_core_user demo_oci demo_limit workers_demo limit_demo 6 9%nat [] (demo_heap 2)),
    demo_inv].
  intros tr r b' (r0 & l & E & H). exists r0, l. split; [exact E|]. intros ->. apply H. discriminate.
Defined.

(** ** A lost slot *)

(** C40: a slot can be lost.  The client closes its connection while the worker
    starts, so that sending [STARTED] fails.  The [finally] block sees no exit
    status yet and has Docker kill the container; by the time it calls
    [process.kill] the process is gone and that raises ProcessLookupError,
    which skips the removal of the container and the release of the slot.
    In the configuration reached, no task is left but the session still holds
    its slot. *)
Theorem slot_lost : exists b,
  demo_reachable (Config b None ∅) /\ active b !! demo_id = Some 1%nat /\ processes b !! demo_id = Some 7.
Proof.
  exists (heap (broker_after false (demo_all 7))). split; [|split; vm_compute; reflexivity].
  pose proof (demo_all_reachable false 7) as H.
  assert (map_to_list (pool (broker_after false (demo_all 7))) = []) as Hp by (vm_compute; reflexivity).
  apply map_to_list_empty_iff in Hp. by rewrite Hp in H.
Qed.
