(* ===== verification/SessionData.v ===== *)
(** * Sessions: data and synchronous operations ([sessions.py])

    [SessionRecord], the shared heap of the session manager, the operations
    its coroutines call or await, and every synchronous method as a function
    on records: recording, publishing, paging, the public dictionaries. *)

From Stdlib Require Import Init.Byte.
From S2P Require Import Prelude Text PyFloat Json Sha256 Async Boards Firmware Framebuffer.
From S2P Require Import Inputs Recording Tracing Qemu.

(** ** Settings used by the manager ([settings.py]) *)

Record Settings := mkSettings {
  runtime_root : path;
  qemu_executable : path;
  rom_directory_ : path;
  native_workers_enabled : bool;
  worker_qmp_enabled : bool;
  worker_debug_enabled : bool;
  worker_sandbox_mode : WorkerSandboxMode;
  worker_sandbox_executable : path;
  worker_sandbox_readonly_paths : list path;
  worker_broker_socket : path;
  worker_shared_group_gid : option Z;
  max_concurrent_sessions : Z;
  session_ttl_seconds : Z;
  worker_memory_limit_mib : Z;
  worker_cpu_limit_seconds : Z;
  worker_startup_timeout_seconds : float;
  framebuffer_interval_ms : Z;
  max_recording_events : Z;
  max_event_page_size : Z;
  max_replay_duration_seconds : Z;
  worker_trace_enabled : bool;
  max_trace_events_per_generation : Z }.

(** [_worker_config] *)
Definition worker_config (cfg : Settings) : QemuWorkerConfig :=
  mkConfig (qemu_executable cfg) (rom_directory_ cfg) (worker_sandbox_mode cfg)
    (worker_sandbox_executable cfg) (worker_sandbox_readonly_paths cfg) (worker_broker_socket cfg).

(** ** Session records *)

Inductive SessionState := STARTING | RUNNING | PAUSED | POWERED_OFF | STOPPED | FAILED | EXPIRED.
#[export] Instance session_state_eq_dec : EqDecision SessionState.
Proof. solve_decision. Defined.
Definition state_text (s : SessionState) : text :=
  match s with
  | STARTING => lit "starting" | RUNNING => lit "running" | PAUSED => lit "paused"
  | POWERED_OFF => lit "powered_off" | STOPPED => lit "stopped" | FAILED => lit "failed"
  | EXPIRED => lit "expired"
  end.
(** [state in ACTIVE_SESSION_STATES] *)
Definition active_state (s : SessionState) : bool :=
  match s with STARTING | RUNNING | PAUSED | POWERED_OFF => true | _ => false end.
(** [state in {SessionState.RUNNING, SessionState.PAUSED}] *)
Definition live_state (s : SessionState) : bool :=
  match s with RUNNING | PAUSED => true | _ => false end.

Definition MAX_DEBUG_BREAKPOINTS := 32.
Definition MAX_UNIX_SOCKET_PATH_BYTES := 107.
Definition TRACE_READER_YIELD_LINES := 64.
Definition SERIAL_BUFFER_CHUNKS : nat := 256.
Definition SUBSCRIBER_QUEUE_SIZE := 128.

(** Worker processes, GDB clients and subscriber queues are referenced by
    handles. *)
Abbreviation pid := Z.
Abbreviation client := Z.
Abbreviation queue_id := Z.

(** Times are integers: microseconds for [datetime], nanoseconds for
    [time.monotonic_ns].  [serial_version] is the mutation counter that the
    iterators of a [deque] compare. *)
Record SessionRecord := mkSession {
  s_id : text;
  s_board : BoardProfile;
  s_firmware : ValidatedFirmware;
  created_at : Z;
  expires_at : Z;
  runtime_directory : path;
  flash_path : path;
  qmp_socket_path : path;
  gdb_socket_path : path;
  initial_flash_image : bytes;
  s_state : SessionState;
  exit_code : option Z;
  process : option pid;
  reader_task : option tid;
  trace_reader_task : option tid;
  serial_buffer : list bytes;
  serial_version : Z;
  subscribers : list queue_id;
  lifecycle_lock : option tid;
  qmp_lock : option tid;
  gdb_client : option client;
  debug_run_task : option tid;
  debug_stop_reason : option text;
  debug_breakpoints : list Z;
  generation : Z;
  generation_started_ns : Z;
  next_event_sequence : Z;
  events : list SessionEvent;
  events_dropped : Z;
  replay_actions : list ReplayAction;
  replay_actions_dropped : Z;
  replay_task : option tid;
  replay_status : text;
  replay_error : option text;
  replay_speed : option float;
  accept_live_input : bool;
  serial_output_bytes : Z;
  trace_events_recorded : Z;
  trace_events_dropped : Z;
  trace_event_counts : list (text * Z);
  trace_truncation_reported : bool;
  virtual_imu_state : option (vector * vector);
  virtual_power_state : option (Z * Z * bool) }.

(** [update f g s] is [s] with field [f] mapped by [g]. *)
Ltac eta_session s :=
  constr:(mkSession (s_id s) (s_board s) (s_firmware s) (created_at s) (expires_at s)
    (runtime_directory s) (flash_path s) (qmp_socket_path s) (gdb_socket_path s)
    (initial_flash_image s) (s_state s) (exit_code s) (process s) (reader_task s)
    (trace_reader_task s) (serial_buffer s) (serial_version s) (subscribers s)
    (lifecycle_lock s) (qmp_lock s) (gdb_client s) (debug_run_task s) (debug_stop_reason s)
    (debug_breakpoints s) (generation s) (generation_started_ns s) (next_event_sequence s)
    (events s) (events_dropped s) (replay_actions s) (replay_actions_dropped s)
    (replay_task s) (replay_status s) (replay_error s) (replay_speed s) (accept_live_input s)
    (serial_output_bytes s) (trace_events_recorded s) (trace_events_dropped s)
    (trace_event_counts s) (trace_truncation_reported s) (virtual_imu_state s)
    (virtual_power_state s)).
Ltac update proj :=
  let s := fresh "s" in let g := fresh "g" in intros g s;
  let e := eta_session s in
  let p := eval pattern (proj s) in e in
  lazymatch p with ?F _ => let t := eval cbv beta in (F (g (proj s))) in exact t end.

Abbreviation setter T := ((T -> T) -> SessionRecord -> SessionRecord).
Definition upd_image : setter bytes := ltac:(update initial_flash_image).
Definition upd_state : setter SessionState := ltac:(update s_state).
Definition upd_exit_code : setter (option Z) := ltac:(update exit_code).
Definition upd_process : setter (option pid) := ltac:(update process).
Definition upd_reader_task : setter (option tid) := ltac:(update reader_task).
Definition upd_trace_reader_task : setter (option tid) := ltac:(update trace_reader_task).
Definition upd_serial_buffer : setter (list bytes) := ltac:(update serial_buffer).
Definition upd_serial_version : setter Z := ltac:(update serial_version).
Definition upd_subscribers : setter (list queue_id) := ltac:(update subscribers).
Definition upd_lifecycle_lock : setter (option tid) := ltac:(update lifecycle_lock).
Definition upd_qmp_lock : setter (option tid) := ltac:(update qmp_lock).
Definition upd_gdb_client : setter (option client) := ltac:(update gdb_client).
Definition upd_debug_run_task : setter (option tid) := ltac:(update debug_run_task).
Definition upd_debug_stop_reason : setter (option text) := ltac:(update debug_stop_reason).
Definition upd_debug_breakpoints : setter (list Z) := ltac:(update debug_breakpoints).
Definition upd_generation : setter Z := ltac:(update generation).
Definition upd_generation_started_ns : setter Z := ltac:(update generation_started_ns).
Definition upd_next_event_sequence : setter Z := ltac:(update next_event_sequence).
Definition upd_events : setter (list SessionEvent) := ltac:(update events).
Definition upd_events_dropped : setter Z := ltac:(update events_dropped).
Definition upd_replay_actions : setter (list ReplayAction) := ltac:(update replay_actions).
Definition upd_replay_actions_dropped : setter Z := ltac:(update replay_actions_dropped).
Definition upd_replay_task : setter (option tid) := ltac:(update replay_task).
Definition upd_replay_status : setter text := ltac:(update replay_status).
Definition upd_replay_error : setter (option text) := ltac:(update replay_error).
Definition upd_replay_speed : setter (option float) := ltac:(update replay_speed).
Definition upd_accept_live_input : setter bool := ltac:(update accept_live_input).
Definition upd_serial_output_bytes : setter Z := ltac:(update serial_output_bytes).
Definition upd_trace_events_recorded : setter Z := ltac:(update trace_events_recorded).
Definition upd_trace_events_dropped : setter Z := ltac:(update trace_events_dropped).
Definition upd_trace_event_counts : setter (list (text * Z)) := ltac:(update trace_event_counts).
Definition upd_trace_truncation_reported : setter bool := ltac:(update trace_truncation_reported).
Definition upd_virtual_imu_state : setter (option (vector * vector)) := ltac:(update virtual_imu_state).
Definition upd_virtual_power_state : setter (option (Z * Z * bool)) := ltac:(update virtual_power_state).

(** Assignment [session.f = v]. *)
Definition put {T} (u : setter T) (v : T) : SessionRecord -> SessionRecord := u (fun _ => v).

(** ** Recording *)

Section Recording.
Context (cfg : Settings).

(** [_offset_ms] at the monotonic time [now] *)
Definition offset_ms (now : Z) (s : SessionRecord) : Z :=
  Z.max 0 ((now - generation_started_ns s) / 1000000).

Definition pop_empty {A} : res A := raise IndexError (lit "pop from an empty deque").

(** [_append_replay_action] *)
Definition append_replay_action (a : ReplayAction) (s : SessionRecord) : res unit * SessionRecord :=
  match bounded_append (max_recording_events cfg) a (replay_actions s) (replay_actions_dropped s) with
  | Some (q, d) => (Ok tt, put upd_replay_actions q (put upd_replay_actions_dropped d s))
  | None => (pop_empty, s)
  end.

(** [_record_event]; the sequence number is taken before the deque is
    touched. *)
Definition record_event (now : Z) (category : EventCategory) (type : text) (source : EventSource)
    (data : list (text * json)) (s : SessionRecord) : res unit * SessionRecord :=
  let event := mkEvent (next_event_sequence s) (generation s) (offset_ms now s) category type
                 source data in
  let s := upd_next_event_sequence (Z.add 1) s in
  match bounded_append (max_recording_events cfg) event (events s) (events_dropped s) with
  | Some (q, d) => (Ok tt, put upd_events q (put upd_events_dropped d s))
  | None => (pop_empty, s)
  end.

(** [list_events] *)
Definition event_page (after limit : Z) (s : SessionRecord) : list SessionEvent :=
  let bounded_limit := Z.min (Z.max limit 1) (max_event_page_size cfg) in
  let newer := List.filter (fun e => after <? ev_sequence e) (events s) in
  (* a negative bound slices from the end *)
  if 0 <=? bounded_limit then take (Z.to_nat bounded_limit) newer
  else take (Z.to_nat (zlen newer + bounded_limit)) newer.
Definition next_after (after : Z) (page : list SessionEvent) : Z :=
  match last page with Some e => ev_sequence e | None => after end.
Definition cursor_truncated (after : Z) (s : SessionRecord) : bool :=
  match head (events s) with Some e => after <? ev_sequence e - 1 | None => false end.
Definition list_events (after limit : Z) (s : SessionRecord) : json :=
  let page := event_page after limit s in
  JObj [(lit "session_id", JStr (s_id s)); (lit "generation", JInt (generation s));
        (lit "events_dropped", JInt (events_dropped s));
        (lit "cursor_truncated", JBool (cursor_truncated after s));
        (lit "events", JArr (map event_public_dict page));
        (lit "next_after", JInt (next_after after page))].
End Recording.

(** ** Private data and the serial buffer *)

(** [deque(maxlen=256)]: appending mutates it, clearing does unless it is
    already empty. *)
Definition serial_append (chunk : bytes) (s : SessionRecord) : SessionRecord :=
  upd_serial_version (Z.add 1) (upd_serial_buffer (deque_append SERIAL_BUFFER_CHUNKS chunk) s).
Definition serial_clear (s : SessionRecord) : SessionRecord :=
  match serial_buffer s with
  | [] => s
  | _ => upd_serial_version (Z.add 1) (put upd_serial_buffer [] s)
  end.

(** [_clear_private_session_data] *)
Definition clear_private_session_data (s : SessionRecord) : SessionRecord :=
  put upd_virtual_power_state None (put upd_virtual_imu_state None
    (serial_clear (put upd_replay_actions [] (put upd_image [] s)))).

(** The fields that [_run_replay] resets before it launches a generation. *)
Definition reset_for_replay (s : SessionRecord) : SessionRecord :=
  put upd_exit_code None (put upd_debug_stop_reason None (put upd_debug_breakpoints []
    (put upd_serial_output_bytes 0 (serial_clear s)))).
Definition new_generation (now : Z) (s : SessionRecord) : SessionRecord :=
  put upd_state STARTING
  (put upd_virtual_power_state None (put upd_virtual_imu_state None
  (put upd_trace_truncation_reported false (put upd_trace_event_counts []
  (put upd_trace_events_dropped 0 (put upd_trace_events_recorded 0
  (put upd_replay_actions_dropped 0 (put upd_replay_actions []
  (put upd_generation_started_ns now (upd_generation (Z.add 1) s)))))))))).
(** The fields that [_power_on_worker] resets. *)
Definition reset_for_power_on (s : SessionRecord) : SessionRecord :=
  put upd_state STARTING
  (put upd_trace_truncation_reported false (put upd_trace_event_counts []
  (put upd_trace_events_dropped 0 (put upd_trace_events_recorded 0 (reset_for_replay s))))).

(** ** Public views *)

Definition opt_json {A} (f : A -> json) (o : option A) : json :=
  match o with Some a => f a | None => JNull end.

(** [_replay_dict] *)
Definition replay_dict (s : SessionRecord) : json :=
  JObj [(lit "session_id", JStr (s_id s)); (lit "generation", JInt (generation s));
        (lit "status", JStr (replay_status s)); (lit "speed", opt_json JFloat (replay_speed s));
        (lit "error", opt_json JStr (replay_error s));
        (lit "action_count", JInt (zlen (replay_actions s)));
        (lit "actions_dropped", JInt (replay_actions_dropped s))].

(** Values of [public_dict]: JSON values and, still unformatted, datetimes. *)
Inductive py_value := PyJson (j : json) | PyDatetime (microseconds : Z).

Definition public_dict (s : SessionRecord) : list (text * py_value) :=
  [(lit "id", PyJson (JStr (s_id s)));
   (lit "board_id", PyJson (JStr (board_id (s_board s))));
   (lit "state", PyJson (JStr (state_text (s_state s))));
   (lit "created_at", PyDatetime (created_at s)); (lit "expires_at", PyDatetime (expires_at s));
   (lit "exit_code", PyJson (opt_json JInt (exit_code s)));
   (lit "firmware", PyJson (firmware_dict (s_firmware s)));
   (lit "generation", PyJson (JInt (generation s)));
   (lit "recording", PyJson (JObj
      [(lit "event_count", JInt (zlen (events s)));
       (lit "events_dropped", JInt (events_dropped s));
       (lit "replayable_action_count", JInt (zlen (replay_actions s)));
       (lit "replayable_actions_dropped", JInt (replay_actions_dropped s));
       (lit "trace_events_recorded", JInt (trace_events_recorded s));
       (lit "trace_events_dropped", JInt (trace_events_dropped s))]));
   (lit "replay", PyJson (JObj
      [(lit "status", JStr (replay_status s)); (lit "speed", opt_json JFloat (replay_speed s));
       (lit "error", opt_json JStr (replay_error s))]))].

(** [datetime.isoformat] of a UTC time: the proleptic Gregorian date of the
    day number (days from civil, inverted), the time, and microseconds only
    when there are some. *)
Definition pad (n : nat) (z : Z) : text :=
  let d := format_nat 10 z in replicate (n - length d) 48 ++ d.
Definition civil_of_days (days : Z) : Z * Z * Z :=
  let z := days + 719468 in
  let era := z / 146097 in
  let doe := z mod 146097 in
  let yoe := (doe - doe / 1460 + doe / 36524 - doe / 146096) / 365 in
  let doy := doe - (365 * yoe + yoe / 4 - yoe / 100) in
  let mp := (5 * doy + 2) / 153 in
  let day := doy - (153 * mp + 2) / 5 + 1 in
  let month := if mp <? 10 then mp + 3 else mp - 9 in
  (yoe + era * 400 + (if month <=? 2 then 1 else 0), month, day).
Definition isoformat (us : Z) : text :=
  let secs := us / 1000000 in let micro := us mod 1000000 in
  let '(y, m, d) := civil_of_days (secs / 86400) in
  let t := secs mod 86400 in
  pad 4 y ++ lit "-" ++ pad 2 m ++ lit "-" ++ pad 2 d ++ lit "T" ++ pad 2 (t / 3600) ++ lit ":"
  ++ pad 2 (t / 60 mod 60) ++ lit ":" ++ pad 2 (t mod 60)
  ++ (if micro =? 0 then [] else 46 :: pad 6 micro) ++ lit "+00:00".

(** [diagnostics] *)
Definition diagnostics (cfg : Settings) (s : SessionRecord) : json :=
  let serial_tail := concat (serial_buffer s) in
  JObj
  [(lit "schema", JStr (lit "esp32-s3-simulator-diagnostics/v1"));
   (lit "privacy", JObj
     [(lit "firmware_bytes_included", JBool false); (lit "mutated_flash_included", JBool false);
      (lit "framebuffer_pixels_included", JBool false);
      (lit "debug_memory_included", JBool false);
      (lit "serial_payloads_included", JBool false)]);
   (lit "session", JObj
     [(lit "id", JStr (s_id s)); (lit "board_id", JStr (board_id (s_board s)));
      (lit "state", JStr (state_text (s_state s)));
      (lit "created_at", JStr (isoformat (created_at s)));
      (lit "expires_at", JStr (isoformat (expires_at s)));
      (lit "exit_code", opt_json JInt (exit_code s)); (lit "generation", JInt (generation s));
      (lit "firmware", firmware_dict (s_firmware s)); (lit "replay", replay_dict s)]);
   (lit "worker", JObj
     [(lit "sandbox", JStr (sandbox_mode_value (worker_sandbox_mode cfg)));
      (lit "qmp_enabled", JBool (worker_qmp_enabled cfg));
      (lit "debug_enabled", JBool (worker_debug_enabled cfg));
      (lit "trace_enabled", JBool (worker_trace_enabled cfg))]);
   (lit "recording", JObj
     [(lit "events_dropped", JInt (events_dropped s));
      (lit "replayable_actions_dropped", JInt (replay_actions_dropped s));
      (lit "trace_events_recorded", JInt (trace_events_recorded s));
      (lit "trace_events_dropped", JInt (trace_events_dropped s));
      (lit "events", JArr (map event_public_dict (events s)))]);
   (lit "serial", JObj
     [(lit "total_output_bytes", JInt (serial_output_bytes s));
      (lit "buffered_tail", JObj (serial_metadata serial_tail))])].

(** [_vector_dict] *)
Definition vector_dict (v : vector) : json :=
  JObj [(lit "x", JFloat (vx v)); (lit "y", JFloat (vy v)); (lit "z", JFloat (vz v))].

Example isoformat_epoch :
  isoformat 1767225599000042 = lit "2025-12-31T23:59:59.000042+00:00".
Proof. vm_compute. reflexivity. Qed.
Example isoformat_leap : isoformat 951782400000000 = lit "2000-02-29T00:00:00+00:00".
Proof. vm_compute. reflexivity. Qed.
