(* ===== verification/Configuration.v ===== *)
(** * Settings from the environment ([settings.py])

    [Settings.from_environment] and [_read_bool].  The record is declared in
    [SessionData]; the directory of the project, the working directory and
    [Path.resolve] are parameters. *)

From S2P Require Import Prelude Text PyFloat Json PyNumber Recording Qemu Environment SessionData.

(** ** Reading a variable *)

Definition TRUE_WORDS : list text := [lit "1"; lit "true"; lit "yes"; lit "on"].
(** [_read_bool].  No character outside ASCII has a lower-case form that
    occurs in one of the words, so [lower] on ASCII decides the test. *)
Definition read_bool (env : environ) (name : string) (default : bool) : bool :=
  match env (lit name) with
  | None => default
  | Some value => bool_decide (map to_lower (strip is_str_space value) ∈ TRUE_WORDS)
  end.

(** [WorkerSandboxMode(value)] *)
Definition WorkerSandboxMode_of (value : text) : res WorkerSandboxMode :=
  match List.find (fun m => bool_decide (sandbox_mode_value m = value)) [DIRECT; BUBBLEWRAP; OCI_BROKER] with
  | Some m => Ok m
  | None => raise ValueError (39 :: value ++ lit "' is not a valid WorkerSandboxMode")
  end.

Definition is_colon (c : Z) : bool := c =? 58.
Definition descend (p : path) (l : list string) : path := fold_left path_child (map lit l) p.

Section Environment.
Context (env : environ) (project_root : path) (cwd : list text) (resolve : path -> res path).

(** [Path(os.environ.get(name, default)).resolve()] *)
Definition resolved_path (name : string) (default : path) : res path :=
  resolve (match env (lit name) with Some value => path_of_text value | None => default end).
(** [int(os.environ.get(name, default))] *)
Definition int_setting (name default : string) : res Z := int_of_text (env_get env name default).

(** The tuple of read-only paths: empty entries are skipped. *)
Definition readonly_setting : list path :=
  let value := env_get env "SIMULATOR_WORKER_SANDBOX_READONLY_PATHS" "/usr:/lib:/lib64" in
  map (fun t => path_absolute cwd (path_of_text t))
    (List.filter (fun t => negb (bool_decide (t = []))) (split_sep is_colon (length value) value [])).

(** An empty group identifier counts as unset. *)
Definition shared_group_setting : res (option Z) :=
  match env (lit "SIMULATOR_SHARED_GROUP_GID") with
  | None | Some [] => Ok None
  | Some value => gid ← int_of_text value; Ok (Some gid)
  end.

(** [Settings.from_environment] *)
Definition from_environment : res Settings :=
  runtime_root ← resolved_path "SIMULATOR_RUNTIME_ROOT" (descend project_root [".runtime"%string]);
  qemu_executable ← resolved_path "SIMULATOR_QEMU_EXECUTABLE"
    (descend project_root [".cache"; "qemu"; "source"; "build"; "qemu-system-xtensa"]%string);
  rom_directory ← resolved_path "SIMULATOR_QEMU_ROM_DIRECTORY"
    (descend project_root [".cache"; "qemu"; "source"; "pc-bios"]%string);
  let native_workers_enabled := read_bool env "SIMULATOR_NATIVE_WORKERS_ENABLED" false in
  let worker_qmp_enabled := read_bool env "SIMULATOR_WORKER_QMP_ENABLED" true in
  let worker_debug_enabled := read_bool env "SIMULATOR_WORKER_DEBUG_ENABLED" true in
  worker_sandbox_mode ← WorkerSandboxMode_of (env_get env "SIMULATOR_WORKER_SANDBOX_MODE" "direct");
  worker_sandbox_executable ← resolved_path "SIMULATOR_WORKER_SANDBOX_EXECUTABLE"
    (path_of_text (lit "/usr/bin/bwrap"));
  worker_broker_socket ← resolved_path "SIMULATOR_WORKER_BROKER_SOCKET"
    (path_of_text (lit "/run/esp32-simulator/worker-broker.sock"));
  worker_shared_group_gid ← shared_group_setting;
  max_concurrent_sessions ← int_setting "SIMULATOR_MAX_SESSIONS" "2";
  session_ttl_seconds ← int_setting "SIMULATOR_SESSION_TTL_SECONDS" "120";
  worker_memory_limit_mib ← int_setting "SIMULATOR_WORKER_MEMORY_LIMIT_MIB" "1536";
  worker_cpu_limit_seconds ← int_setting "SIMULATOR_WORKER_CPU_LIMIT_SECONDS" "90";
  worker_startup_timeout_seconds ←
    float_of_text (env_get env "SIMULATOR_WORKER_STARTUP_TIMEOUT_SECONDS" "10");
  framebuffer_interval_ms ← int_setting "SIMULATOR_FRAMEBUFFER_INTERVAL_MS" "100";
  max_recording_events ← int_setting "SIMULATOR_MAX_RECORDING_EVENTS" "4096";
  max_event_page_size ← int_setting "SIMULATOR_MAX_EVENT_PAGE_SIZE" "500";
  max_replay_duration_seconds ← int_setting "SIMULATOR_MAX_REPLAY_DURATION_SECONDS" "120";
  let worker_trace_enabled := read_bool env "SIMULATOR_WORKER_TRACE_ENABLED" true in
  max_trace_events_per_generation ← int_setting "SIMULATOR_MAX_TRACE_EVENTS_PER_GENERATION" "2048";
  Ok (mkSettings runtime_root qemu_executable rom_directory native_workers_enabled worker_qmp_enabled
    worker_debug_enabled worker_sandbox_mode worker_sandbox_executable readonly_setting
    worker_broker_socket worker_shared_group_gid max_concurrent_sessions session_ttl_seconds
    worker_memory_limit_mib worker_cpu_limit_seconds worker_startup_timeout_seconds
    framebuffer_interval_ms max_recording_events max_event_page_size max_replay_duration_seconds
    worker_trace_enabled max_trace_events_per_generation).
End Environment.

(** The defaults that the class body gives to its fields. *)
Definition Settings_defaults (runtime_root qemu_executable rom_directory : path) : Settings :=
  mkSettings runtime_root qemu_executable rom_directory false true true DIRECT
    (mkPath true [lit "usr"; lit "bin"; lit "bwrap"]) DEFAULT_SANDBOX_READONLY_PATHS
    (mkPath true [lit "run"; lit "esp32-simulator"; lit "worker-broker.sock"]) None
    2 120 1536 90 (float_of_int 10) 100 4096 500 120 true 2048.

(** ** Properties *)

Lemma bind_ext {A B} (m : res A) (k k' : A -> res B) : (forall a, k a = k' a) -> (m ≫= k) = (m ≫= k').
Proof. intros H. destruct m; [apply H|done]. Qed.
Lemma bind_ok {A B} (m : res A) a (k : A -> res B) : m = Ok a -> (m ≫= k) = k a.
Proof. by intros ->. Qed.

(** An empty environment gives the defaults of the class.  The fallback
    texts of [from_environment] and the defaults of the dataclass fields are
    two tables; they agree on every field, for every project directory and
    working directory and whatever [resolve] does to the paths. *)
Theorem from_environment_defaults project_root cwd resolve :
  from_environment (fun _ => None) project_root cwd resolve =
  (runtime ← resolve (descend project_root [".runtime"%string]);
   qemu ← resolve (descend project_root [".cache"; "qemu"; "source"; "build"; "qemu-system-xtensa"]%string);
   roms ← resolve (descend project_root [".cache"; "qemu"; "source"; "pc-bios"]%string);
   let s := Settings_defaults runtime qemu roms in
   sandbox ← resolve (worker_sandbox_executable s);
   broker ← resolve (worker_broker_socket s);
   Ok (mkSettings runtime qemu roms (native_workers_enabled s) (worker_qmp_enabled s)
         (worker_debug_enabled s) (worker_sandbox_mode s) sandbox (worker_sandbox_readonly_paths s) broker
         (worker_shared_group_gid s) (max_concurrent_sessions s) (session_ttl_seconds s)
         (worker_memory_limit_mib s) (worker_cpu_limit_seconds s) (worker_startup_timeout_seconds s)
         (framebuffer_interval_ms s) (max_recording_events s) (max_event_page_size s)
         (max_replay_duration_seconds s) (worker_trace_enabled s) (max_trace_events_per_generation s))).
Proof.
  unfold from_environment, resolved_path, int_setting, env_get. cbv zeta.
  do 3 (apply bind_ext; intros ?).
  rewrite (bind_ok _ DIRECT) by (vm_compute; reflexivity).
  replace (path_of_text (lit "/usr/bin/bwrap")) with (mkPath true [lit "usr"; lit "bin"; lit "bwrap"])
    by (vm_compute; reflexivity).
  apply bind_ext. intros sandbox.
  replace (path_of_text (lit "/run/esp32-simulator/worker-broker.sock"))
    with (mkPath true [lit "run"; lit "esp32-simulator"; lit "worker-broker.sock"])
    by (vm_compute; reflexivity).
  apply bind_ext. intros broker. rewrite (bind_ok _ None) by reflexivity.
  do 4 (erewrite bind_ok by (vm_compute; reflexivity)).
  rewrite (bind_ok _ (float_of_int 10)) by (vm_compute; reflexivity).
  do 5 (erewrite bind_ok by (vm_compute; reflexivity)).
  f_equal.
Qed.

(** Setting one variable. *)
Definition with_variable (name : string) (value : text) (env : environ) : environ :=
  fun n => if bool_decide (n = lit name) then Some value else env n.

(** A variable that is read as an integer accepts any integer. *)
Definition with_max_recording_events (n : Z) (s : Settings) : Settings :=
  mkSettings (runtime_root s) (qemu_executable s) (rom_directory_ s) (native_workers_enabled s)
    (worker_qmp_enabled s) (worker_debug_enabled s) (worker_sandbox_mode s) (worker_sandbox_executable s)
    (worker_sandbox_readonly_paths s) (worker_broker_socket s) (worker_shared_group_gid s)
    (max_concurrent_sessions s) (session_ttl_seconds s) (worker_memory_limit_mib s)
    (worker_cpu_limit_seconds s) (worker_startup_timeout_seconds s) (framebuffer_interval_ms s) n
    (max_event_page_size s) (max_replay_duration_seconds s) (worker_trace_enabled s)
    (max_trace_events_per_generation s).

Ltac same_variable :=
  match goal with |- context [with_variable ?n ?v ?env ?m] =>
    replace (with_variable n v env m) with (env m) by (unfold with_variable; by rewrite bool_decide_eq_false_2 by (vm_compute; discriminate))
  end.
Lemma recording_bound_free env project_root cwd resolve s value n :
  from_environment env project_root cwd resolve = Ok s -> int_of_text value = Ok n ->
  from_environment (with_variable "SIMULATOR_MAX_RECORDING_EVENTS" value env) project_root cwd resolve =
  Ok (with_max_recording_events n s).
Proof.
  intros H Hn.
  unfold from_environment, resolved_path, int_setting, read_bool, env_get, readonly_setting,
    shared_group_setting, env_get in *.
  repeat same_variable.
  change (with_variable "SIMULATOR_MAX_RECORDING_EVENTS" value env (lit "SIMULATOR_MAX_RECORDING_EVENTS"))
    with (Some value). cbv zeta iota.
  repeat (apply res_bind_ok in H as (? & E & H);
          first [rewrite (bind_ok _ _ _ E) | rewrite (bind_ok _ _ _ Hn)]; clear E).
  by apply Ok_inj in H as <-.
Qed.

(** The bound of the recording is not checked.  Any environment that is
    accepted stays accepted when it also sets the bound to zero; with such
    settings no session can record an event or a replay action: both
    operations raise IndexError. *)
Theorem recording_bound_unchecked env project_root cwd resolve s :
  from_environment env project_root cwd resolve = Ok s -> exists s',
    from_environment (with_variable "SIMULATOR_MAX_RECORDING_EVENTS" (lit "0") env) project_root cwd resolve
      = Ok s' /\
    forall session, events session = [] -> replay_actions session = [] ->
      (forall now category type source data, exists e,
         fst (record_event s' now category type source data session) = Err e /\ exn_class e = IndexError) /\
      (forall a, exists e, fst (append_replay_action s' a session) = Err e /\ exn_class e = IndexError).
Proof.
  intros H. exists (with_max_recording_events 0 s).
  split; [by apply recording_bound_free|]. intros session He Ha. split.
  - intros now category type source data. unfold record_event, bounded_append. cbn. rewrite He. cbn.
    by eexists.
  - intros a. unfold append_replay_action, bounded_append. cbn. rewrite Ha. cbn. by eexists.
Qed.
Lemma recording_bound_unchecked_witness :
  let s := Settings_defaults (mkPath true [lit ".runtime"])
             (mkPath true (map lit [".cache"; "qemu"; "source"; "build"; "qemu-system-xtensa"]%string))
             (mkPath true (map lit [".cache"; "qemu"; "source"; "pc-bios"]%string)) in
  from_environment (fun _ => None) (mkPath true []) [] Ok = Ok s /\
  exists s', from_environment (with_variable "SIMULATOR_MAX_RECORDING_EVENTS" (lit "0") (fun _ => None))
    (mkPath true []) [] Ok = Ok s' /\ s' <> s.
Proof.
  intros s. assert (from_environment (fun _ => None) (mkPath true []) [] Ok = Ok s) as H by (vm_compute; reflexivity).
  split; [exact H|]. destruct (recording_bound_unchecked _ _ _ _ _ H) as (s' & Hs & _). exists s'.
  split; [exact Hs|]. intros ->. apply (f_equal (fun r => match r with Ok x => max_recording_events x | _ => 1 end)) in Hs.
  vm_compute in Hs. discriminate.
Defined.
