(* ===== verification/SessionOps.v ===== *)
(** * Sessions: the operations of the manager ([sessions.py])

    Every [async] method and task of [SessionManager] as a coroutine over the
    shared heap [World].  The worker process, QMP, the GDB client, files and
    clocks are operations; whatever they answer, these coroutines are the
    code that reacts. *)

From Stdlib Require Import Init.Byte.
From S2P Require Import Prelude Text PyFloat Json PyNumber Async Boards Firmware Framebuffer Inputs.
From S2P Require Import Recording Tracing Qemu BrokerProtocol SessionData.

(** ** The heap *)

(** [_sessions] (in insertion order; a record is referenced by its id),
    [_lock], [_cleanup_task] and the queues of the serial subscribers. *)
Record World := mkWorld {
  w_sessions : list (text * SessionRecord);
  w_lock : option tid;
  w_cleanup_task : option tid;
  w_queues : gmap Z (list (option bytes));
  w_next_queue : Z }.
Definition World_init : World := mkWorld [] None None ∅ 0.

Definition set_sessions (l : list (text * SessionRecord)) (w : World) : World :=
  mkWorld l (w_lock w) (w_cleanup_task w) (w_queues w) (w_next_queue w).
Definition set_manager_lock (t : option tid) (w : World) : World :=
  mkWorld (w_sessions w) t (w_cleanup_task w) (w_queues w) (w_next_queue w).
Definition set_cleanup_task (t : option tid) (w : World) : World :=
  mkWorld (w_sessions w) (w_lock w) t (w_queues w) (w_next_queue w).
Definition set_queues (q : gmap Z (list (option bytes))) (w : World) : World :=
  mkWorld (w_sessions w) (w_lock w) (w_cleanup_task w) q (w_next_queue w).

Definition session (id : text) (w : World) : option SessionRecord := dict_get id (w_sessions w).
(** A mutation of the record [id] through any reference to it. *)
Definition on_session (id : text) (f : SessionRecord -> SessionRecord) (w : World) : World :=
  match session id w with
  | Some s => set_sessions (dict_set id (f s) (w_sessions w)) w
  | None => w
  end.

(** ** Operations *)

Inductive sop :=
  (* awaited: locks, the worker, its control sockets, tasks, queues, sleeping *)
  | AcquireManager | AcquireLifecycle (id : text) | AcquireQmp (id : text)
  | ProbeBroker (socket : path) | ConnectBroker (socket : path) (request : StartRequest)
  | SpawnProcess (command : list text) (cwd : path) (limits : list (text * Z * Z))
  | WaitExit (p : pid) | WaitExitTimeout (p : pid) | StdinDrain (p : pid)
  | ReadStdout (p : pid) (n : Z) | ReadStderrLine (p : pid)
  | ExecuteQmp (socket : path) (command : text) (arguments : option json) (timeout : float)
  | GdbConnect (socket : path) | GdbClose (c : client) | GdbRegisters (c : client)
  | GdbReadMemory (c : client) (address length : Z)
  | GdbAddBreakpoint (c : client) (address : Z) | GdbRemoveBreakpoint (c : client) (address : Z)
  | GdbStep (c : client) | GdbContinue (c : client)
  | GatherTask (t : tid) | ShieldedWait (t : tid)
  | QueueGet (q : queue_id) | YieldChunk (b : bytes) | Sleep (seconds : float)
  (* awaited by the HTTP layer: uploads, WebSocket connections, its own tasks *)
  | ReadUpload (n : Z) | SocketAccept (c : Z) | SocketClose (c code : Z) (reason : text)
  | SocketReceiveText (c : Z) | SocketReceiveBytes (c : Z) | SocketSendJson (c : Z) (v : json)
  | WaitAny (tasks : list tid)
  (* synchronous: clocks, identifiers, process handles, tasks, files *)
  | MonotonicNs | Monotonic | LoopTime | UtcNow | NewUuid
  | ReturnCode (p : pid) | HasStdin (p : pid) | HasStdout (p : pid) | HasStderr (p : pid)
  | Terminate (p : pid) | Kill (p : pid) | StdinWrite (p : pid) (b : bytes)
  | CancelTask (t : tid) | TaskDone (t : tid)
  | FileSystem | Fs (c : fs_call) | Mkdirs (p : path) (mode : Z) | Unlink (p : path)
  | Rmtree (p : path) | ReadBytes (p : path) | Lstat (p : path) | Getuid
  (* of a program that drives the manager: a task it waits for, a temporary
     directory, its output *)
  | AwaitTask (t : tid) | MakeTemporary (prefix : text) | RemoveTemporary (p : path) | Print (t : text).

Definition sresp (o : sop) : Type :=
  match o with
  | ProbeBroker _ | HasStdin _ | HasStdout _ | HasStderr _ | TaskDone _ => bool
  | ConnectBroker _ _ | SpawnProcess _ _ _ | WaitExit _ | WaitExitTimeout _ | GdbConnect _
  | MonotonicNs | UtcNow | Getuid => Z
  | ReadStdout _ _ | ReadStderrLine _ | GdbReadMemory _ _ _ | ReadBytes _
  | ReadUpload _ | SocketReceiveBytes _ => bytes
  | SocketReceiveText _ => text
  | WaitAny _ => list tid
  | ExecuteQmp _ _ _ _ => json
  | GdbRegisters _ => list (text * option Z)
  | GdbStep _ | GdbContinue _ | NewUuid => text
  | QueueGet _ => option bytes
  | Monotonic | LoopTime => float
  | ReturnCode _ => option Z
  | FileSystem => fs_view
  | Lstat _ => bool * Z
  | MakeTemporary _ => path
  | _ => unit
  end.

Abbreviation sco := (co World sop sresp).
Definition scall (o : sop) : sco (sresp o) := call o.
Definition sawait (o : sop) : sco (sresp o) := await o.

(** [get]: a reference, or [SessionNotFoundError]; [read] looks through a
    reference that the caller holds already. *)
Definition read (id : text) : sco SessionRecord :=
  Get (fun w => Ret (of_option (session id w) (Exn SessionNotFoundError id))).
Definition upd (id : text) (f : SessionRecord -> SessionRecord) : sco unit := modify (on_session id f).
(** A synchronous method that may raise. *)
Definition apply (id : text) (f : SessionRecord -> res unit * SessionRecord) : sco unit :=
  s ← read id; upd id (fun _ => snd (f s)) ≫= fun _ => lift (fst (f s)).

Definition timeout2 : float := float_of_int 2.
Definition not_available {A} (m : string) : sco A := throw RuntimeError (lit m).
Definition when_some {A} (o : option A) (f : A -> sco unit) : sco unit :=
  match o with Some a => f a | None => skip end.

(** [_limit_worker_resources] *)
Definition worker_limits (memory_limit_mib cpu_limit_seconds : Z) : list (text * Z * Z) :=
  let memory_bytes := memory_limit_mib * 1024 * 1024 in
  [(lit "RLIMIT_AS", memory_bytes, memory_bytes);
   (lit "RLIMIT_CPU", cpu_limit_seconds, cpu_limit_seconds + 1);
   (lit "RLIMIT_FSIZE", 64 * 1024 * 1024, 64 * 1024 * 1024);
   (lit "RLIMIT_NOFILE", 64, 64)].

Section Manager.
Context (cfg : Settings) (cwd : list text).

Definition qmp_disabled {A} (m : string) : sco A := throw QmpUnavailableError (lit m).
Definition bad_transition {A} (verb : string) (s : SessionRecord) : sco A :=
  throw SessionTransitionError
    (lit "cannot " ++ lit verb ++ lit " session in " ++ state_text (s_state s) ++ lit " state").

(** [async with self._lock], [session.lifecycle_lock], [session.qmp_lock] *)
Definition with_manager {A} (m : sco A) : sco A :=
  locked (sawait AcquireManager) (set_manager_lock None) m.
Definition with_lifecycle {A} (id : text) (m : sco A) : sco A :=
  locked (sawait (AcquireLifecycle id)) (on_session id (put upd_lifecycle_lock None)) m.
Definition with_qmp {A} (id : text) (m : sco A) : sco A :=
  locked (sawait (AcquireQmp id)) (on_session id (put upd_qmp_lock None)) m.

Definition execute_qmp (socket : path) (command : string) (arguments : option json) : sco json :=
  sawait (ExecuteQmp socket (lit command) arguments timeout2).

(** *** Recording and publishing *)

Definition record (id : text) (category : EventCategory) (type : text) (source : EventSource)
    (data : list (text * json)) : sco unit :=
  now ← scall MonotonicNs; apply id (record_event cfg now category type source data).
Definition append_action (id : text) (a : ReplayAction) : sco unit :=
  apply id (append_replay_action cfg a).
(** [self._offset_ms(session)] *)
Definition offset (id : text) : sco Z :=
  now ← scall MonotonicNs; s ← read id; mret (offset_ms now s).

Definition record_input (id : text) (a : ReplayAction) (public_data : list (text * json)) : sco unit :=
  append_action id a ≫= fun _ =>
  record id CatInput (lit "input." ++ action_text (ra_type a)) SrcUser public_data.

(** [_publish]: a full queue is dropped from the subscribers. *)
Definition publish_to (chunk : option bytes) (q : queue_id) (id : text) (w : World) : World :=
  match w_queues w !! q with
  | Some l => if SUBSCRIBER_QUEUE_SIZE <=? zlen l
              then on_session id (upd_subscribers (List.filter (fun x => negb (x =? q)))) w
              else set_queues (<[q := l ++ [chunk]]> (w_queues w)) w
  | None => w
  end.
Definition publish_all (id : text) (chunk : option bytes) (w : World) : World :=
  match session id w with
  | Some s => foldl (fun w q => publish_to chunk q id w) w (subscribers s)
  | None => w
  end.
Definition publish (id : text) (chunk : option bytes) : sco unit := modify (publish_all id chunk).

Definition clear_private (id : text) : sco unit := upd id clear_private_session_data.

(** *** Readiness *)

(** [worker_ready] *)
Definition worker_ready : sco bool :=
  if negb (native_workers_enabled cfg) then mret false
  else if bool_decide (worker_sandbox_mode cfg = OCI_BROKER)
          && bool_decide (worker_shared_group_gid cfg = None) then mret false
  else
    v ← scall FileSystem;
    catch (lift (validate (worker_config cfg) v) ≫= fun _ => mret true) [FileNotFoundError]
      (fun _ => mret false).
Definition worker_is_ready : sco bool :=
  ready ← worker_ready;
  if negb ready then mret false
  else if bool_decide (worker_sandbox_mode cfg = OCI_BROKER)
  then sawait (ProbeBroker (worker_broker_socket cfg))
  else mret true.

(** *** Ending a worker *)

(** [_close_debugger] *)
Definition close_debugger (id : text) : sco unit :=
  s ← read id;
  let task := debug_run_task s in
  upd id (put upd_debug_run_task None) ≫= fun _ =>
  self ← current_task;
  when_some task (fun t =>
    if bool_decide (t = self) then skip
    else scall (CancelTask t) ≫= fun _ => sawait (GatherTask t)) ≫= fun _ =>
  s ← read id;
  let client := gdb_client s in
  upd id (put upd_gdb_client None) ≫= fun _ =>
  when_some client (fun c => sawait (GdbClose c)).

Definition gather_other (task : option tid) : sco unit :=
  self ← current_task;
  when_some task (fun t => if bool_decide (t = self) then skip else sawait (GatherTask t)).

(** [_terminate_worker] *)
Definition terminate_worker (id : text) : sco unit :=
  close_debugger id ≫= fun _ =>
  s ← read id;
  let proc := process s in
  let reader := reader_task s in
  let trace_reader := trace_reader_task s in
  upd id (fun s => put upd_trace_reader_task None
                     (put upd_reader_task None (put upd_process None s))) ≫= fun _ =>
  when_some proc (fun p =>
    rc ← scall (ReturnCode p);
    match (rc : option Z) with
    | Some _ => skip
    | None =>
        scall (Terminate p) ≫= fun _ =>
        catch (sawait (WaitExitTimeout p) ≫= fun _ => skip) [TimeoutError] (fun _ =>
          scall (Kill p) ≫= fun _ => sawait (WaitExit p) ≫= fun _ => skip)
    end) ≫= fun _ =>
  gather_other reader ≫= fun _ =>
  gather_other trace_reader ≫= fun _ =>
  when_some proc (fun p => rc ← scall (ReturnCode p); upd id (put upd_exit_code rc)).

(** *** The reader tasks of a worker *)

(** The end of the loop body of [_read_worker_trace]: the limit per
    generation. *)
Definition record_within_generation (id : text) (event_type : text) (data : list (text * json))
    : sco unit :=
  s ← read id;
  if max_trace_events_per_generation cfg <=? trace_events_recorded s then
    when (negb (trace_truncation_reported s))
      (record id CatPeripheral (lit "peripheral.trace.truncated") SrcWorker
         [(lit "limit", JInt (max_trace_events_per_generation cfg))] ≫= fun _ =>
       upd id (put upd_trace_truncation_reported true)) ≫= fun _ =>
    upd id (upd_trace_events_dropped (Z.add 1))
  else
    upd id (upd_trace_events_recorded (Z.add 1)) ≫= fun _ =>
    record id CatPeripheral event_type SrcWorker data.

(** One parsed trace line: the limit per event and then the one per
    generation. *)
Definition record_trace (id : text) (event_type : text) (data : list (text * json)) : sco unit :=
  trace_event ← lift match dict_get (lit "trace_event") data with
                     | Some (JStr t) => Ok t
                     | _ => raise KeyError (lit "trace_event")
                     end;
  s ← read id;
  let trace_event_count := default 0 (dict_get trace_event (trace_event_counts s)) + 1 in
  upd id (upd_trace_event_counts (dict_set trace_event trace_event_count)) ≫= fun _ =>
  trace_event_limit ← lift (of_option (dict_get trace_event TRACE_EVENT_LIMITS)
                              (Exn KeyError trace_event));
  if trace_event_limit <? trace_event_count then
    when (trace_event_count =? trace_event_limit + 1)
      (record id CatPeripheral (lit "peripheral.trace.sampled") SrcWorker
         [(lit "trace_event", JStr trace_event); (lit "limit", JInt trace_event_limit)]) ≫= fun _ =>
    upd id (upd_trace_events_dropped (Z.add 1))
  else
    record_within_generation id event_type data.

(** [_read_worker_trace] *)
Definition read_worker_trace (id : text) (p : pid) : sco unit :=
  loop (fun lines_read : Z =>
    line ← sawait (ReadStderrLine p);
    match (line : bytes) with
    | [] => mret (inr tt)
    | _ =>
        let lines_read := lines_read + 1 in
        when (lines_read mod TRACE_READER_YIELD_LINES =? 0) (sawait (Sleep (float_of_int 0)))
          ≫= fun _ =>
        match parse_worker_trace_line line with
        | None => mret (inl lines_read)
        | Some (event_type, data) =>
            record_trace id event_type data ≫= fun _ => mret (inl lines_read)
        end
    end) 0.

(** [_read_serial] *)
Definition read_serial (id : text) (p : pid) : sco unit :=
  has ← scall (HasStdout p);
  if negb (has : bool) then skip
  else
    loop (fun _ : unit =>
      chunk ← sawait (ReadStdout p 4096);
      match (chunk : bytes) with
      | [] => mret (inr tt)
      | _ =>
          s ← read id;
          when (bool_decide (process s = Some p))
            (upd id (fun s => serial_append chunk
                                (upd_serial_output_bytes (Z.add (zlen chunk)) s)) ≫= fun _ =>
             publish id (Some chunk)) ≫= fun _ =>
          mret (inl tt)
      end) tt ≫= fun _ =>
    code ← sawait (WaitExit p);
    s ← read id;
    if negb (bool_decide (process s = Some p)) then skip
    else
      let trace_reader := trace_reader_task s in
      upd id (put upd_trace_reader_task None) ≫= fun _ =>
      gather_other trace_reader ≫= fun _ =>
      upd id (put upd_exit_code (Some code)) ≫= fun _ =>
      close_debugger id ≫= fun _ =>
      upd id (fun s =>
        match s_state s with
        | STARTING | RUNNING | PAUSED =>
            put upd_state (if bool_decide (exit_code s = Some 0) then STOPPED else FAILED) s
        | _ => s
        end) ≫= fun _ =>
      s ← read id;
      record id CatLifecycle (lit "worker.exited") SrcWorker
        [(lit "exit_code", opt_json JInt (exit_code s))] ≫= fun _ =>
      publish id None ≫= fun _ =>
      clear_private id ≫= fun _ =>
      s ← read id;
      scall (Rmtree (runtime_directory s)).

(** *** Starting a worker *)

(** [_restore_virtual_environment] *)
Definition restore_virtual_environment (id : text) : sco unit :=
  if negb (worker_qmp_enabled cfg) then skip
  else with_qmp id (
    s ← read id;
    when_some (virtual_imu_state s) (fun '(acceleration_g, angular_velocity_dps) =>
      arguments ← lift (qmp_imu_sample (s_board s) acceleration_g angular_velocity_dps);
      execute_qmp (qmp_socket_path s) "qom-set" (Some arguments) ≫= fun _ => skip) ≫= fun _ =>
    s ← read id;
    when_some (virtual_power_state s) (fun '(battery_mv, vin_mv, charging) =>
      arguments ← lift (qmp_power_state (s_board s) battery_mv vin_mv charging);
      execute_qmp (qmp_socket_path s) "qom-set" (Some arguments) ≫= fun _ => skip)).

Definition startup_failed {A} (m : string) : sco A := throw WorkerUnavailableError (lit m).
Definition fmin (a b : float) : float := if fltb b a then b else a.
Definition field_is (k : string) (v : json) (status : json) : bool :=
  match status with
  | JObj d => match dict_get (lit k) d, v with
              | Some (JBool b), JBool b' => Bool.eqb b b'
              | Some (JStr t), JStr t' => bool_decide (t = t')
              | _, _ => false
              end
  | _ => false
  end.

(** [_wait_for_qmp_running] *)
Definition wait_for_qmp_running (id : text) (p : pid) : sco unit :=
  t0 ← scall LoopTime;
  let deadline := fadd t0 (worker_startup_timeout_seconds cfg) in
  loop (fun _ : unit =>
    t ← scall LoopTime;
    let remaining := fsub deadline t in
    if fltb (float_of_int 0) remaining then
      rc ← scall (ReturnCode p);
      match (rc : option Z) with
      | Some _ => startup_failed "simulator worker exited during startup"
      | None =>
          s ← read id;
          done ← seq (sawait (ExecuteQmp (qmp_socket_path s) (lit "query-status") None
                                (fmin (float_of_int 1) remaining))) (fun r =>
            match r with
            | Err e => if exc_sub (exn_class e) QmpUnavailableError then mret false
                       else lift (Err e)
            | Ok status =>
                if field_is "running" (JBool true) status
                   && field_is "status" (JStr (lit "running")) status then mret true
                else if field_is "running" (JBool false) status
                        && field_is "status" (JStr (lit "prelaunch")) status then mret false
                else startup_failed "simulator worker reported an invalid startup state"
            end);
          if (done : bool) then mret (inr tt)
          else
            t ← scall LoopTime;
            let remaining := fsub deadline t in
            when (fltb (float_of_int 0) remaining)
              (sawait (Sleep (fmin (float_of_decimal false 5 (-2)) remaining))) ≫= fun _ =>
            mret (inl tt)
      end
    else startup_failed "simulator worker did not become ready before the startup deadline") tt.

(** [_launch_local_worker] *)
Definition launch_local_worker (id : text) : sco pid :=
  s ← read id;
  command ← lift (build_qemu_command cwd (worker_config cfg) (s_board s) (flash_path s)
    (if worker_qmp_enabled cfg then Some (qmp_socket_path s) else None)
    (if worker_debug_enabled cfg && worker_qmp_enabled cfg then Some (gdb_socket_path s) else None)
    (worker_trace_enabled cfg));
  sawait (SpawnProcess command (runtime_directory s)
            (worker_limits (worker_memory_limit_mib cfg) (worker_cpu_limit_seconds cfg))).

(** [_launch] *)
Definition launch (id : text) : sco unit :=
  v ← scall FileSystem;
  lift (validate (worker_config cfg) v) ≫= fun _ =>
  s ← read id;
  p ← (if bool_decide (sandbox_mode (worker_config cfg) = OCI_BROKER) then
         catch (request ← lift (StartRequest_init (s_id s) (board_id (s_board s)));
                sawait (ConnectBroker (broker_socket_path (worker_config cfg)) request))
           [BrokerUnavailableError; BrokerProtocolError]
           (fun _ => startup_failed "isolated worker broker launch failed")
       else launch_local_worker id);
  upd id (put upd_process (Some p)) ≫= fun _ =>
  reader ← create_task (read_serial id p);
  upd id (put upd_reader_task (Some reader)) ≫= fun _ =>
  has ← scall (HasStderr p);
  when (has : bool)
    (trace_reader ← create_task (read_worker_trace id p);
     upd id (put upd_trace_reader_task (Some trace_reader))) ≫= fun _ =>
  catch (
    (if worker_qmp_enabled cfg then wait_for_qmp_running id p else skip) ≫= fun _ =>
    s ← read id;
    if negb (bool_decide (process s = Some p)) then
      startup_failed "simulator worker exited during startup"
    else
      rc ← scall (ReturnCode p);
      if negb (bool_decide ((rc : option Z) = None)) || negb (bool_decide (s_state s = STARTING))
      then startup_failed "simulator worker exited during startup"
      else skip)
    [QmpError; WorkerUnavailableError]
    (fun _ => terminate_worker id ≫= fun _ =>
              startup_failed "simulator worker failed its startup readiness check") ≫= fun _ =>
  upd id (put upd_state RUNNING).

(** The record that [create] makes; the monotonic time [ns] is the default
    of [generation_started_ns]. *)
Definition new_session (session_id : text) (board : BoardProfile)
    (image : bytes * ValidatedFirmware) (now ns : Z) : SessionRecord :=
  let directory := path_child (runtime_root cfg) session_id in
  mkSession session_id board (snd image) now
    (now + session_ttl_seconds cfg * 1000000) directory (path_child directory (lit "flash.bin"))
    (path_child directory (lit "qmp.sock")) (path_child directory (lit "gdb.sock"))
    (fst image) STARTING None None None None [] 0 [] None None None None None [] 1 ns 1
    [] 0 [] 0 None (lit "idle") None None true 0 0 0 [] false None None.

Definition active_count (sessions : list (text * SessionRecord)) : Z :=
  zlen (List.filter (fun p => active_state (s_state (snd p))) sessions).

(** The part of [create] under the manager's lock. *)
Definition allocate_session (board : BoardProfile) (upload : bytes) : sco text :=
  sessions ← gets w_sessions;
  if max_concurrent_sessions cfg <=? active_count sessions then
    throw SessionCapacityError (lit "all simulator workers are currently in use")
  else
    image ← lift (validate_and_pad_firmware upload board);
    now ← scall UtcNow;
    session_id ← scall NewUuid;
    let directory := path_child (runtime_root cfg) session_id in
    let shared_group_gid :=
      if bool_decide (worker_sandbox_mode cfg = OCI_BROKER) then worker_shared_group_gid cfg
      else None in
    each (fun c => scall (Fs c))
      (write_private_flash_image (path_str directory)
         (path_str (path_child directory (lit "flash.bin"))) (fst image)
         (match shared_group_gid with Some _ => oct "2770" | None => oct "700" end)
         (match shared_group_gid with Some _ => oct "660" | None => oct "600" end)
         shared_group_gid) ≫= fun _ =>
    ns ← scall MonotonicNs;
    modify (fun w => set_sessions
      (dict_set session_id (new_session session_id board image now ns) (w_sessions w)) w) ≫= fun _ =>
    mret session_id.

(** The part of [create] after the manager's lock was released. *)
Definition first_launch (id : text) : sco unit :=
  catch (
    ns ← scall MonotonicNs;
    upd id (put upd_generation_started_ns ns) ≫= fun _ =>
    launch id ≫= fun _ =>
    record id CatLifecycle (lit "session.started") SrcService [])
    [Exception] (fun e =>
      upd id (put upd_state FAILED) ≫= fun _ =>
      scall (Rmtree (path_child (runtime_root cfg) id)) ≫= fun _ =>
      clear_private id ≫= fun _ => lift (Err e)).

(** [create] *)
Definition create (board : BoardProfile) (upload : bytes) : sco text :=
  ready ← worker_is_ready;
  if negb ready then
    throw WorkerUnavailableError (lit "native QEMU workers are not configured and enabled")
  else
    id ← with_manager (allocate_session board upload);
    first_launch id ≫= fun _ =>
    mret id.

(** *** Stopping *)

(** [stop] *)
Definition stop (id : text) (expired : bool) : sco text :=
  s ← read id;
  let task := replay_task s in
  upd id (put upd_replay_task None) ≫= fun _ =>
  self ← current_task;
  when_some task (fun t =>
    if bool_decide (t = self) then skip
    else scall (CancelTask t) ≫= fun _ => sawait (GatherTask t)) ≫= fun _ =>
  with_lifecycle id (
    terminate_worker id ≫= fun _ =>
    clear_private id ≫= fun _ =>
    upd id (put upd_state (if expired then EXPIRED else STOPPED)) ≫= fun _ =>
    record id CatLifecycle (lit (if expired then "session.expired" else "session.stopped"))
      SrcService [] ≫= fun _ =>
    publish id None ≫= fun _ =>
    s ← read id;
    scall (Rmtree (runtime_directory s))) ≫= fun _ =>
  mret id.

(** [_cleanup_loop] *)
Definition cleanup_loop : sco unit :=
  loop (fun _ : unit =>
    sawait (Sleep (float_of_int 5)) ≫= fun _ =>
    now ← scall UtcNow;
    sessions ← gets w_sessions;
    let expired_ids := map (fun p => s_id (snd p))
      (List.filter (fun p => active_state (s_state (snd p)) && (expires_at (snd p) <=? now)) sessions) in
    each (fun id => stop id true ≫= fun _ => skip) expired_ids ≫= fun _ =>
    mret (inl tt)) tt.

(** [os.fsencode]: UTF-8, a lone surrogate being one byte. *)
Definition fsencode_length (t : text) : Z :=
  foldr Z.add 0 (map (fun c => if is_surrogate c then 1 else zlen (utf8_char c)) t).

(** [start] *)
Definition start : sco unit :=
  let probe := path_child (runtime_root cfg) (replicate 32 48) in
  let socket_paths :=
    if native_workers_enabled cfg && worker_qmp_enabled cfg then
      path_child probe (lit "qmp.sock")
      :: (if worker_debug_enabled cfg then [path_child probe (lit "gdb.sock")] else [])
    else [] in
  if existsb (fun p => MAX_UNIX_SOCKET_PATH_BYTES <? fsencode_length (path_str (path_absolute cwd p)))
       socket_paths then
    throw WorkerUnavailableError
      (lit "simulator runtime root is too long for private worker sockets")
  else
    scall (Mkdirs (runtime_root cfg) (oct "700")) ≫= fun _ =>
    st ← scall (Lstat (runtime_root cfg));
    uid ← scall Getuid;
    if negb (fst (st : bool * Z)) || negb (snd (st : bool * Z) =? uid) then
      throw WorkerUnavailableError (lit "simulator runtime root ownership is unsafe")
    else
      match (if bool_decide (worker_sandbox_mode cfg = OCI_BROKER) then worker_shared_group_gid cfg
             else None) with
      | Some gid =>
          scall (Fs (FsChownGroup (path_str (runtime_root cfg)) gid)) ≫= fun _ =>
          scall (Fs (FsChmod (path_str (runtime_root cfg)) (oct "2770")))
      | None => skip
      end ≫= fun _ =>
      task ← create_task cleanup_loop;
      modify (set_cleanup_task (Some task)).

(** [close] *)
Definition close : sco unit :=
  task ← gets w_cleanup_task;
  when_some task (fun t => scall (CancelTask t) ≫= fun _ => sawait (GatherTask t)) ≫= fun _ =>
  ids ← gets (fun w => dict_keys (w_sessions w));
  each (fun id => stop id false ≫= fun _ => skip) ids.

(** *** Live input *)

(** [_require_live_input] and [_require_board_input] *)
Definition require_live_input (s : SessionRecord) : res unit :=
  if negb (accept_live_input s) then
    raise RuntimeError (lit "live input is disabled while a replay is running")
  else Ok tt.
Definition require_board_input (s : SessionRecord) : res unit :=
  require_live_input s ≫= fun _ =>
  if negb (bool_decide (s_state s = RUNNING)) then
    raise RuntimeError (lit "session board input is not available")
  else if negb (worker_qmp_enabled cfg) then
    raise QmpUnavailableError (lit "QMP board input is disabled for this worker")
  else Ok tt.

(** [process.stdin.write(payload); await process.stdin.drain()] when the
    session has a worker that takes input *)
Definition write_stdin (s : SessionRecord) (payload : bytes) : sco unit :=
  match process s with
  | Some p =>
      if bool_decide (s_state s = RUNNING) then
        has ← scall (HasStdin p);
        if (has : bool) then scall (StdinWrite p payload) ≫= fun _ => sawait (StdinDrain p)
        else not_available "session serial input is not available"
      else not_available "session serial input is not available"
  | None => not_available "session serial input is not available"
  end.

Definition write_serial (id : text) (payload : bytes) : sco unit :=
  s ← read id;
  lift (require_live_input s) ≫= fun _ =>
  write_stdin s payload ≫= fun _ =>
  offset_ms ← offset id;
  record_input id (mkAction offset_ms ASerial (PBytes payload)) (serial_metadata payload).

Definition press_data (what : string) (name : text) (pressed : bool) : list (text * json) :=
  [(lit what, JStr name); (lit "pressed", JBool pressed)].
Definition imu_data (acceleration_g angular_velocity_dps : vector) : list (text * json) :=
  [(lit "acceleration_g", vector_dict acceleration_g);
   (lit "angular_velocity_dps", vector_dict angular_velocity_dps)].
Definition power_data (battery_mv vin_mv : Z) (charging : bool) : list (text * json) :=
  [(lit "battery_mv", JInt battery_mv); (lit "vin_mv", JInt vin_mv);
   (lit "charging", JBool charging)].

(** [send_key]: the same three guards in the same order as
    [_require_board_input]. *)
Definition send_key (id key : text) (pressed : bool) : sco unit :=
  s ← read id;
  lift (require_board_input s) ≫= fun _ =>
  arguments ← lift (qmp_key_event (s_board s) key pressed);
  with_qmp id (execute_qmp (qmp_socket_path s) "input-send-event" (Some arguments)) ≫= fun _ =>
  offset_ms ← offset id;
  record_input id (mkAction offset_ms AKey (PPress key pressed)) (press_data "key" key pressed).

Definition send_button (id button : text) (pressed : bool) : sco unit :=
  s ← read id;
  lift (require_board_input s) ≫= fun _ =>
  arguments ← lift (qmp_button_event (s_board s) button pressed);
  with_qmp id (execute_qmp (qmp_socket_path s) "qom-set" (Some arguments)) ≫= fun _ =>
  offset_ms ← offset id;
  record_input id (mkAction offset_ms AButton (PPress button pressed))
    (press_data "button" button pressed).

Definition set_imu_sample (id : text) (acceleration_g angular_velocity_dps : vector) : sco unit :=
  s ← read id;
  lift (require_board_input s) ≫= fun _ =>
  arguments ← lift (qmp_imu_sample (s_board s) acceleration_g angular_velocity_dps);
  with_qmp id (execute_qmp (qmp_socket_path s) "qom-set" (Some arguments)) ≫= fun _ =>
  upd id (put upd_virtual_imu_state (Some (acceleration_g, angular_velocity_dps))) ≫= fun _ =>
  offset_ms ← offset id;
  record_input id (mkAction offset_ms AImu (PImu acceleration_g angular_velocity_dps))
    (imu_data acceleration_g angular_velocity_dps).

Definition set_power_state (id : text) (battery_mv vin_mv : Z) (charging : bool) : sco unit :=
  s ← read id;
  lift (require_board_input s) ≫= fun _ =>
  arguments ← lift (qmp_power_state (s_board s) battery_mv vin_mv charging);
  with_qmp id (execute_qmp (qmp_socket_path s) "qom-set" (Some arguments)) ≫= fun _ =>
  upd id (put upd_virtual_power_state (Some (battery_mv, vin_mv, charging))) ≫= fun _ =>
  offset_ms ← offset id;
  record_input id (mkAction offset_ms APower (PPower battery_mv vin_mv charging))
    (power_data battery_mv vin_mv charging).

(** *** Control *)

(** [refresh_state] *)
Definition refresh_state (id : text) : sco unit :=
  s ← read id;
  if negb (live_state (s_state s)) || negb (worker_qmp_enabled cfg) then skip
  else
    status ← with_qmp id (s ← read id; execute_qmp (qmp_socket_path s) "query-status" None);
    match (status : json) with
    | JObj d =>
        upd id (put upd_state
          (if truthy (default JNull (dict_get (lit "running") d)) then RUNNING else PAUSED))
    | _ => skip
    end.

(** [_continue_under_debugger] *)
Definition continue_under_debugger (id : text) : sco unit :=
  finally (
    catch (
      s ← read id;
      match gdb_client s with
      | None => throw GdbRemoteError (lit "debugger is not connected")
      | Some c =>
          reason ← sawait (GdbContinue c);
          upd id (put upd_debug_stop_reason (Some reason)) ≫= fun _ =>
          upd id (fun s => if bool_decide (s_state s = RUNNING) then put upd_state PAUSED s else s)
      end)
      [GdbRemoteError] (fun e =>
        upd id (put upd_debug_stop_reason (Some (lit "debugger-error: " ++ exn_msg e))) ≫= fun _ =>
        catch (refresh_state id) [QmpError] (fun _ => skip) ≫= fun _ =>
        s ← read id;
        let client := gdb_client s in
        upd id (put upd_gdb_client None) ≫= fun _ =>
        when_some client (fun c => sawait (GdbClose c))))
    (upd id (put upd_debug_run_task None)).

Definition pause (id : text) : sco unit :=
  s ← read id;
  lift (require_live_input s) ≫= fun _ =>
  if negb (worker_qmp_enabled cfg) then
    qmp_disabled "QMP session control is disabled for this worker"
  else
    with_qmp id (
      s ← read id;
      if negb (bool_decide (s_state s = RUNNING)) then bad_transition "pause" s
      else execute_qmp (qmp_socket_path s) "stop" None ≫= fun _ =>
           upd id (put upd_state PAUSED)) ≫= fun _ =>
    record id CatControl (lit "session.paused") SrcUser [] ≫= fun _ =>
    s ← read id;
    when_some (debug_run_task s) (fun task =>
      catch (sawait (ShieldedWait task)) [TimeoutError] (fun _ =>
        scall (CancelTask task) ≫= fun _ =>
        sawait (GatherTask task) ≫= fun _ =>
        upd id (fun s => if bool_decide (debug_run_task s = Some task)
                         then put upd_debug_run_task None s else s) ≫= fun _ =>
        s ← read id;
        when_some (gdb_client s) (fun c =>
          sawait (GdbClose c) ≫= fun _ => upd id (put upd_gdb_client None)) ≫= fun _ =>
        throw GdbRemoteError (lit "debugger did not acknowledge the paused worker")) ≫= fun _ =>
      s ← read id;
      match debug_stop_reason s with
      | Some reason => when (starts_with (lit "debugger-error:") reason)
                         (throw GdbRemoteError reason)
      | None => skip
      end).

Definition resume (id : text) : sco unit :=
  s ← read id;
  lift (require_live_input s) ≫= fun _ =>
  if negb (worker_qmp_enabled cfg) then
    qmp_disabled "QMP session control is disabled for this worker"
  else if negb (bool_decide (s_state s = PAUSED)) then bad_transition "resume" s
  else
    match gdb_client s with
    | Some _ =>
        upd id (put upd_state RUNNING) ≫= fun _ =>
        upd id (put upd_debug_stop_reason None) ≫= fun _ =>
        task ← create_task (continue_under_debugger id);
        upd id (put upd_debug_run_task (Some task))
    | None =>
        with_qmp id (
          execute_qmp (qmp_socket_path s) "cont" None ≫= fun _ =>
          upd id (put upd_state RUNNING))
    end ≫= fun _ =>
    record id CatControl (lit "session.resumed") SrcUser [].

Definition reset (id : text) : sco unit :=
  s ← read id;
  lift (require_live_input s) ≫= fun _ =>
  if negb (worker_qmp_enabled cfg) then
    qmp_disabled "QMP session control is disabled for this worker"
  else
    with_qmp id (
      s ← read id;
      if negb (live_state (s_state s)) then bad_transition "reset" s
      else execute_qmp (qmp_socket_path s) "system_reset" None) ≫= fun _ =>
    offset_ms ← offset id;
    append_action id (mkAction offset_ms AReset PNone) ≫= fun _ =>
    record id CatControl (lit "session.reset") SrcUser [].

(** *** The debugger *)

(** [_require_paused_debug_session] *)
Definition require_paused_debug_session (id : text) : sco unit :=
  refresh_state id ≫= fun _ =>
  s ← read id;
  if negb (bool_decide (s_state s = PAUSED)) then
    throw SessionTransitionError (lit "debug operations require a paused session")
  else if negb (worker_debug_enabled cfg && worker_qmp_enabled cfg) then
    throw GdbRemoteError (lit "private GDB worker access is disabled")
  else skip.

(** [_debug_client] *)
Definition debug_client (id : text) : sco (option client) :=
  s ← read id;
  match gdb_client s with
  | None => c ← sawait (GdbConnect (gdb_socket_path s));
            upd id (put upd_gdb_client (Some c)) ≫= fun _ =>
            s ← read id; mret (gdb_client s)
  | Some c => mret (Some c)
  end.
(** A method call on the client ([AttributeError] on [None]). *)
Definition on_client {A} (c : option client) (f : client -> sco A) : sco A :=
  match c with Some c => f c | None => throw AttributeError [] end.

Definition debug_registers (id : text) : sco (list (text * option Z)) :=
  require_paused_debug_session id ≫= fun _ =>
  c ← debug_client id; on_client c (fun c => sawait (GdbRegisters c)).
Definition debug_read_memory (id : text) (address length : Z) : sco bytes :=
  require_paused_debug_session id ≫= fun _ =>
  c ← debug_client id; on_client c (fun c => sawait (GdbReadMemory c address length)).

Definition set_add (a : Z) (l : list Z) : list Z := if bool_decide (a ∈ l) then l else l ++ [a].
Definition set_discard (a : Z) (l : list Z) : list Z := List.filter (fun x => negb (x =? a)) l.

Definition debug_set_breakpoint (id : text) (address : Z) (enabled : bool) : sco unit :=
  require_paused_debug_session id ≫= fun _ =>
  c ← debug_client id;
  if (enabled : bool) then
    s ← read id;
    if negb (bool_decide (address ∈ debug_breakpoints s))
       && (MAX_DEBUG_BREAKPOINTS <=? zlen (debug_breakpoints s)) then
      throw GdbRemoteError (lit "a session may have at most 32 breakpoints")
    else
      on_client c (fun c => sawait (GdbAddBreakpoint c address)) ≫= fun _ =>
      upd id (upd_debug_breakpoints (set_add address))
  else
    on_client c (fun c => sawait (GdbRemoveBreakpoint c address)) ≫= fun _ =>
    upd id (upd_debug_breakpoints (set_discard address)).

Definition debug_step (id : text) : sco text :=
  require_paused_debug_session id ≫= fun _ =>
  c ← debug_client id;
  reply ← on_client c (fun c => sawait (GdbStep c));
  upd id (put upd_debug_stop_reason (Some reply)) ≫= fun _ => mret reply.

(** *** Power *)

(** [_power_off_worker] *)
Definition power_off_worker (id : text) : sco unit :=
  terminate_worker id ≫= fun _ =>
  upd id (put upd_state POWERED_OFF) ≫= fun _ =>
  upd id (put upd_exit_code None) ≫= fun _ =>
  publish id None.

(** [_power_on_worker] *)
Definition unlink_sockets (s : SessionRecord) : sco unit :=
  scall (Unlink (qmp_socket_path s)) ≫= fun _ =>
  scall (Unlink (gdb_socket_path s)) ≫= fun _ =>
  scall (Unlink (path_child (runtime_directory s) (lit "framebuffer.ppm"))).
Definition power_on_worker (id : text) : sco unit :=
  s ← read id;
  unlink_sockets s ≫= fun _ =>
  upd id reset_for_power_on ≫= fun _ =>
  catch (launch id ≫= fun _ => restore_virtual_environment id) [Exception] (fun e =>
    terminate_worker id ≫= fun _ =>
    upd id (put upd_state FAILED) ≫= fun _ =>
    clear_private id ≫= fun _ =>
    scall (Rmtree (runtime_directory s)) ≫= fun _ =>
    publish id None ≫= fun _ =>
    lift (Err e)).

Definition power_off (id : text) : sco unit :=
  read id ≫= fun _ =>
  with_lifecycle id (
    s ← read id;
    lift (require_live_input s) ≫= fun _ =>
    if negb (live_state (s_state s)) then bad_transition "power off" s
    else
      offset_ms ← offset id;
      power_off_worker id ≫= fun _ =>
      append_action id (mkAction offset_ms APowerOff PNone) ≫= fun _ =>
      record id CatControl (lit "session.powered_off") SrcUser []).

Definition power_on (id : text) : sco unit :=
  read id ≫= fun _ =>
  with_lifecycle id (
    s ← read id;
    lift (require_live_input s) ≫= fun _ =>
    if negb (bool_decide (s_state s = POWERED_OFF)) then bad_transition "power on" s
    else
      offset_ms ← offset id;
      power_on_worker id ≫= fun _ =>
      append_action id (mkAction offset_ms APowerOn PNone) ≫= fun _ =>
      record id CatControl (lit "session.powered_on") SrcUser []).

(** *** Replay *)

Definition unpack_error {A} : res A := raise TypeError (lit "cannot unpack").

(** [_apply_replay_action]: the action as it was replayed and its public
    data. *)
Definition send_replayed (id : text) (command : string) (arguments : json) : sco unit :=
  with_qmp id (s ← read id;
               execute_qmp (qmp_socket_path s) command (Some arguments) ≫= fun _ => skip).
Definition apply_replay_action (id : text) (action : ReplayAction)
    : sco (ReplayAction * list (text * json)) :=
  offset_ms ← offset id;
  let replayed public_data := mret (mkAction offset_ms (ra_type action) (ra_payload action), public_data) in
  s ← read id;
  match ra_type action with
  | ASerial =>
      match ra_payload action with
      | PBytes payload =>
          write_stdin s payload ≫= fun _ => replayed (serial_metadata payload)
      | _ => throw RuntimeError (lit "recorded serial input is invalid")
      end
  | APowerOff =>
      power_off_worker id ≫= fun _ => mret (mkAction offset_ms APowerOff PNone, [])
  | APowerOn =>
      power_on_worker id ≫= fun _ => mret (mkAction offset_ms APowerOn PNone, [])
  | AKey =>
      match ra_payload action with
      | PPress key pressed =>
          arguments ← lift (qmp_key_event (s_board s) key pressed);
          send_replayed id "input-send-event" arguments ≫= fun _ =>
          replayed (press_data "key" key pressed)
      | _ => lift unpack_error
      end
  | AButton =>
      match ra_payload action with
      | PPress button pressed =>
          arguments ← lift (qmp_button_event (s_board s) button pressed);
          send_replayed id "qom-set" arguments ≫= fun _ =>
          replayed (press_data "button" button pressed)
      | _ => lift unpack_error
      end
  | AImu =>
      match ra_payload action with
      | PImu acceleration_g angular_velocity_dps =>
          arguments ← lift (qmp_imu_sample (s_board s) acceleration_g angular_velocity_dps);
          send_replayed id "qom-set" arguments ≫= fun _ =>
          upd id (put upd_virtual_imu_state (Some (acceleration_g, angular_velocity_dps))) ≫= fun _ =>
          replayed (imu_data acceleration_g angular_velocity_dps)
      | _ => lift unpack_error
      end
  | APower =>
      match ra_payload action with
      | PPower battery_mv vin_mv charging =>
          arguments ← lift (qmp_power_state (s_board s) battery_mv vin_mv charging);
          send_replayed id "qom-set" arguments ≫= fun _ =>
          upd id (put upd_virtual_power_state (Some (battery_mv, vin_mv, charging))) ≫= fun _ =>
          replayed (power_data battery_mv vin_mv charging)
      | _ => lift unpack_error
      end
  | AReset =>
      with_qmp id (execute_qmp (qmp_socket_path s) "system_reset" None) ≫= fun _ =>
      mret (mkAction offset_ms AReset PNone, [])
  end.

Definition replay_category (a : action_type) : EventCategory :=
  match a with AReset | APowerOff | APowerOn => CatControl | _ => CatInput end.
Definition replay_event_type (a : action_type) : text :=
  match a with
  | AReset => lit "session.reset"
  | APowerOff => lit "session.powered_off"
  | APowerOn => lit "session.powered_on"
  | _ => lit "input." ++ action_text a
  end.

(** [x / 1000 / speed] *)
Definition scaled_offset (offset_ms : Z) (speed : float) : res float :=
  if SpecFloat.SFeqb speed (float_of_int 0) then
    raise ZeroDivisionError (lit "float division by zero")
  else Ok (fdiv (fdiv (float_of_int offset_ms) (float_of_int 1000)) speed).

Definition replay_data (actions : list ReplayAction) (speed : float) : list (text * json) :=
  [(lit "action_count", JInt (zlen actions)); (lit "speed", JFloat speed)].

(** One action of the replay loop. *)
Definition replay_one (id : text) (speed replay_started : float) (action : ReplayAction) : sco unit :=
  target ← lift (scaled_offset (ra_offset_ms action) speed);
  now ← scall Monotonic;
  let delay := fsub target (fsub now replay_started) in
  when (fltb (float_of_int 0) delay) (sawait (Sleep delay)) ≫= fun _ =>
  '(replayed_action, public_data) ← apply_replay_action id action;
  append_action id replayed_action ≫= fun _ =>
  record id (replay_category (ra_type action)) (replay_event_type (ra_type action))
    SrcReplay public_data.

(** The body of the [try] of [_run_replay]. *)
Definition replay_body (id : text) (actions : list ReplayAction) (speed : float) : sco unit :=
  terminate_worker id ≫= fun _ =>
  s ← read id;
  scall (Mkdirs (runtime_directory s) (oct "700")) ≫= fun _ =>
  scall (Fs (FsWrite (path_str (flash_path s)) (initial_flash_image s))) ≫= fun _ =>
  scall (Fs (FsChmod (path_str (flash_path s)) (oct "600"))) ≫= fun _ =>
  unlink_sockets s ≫= fun _ =>
  upd id reset_for_replay ≫= fun _ =>
  now ← scall MonotonicNs;
  upd id (new_generation now) ≫= fun _ =>
  launch id ≫= fun _ =>
  record id CatReplay (lit "replay.started") SrcService (replay_data actions speed) ≫= fun _ =>
  replay_started ← scall Monotonic;
  each (replay_one id speed replay_started) actions ≫= fun _ =>
  upd id (put upd_replay_status (lit "completed")) ≫= fun _ =>
  record id CatReplay (lit "replay.completed") SrcService (replay_data actions speed).

(** The handlers of [_run_replay] and its [finally] block. *)
Definition replay_handler (id : text) (e : exn) : sco unit :=
  if exc_sub (exn_class e) CancelledError then
    upd id (put upd_replay_status (lit "cancelled")) ≫= fun _ =>
    upd id (put upd_replay_error None) ≫= fun _ =>
    record id CatReplay (lit "replay.cancelled") SrcService [] ≫= fun _ =>
    lift (Err e)
  else if exc_sub (exn_class e) Exception then
    upd id (put upd_replay_status (lit "failed")) ≫= fun _ =>
    upd id (put upd_replay_error (Some (lit "The worker could not complete the replay"))) ≫= fun _ =>
    s ← read id;
    when (bool_decide (s_state s = STARTING))
      (upd id (put upd_state FAILED) ≫= fun _ =>
       scall (Rmtree (runtime_directory s)) ≫= fun _ =>
       clear_private id) ≫= fun _ =>
    record id CatReplay (lit "replay.failed") SrcService []
  else lift (Err e).
Definition replay_cleanup (id : text) : sco unit :=
  upd id (put upd_accept_live_input true) ≫= fun _ =>
  self ← current_task;
  upd id (fun s => if bool_decide (replay_task s = Some self) then put upd_replay_task None s
                   else s).

(** [_run_replay] *)
Definition run_replay (id : text) (actions : list ReplayAction) (speed : float) : sco unit :=
  upd id (put upd_accept_live_input false) ≫= fun _ =>
  upd id (put upd_replay_status (lit "running")) ≫= fun _ =>
  finally (
    seq (replay_body id actions speed) (fun r =>
      match r with
      | Ok _ => skip
      | Err e => replay_handler id e
      end))
    (replay_cleanup id).

(** [start_replay] *)
Definition start_replay (id : text) (speed : float) : sco json :=
  s ← read id;
  if negb (live_state (s_state s)) then bad_transition "replay" s
  else
    busy ← match replay_task s with
           | Some t => done ← scall (TaskDone t); mret (negb (done : bool))
           | None => mret false
           end;
    if (busy : bool) then throw SessionTransitionError (lit "a replay is already running")
    else if negb (replay_actions_dropped s =? 0) then
      throw SessionTransitionError
        (lit "the replayable input recording exceeded its bound and is incomplete")
    else
      let actions := replay_actions s in
      match last actions with
      | None => throw SessionTransitionError (lit "the session has no replayable external input")
      | Some final =>
          replay_duration ← lift (scaled_offset (ra_offset_ms final) speed);
          if fltb (float_of_int (max_replay_duration_seconds cfg)) replay_duration then
            throw SessionTransitionError
              (lit "the requested replay duration exceeds the configured limit")
          else
            upd id (fun s => put upd_accept_live_input false (put upd_replay_error None
                     (put upd_replay_speed (Some speed)
                        (put upd_replay_status (lit "queued") s)))) ≫= fun _ =>
            record id CatReplay (lit "replay.queued") SrcUser (replay_data actions speed) ≫= fun _ =>
            task ← create_task (run_replay id actions speed);
            upd id (put upd_replay_task (Some task)) ≫= fun _ =>
            s ← read id; mret (replay_dict s)
      end.

(** *** Framebuffer and serial output *)

(** [capture_framebuffer] *)
Definition capture_framebuffer (id : text) : sco RGBFrame :=
  s ← read id;
  if negb (live_state (s_state s)) then not_available "session framebuffer is not available"
  else if negb (worker_qmp_enabled cfg) then
    qmp_disabled "QMP framebuffer capture is disabled for this worker"
  else
    let screenshot_path := path_child (runtime_directory s) (lit "framebuffer.ppm") in
    with_qmp id (
      finally (
        execute_qmp (qmp_socket_path s) "screendump"
          (Some (JObj [(lit "filename", JStr (path_str screenshot_path))])) ≫= fun _ =>
        data ← scall (ReadBytes screenshot_path);
        lift (parse_qemu_ppm data))
        (scall (Unlink screenshot_path))).

(** [subscribe_framebuffer]: the generator's variables [previous_pixels]
    and [sequence] are the loop state. *)
Definition subscribe_framebuffer (id : text) : sco unit :=
  read id ≫= fun _ =>
  let interval_seconds :=
    fdiv (float_of_int (Z.max (framebuffer_interval_ms cfg) 16)) (float_of_int 1000) in
  loop (fun '(previous_pixels, sequence) =>
    s ← read id;
    if live_state (s_state s) then
      frame ← capture_framebuffer id;
      next ← (if bool_decide (Some (fr_pixels frame) = previous_pixels) then
                mret (previous_pixels, sequence)
              else
                packet ← lift (encode_framebuffer_packet frame sequence);
                sawait (YieldChunk packet) ≫= fun _ =>
                mret (Some (fr_pixels frame), Z.land (sequence + 1) 4294967295));
      sawait (Sleep interval_seconds) ≫= fun _ => mret (inl next)
    else mret (inr tt)) (@None bytes, 0).

(** [for chunk in session.serial_buffer: yield chunk]: the iterator of a
    deque raises once the deque was mutated. *)
Definition yield_history (id : text) : sco unit :=
  s ← read id;
  let version := serial_version s in
  let chunks := serial_buffer s in
  loop (fun rest : list bytes =>
    s ← read id;
    if negb (serial_version s =? version) then
      throw RuntimeError (lit "deque mutated during iteration")
    else match rest with
    | [] => mret (inr tt)
    | chunk :: rest => sawait (YieldChunk chunk) ≫= fun _ => mret (inl rest)
    end) chunks.

(** [queue = asyncio.Queue(maxsize=128); session.subscribers.add(queue)] *)
Definition new_queue (id : text) : sco queue_id :=
  q ← gets w_next_queue;
  modify (fun w => mkWorld (w_sessions w) (w_lock w) (w_cleanup_task w)
                     (<[q := []]> (w_queues w)) (q + 1)) ≫= fun _ =>
  upd id (upd_subscribers (fun l => l ++ [q])) ≫= fun _ =>
  mret q.

(** [subscribe_serial] *)
Definition subscribe_serial (id : text) : sco unit :=
  read id ≫= fun _ =>
  yield_history id ≫= fun _ =>
  s ← read id;
  if negb (live_state (s_state s)) then skip
  else
    q ← new_queue id;
    finally (
      loop (fun _ : unit =>
        chunk ← sawait (QueueGet q);
        match (chunk : option bytes) with
        | None => mret (inr tt)
        | Some b => sawait (YieldChunk b) ≫= fun _ => mret (inl tt)
        end) tt)
      (upd id (upd_subscribers (set_discard q))).
End Manager.
