(* ===== verification/Conformance.v ===== *)
(** * The base conformance run ([scripts/run-base-conformance.py])

    The script that drives a session manager through the contract of the base
    firmware: it boots a board, watches the serial output and the peripheral
    traces, pauses and debugs the worker, injects input, resets, power-cycles
    and replays, and stops the session.  Its coroutines run over the heap and
    the operations of [SessionOps]; [Path.resolve] is a parameter. *)

From Stdlib Require Import Init.Byte.
From S2P Require Import Prelude Text SerialText PyFloat Json Async Boards Framebuffer Inputs Recording.
From S2P Require Import Qemu Environment SessionData Configuration SessionOps.

(** ** What is observed of a session *)

(** [serial_text] *)
Definition serial_text (s : SessionRecord) : text := decode_replace (concat (serial_buffer s)).
(** [serial_text(session).count("SIM:HEARTBEAT")] *)
Definition heartbeats (s : SessionRecord) : Z := text_count (lit "SIM:HEARTBEAT") (serial_text s).

(** Sets of event types, without duplicates. *)
Definition set_of (l : list text) : list text := remove_dups l.
Definition sorted (l : list text) : list text := map fst (sort_items (map (fun t => (t, tt)) l)).
Definition difference (a b : list text) : list text := List.filter (fun t => negb (bool_decide (t ∈ b))) a.
Definition is_peripheral (e : SessionEvent) : bool :=
  match ev_category e with CatPeripheral => true | _ => false end.
(** The types of the peripheral events of the current generation. *)
Definition observed_types (s : SessionRecord) : list text :=
  set_of (map ev_type (List.filter (fun e => (ev_generation e =? generation s) && is_peripheral e) (events s))).

(** [repr] of an ASCII string and of a list of them. *)
Definition repr_char (quote c : Z) : text :=
  if (c =? 92) || (c =? quote) then [92; c]
  else if c =? 9 then lit "\t" else if c =? 10 then lit "\n" else if c =? 13 then lit "\r"
  else if (c <? 32) || (c =? 127) then lit "\x" ++ (if c <? 16 then 48 :: hex_of_int c else hex_of_int c)
  else [c].
Definition repr_text (t : text) : text :=
  let quote := if bool_decide (39 ∈ t) && negb (bool_decide (34 ∈ t)) then 34 else 39 in
  quote :: concat (map (repr_char quote) t) ++ [quote].
Definition repr_list (l : list text) : text := 91 :: join (lit ", ") (map repr_text l) ++ [93].

(** ** Waiting *)

Definition poll_interval : float := float_of_decimal false 5 (-2).
Definition failed {A} (m : text) : sco A := throw RuntimeError m.

(** One round of the loop of [wait_for_text]. *)
Definition wait_round (id expected : text) (count : Z) (deadline : float) (_ : unit) : sco (unit + text) :=
  t ← scall LoopTime;
  s ← read id;
  let output := serial_text s in
  if fltb t deadline then
    if count <=? text_count expected output then mret (inr output)
    else if negb (bool_decide (s_state s = RUNNING)) then
      failed (lit "worker stopped before " ++ repr_text expected ++ lit "; state="
              ++ state_text (s_state s) ++ 10 :: output)
    else sawait (Sleep poll_interval) ≫= fun _ => mret (inl tt)
  else throw TimeoutError (lit "timed out waiting for " ++ repr_text expected ++ 10 :: output).
(** [wait_for_text] *)
Definition wait_for_text (id expected : text) (count : Z) (timeout : float) : sco text :=
  t0 ← scall LoopTime;
  loop (wait_round id expected count (fadd t0 timeout)) tt.

(** [wait_for_trace_types]; the loop carries [observed]. *)
Definition wait_for_trace_types (id : text) (expected : list text) (timeout : float) : sco (list text) :=
  t0 ← scall LoopTime;
  let deadline := fadd t0 timeout in
  loop (fun observed : list text =>
    t ← scall LoopTime;
    if fltb t deadline then
      s ← read id;
      let observed := observed_types s in
      if forallb (fun t => bool_decide (t ∈ observed)) expected then mret (inr observed)
      else if negb (bool_decide (s_state s = RUNNING)) then
        failed (lit "worker stopped before the expected peripheral traces appeared; missing="
                ++ repr_list (sorted (difference expected observed)) ++ lit " state=" ++ state_text (s_state s))
      else sawait (Sleep poll_interval) ≫= fun _ => mret (inl observed)
    else
      throw TimeoutError (lit "timed out waiting for peripheral traces; missing="
        ++ repr_list (sorted (difference expected observed))
        ++ lit " observed=" ++ repr_list (sorted observed))) [].

Definition eight : float := float_of_int 8.
(** [await wait_for_text(session, t)], with the default count and timeout. *)
Definition expect (id t : text) : sco unit := wait_for_text id t 1 eight ≫= fun _ => skip.
Definition expect_heartbeats (id : text) (count : Z) : sco unit :=
  wait_for_text id (lit "SIM:HEARTBEAT") count eight ≫= fun _ => skip.
Definition expect_types (id : text) (types : list text) : sco unit :=
  wait_for_trace_types id types eight ≫= fun _ => skip.

(** ** The contract of a board *)

Definition is_cardputer (board : BoardProfile) : bool := bool_decide (board_id board = lit "cardputer-adv").

Definition boot_lines (board : BoardProfile) : list text :=
  (if is_cardputer board then
     [lit "SIM:TCA8418 address=0x34 cfg=0x01"; lit "SIM:TCA8418_IRQ pin=11 mode=change";
      lit "SIM:LEDC channel=7 pin=38 frequency=256 duty=110 configured=1";
      lit "SIM:BMI270 address=0x68 chip_id=0x24 ready=1";
      lit "SIM:BATTERY_ADC gpio=10 unit=1 channel=9 ratio=2.0";
      lit "SIM:IMU_RAW ax=0 ay=0 az=4096 gx=0 gy=0 gz=0";
      lit "SIM:POWER battery_mv=3898 adc_raw=2107 source=adc charging=unavailable"]
   else
     [lit "SIM:PSRAM bytes=8388608 test=pass"; lit "SIM:BUTTONS a_gpio=11 b_gpio=12 active=low";
      lit "SIM:BMI270 address=0x68 chip_id=0x24 ready=1";
      lit "SIM:M5PM1 address=0x6e device_id=0x51 ready=1";
      lit "SIM:IMU_RAW ax=0 ay=0 az=4096 gx=0 gy=0 gz=0";
      lit "SIM:POWER battery_mv=3900 vin_mv=5000 source=0 charging=1"])
  ++ [lit "SIM:DISPLAY controller=st7789 width=" ++ str_of_int (width (display board))
        ++ lit " height=" ++ str_of_int (height (display board)) ++ lit " pattern=red-blue";
      lit "SIM:BOOT version=1 profile=" ++ board_id board;
      lit "SIM:NVS boot_count=1 write_bytes=4 readback=1"; lit "SIM:READY"].

Definition boot_types (board : BoardProfile) : list text :=
  [lit "peripheral.display.command"; lit "peripheral.display.window"; lit "peripheral.gpio.output";
   lit "peripheral.i2c.event"; lit "peripheral.spi.transaction"]
  ++ (if is_cardputer board then [lit "peripheral.adc.conversion"] else []).
Definition input_types (board : BoardProfile) : list text :=
  if is_cardputer board then [lit "peripheral.imu.sample"; lit "peripheral.keyboard.event"]
  else [lit "peripheral.button"; lit "peripheral.imu.sample"; lit "peripheral.power.state"].

Definition navigation_keys : list (text * Z) :=
  [(lit "w", 12); (lit "a", 13); (lit "s", 17); (lit "d", 23); (lit "enter", 67)].
(** [f"{z:02x}"] *)
Definition hex2 (z : Z) : text := if (0 <=? z) && (z <? 16) then 48 :: hex_of_int z else hex_of_int z.

Definition nvs_line (boot_count : Z) : text :=
  lit "SIM:NVS boot_count=" ++ str_of_int boot_count ++ lit " write_bytes=4 readback=" ++ str_of_int boot_count.
Definition trace_line (types : list text) : text :=
  lit "SIM:TRACE generation=1 types=" ++ join (lit ",") (sorted types).
Definition PASSED : text := lit "BASE CONFORMANCE PASSED".
Definition moved_line : text := lit "SIM:IMU_RAW ax=4096 ay=0 az=0 gx=0 gy=0 gz=4096".
Definition drained_line (board : BoardProfile) : text :=
  if is_cardputer board then lit "SIM:POWER battery_mv=3704 adc_raw=2001 source=adc charging=unavailable"
  else lit "SIM:POWER battery_mv=3700 vin_mv=0 source=2 charging=0".

(** ** The run *)

Record RunArguments := mkRunArguments {
  a_qemu : path;
  a_rom_directory : path;
  a_firmware : path;
  a_board_id : text;
  a_sandbox : text;
  a_sandbox_executable : path;
  a_sandbox_readonly_paths : option (list path);
  a_qmp : bool }.

(** [parse_args]: the value given for each option; a sandbox mode that is not
    among the choices ends the interpreter. *)
Definition parse_args (qemu rom_directory firmware : path) (board_id sandbox : option text)
    (sandbox_executable : option path) (readonly_paths : option (list path)) (qmp : option bool) : res RunArguments :=
  let mode := default (sandbox_mode_value DIRECT) sandbox in
  if bool_decide (mode ∈ map sandbox_mode_value [DIRECT; BUBBLEWRAP; OCI_BROKER]) then
    Ok (mkRunArguments qemu rom_directory firmware (default (lit "cardputer-adv") board_id) mode
      (default (mkPath true [lit "usr"; lit "bin"; lit "bwrap"]) sandbox_executable) readonly_paths (default true qmp))
  else raise SystemExit (lit "2").

Section Run.
Context (cwd : list text) (resolve : path -> res path).

(** The [Settings(...)] of the run; the fields it does not name have their
    defaults. *)
Definition conformance_settings (runtime_root : path) (args : RunArguments) : res Settings :=
  qemu_executable ← resolve (a_qemu args);
  rom_directory ← resolve (a_rom_directory args);
  mode ← WorkerSandboxMode_of (a_sandbox args);
  sandbox_executable ← resolve (a_sandbox_executable args);
  let readonly_paths := match a_sandbox_readonly_paths args with
    | Some ((_ :: _) as l) => map (path_absolute cwd) l
    | _ => DEFAULT_SANDBOX_READONLY_PATHS
    end in
  let d := Settings_defaults runtime_root qemu_executable rom_directory in
  Ok (mkSettings runtime_root qemu_executable rom_directory true (a_qmp args) (a_qmp args) mode
    sandbox_executable readonly_paths (worker_broker_socket d) (worker_shared_group_gid d)
    (max_concurrent_sessions d) 30 1536 20 (worker_startup_timeout_seconds d) (framebuffer_interval_ms d)
    (max_recording_events d) (max_event_page_size d) (max_replay_duration_seconds d)
    (worker_trace_enabled d) (max_trace_events_per_generation d)).

Section Checks.
Context (cfg : Settings) (board : BoardProfile) (qmp : bool) (id : text).

Definition require (b : bool) (m : text) : sco unit := if b then skip else failed m.
Definition in_state (st : SessionState) (m : string) : sco unit :=
  s ← read id; require (bool_decide (s_state s = st)) (lit m).
Definition pause_for (ms : Z) : sco unit := sawait (Sleep (float_of_decimal false ms (-3))).

(** The debugger, while the worker is paused; the result is the number of
    heartbeats at that moment. *)
Definition check_debugger : sco Z :=
  pause cfg id ≫= fun _ =>
  in_state PAUSED "session did not enter paused state" ≫= fun _ =>
  registers ← debug_registers cfg id;
  match dict_get (lit "pc") registers with
  | Some (Some pc) =>
      instruction ← debug_read_memory cfg id pc 4;
      require (zlen instruction =? 4) (lit "debugger returned a short instruction read") ≫= fun _ =>
      debug_set_breakpoint cfg id pc true ≫= fun _ =>
      debug_set_breakpoint cfg id pc false ≫= fun _ =>
      stop_reason ← debug_step cfg id;
      require (starts_with (lit "S") stop_reason || starts_with (lit "T") stop_reason)
        (lit "debugger single-step did not stop the CPU")
  | _ => failed (lit "debugger did not expose the Xtensa PC register")
  end ≫= fun _ =>
  pause_for 100 ≫= fun _ =>
  s ← read id;
  let paused_heartbeat_count := heartbeats s in
  pause_for 650 ≫= fun _ =>
  s ← read id;
  require (heartbeats s =? paused_heartbeat_count)
    (lit "firmware continued running while session was paused") ≫= fun _ =>
  mret paused_heartbeat_count.

Definition RED : bytes := [xff; x00; x00].
Definition BLUE : bytes := [x00; x00; xff].
Definition expect_pixel (frame : RGBFrame) (x y : Z) (color : bytes) (where_ : string) : sco unit :=
  p ← lift (pixel frame x y);
  require (bool_decide (p = color)) (board_id board ++ lit " framebuffer " ++ lit where_).

(** The framebuffer shows the test pattern: the top half red, the rest blue. *)
Definition check_framebuffer : sco unit :=
  frame ← capture_framebuffer cfg id;
  let w := width (display board) in
  let h := height (display board) in
  require ((fr_width frame =? w) && (fr_height frame =? h))
    (lit "unexpected " ++ board_id board ++ lit " framebuffer size: " ++ str_of_int (fr_width frame)
     ++ lit "x" ++ str_of_int (fr_height frame)) ≫= fun _ =>
  expect_pixel frame 0 0 RED "top half is not red" ≫= fun _ =>
  let red_row := h / 2 - 1 in
  let blue_row := h / 2 in
  expect_pixel frame (w - 1) red_row RED "red boundary is incorrect" ≫= fun _ =>
  expect_pixel frame 0 blue_row BLUE "blue boundary is incorrect" ≫= fun _ =>
  expect_pixel frame (w - 1) (h - 1) BLUE "bottom half is not blue".

Definition tilt : vector := mkVector (float_of_int 1) (float_of_int 0) (float_of_int 0).
Definition spin : vector := mkVector (float_of_int 0) (float_of_int 0) (float_of_int 250).
Definition press_key (k : text * Z) : sco unit :=
  let '(key, raw_code) := k in
  send_key cfg id key true ≫= fun _ =>
  pause_for 50 ≫= fun _ =>
  send_key cfg id key false ≫= fun _ =>
  expect id (lit "SIM:KEY raw=0x" ++ hex2 (Z.lor raw_code 128)) ≫= fun _ =>
  expect id (lit "SIM:KEY raw=0x" ++ hex2 raw_code).
Definition press_button (button : string) : sco unit :=
  send_button cfg id (lit button) true ≫= fun _ =>
  expect id (lit "SIM:BUTTON id=" ++ lit button ++ lit " pressed=1") ≫= fun _ =>
  send_button cfg id (lit button) false ≫= fun _ =>
  expect id (lit "SIM:BUTTON id=" ++ lit button ++ lit " pressed=0").

(** Every kind of board input shows up on the serial console. *)
Definition check_inputs : sco unit :=
  (if is_cardputer board then each press_key navigation_keys
   else press_button "a" ≫= fun _ => press_button "b") ≫= fun _ =>
  set_imu_sample cfg id tilt spin ≫= fun _ =>
  expect id moved_line ≫= fun _ =>
  set_power_state cfg id 3700 0 false ≫= fun _ =>
  expect id (drained_line board).

(** The part of the run that needs QMP, before the serial commands. *)
Definition check_controls (expected_trace_types : list text) : sco unit :=
  paused_heartbeat_count ← check_debugger;
  check_framebuffer ≫= fun _ =>
  resume cfg id ≫= fun _ =>
  in_state RUNNING "session did not return to running state" ≫= fun _ =>
  expect_heartbeats id (paused_heartbeat_count + 1) ≫= fun _ =>
  check_inputs ≫= fun _ =>
  expect_types id expected_trace_types.

(** A reset and a power cycle: the flash survives both, and the virtual
    environment is restored. *)
Definition check_power (boot_count : Z) : sco Z :=
  s ← read id;
  let heartbeat_count := heartbeats s in
  reset cfg id ≫= fun _ =>
  let boot_count := boot_count + 1 in
  expect id (nvs_line boot_count) ≫= fun _ =>
  expect_heartbeats id (heartbeat_count + 1) ≫= fun _ =>
  s ← read id;
  let flash := flash_path s in
  power_off cfg id ≫= fun _ =>
  in_state POWERED_OFF "session did not enter powered-off state" ≫= fun _ =>
  s ← read id;
  retained ← (if process s is Some _ then mret false else fs ← scall FileSystem; mret (is_file fs flash));
  require retained (lit "powered-off session did not retain only private flash") ≫= fun _ =>
  power_on cfg cwd id ≫= fun _ =>
  in_state RUNNING "session did not cold-boot back to running state" ≫= fun _ =>
  let boot_count := boot_count + 1 in
  expect id (nvs_line boot_count) ≫= fun _ =>
  expect id moved_line ≫= fun _ =>
  expect id (drained_line board) ≫= fun _ =>
  scall (Print (lit "SIM:POWER_CYCLE profile=" ++ board_id board ++ lit " boot_count=" ++ str_of_int boot_count
    ++ lit " environment=restored")) ≫= fun _ =>
  mret boot_count.

Definition is_replayed_input (s : SessionRecord) (e : SessionEvent) : bool :=
  (ev_generation e =? generation s) && match ev_source e with SrcReplay => true | _ => false end &&
  (starts_with (lit "input.") (ev_type e) || starts_with (lit "session.reset") (ev_type e)
   || starts_with (lit "session.powered_") (ev_type e)).
Definition replay_completed (s : SessionRecord) : bool :=
  existsb (fun e => (ev_generation e =? generation s) && bool_decide (ev_type e = lit "replay.completed")) (events s).
(** [queued["status"] == "queued"] *)
Definition is_queued (queued : json) : res bool :=
  match queued with
  | JObj d =>
      status ← of_option (dict_get (lit "status") d) (Exn KeyError (lit "status"));
      Ok (match status with JStr t => bool_decide (t = lit "queued") | _ => false end)
  | _ => raise TypeError (lit "not subscriptable")
  end.
Definition await_replay (queued : json) (replay_task : option tid) : sco unit :=
  q ← lift (is_queued queued);
  match replay_task with
  | Some t => if q : bool then sawait (AwaitTask t)
              else failed (lit "replay did not enter its queued state")
  | None => failed (lit "replay did not enter its queued state")
  end.

(** A replay of everything so far, in a new generation. *)
Definition check_replay (boot_count : Z) (expected_trace_types : list text) : sco text :=
  s ← read id;
  let original_generation := generation s in
  let original_action_count := zlen (replay_actions s) in
  require (negb (original_action_count =? 0)) (lit "conformance run did not record replayable input") ≫= fun _ =>
  queued ← start_replay cfg cwd id (float_of_int 1);
  s ← read id;
  await_replay queued (replay_task s) ≫= fun _ =>
  s ← read id;
  require (bool_decide (replay_status s = lit "completed"))
    (lit "replay ended in " ++ replay_status s ++ lit ": " ++ default (lit "None") (replay_error s)) ≫= fun _ =>
  require (generation s =? original_generation + 1) (lit "replay did not start a new worker generation") ≫= fun _ =>
  replay_output ← wait_for_text id (nvs_line boot_count) 1 eight;
  expect_types id expected_trace_types ≫= fun _ =>
  s ← read id;
  let replayed_inputs := zlen (List.filter (is_replayed_input s) (events s)) in
  require (replayed_inputs =? original_action_count)
    (lit "replay event count did not match the recorded external inputs; expected="
     ++ str_of_int original_action_count ++ lit " observed=" ++ str_of_int replayed_inputs) ≫= fun _ =>
  require (replay_completed s) (lit "replay completion was not recorded") ≫= fun _ =>
  scall (Print (lit "SIM:REPLAY generation=" ++ str_of_int (generation s) ++ lit " actions="
    ++ str_of_int original_action_count ++ lit " status=completed")) ≫= fun _ =>
  mret replay_output.

(** Everything that is checked of a session that was created. *)
Definition check_session : sco unit :=
  each (expect id) (boot_lines board) ≫= fun _ =>
  expect_heartbeats id 3 ≫= fun _ =>
  observed_trace_types ← wait_for_trace_types id (boot_types board) eight;
  scall (Print (trace_line observed_trace_types)) ≫= fun _ =>
  let types := if qmp then boot_types board ++ input_types board else boot_types board in
  when qmp (check_controls types) ≫= fun _ =>
  write_serial cfg id (blit "ping" ++ [x0a]) ≫= fun _ =>
  expect id (lit "SIM:PONG") ≫= fun _ =>
  boot_count ← (if qmp then check_power 1 else mret 1);
  s ← read id;
  let heartbeat_count := heartbeats s in
  write_serial cfg id (blit "reset" ++ [x0a]) ≫= fun _ =>
  let boot_count := boot_count + 1 in
  output ← wait_for_text id (nvs_line boot_count) 1 eight;
  expect_heartbeats id (heartbeat_count + 1) ≫= fun _ =>
  output ← (if qmp then check_replay boot_count types else mret output);
  scall (Print output) ≫= fun _ =>
  scall (Print PASSED) ≫= fun _ =>
  stop cfg id false ≫= fun _ =>
  s ← read id;
  fs ← scall FileSystem;
  require (negb (exists_ fs (runtime_directory s))) (lit "session runtime directory was not removed").
End Checks.

(** The body of the [with tempfile.TemporaryDirectory(...)]: the manager is
    closed whatever happens once it has started. *)
Definition run_in (runtime_root : path) (board : BoardProfile) (args : RunArguments) : sco unit :=
  cfg ← lift (conformance_settings runtime_root args);
  start cfg cwd ≫= fun _ =>
  finally (
    firmware ← scall (ReadBytes (a_firmware args));
    id ← create cfg cwd board firmware;
    check_session cfg board (a_qmp args) id)
    (close cfg).

(** [run] *)
Definition run (args : RunArguments) : sco unit :=
  board ← lift (get_board_profile (a_board_id args));
  root ← scall (MakeTemporary (lit "esp32-base-conformance-"));
  finally (run_in root board args) (scall (RemoveTemporary root)).
End Run.
