(* ===== verification/SessionSafety.v ===== *)
(** * The session manager under every interleaving

    The invariant [world_inv] of the recording and the buffers holds at every
    suspension point of every interleaving of the manager's operations and
    background tasks, and records only change along [srel]: the event log is
    append-only and bounded, sequence numbers and generations only grow. *)

From Stdlib Require Import Init.Byte.
From S2P Require Import Prelude Text PyFloat Json Async Boards Firmware Framebuffer Inputs.
From S2P Require Import Recording Tracing Qemu BrokerProtocol SessionData SessionOps Sha256.

#[local] Opaque sha256_hexdigest.

(** ** Dictionaries *)

Lemma dict_get_set {V} (k k' : text) (v : V) d :
  dict_get k (dict_set k' v d) = if decide (k = k') then Some v else dict_get k d.
Proof.
  induction d as [|[k1 v1] d IH]; cbn [dict_set dict_get].
  - by destruct (decide (k = k')).
  - destruct (decide (k' = k1)) as [->|Hne]; cbn [dict_get].
    + by destruct (decide (k = k1)).
    + rewrite IH. destruct (decide (k = k1)) as [->|]; [by rewrite decide_False|done].
Qed.

Lemma session_on id id' f w :
  session id (on_session id' f w) =
  if decide (id = id') then f <$> session id w else session id w.
Proof.
  unfold on_session. destruct (session id' w) as [s|] eqn:E.
  - unfold session at 1. cbn [w_sessions set_sessions]. rewrite dict_get_set.
    destruct (decide (id = id')) as [->|]; [by rewrite E|done].
  - destruct (decide (id = id')) as [->|]; [by rewrite E|done].
Qed.

Create HintDb keeps.

Section Safety.
Context (cfg : Settings) (cwd : list text).
(** The recording bound is positive and the trace bound is not negative. *)
Definition sane_settings : Prop :=
  1 <= max_recording_events cfg /\ 0 <= max_trace_events_per_generation cfg.

(** ** The invariant of one record *)

Record session_inv (s : SessionRecord) : Prop := {
  inv_next : next_event_sequence s = events_dropped s + zlen (events s) + 1;
  inv_sequence : forall i e, events s !! i = Some e ->
    ev_sequence e = events_dropped s + Z.of_nat i + 1 /\
    1 <= ev_generation e <= generation s /\ 0 <= ev_offset_ms e;
  inv_events : zlen (events s) <= max_recording_events cfg;
  inv_actions : zlen (replay_actions s) <= max_recording_events cfg;
  inv_dropped : 0 <= events_dropped s /\ 0 <= replay_actions_dropped s;
  inv_generation : 1 <= generation s;
  inv_serial : (length (serial_buffer s) <= SERIAL_BUFFER_CHUNKS)%nat;
  inv_trace : 0 <= trace_events_recorded s <= max_trace_events_per_generation cfg;
  inv_image : initial_flash_image s = [] \/
    flash_sha256 (s_firmware s) = sha256_hexdigest (initial_flash_image s) }.

(** How a record may change: its identity never does, its counters only
    grow, and an event stays in the log until it is dropped. *)
Record srel (s s' : SessionRecord) : Prop := {
  rel_id : s_id s' = s_id s;
  rel_board : s_board s' = s_board s;
  rel_firmware : s_firmware s' = s_firmware s;
  rel_expires : expires_at s' = expires_at s;
  rel_directory : runtime_directory s' = runtime_directory s;
  rel_flash : flash_path s' = flash_path s;
  rel_qmp : qmp_socket_path s' = qmp_socket_path s;
  rel_gdb : gdb_socket_path s' = gdb_socket_path s;
  rel_next : next_event_sequence s <= next_event_sequence s';
  rel_dropped : events_dropped s <= events_dropped s';
  rel_generation : generation s <= generation s';
  rel_log : forall e, e ∈ events s -> events_dropped s' < ev_sequence e -> e ∈ events s' }.

#[global] Instance srel_preorder : PreOrder srel.
Proof.
  split; [intros s; by constructor|].
  intros s1 s2 s3 [] []. constructor; try congruence; try lia.
  intros e He Hd. apply rel_log1; [apply rel_log0; [done|lia]|done].
Qed.

Record world_inv (w : World) : Prop := {
  inv_sessions : forall id s, session id w = Some s -> s_id s = id /\ session_inv s;
  inv_queues : forall q l, w_queues w !! q = Some l -> zlen l <= SUBSCRIBER_QUEUE_SIZE }.

Definition wrel (w w' : World) : Prop :=
  forall id s, session id w = Some s -> exists s', session id w' = Some s' /\ srel s s'.
#[global] Instance wrel_preorder : PreOrder wrel.
Proof.
  split; [intros w id s Hs; by exists s|].
  intros w1 w2 w3 H1 H2 id s Hs. destruct (H1 id s Hs) as (s2 & Hs2 & R1).
  destruct (H2 id s2 Hs2) as (s3 & Hs3 & R2). exists s3. split; [done|]. by etrans.
Qed.
Definition rely (t : tid) : World -> World -> Prop := wrel.
#[global] Instance rely_preorder t : PreOrder (rely t).
Proof. apply wrel_preorder. Qed.

(** ** The environment *)

(** Clocks, [returncode], [Task.cancel], [Task.done] and [shutil.rmtree] with
    [ignore_errors=True] do not raise. *)
Definition never_fails (o : sop) : bool :=
  match o with
  | MonotonicNs | Monotonic | LoopTime | UtcNow | ReturnCode _ | Rmtree _ | CancelTask _
  | TaskDone _ => true
  | _ => false
  end.
(** [uuid4] never repeats an identifier that is in use. *)
Definition s_replies (w : World) (o : sop) (r : res (sresp o)) : Prop :=
  (never_fails o = true -> is_ok r = true) /\
  match o return res (sresp o) -> Prop with
  | NewUuid => fun r => forall id, r = Ok id -> session id w = None
  | _ => fun _ => True
  end r.

(** A lock is granted while it is free, a queue delivers its oldest item;
    every other operation may answer anything and leaves the heap alone. *)
Definition s_answers (w : World) (t : tid) (o : sop) (r : res (sresp o)) (w' : World) : Prop :=
  match o return res (sresp o) -> Prop with
  | AcquireManager => fun r =>
      (w_lock w = None /\ r = Ok tt /\ w' = set_manager_lock (Some t) w) \/
      (is_ok r = false /\ w' = w)
  | AcquireLifecycle id => fun r =>
      ((forall s, session id w = Some s -> lifecycle_lock s = None) /\ r = Ok tt /\
       w' = on_session id (put upd_lifecycle_lock (Some t)) w) \/ (is_ok r = false /\ w' = w)
  | AcquireQmp id => fun r =>
      ((forall s, session id w = Some s -> qmp_lock s = None) /\ r = Ok tt /\
       w' = on_session id (put upd_qmp_lock (Some t)) w) \/ (is_ok r = false /\ w' = w)
  | QueueGet q => fun r =>
      (exists c l, w_queues w !! q = Some (c :: l) /\ r = Ok c /\
         w' = set_queues (<[q := l]> (w_queues w)) w) \/ (is_ok r = false /\ w' = w)
  | _ => fun _ => w' = w
  end r.

Abbreviation swp := (wp s_replies s_answers world_inv rely).
Abbreviation strace := (list (event sop sresp)).

(** ** Steps that keep the invariant *)

(** An update of one record. *)
Definition good (f : SessionRecord -> SessionRecord) : Prop :=
  forall s, session_inv s -> session_inv (f s) /\ srel s (f s).
(** An update of the heap. *)
Definition good_world (f : World -> World) : Prop :=
  forall w, world_inv w -> world_inv (f w) /\ wrel w (f w).
(** A coroutine all of whose steps do. *)
Definition keeps {A} (c : sco A) : Prop :=
  forall self tr w, world_inv w -> swp self c (fun _ _ w' => world_inv w') tr w.

Lemma good_on_session id f : good f -> good_world (on_session id f).
Proof.
  intros Hf w [Hs Hq]. split.
  - constructor.
    + intros id' s'. rewrite session_on. destruct (decide (id' = id)) as [->|]; [|apply Hs].
      intros (s & H & ->)%fmap_Some. destruct (Hs id s H) as [Hid Hi].
      destruct (Hf s Hi) as [Hi' Hr]. split; [by rewrite (rel_id _ _ Hr)|done].
    + unfold on_session. destruct (session id w); [exact Hq|exact Hq].
  - intros id' s' H. rewrite session_on. destruct (decide (id' = id)) as [->|]; [|by exists s'].
    rewrite H. exists (f s'). split; [done|]. by apply Hf, (Hs id).
Qed.

Lemma good_compose f g : good f -> good g -> good (fun s => f (g s)).
Proof.
  intros Hf Hg s Hs. destruct (Hg s Hs) as [H1 R1]. destruct (Hf _ H1) as [H2 R2].
  split; [done|]. by etrans.
Qed.
Lemma good_id : good (fun s => s).
Proof. intros s Hs. split; [done|reflexivity]. Qed.

(** Updates of fields that neither the invariant nor [srel] mentions. *)
Definition same_core (s s' : SessionRecord) : Prop :=
  (s_id s', s_board s', s_firmware s', expires_at s', runtime_directory s', flash_path s',
   qmp_socket_path s', gdb_socket_path s', initial_flash_image s') =
  (s_id s, s_board s, s_firmware s, expires_at s, runtime_directory s, flash_path s,
   qmp_socket_path s, gdb_socket_path s, initial_flash_image s) /\
  (next_event_sequence s', events s', events_dropped s', replay_actions s',
   replay_actions_dropped s', generation s', serial_buffer s', trace_events_recorded s') =
  (next_event_sequence s, events s, events_dropped s, replay_actions s, replay_actions_dropped s,
   generation s, serial_buffer s, trace_events_recorded s).
Lemma good_same f : (forall s, same_core s (f s)) -> good f.
Proof.
  intros H s []. destruct (H s) as [E1 E2].
  injection E1 as F1 F2 F3 F4 F5 F6 F7 F8 F9. injection E2 as G1 G2 G3 G4 G5 G6 G7 G8.
  split; constructor; rewrite ?F1, ?F2, ?F3, ?F4, ?F5, ?F6, ?F7, ?F8, ?F9, ?G1, ?G2, ?G3, ?G4,
    ?G5, ?G6, ?G7, ?G8; auto; lia.
Qed.

Context (Hcfg : sane_settings).

Lemma good_record_event now c t src d : good (fun s => snd (record_event cfg now c t src d s)).
Proof.
  intros s [I1 I2 I3 I4 I5 I6 I7 I8 I9]. unfold record_event.
  set (e := mkEvent _ _ _ _ _ _ _). set (s1 := upd_next_event_sequence _ s).
  change (events s1) with (events s). change (events_dropped s1) with (events_dropped s).
  destruct (bounded_append_some (max_recording_events cfg) e (events s) (events_dropped s)
    ltac:(apply Hcfg)) as (q & d' & E). rewrite E. cbn [snd].
  pose proof E as E0. apply bounded_append_spec in E as (Hq & Hd & Hdd & q0 & Eq & Hsuf); [|done].
  destruct Hsuf as [p Hp].
  assert (zlen p = d' - events_dropped s) as Hlp.
  { subst q. apply (f_equal length) in Hp. rewrite length_app in Hp. rewrite length_app in Hd.
    cbn [length] in Hd. lia. }
  assert (forall i x, q !! i = Some x -> x = e /\ i = length q0 \/
    events s !! (length p + i)%nat = Some x) as Hlook.
  { intros i x. subst q. intros [H|[Hi H]]%lookup_app_Some.
    - right. rewrite Hp, lookup_app_r by lia. by replace (length p + i - length p)%nat with i by lia.
    - apply list_lookup_singleton_Some in H as [Hi' <-]. left. split; [done|lia]. }
  split; constructor; cbn; auto; try lia.
  - intros i x Hx. destruct (Hlook i x Hx) as [[-> ->]|Hi].
    + cbn [e ev_sequence ev_generation ev_offset_ms]. rewrite I1. subst q.
      rewrite length_app in Hd. cbn [length] in Hd. split; [lia|]. split; [lia|].
      unfold offset_ms. lia.
    + destruct (I2 _ _ Hi) as (H1 & H2 & H3). split; [lia|done].
  - intros x Hx Hgt. apply list_elem_of_lookup in Hx as [i Hi].
    destruct (I2 _ _ Hi) as (H1 & _). rewrite Hp in Hi.
    apply list_elem_of_lookup. exists (i - length p)%nat. subst q.
    rewrite lookup_app_r in Hi by lia. by apply lookup_app_l_Some.
Qed.

Lemma good_append_action a : good (fun s => snd (append_replay_action cfg a s)).
Proof.
  intros s [I1 I2 I3 I4 I5 I6 I7 I8 I9]. unfold append_replay_action.
  destruct (bounded_append_some (max_recording_events cfg) a (replay_actions s)
    (replay_actions_dropped s) ltac:(apply Hcfg)) as (q & d' & E). rewrite E. cbn [snd].
  apply bounded_append_spec in E as (Hq & Hd & Hdd & _); [|done].
  split; constructor; cbn; auto; lia.
Qed.

Lemma good_serial_append b : good (serial_append b).
Proof.
  intros s []. split; constructor; cbn -[SERIAL_BUFFER_CHUNKS]; auto; try lia.
  apply deque_append_length.
Qed.
Lemma good_serial_clear : good serial_clear.
Proof.
  intros s []. unfold serial_clear. destruct (serial_buffer s) eqn:E; split; try reflexivity;
    constructor; cbn; rewrite ?E; auto; lia.
Qed.

Lemma good_drop_actions : good (put upd_replay_actions []).
Proof. destruct Hcfg. intros s []. split; constructor; cbn; auto; lia. Qed.
Lemma good_trace_recorded_0 : good (put upd_trace_events_recorded 0).
Proof. destruct Hcfg. intros s []. split; constructor; cbn; auto; lia. Qed.
Lemma good_actions_dropped_0 : good (put upd_replay_actions_dropped 0).
Proof. intros s []. split; constructor; cbn; auto; lia. Qed.
Lemma good_next_generation : good (upd_generation (Z.add 1)).
Proof.
  intros s [I1 I2 I3 I4 I5 I6 I7 I8 I9]. split; constructor; cbn -[Z.add]; auto; try lia.
  intros i e He. destruct (I2 i e He) as (? & ? & ?). lia.
Qed.


Ltac good_put x := apply (good_compose (put x _)); [by apply good_same|].
Lemma good_clear_private : good clear_private_session_data.
Proof.
  unfold clear_private_session_data.
  good_put upd_virtual_power_state. good_put upd_virtual_imu_state.
  apply (good_compose serial_clear); [apply good_serial_clear|].
  apply (good_compose (put upd_replay_actions [])); [apply good_drop_actions|].
  intros s []. split; constructor; cbn; auto; lia.
Qed.
Lemma good_reset_for_replay : good reset_for_replay.
Proof.
  unfold reset_for_replay. good_put upd_exit_code. good_put upd_debug_stop_reason.
  good_put upd_debug_breakpoints. good_put upd_serial_output_bytes. apply good_serial_clear.
Qed.
Lemma good_reset_for_power_on : good reset_for_power_on.
Proof.
  unfold reset_for_power_on. good_put upd_state. good_put upd_trace_truncation_reported.
  good_put upd_trace_event_counts. good_put upd_trace_events_dropped.
  apply (good_compose (put upd_trace_events_recorded 0)); [apply good_trace_recorded_0|].
  apply good_reset_for_replay.
Qed.
Lemma good_new_generation now : good (new_generation now).
Proof.
  unfold new_generation. good_put upd_state. good_put upd_virtual_power_state.
  good_put upd_virtual_imu_state. good_put upd_trace_truncation_reported.
  good_put upd_trace_event_counts. good_put upd_trace_events_dropped.
  apply (good_compose (put upd_trace_events_recorded 0)); [apply good_trace_recorded_0|].
  apply (good_compose (put upd_replay_actions_dropped 0)); [apply good_actions_dropped_0|].
  apply (good_compose (put upd_replay_actions [])); [apply good_drop_actions|].
  good_put upd_generation_started_ns. apply good_next_generation.
Qed.

(** ** Coroutines that keep the invariant *)

Lemma s_call self o (Q : strace -> res (sresp o) -> World -> Prop) tr w :
  (forall r, s_replies w o r -> Q (tr ++ [Called o r]) r w) -> swp self (scall o) Q tr w.
Proof. done. Qed.
Lemma s_await self o (Q : strace -> res (sresp o) -> World -> Prop) tr w :
  world_inv w -> (forall r w1 w', wrel w w1 -> world_inv w1 -> s_answers w1 self o r w' ->
                    Q (tr ++ [Awaited o r]) r w') -> swp self (sawait o) Q tr w.
Proof. done. Qed.

Lemma keeps_wp {A} (c : sco A) self tr w (Q : strace -> res A -> World -> Prop) :
  keeps c -> world_inv w -> (forall tr r w', world_inv w' -> Q tr r w') -> swp self c Q tr w.
Proof. intros Hc Hw HQ. eapply wp_mono; [|by apply Hc]. intros tr1 r w1. apply HQ. Qed.

Lemma keeps_ret {A} (r : res A) : keeps (Ret r).
Proof. by intros self tr w Hw. Qed.
Lemma keeps_seq {A B} (m : sco A) (f : res A -> sco B) :
  keeps m -> (forall r, keeps (f r)) -> keeps (seq m f).
Proof. intros Hm Hf self tr w Hw. apply wp_seq, keeps_wp; [done|done|]. intros. by apply Hf. Qed.
Lemma keeps_bind {A B} (m : sco A) (f : A -> sco B) :
  keeps m -> (forall a, keeps (f a)) -> keeps (m ≫= f).
Proof. intros Hm Hf. apply keeps_seq; [done|]. intros []; [done|apply keeps_ret]. Qed.
Lemma keeps_catch {A} (m : sco A) cs h : keeps m -> (forall e, keeps (h e)) -> keeps (catch m cs h).
Proof.
  intros Hm Hh. apply keeps_seq; [done|]. intros [a|e]; [apply keeps_ret|].
  destruct (existsb _ _); [done|apply keeps_ret].
Qed.
Lemma keeps_finally {A} (m : sco A) c : keeps m -> keeps c -> keeps (finally m c).
Proof.
  intros Hm Hc. apply keeps_seq; [done|]. intros r. apply keeps_seq; [done|].
  intros []; apply keeps_ret.
Qed.
Lemma keeps_modify f : good_world f -> keeps (modify f).
Proof.
  intros Hf self tr w Hw. destruct (Hf w Hw) as [Hw' Hr]. apply wp_modify; [intros; exact Hr|done].
Qed.
Lemma keeps_upd id f : good f -> keeps (upd id f).
Proof. intros Hf. by apply keeps_modify, good_on_session. Qed.
Lemma keeps_gets {A} (f : World -> A) : keeps (gets f).
Proof. by intros self tr w Hw. Qed.
Lemma keeps_read id : keeps (read id).
Proof. by intros self tr w Hw. Qed.
Lemma keeps_current : keeps current_task.
Proof. by intros self tr w Hw. Qed.
Lemma keeps_call o : keeps (scall o).
Proof. by intros self tr w Hw r _. Qed.
Lemma keeps_await o : keeps (sawait o).
Proof.
  intros self tr w Hw. split; [done|]. intros r w1 w' _ Hw1 Ha. cbn [wp].
  destruct o; cbn in Ha; try (by subst);
    try (destruct Ha as [(_ & -> & ->)|[_ ->]]; [|done];
         first [by destruct Hw1 | apply good_on_session; [by apply good_same|done]]).
  destruct Ha as [(c & l & Hq & -> & ->)|[_ ->]]; [|done].
  destruct Hw1 as [Hs Hqs]. split; [exact Hs|]. intros q' l'. cbn [w_queues set_queues].
  intros [[<- <-]|[_ H]]%lookup_insert_Some; [|by eapply Hqs].
  specialize (Hqs _ _ Hq). cbn [length] in Hqs. lia.
Qed.
Lemma keeps_create_task c : keeps c -> keeps (create_task c).
Proof. intros Hc self tr w Hw. apply wp_create_task; [intros; by apply Hc|done]. Qed.
Lemma keeps_loop {J B} (body : J -> sco (J + B)) i : (forall j, keeps (body j)) -> keeps (loop body i).
Proof.
  intros Hb self tr w Hw. apply (wp_loop _ _ _ _ (fun _ _ w => world_inv w)); [done|].
  intros j tr1 w1 H1. apply keeps_wp; [done|done|]. by intros tr2 [[]|] w2.
Qed.
Lemma keeps_each {X} (f : X -> sco unit) l : (forall x, keeps (f x)) -> keeps (each f l).
Proof.
  intros Hf. induction l as [|x l IH]; [apply keeps_ret|]. cbn [each]. by apply keeps_bind.
Qed.
Lemma keeps_when b c : keeps c -> keeps (when b c).
Proof. intros Hc. destruct b; [done|apply keeps_ret]. Qed.
Lemma keeps_when_some {A} (o : option A) f : (forall a, keeps (f a)) -> keeps (when_some o f).
Proof. intros Hf. destruct o; [apply Hf|apply keeps_ret]. Qed.
Lemma keeps_locked {A B} (acq : sco B) rel (m : sco A) :
  keeps acq -> good_world rel -> keeps m -> keeps (locked acq rel m).
Proof.
  intros Ha Hr Hm. apply keeps_seq; [done|]. intros [b|e]; [|apply keeps_ret].
  apply keeps_finally; [done|]. by apply keeps_modify.
Qed.
Lemma keeps_lifecycle {A} id (m : sco A) : keeps m -> keeps (with_lifecycle id m).
Proof.
  intros Hm. apply keeps_locked; [apply keeps_await| |done].
  apply good_on_session. by apply good_same.
Qed.
Lemma keeps_qmp {A} id (m : sco A) : keeps m -> keeps (with_qmp id m).
Proof.
  intros Hm. apply keeps_locked; [apply keeps_await| |done].
  apply good_on_session. by apply good_same.
Qed.
Lemma keeps_manager {A} (m : sco A) : keeps m -> keeps (with_manager m).
Proof.
  intros Hm. apply keeps_locked; [apply keeps_await| |done].
  intros w [Hs Hq]. split; [by constructor|]. intros id s Hs'. by exists s.
Qed.
Lemma keeps_apply id f : good (fun s => snd (f s)) -> keeps (apply id f).
Proof.
  intros Hf self tr w Hw. apply wp_bind. unfold read. cbn [wp].
  destruct (session id w) as [s|] eqn:Es; [|done]. cbn [of_option]. apply wp_bind.
  destruct (good_on_session id _ Hf w Hw) as [Hw' Hr].
  assert (on_session id (fun _ => snd (f s)) w = on_session id (fun s => snd (f s)) w) as E
    by (unfold on_session; by rewrite Es).
  apply wp_modify; rewrite E; [intros; exact Hr|]. done.
Qed.

#[local] Hint Resolve keeps_ret keeps_gets keeps_read keeps_current keeps_call keeps_await : keeps.

Lemma good_publish_to chunk q id : good_world (publish_to chunk q id).
Proof.
  intros w Hw. unfold publish_to. destruct (w_queues w !! q) as [l|] eqn:Eq; [|by split].
  destruct (Z.leb_spec SUBSCRIBER_QUEUE_SIZE (zlen l)).
  - apply good_on_session; [by apply good_same|done].
  - destruct Hw as [Hs Hq]. split; [|intros i s Hi; by exists s].
    constructor; [exact Hs|]. intros q' l'. cbn [w_queues set_queues].
    intros [[<- <-]|[_ Hl]]%lookup_insert_Some; [rewrite length_app; cbn [length]; lia|by eapply Hq].
Qed.
Lemma good_publish id chunk : good_world (publish_all id chunk).
Proof.
  intros w Hw. unfold publish_all. destruct (session id w) as [s|]; [|by split].
  generalize (subscribers s). intros qs. revert w Hw. induction qs as [|q qs IH]; intros w Hw;
    [by split|]. cbn [foldl]. destruct (good_publish_to chunk q id w Hw) as [H1 R1].
  destruct (IH _ H1) as [H2 R2]. split; [done|]. by etrans.
Qed.
Lemma keeps_publish id chunk : keeps (publish id chunk).
Proof. apply keeps_modify, good_publish. Qed.
Lemma keeps_record id c t src d : keeps (record cfg id c t src d).
Proof. apply keeps_bind; [apply keeps_call|]. intros now. apply keeps_apply, good_record_event. Qed.
Lemma keeps_append_action id a : keeps (append_action cfg id a).
Proof. apply keeps_apply, good_append_action. Qed.
Lemma keeps_clear_private id : keeps (clear_private id).
Proof. apply keeps_upd, good_clear_private. Qed.
#[local] Hint Resolve keeps_publish keeps_record keeps_append_action keeps_clear_private : keeps.

(** Decomposes a coroutine along its structure. *)
Ltac good_tac := solve [apply good_same; intros; repeat case_match; split; reflexivity].
Ltac keeps_tac :=
  repeat (intros; first
    [ solve [eauto with keeps]
    | lazymatch goal with
      | |- keeps (sawait ?o) => exact (keeps_await o)
      | |- keeps (scall ?o) => exact (keeps_call o)
      | |- keeps (_ ≫= _) => apply keeps_bind
      | |- keeps (upd _ _) => apply keeps_upd; good_tac
      | |- keeps (with_lifecycle _ _) => apply keeps_lifecycle
      | |- keeps (with_qmp _ _) => apply keeps_qmp
      | |- keeps (with_manager _) => apply keeps_manager
      | |- keeps (loop _ _) => apply keeps_loop
      | |- keeps (each _ _) => apply keeps_each
      | |- keeps (when _ _) => apply keeps_when
      | |- keeps (when_some _ _) => apply keeps_when_some
      | |- keeps (catch _ _ _) => apply keeps_catch
      | |- keeps (finally _ _) => apply keeps_finally
      | |- keeps (create_task _) => apply keeps_create_task
      | |- keeps (seq _ _) => apply keeps_seq
      | |- keeps (match ?x with _ => _ end) => destruct x
      | |- keeps _ => apply keeps_ret
      end ]).

Lemma keeps_close_debugger id : keeps (close_debugger id).
Proof. unfold close_debugger. keeps_tac.
Qed.
Lemma keeps_gather_other t : keeps (gather_other t).
Proof. unfold gather_other. keeps_tac. Qed.
#[local] Hint Resolve keeps_close_debugger keeps_gather_other : keeps.
Lemma keeps_terminate_worker id : keeps (terminate_worker id).
Proof. unfold terminate_worker. keeps_tac. Qed.
#[local] Hint Resolve keeps_terminate_worker : keeps.

Lemma keeps_record_truncated id r :
  keeps (when r (record cfg id CatPeripheral (lit "peripheral.trace.truncated") SrcWorker
           [(lit "limit", JInt (max_trace_events_per_generation cfg))] ≫= fun _ =>
         upd id (put upd_trace_truncation_reported true)) ≫= fun _ =>
      upd id (upd_trace_events_dropped (Z.add 1))).
Proof. keeps_tac. Qed.
Lemma keeps_record_within_generation id t d : keeps (record_within_generation cfg id t d).
Proof.
  unfold record_within_generation. intros self tr w Hw. apply wp_bind. unfold read. cbn [wp].
  destruct (session id w) as [s|] eqn:Es; [|done]. cbn [of_option].
  destruct (Z.leb_spec (max_trace_events_per_generation cfg) (trace_events_recorded s)) as [Hle|Hlt];
    [by apply keeps_record_truncated|].
  apply wp_bind. destruct Hw as [Hs Hq]. destruct (Hs id s Es) as [Hid Hi].
  assert (session_inv (upd_trace_events_recorded (Z.add 1) s) /\
          srel s (upd_trace_events_recorded (Z.add 1) s)) as [Hi' Hr'].
  { destruct Hi. split; constructor; cbn -[Z.add]; auto; lia. }
  assert (forall id' s', session id' (on_session id (upd_trace_events_recorded (Z.add 1)) w) = Some s' ->
    (id' = id /\ s' = upd_trace_events_recorded (Z.add 1) s) \/ session id' w = Some s') as Hl.
  { intros id' s'. rewrite session_on. destruct (decide (id' = id)) as [->|]; [|auto].
    rewrite Es. cbn. intros [= <-]. auto. }
  apply wp_modify.
  - intros t' _ id' s' Hs'. rewrite session_on. destruct (decide (id' = id)) as [->|]; [|by exists s'].
    rewrite Es in Hs'. simplify_eq. rewrite Es. by eexists.
  - apply keeps_record. constructor.
    + intros id' s' [[-> ->]|Hs']%Hl; [done|auto].
    + unfold on_session. rewrite Es. exact Hq.
Qed.
#[local] Hint Resolve keeps_record_within_generation : keeps.
Lemma keeps_record_trace id t d : keeps (record_trace cfg id t d).
Proof. unfold record_trace. keeps_tac. Qed.
#[local] Hint Resolve keeps_record_trace : keeps.
Lemma keeps_read_worker_trace id p : keeps (read_worker_trace cfg id p).
Proof. unfold read_worker_trace. keeps_tac. Qed.
Lemma keeps_read_serial id p : keeps (read_serial cfg id p).
Proof.
  unfold read_serial. keeps_tac.
  apply keeps_upd, good_compose; [apply good_serial_append|good_tac].
Qed.
#[local] Hint Resolve keeps_read_worker_trace keeps_read_serial : keeps.

Lemma keeps_restore id : keeps (restore_virtual_environment cfg id).
Proof. unfold restore_virtual_environment, execute_qmp. keeps_tac. Qed.
Lemma keeps_wait_for_qmp id p : keeps (wait_for_qmp_running cfg id p).
Proof. unfold wait_for_qmp_running. keeps_tac. Qed.
Lemma keeps_launch_local id : keeps (launch_local_worker cfg cwd id).
Proof. unfold launch_local_worker. keeps_tac. Qed.
#[local] Hint Resolve keeps_restore keeps_wait_for_qmp keeps_launch_local : keeps.
Lemma keeps_launch id : keeps (launch cfg cwd id).
Proof. unfold launch. keeps_tac. Qed.
#[local] Hint Resolve keeps_launch : keeps.
Lemma keeps_is_ready : keeps (worker_is_ready cfg).
Proof. unfold worker_is_ready, worker_ready. keeps_tac. Qed.
Lemma keeps_stop id e : keeps (stop cfg id e).
Proof. unfold stop. keeps_tac. Qed.
#[local] Hint Resolve keeps_is_ready keeps_stop : keeps.
Lemma keeps_cleanup : keeps (cleanup_loop cfg).
Proof. unfold cleanup_loop. keeps_tac. Qed.
#[local] Hint Resolve keeps_cleanup : keeps.
Lemma keeps_start : keeps (start cfg cwd).
Proof.
  unfold start. keeps_tac. intros t. apply keeps_modify. intros w [Hs Hq].
  split; [by constructor|]. intros i s Hi. by exists s.
Qed.
Lemma keeps_close : keeps (close cfg).
Proof. unfold close. keeps_tac. Qed.

Lemma keeps_offset id : keeps (offset id).
Proof. unfold offset. keeps_tac. Qed.
Lemma keeps_record_input id a d : keeps (record_input cfg id a d).
Proof. unfold record_input. keeps_tac. Qed.
Lemma keeps_write_stdin s b : keeps (write_stdin s b).
Proof. unfold write_stdin. keeps_tac. Qed.
#[local] Hint Resolve keeps_offset keeps_record_input keeps_write_stdin : keeps.
Lemma keeps_write_serial id b : keeps (write_serial cfg id b).
Proof. unfold write_serial. keeps_tac. Qed.
Lemma keeps_send_key id k b : keeps (send_key cfg id k b).
Proof. unfold send_key, execute_qmp. keeps_tac. Qed.
Lemma keeps_send_button id k b : keeps (send_button cfg id k b).
Proof. unfold send_button, execute_qmp. keeps_tac. Qed.
Lemma keeps_set_imu id a g : keeps (set_imu_sample cfg id a g).
Proof. unfold set_imu_sample, execute_qmp. keeps_tac. Qed.
Lemma keeps_set_power id b v c : keeps (set_power_state cfg id b v c).
Proof. unfold set_power_state, execute_qmp. keeps_tac. Qed.

Lemma keeps_refresh id : keeps (refresh_state cfg id).
Proof. unfold refresh_state, execute_qmp. keeps_tac. Qed.
#[local] Hint Resolve keeps_refresh : keeps.
Lemma keeps_continue id : keeps (continue_under_debugger cfg id).
Proof. unfold continue_under_debugger. keeps_tac. Qed.
#[local] Hint Resolve keeps_continue : keeps.
Lemma keeps_pause id : keeps (pause cfg id).
Proof. unfold pause, execute_qmp. keeps_tac. Qed.
Lemma keeps_resume id : keeps (resume cfg id).
Proof. unfold resume, execute_qmp. keeps_tac. Qed.
Lemma keeps_reset id : keeps (reset cfg id).
Proof. unfold reset, execute_qmp. keeps_tac. Qed.

Lemma keeps_require_paused id : keeps (require_paused_debug_session cfg id).
Proof. unfold require_paused_debug_session. keeps_tac. Qed.
Lemma keeps_debug_client id : keeps (debug_client id).
Proof. unfold debug_client. keeps_tac. Qed.
Lemma keeps_on_client {A} c (f : client -> sco A) : (forall c, keeps (f c)) -> keeps (on_client c f).
Proof. intros Hf. destruct c; [apply Hf|apply keeps_ret]. Qed.
#[local] Hint Resolve keeps_require_paused keeps_debug_client : keeps.
Lemma keeps_debug_registers id : keeps (debug_registers cfg id).
Proof. unfold debug_registers, on_client. keeps_tac. Qed.
Lemma keeps_debug_read_memory id a n : keeps (debug_read_memory cfg id a n).
Proof. unfold debug_read_memory, on_client. keeps_tac. Qed.
Lemma keeps_debug_set_breakpoint id a b : keeps (debug_set_breakpoint cfg id a b).
Proof. unfold debug_set_breakpoint, on_client. keeps_tac. Qed.
Lemma keeps_debug_step id : keeps (debug_step cfg id).
Proof. unfold debug_step, on_client. keeps_tac. Qed.

Lemma keeps_power_off_worker id : keeps (power_off_worker id).
Proof. unfold power_off_worker. keeps_tac. Qed.
Lemma keeps_unlink s : keeps (unlink_sockets s).
Proof. unfold unlink_sockets. keeps_tac. Qed.
#[local] Hint Resolve keeps_power_off_worker keeps_unlink : keeps.
Lemma keeps_power_on_worker id : keeps (power_on_worker cfg cwd id).
Proof. unfold power_on_worker. keeps_tac. apply keeps_upd, good_reset_for_power_on. Qed.
#[local] Hint Resolve keeps_power_on_worker : keeps.
Lemma keeps_power_off id : keeps (power_off cfg id).
Proof. unfold power_off. keeps_tac. Qed.
Lemma keeps_power_on id : keeps (power_on cfg cwd id).
Proof. unfold power_on. keeps_tac. Qed.

Lemma keeps_send_replayed id c a : keeps (send_replayed id c a).
Proof. unfold send_replayed, execute_qmp. keeps_tac. Qed.
#[local] Hint Resolve keeps_send_replayed : keeps.
Lemma keeps_apply_replay id a : keeps (apply_replay_action cfg cwd id a).
Proof. unfold apply_replay_action, execute_qmp. keeps_tac. Qed.
#[local] Hint Resolve keeps_apply_replay : keeps.
Lemma keeps_replay_one id v t a : keeps (replay_one cfg cwd id v t a).
Proof. unfold replay_one. keeps_tac. Qed.
#[local] Hint Resolve keeps_replay_one : keeps.
Lemma keeps_replay_body id l v : keeps (replay_body cfg cwd id l v).
Proof.
  unfold replay_body.
  keeps_tac; [apply keeps_upd, good_reset_for_replay|apply keeps_upd, good_new_generation].
Qed.
#[local] Hint Resolve keeps_replay_body : keeps.
Lemma keeps_run_replay id l v : keeps (run_replay cfg cwd id l v).
Proof. unfold run_replay, replay_handler, replay_cleanup. keeps_tac. Qed.
#[local] Hint Resolve keeps_run_replay : keeps.
Lemma keeps_start_replay id v : keeps (start_replay cfg cwd id v).
Proof. unfold start_replay. keeps_tac. Qed.

Lemma keeps_capture id : keeps (capture_framebuffer cfg id).
Proof. unfold capture_framebuffer, execute_qmp. keeps_tac. Qed.
#[local] Hint Resolve keeps_capture : keeps.
Lemma keeps_subscribe_framebuffer id : keeps (subscribe_framebuffer cfg id).
Proof. unfold subscribe_framebuffer. keeps_tac. Qed.
Lemma keeps_yield_history id : keeps (yield_history id).
Proof. unfold yield_history. keeps_tac. Qed.
Lemma keeps_new_queue id : keeps (new_queue id).
Proof.
  unfold new_queue. keeps_tac. apply keeps_modify. intros w [Hs Hq].
  split; [|intros i s Hi; by exists s]. constructor; [exact Hs|]. intros q l. cbn [w_queues].
  intros [[<- <-]|[_ Hl]]%lookup_insert_Some; [done|by eapply Hq].
Qed.
#[local] Hint Resolve keeps_yield_history keeps_new_queue : keeps.
Lemma keeps_subscribe_serial id : keeps (subscribe_serial id).
Proof. unfold subscribe_serial. keeps_tac. Qed.

Lemma new_session_inv id board image now ns :
  flash_sha256 (snd image) = sha256_hexdigest (fst image) ->
  session_inv (new_session cfg id board image now ns).
Proof. destruct Hcfg. constructor; cbn; auto; try lia. by intros i e. Qed.

Lemma keeps_allocate board upload : keeps (allocate_session cfg board upload).
Proof.
  unfold allocate_session. apply keeps_bind; [apply keeps_gets|]. intros sessions.
  destruct (_ <=? _); [apply keeps_ret|].
  destruct (validate_and_pad_firmware upload board) as [image|e] eqn:Ev; [|apply keeps_ret].
  change (lift (Ok image) ≫= ?f) with (f image).
  apply keeps_bind; [apply keeps_call|]. intros now self tr w Hw. apply wp_bind.
  apply (s_call _ NewUuid). intros [id|e] [_ Hid]; [|done]. cbn in Hid.
  specialize (Hid id eq_refl). cbv zeta. apply wp_bind.
  apply (wp_each _ _ _ _ (fun _ _ w' => w' = w)); [done| |].
  2:{ intros c l tr1 w1 ->. apply (s_call _ (Fs c)). by intros [[]|e] _. }
  intros tr1 w1 ->. apply wp_bind. apply (s_call _ MonotonicNs). intros [ns|e] _; [|done].
  apply wp_bind. set (s0 := new_session _ _ _ _ _ _).
  assert (forall id', session id' (set_sessions (dict_set id s0 (w_sessions w)) w) =
    if decide (id' = id) then Some s0 else session id' w) as Hs.
  { intros id'. unfold session. cbn [w_sessions set_sessions]. by rewrite dict_get_set. }
  apply wp_modify.
  - intros t _ id' s' Hs'. rewrite Hs. destruct (decide (id' = id)) as [->|]; [congruence|by exists s'].
  - destruct Hw as [Hi Hq]. constructor; [|exact Hq]. intros id' s'. rewrite Hs.
    destruct (decide (id' = id)) as [->|]; [|apply Hi]. intros [= <-]. split; [done|].
    apply new_session_inv. destruct image. by eapply validate_flash_sha256.
Qed.
#[local] Hint Resolve keeps_allocate : keeps.
Lemma keeps_first_launch id : keeps (first_launch cfg cwd id).
Proof. unfold first_launch. keeps_tac. Qed.
#[local] Hint Resolve keeps_first_launch : keeps.
Lemma keeps_create board upload : keeps (create cfg cwd board upload).
Proof. unfold create. keeps_tac. Qed.

(** ** The manager as a system *)

Definition forget {A} (m : sco A) : sco unit := m ≫= fun _ => skip.
(** What requests, streams and the application's life cycle may start, at
    any time and in any number. *)
Inductive manager_entry : sco unit -> Prop :=
  | EntryStart : manager_entry (start cfg cwd)
  | EntryClose' : manager_entry (close cfg)
  | EntryCreate board upload : manager_entry (forget (create cfg cwd board upload))
  | EntryStop id expired : manager_entry (forget (stop cfg id expired))
  | EntryWriteSerial id b : manager_entry (write_serial cfg id b)
  | EntrySendKey id k b : manager_entry (send_key cfg id k b)
  | EntrySendButton id k b : manager_entry (send_button cfg id k b)
  | EntryImu id a g : manager_entry (set_imu_sample cfg id a g)
  | EntryPower id b v c : manager_entry (set_power_state cfg id b v c)
  | EntryPause id : manager_entry (pause cfg id)
  | EntryResume id : manager_entry (resume cfg id)
  | EntryReset id : manager_entry (reset cfg id)
  | EntryRefresh id : manager_entry (refresh_state cfg id)
  | EntryRegisters id : manager_entry (forget (debug_registers cfg id))
  | EntryMemory id a n : manager_entry (forget (debug_read_memory cfg id a n))
  | EntryBreakpoint id a b : manager_entry (debug_set_breakpoint cfg id a b)
  | EntryStep id : manager_entry (forget (debug_step cfg id))
  | EntryPowerOff id : manager_entry (power_off cfg id)
  | EntryPowerOn id : manager_entry (power_on cfg cwd id)
  | EntryReplay id v : manager_entry (forget (start_replay cfg cwd id v))
  | EntryCapture id : manager_entry (forget (capture_framebuffer cfg id))
  | EntryFramebuffer id : manager_entry (subscribe_framebuffer cfg id)
  | EntrySerial id : manager_entry (subscribe_serial id).

Lemma keeps_forget {A} (m : sco A) : keeps m -> keeps (forget m).
Proof. intros Hm. apply keeps_bind; [done|]. intros _. apply keeps_ret. Qed.

Lemma entry_keeps c : manager_entry c -> keeps c.
Proof.
  intros [].
  - apply keeps_start.
  - apply keeps_close.
  - apply keeps_forget, keeps_create.
  - apply keeps_forget, keeps_stop.
  - apply keeps_write_serial.
  - apply keeps_send_key.
  - apply keeps_send_button.
  - apply keeps_set_imu.
  - apply keeps_set_power.
  - apply keeps_pause.
  - apply keeps_resume.
  - apply keeps_reset.
  - apply keeps_refresh.
  - apply keeps_forget, keeps_debug_registers.
  - apply keeps_forget, keeps_debug_read_memory.
  - apply keeps_debug_set_breakpoint.
  - apply keeps_forget, keeps_debug_step.
  - apply keeps_power_off.
  - apply keeps_power_on.
  - apply keeps_forget, keeps_start_replay.
  - apply keeps_forget, keeps_capture.
  - apply keeps_subscribe_framebuffer.
  - apply keeps_subscribe_serial.
Qed.
Lemma manager_entry_safe c : manager_entry c -> safe s_replies s_answers world_inv rely c.
Proof. intros Hc t w Hw. by apply entry_keeps. Qed.

Lemma good_world_rely f t w : good_world f -> world_inv w -> rely t w (f w).
Proof. intros Hf Hw. by apply Hf. Qed.

Lemma s_answers_rely w t o r w' : world_inv w -> s_answers w t o r w' ->
  forall t', t' <> t -> rely t' w w'.
Proof.
  intros Hw H t' _. destruct o; cbn in H; try (subst; reflexivity);
    destruct H as [H|[_ ->]]; try reflexivity.
  - destruct H as (_ & _ & ->). intros i s Hi. by exists s.
  - destruct H as (_ & _ & ->). apply good_world_rely; [|done].
    apply good_on_session. by apply good_same.
  - destruct H as (_ & _ & ->). apply good_world_rely; [|done].
    apply good_on_session. by apply good_same.
  - destruct H as (c & l & _ & _ & ->). intros i s Hi. by exists s.
Qed.

Lemma world_init_inv : world_inv World_init.
Proof. by constructor. Qed.

Definition manager_step := step s_replies s_answers manager_entry.
Definition manager_reachable := reachable s_replies s_answers manager_entry World_init.

Lemma reachable_inv w p : manager_reachable (Config w None p) -> world_inv w.
Proof.
  apply (machine_safe _ _ _ _ _ manager_entry_safe s_answers_rely), world_init_inv.
Qed.
End Safety.

(** The rules above for the developments that follow. *)
#[export] Hint Resolve keeps_ret keeps_gets keeps_read keeps_current keeps_call keeps_await
  keeps_publish keeps_record keeps_append_action keeps_clear_private keeps_close_debugger
  keeps_gather_other keeps_terminate_worker keeps_record_within_generation keeps_record_trace
  keeps_read_worker_trace keeps_read_serial keeps_restore keeps_wait_for_qmp keeps_launch_local
  keeps_launch keeps_is_ready keeps_stop keeps_cleanup keeps_start keeps_close keeps_offset
  keeps_record_input keeps_write_stdin keeps_write_serial keeps_send_key keeps_send_button
  keeps_set_imu keeps_set_power keeps_refresh keeps_continue keeps_pause keeps_resume keeps_reset
  keeps_require_paused keeps_debug_client keeps_debug_registers keeps_debug_read_memory
  keeps_debug_set_breakpoint keeps_debug_step keeps_power_off_worker keeps_unlink
  keeps_power_on_worker keeps_power_off keeps_power_on keeps_send_replayed keeps_apply_replay
  keeps_replay_one keeps_replay_body keeps_run_replay keeps_start_replay keeps_capture
  keeps_subscribe_framebuffer keeps_yield_history keeps_new_queue keeps_subscribe_serial
  keeps_allocate keeps_first_launch keeps_create : keeps.
Ltac solve_keeps :=
  repeat (intros; first
    [ solve [eauto with keeps]
    | lazymatch goal with
      | |- keeps _ (sawait ?o) => exact (keeps_await _ o)
      | |- keeps _ (scall ?o) => exact (keeps_call _ o)
      | |- keeps _ (_ ≫= _) => apply keeps_bind
      | |- keeps _ (upd _ _) => apply keeps_upd; apply good_same; intros; repeat case_match; split; reflexivity
      | |- keeps _ (with_lifecycle _ _) => apply keeps_lifecycle
      | |- keeps _ (with_qmp _ _) => apply keeps_qmp
      | |- keeps _ (loop _ _) => apply keeps_loop
      | |- keeps _ (each _ _) => apply keeps_each
      | |- keeps _ (when _ _) => apply keeps_when
      | |- keeps _ (when_some _ _) => apply keeps_when_some
      | |- keeps _ (catch _ _ _) => apply keeps_catch
      | |- keeps _ (finally _ _) => apply keeps_finally
      | |- keeps _ (create_task _) => apply keeps_create_task
      | |- keeps _ (seq _ _) => apply keeps_seq
      | |- keeps _ (match ?x with _ => _ end) => destruct x
      | |- keeps _ _ => apply keeps_ret
      end ]).


(** C1: in every interleaving of all operations and background tasks,
    whenever every task is suspended each session's recording is consistent:
    the events carry consecutive sequence numbers that start right after the
    dropped ones, no offset is negative, no event is from a later generation,
    both recordings and the serial buffer keep their bounds, no subscriber
    queue exceeds 128 items, and a generation records at most the configured
    number of trace events. *)
Theorem recording_invariant cfg cwd w p id s :
  sane_settings cfg -> manager_reachable cfg cwd (Config w None p) -> session id w = Some s ->
  s_id s = id /\
  next_event_sequence s = events_dropped s + zlen (events s) + 1 /\
  (forall i e, events s !! i = Some e ->
     ev_sequence e = events_dropped s + Z.of_nat i + 1 /\
     1 <= ev_generation e <= generation s /\ 0 <= ev_offset_ms e) /\
  zlen (events s) <= max_recording_events cfg /\
  zlen (replay_actions s) <= max_recording_events cfg /\
  zlen (serial_buffer s) <= 256 /\
  trace_events_recorded s <= max_trace_events_per_generation cfg /\
  (forall q l, w_queues w !! q = Some l -> zlen l <= 128).
Proof.
  intros Hcfg Hr Hs. apply (reachable_inv cfg cwd Hcfg) in Hr as [Hi Hq].
  destruct (Hi id s Hs) as [Hid []].
  repeat split; auto; try lia.
  - by apply inv_sequence0.
  - by apply inv_sequence0 in H as (_ & [? _] & _).
  - by apply inv_sequence0 in H as (_ & [_ ?] & _).
  - by apply inv_sequence0 in H as (_ & _ & ?).
  - unfold SERIAL_BUFFER_CHUNKS in *. lia.
Qed.

(** C2: the event log is append-only: along every execution a session keeps
    its identity, board, firmware and deadline, its counters and generation
    never go back, and an event that was recorded is still there, unchanged,
    until it is counted as dropped. *)
Theorem event_log_append_only cfg cwd c c' id s :
  sane_settings cfg ->
  rtc (manager_step cfg cwd) (Config World_init None ∅) c -> rtc (manager_step cfg cwd) c c' ->
  session id (heap c) = Some s ->
  exists s', session id (heap c') = Some s' /\
    s_id s' = s_id s /\ s_board s' = s_board s /\ s_firmware s' = s_firmware s /\
    expires_at s' = expires_at s /\
    next_event_sequence s <= next_event_sequence s' /\ generation s <= generation s' /\
    events_dropped s <= events_dropped s' /\
    forall e, e ∈ events s -> events_dropped s' < ev_sequence e -> e ∈ events s'.
Proof.
  intros Hcfg H1 H2 Hs.
  destruct (machine_mono _ _ _ _ _ (manager_entry_safe cfg cwd Hcfg) (s_answers_rely cfg) wrel
    World_init c c' (fun t s s' H => H) (world_init_inv cfg) H1 H2 id s Hs) as (s' & Hs' & []).
  exists s'. repeat split; auto.
Qed.
