(* ===== verification/SessionContracts.v ===== *)
(** * What the session operations promise

    Postconditions of the manager's operations under interference: while a
    coroutine is suspended any other operation or task may run, as long as
    it respects the invariant and [wrel] of [SessionSafety]. *)

From Stdlib Require Import Init.Byte.
From S2P Require Import Prelude Text PyFloat Json Sha256 Async Boards Firmware Framebuffer Inputs.
From S2P Require Import Recording Tracing Qemu BrokerProtocol SessionData SessionOps SessionSafety.

#[local] Opaque sha256_hexdigest.

(** ** Stepping through a coroutine *)

Section Steps.
Context (cfg : Settings) (cwd : list text).
Context (Hcfg : sane_settings cfg).

Abbreviation swp := (wp s_replies s_answers (world_inv cfg) rely).
Abbreviation strace := (list (event sop sresp)).

Lemma session_upd id f w s : session id w = Some s -> session id (on_session id f w) = Some (f s).
Proof. intros Hs. by rewrite session_on, decide_True, Hs. Qed.
Lemma wrel_upd id f w : (forall s, session id w = Some s -> srel s (f s)) -> wrel w (on_session id f w).
Proof.
  intros Hf id' s' Hs'. rewrite session_on. destruct (decide (id' = id)) as [->|]; [|by exists s'].
  rewrite Hs'. exists (f s'). auto.
Qed.
Lemma wrel_session id w w' s : wrel w w' -> session id w = Some s ->
  exists s', session id w' = Some s' /\ srel s s'.
Proof. auto. Qed.

Context (self : tid).

Lemma bind_read {A} id s (k : SessionRecord -> sco A) Q tr w :
  session id w = Some s -> swp self (k s) Q tr w -> swp self (read id ≫= k) Q tr w.
Proof. intros Hs H. apply wp_bind. unfold read. cbn [wp]. by rewrite Hs. Qed.
Lemma bind_upd {A} id f s (k : unit -> sco A) Q tr w :
  session id w = Some s -> srel s (f s) -> swp self (k tt) Q tr (on_session id f w) ->
  swp self (upd id f ≫= k) Q tr w.
Proof.
  intros Hs Hf H. apply wp_bind, wp_modify; [|exact H]. intros t _. apply wrel_upd.
  intros s1 Hs1. rewrite Hs in Hs1. by injection Hs1 as <-.
Qed.
Lemma bind_good {A} id f s (k : unit -> sco A) Q tr w :
  world_inv cfg w -> session id w = Some s -> good cfg f ->
  (forall w', world_inv cfg w' -> session id w' = Some (f s) -> wrel w w' -> swp self (k tt) Q tr w') ->
  swp self (upd id f ≫= k) Q tr w.
Proof.
  intros Hw Hs Hf H. destruct (inv_sessions _ _ Hw id s Hs) as [_ Hi]. destruct (Hf s Hi) as [_ Hr].
  apply (bind_upd _ _ s); [done|done|].
  destruct (good_on_session cfg id f Hf w Hw). apply H; [done|by apply session_upd|done].
Qed.
Lemma bind_call {A} o (k : sresp o -> sco A) (Q : strace -> res A -> World -> Prop) tr w :
  (forall r, s_replies w o r -> match r with
     | Ok a => swp self (k a) Q (tr ++ [Called o (Ok a)]) w
     | Err e => Q (tr ++ [Called o (Err e)]) (Err e) w
     end) -> swp self (scall o ≫= k) Q tr w.
Proof. intros H. apply wp_bind, s_call. intros r Hr. specialize (H r Hr). by destruct r. Qed.
Lemma bind_await {A} o (k : sresp o -> sco A) (Q : strace -> res A -> World -> Prop) tr w :
  world_inv cfg w ->
  (forall r w1 w', wrel w w1 -> world_inv cfg w1 -> s_answers w1 self o r w' -> match r with
     | Ok a => swp self (k a) Q (tr ++ [Awaited o (Ok a)]) w'
     | Err e => Q (tr ++ [Awaited o (Err e)]) (Err e) w'
     end) -> swp self (sawait o ≫= k) Q tr w.
Proof.
  intros Hw H. apply wp_bind, s_await; [done|]. intros r w1 w' H1 H2 H3.
  specialize (H r w1 w' H1 H2 H3). by destruct r.
Qed.

(** A coroutine that keeps the invariant moves the heap along [wrel]. *)
Lemma keeps_rel {A} (m : sco A) Q tr w :
  keeps cfg m -> world_inv cfg w -> (forall tr' r w', world_inv cfg w' -> wrel w w' -> Q tr' r w') ->
  swp self m Q tr w.
Proof.
  intros Hm Hw HQ. eapply wp_mono; [|apply (wp_rel _ _ _ _ wrel self m (fun _ _ w1 => world_inv cfg w1) tr w w)].
  - intros tr' r w' [H1 H2]. exact (HQ tr' r w' H1 H2).
  - intros t w1 w2 H. exact H.
  - intros w1 t o r w2 H1 H2. exact (s_answers_rely cfg w1 t o r w2 H1 H2 (S t) ltac:(lia)).
  - reflexivity.
  - by apply Hm.
Qed.
Lemma bind_keeps {A B} (m : sco A) (k : A -> sco B) Q tr w :
  keeps cfg m -> world_inv cfg w ->
  (forall tr' r w', world_inv cfg w' -> wrel w w' ->
     match r with Ok a => swp self (k a) Q tr' w' | Err e => Q tr' (Err e) w' end) ->
  swp self (m ≫= k) Q tr w.
Proof.
  intros Hm Hw H. apply wp_bind, keeps_rel; [done|done|]. intros tr' r w' H1 H2.
  specialize (H tr' r w' H1 H2). by destruct r.
Qed.

(** The same, with what was done on the way appended to the trace. *)
Lemma keeps_run {A} (m : sco A) Q tr w :
  keeps cfg m -> world_inv cfg w ->
  (forall l r w', world_inv cfg w' -> wrel w w' -> Q (tr ++ l) r w') -> swp self m Q tr w.
Proof.
  intros Hm Hw HQ. eapply wp_mono; [|apply (wp_uses _ _ _ _ (fun _ => True) self m
    (fun tr' r w' => forall l, tr' = tr ++ l -> Q tr' r w')); [apply uses_any|]].
  - intros tr' r w' [H (l & -> & _)]. exact (H l eq_refl).
  - apply keeps_rel; [done|done|]. intros tr' r w' Hw' R l ->. by apply HQ.
Qed.
Lemma bind_run {A B} (m : sco A) (k : A -> sco B) Q tr w :
  keeps cfg m -> world_inv cfg w ->
  (forall l r w', world_inv cfg w' -> wrel w w' ->
     match r with Ok a => swp self (k a) Q (tr ++ l) w' | Err e => Q (tr ++ l) (Err e) w' end) ->
  swp self (m ≫= k) Q tr w.
Proof.
  intros Hm Hw H. apply wp_bind, keeps_run; [done|done|]. intros l r w' H1 H2.
  specialize (H l r w' H1 H2). by destruct r.
Qed.

(** What recording an event does to a record. *)
Definition recorded (c : EventCategory) (t : text) (src : EventSource) (d : list (text * json))
    (s s' : SessionRecord) : Prop :=
  exists now, s' = snd (record_event cfg now c t src d s) /\
    last (events s') = Some (mkEvent (next_event_sequence s) (generation s) (offset_ms now s) c t src d).
Lemma record_event_ok now c t src d s :
  fst (record_event cfg now c t src d s) = Ok tt /\
  recorded c t src d s (snd (record_event cfg now c t src d s)).
Proof.
  unfold recorded, record_event. set (e := mkEvent _ _ _ _ _ _ _). set (s1 := upd_next_event_sequence _ s).
  change (events s1) with (events s). change (events_dropped s1) with (events_dropped s).
  destruct (bounded_append_some (max_recording_events cfg) e (events s) (events_dropped s)
    ltac:(apply Hcfg)) as (q & d' & E). rewrite E. cbn [fst snd]. split; [done|]. exists now.
  fold e s1. rewrite E. split; [done|]. by apply bounded_append_last in E.
Qed.
Lemma record_keeps c t src d s s' : recorded c t src d s s' ->
  exists q dr n, s' = put upd_events q (put upd_events_dropped dr (put upd_next_event_sequence n s)).
Proof.
  intros (now & -> & _). unfold record_event.
  destruct (bounded_append _ _ _ _) as [[q dr]|]; [by exists q, dr, (1 + next_event_sequence s)|].
  by exists (events s), (events_dropped s), (1 + next_event_sequence s).
Qed.

Lemma wp_record id c t src d s (Q : strace -> res unit -> World -> Prop) tr w :
  world_inv cfg w -> session id w = Some s ->
  (forall now s' w', recorded c t src d s s' -> session id w' = Some s' -> world_inv cfg w' ->
     wrel w w' -> Q (tr ++ [Called MonotonicNs (Ok now)]) (Ok tt) w') ->
  swp self (record cfg id c t src d) Q tr w.
Proof.
  intros Hw Hs Hk. unfold record. apply wp_bind. apply (s_call _ _ MonotonicNs).
  intros [now|e] Hn; [|by specialize (proj1 Hn eq_refl)]. unfold apply. apply (bind_read id s); [done|].
  destruct (record_event_ok now c t src d s) as [Eok Hr].
  assert (good cfg (fun s => snd (record_event cfg now c t src d s))) as Hg by by apply good_record_event.
  destruct (inv_sessions _ _ Hw id s Hs) as [_ Hi]. destruct (Hg s Hi) as [Hi' Hrel].
  apply (bind_upd id _ s); [done|done|]. rewrite Eok. cbn [wp lift].
  destruct (good_on_session cfg id _ Hg w Hw) as [Hgw Hgr].
  assert (on_session id (fun _ => snd (record_event cfg now c t src d s)) w =
    on_session id (fun s => snd (record_event cfg now c t src d s)) w) as E
    by (unfold on_session; by rewrite Hs).
  rewrite E. apply (Hk now (snd (record_event cfg now c t src d s))); [done| |done|done].
  by apply (session_upd id (fun s => snd (record_event cfg now c t src d s))).
Qed.
Lemma bind_record {A} id c t src d s (k : unit -> sco A) (Q : strace -> res A -> World -> Prop) tr w :
  world_inv cfg w -> session id w = Some s ->
  (forall now s' w', recorded c t src d s s' -> session id w' = Some s' -> world_inv cfg w' ->
     wrel w w' -> swp self (k tt) Q (tr ++ [Called MonotonicNs (Ok now)]) w') ->
  swp self (record cfg id c t src d ≫= k) Q tr w.
Proof. intros Hw Hs Hk. apply wp_bind. by eapply wp_record. Qed.
End Steps.

(** ** Publishing *)

Definition queue_full (w : World) (q : queue_id) : bool :=
  match w_queues w !! q with Some l => SUBSCRIBER_QUEUE_SIZE <=? zlen l | None => false end.
Definition delivered (chunk : option bytes) (w : World) (qs : list queue_id) (q : queue_id)
    : option (list (option bytes)) :=
  match w_queues w !! q with
  | Some l => Some (if bool_decide (q ∈ qs) && negb (queue_full w q) then l ++ [chunk] else l)
  | None => None
  end.

Lemma filter_and {A} (f g : A -> bool) l :
  List.filter f (List.filter g l) = List.filter (fun x => g x && f x) l.
Proof.
  induction l as [|x l IH]; cbn [List.filter]; [done|].
  destruct (g x); cbn [andb List.filter]; [|done]. by destruct (f x); rewrite IH.
Qed.
Lemma upd_subscribers_ext f g s :
  f (subscribers s) = g (subscribers s) -> upd_subscribers f s = upd_subscribers g s.
Proof. unfold upd_subscribers. by intros ->. Qed.
Lemma upd_subscribers_id f s : f (subscribers s) = subscribers s -> upd_subscribers f s = s.
Proof. destruct s. unfold upd_subscribers. cbn. by intros ->. Qed.
Lemma filter_all {A} (f : A -> bool) l : (forall x, f x = true) -> List.filter f l = l.
Proof. intros H. induction l as [|x l IH]; cbn; [done|]. by rewrite H, IH. Qed.

Lemma publish_one chunk id q w s :
  session id w = Some s ->
  let w' := publish_to chunk q id w in
  session id w' = Some (upd_subscribers (List.filter (fun x => negb ((x =? q) && queue_full w x))) s) /\
  (forall q', w_queues w' !! q' = delivered chunk w [q] q') /\
  (forall id', id' <> id -> session id' w' = session id' w).
Proof.
  intros Hs. unfold publish_to, delivered.
  destruct (w_queues w !! q) as [l|] eqn:El; [destruct (Z.leb_spec SUBSCRIBER_QUEUE_SIZE (zlen l))|].
  - assert (queue_full w q = true) as Hf by (unfold queue_full; rewrite El; by apply Z.leb_le).
    split; [|split].
    + rewrite session_on, decide_True, Hs by done. cbn [fmap option_fmap option_map]. f_equal.
      apply upd_subscribers_ext, List.filter_ext. intros x.
      destruct (Z.eqb_spec x q) as [->|]; cbn [andb]; [by rewrite Hf|done].
    + intros q'. replace (w_queues (on_session _ _ _)) with (w_queues w)
        by (unfold on_session; by destruct (session id w)).
      destruct (w_queues w !! q') as [l'|]; [|done]. f_equal.
      destruct (decide (q' = q)) as [->|Hne]; [by rewrite Hf, andb_false_r|].
      by rewrite bool_decide_eq_false_2 by set_solver.
    + intros id' Hne. by rewrite session_on, decide_False.
  - assert (queue_full w q = false) as Hf by (unfold queue_full; rewrite El; by apply Z.leb_gt).
    split; [|split].
    + change (session id (set_queues _ w)) with (session id w). rewrite Hs. f_equal. symmetry.
      apply upd_subscribers_id, filter_all. intros x.
      destruct (Z.eqb_spec x q) as [->|]; [by rewrite Hf|done].
    + intros q'. cbn [w_queues set_queues]. destruct (decide (q' = q)) as [->|Hne].
      * rewrite lookup_insert_eq, El, Hf. by rewrite bool_decide_eq_true_2 by set_solver.
      * rewrite lookup_insert_ne by done. destruct (w_queues w !! q') as [l'|]; [|done].
        by rewrite bool_decide_eq_false_2 by set_solver.
    + done.
  - assert (queue_full w q = false) as Hf by (unfold queue_full; by rewrite El).
    split; [|split; [|done]].
    + rewrite Hs. f_equal. symmetry. apply upd_subscribers_id, filter_all. intros x.
      destruct (Z.eqb_spec x q) as [->|]; [by rewrite Hf|done].
    + intros q'. destruct (w_queues w !! q') as [l'|] eqn:El'; [|done]. f_equal.
      rewrite bool_decide_eq_false_2; [done|]. intros ->%list_elem_of_singleton. congruence.
Qed.

Lemma publish_fold chunk id qs w s :
  session id w = Some s -> NoDup qs ->
  let w' := foldl (fun w q => publish_to chunk q id w) w qs in
  session id w' = Some (upd_subscribers
    (List.filter (fun q => negb (bool_decide (q ∈ qs) && queue_full w q))) s) /\
  (forall q, w_queues w' !! q = delivered chunk w qs q) /\
  (forall id', id' <> id -> session id' w' = session id' w).
Proof.
  intros Hs Hq. revert w s Hs. induction Hq as [|q qs Hnin Hq IH]; intros w s Hs; cbn [foldl].
  - split; [|split; [|done]].
    + rewrite Hs. f_equal. symmetry. by apply upd_subscribers_id, filter_all.
    + intros q. unfold delivered. by destruct (w_queues w !! q).
  - destruct (publish_one chunk id q w s Hs) as (H1 & H2 & H3).
    destruct (IH _ _ H1) as (I1 & I2 & I3). clear IH.
    assert (forall x, x ∈ qs -> queue_full (publish_to chunk q id w) x = queue_full w x) as Hf.
    { intros x Hx. unfold queue_full at 1. rewrite H2. unfold delivered.
      rewrite bool_decide_eq_false_2 by set_solver. unfold queue_full. by destruct (w_queues w !! x). }
    split; [|split].
    + rewrite I1. f_equal. cbn [subscribers]. destruct s; unfold upd_subscribers; cbn. f_equal.
      rewrite filter_and. apply List.filter_ext. intros x.
      destruct (Z.eqb_spec x q) as [->|Hne].
      * rewrite (bool_decide_eq_false_2 (q ∈ qs)) by done.
        by rewrite (bool_decide_eq_true_2 (q ∈ q :: qs)) by set_solver; rewrite andb_true_r.
      * cbn [andb negb]. rewrite (bool_decide_ext (x ∈ q :: qs) (x ∈ qs)) by set_solver.
        case_bool_decide; [by rewrite Hf|done].
    + intros x. rewrite I2. unfold delivered at 1. rewrite H2. unfold delivered.
      destruct (w_queues w !! x) as [l|]; [|done]. f_equal.
      destruct (decide (x = q)) as [->|Hne].
      * rewrite (bool_decide_eq_false_2 (q ∈ qs)) by done.
        rewrite (bool_decide_eq_true_2 (q ∈ q :: qs)) by set_solver.
        by rewrite (bool_decide_eq_true_2 (q ∈ [q])) by set_solver.
      * rewrite (bool_decide_eq_false_2 (x ∈ [q])) by set_solver.
        rewrite (bool_decide_ext (x ∈ q :: qs) (x ∈ qs)) by set_solver.
        case_bool_decide; [by rewrite Hf|done].
    + intros id' Hne. by rewrite I3, H3.
Qed.

(** Publishing appends the item to the queue of every subscriber that
    has room, forgets exactly the subscribers whose queue holds 128 items, and
    changes nothing else: not the other queues, not the rest of the record,
    not the other sessions. *)
Theorem publish_delivers id chunk w s :
  session id w = Some s -> NoDup (subscribers s) ->
  session id (publish_all id chunk w) =
    Some (upd_subscribers (List.filter (fun q => negb (queue_full w q))) s) /\
  (forall q, w_queues (publish_all id chunk w) !! q =
     match w_queues w !! q with
     | Some l => Some (if bool_decide (q ∈ subscribers s) && (zlen l <? 128) then l ++ [chunk] else l)
     | None => None
     end) /\
  (forall id', id' <> id -> session id' (publish_all id chunk w) = session id' w).
Proof.
  intros Hs Hd. unfold publish_all. rewrite Hs.
  destruct (publish_fold chunk id (subscribers s) w s Hs Hd) as (H1 & H2 & H3).
  split; [|split; [|done]].
  - rewrite H1. f_equal. apply upd_subscribers_ext. apply List.filter_ext_in. intros q Hq.
    rewrite bool_decide_eq_true_2; [done|]. by apply list_elem_of_In.
  - intros q. rewrite H2. unfold delivered, queue_full. destruct (w_queues w !! q) as [l|]; [|done].
    change SUBSCRIBER_QUEUE_SIZE with 128. by rewrite <- Z.ltb_antisym.
Qed.

(** ** Stopping *)

(** The private data of a session: uploaded image, recorded inputs, serial
    output and the virtual environment. *)
Definition erased (s : SessionRecord) : Prop :=
  initial_flash_image s = [] /\ replay_actions s = [] /\ serial_buffer s = [] /\
  virtual_imu_state s = None /\ virtual_power_state s = None.

Lemma erased_clear s : erased (clear_private_session_data s).
Proof.
  unfold erased, clear_private_session_data, serial_clear. cbn.
  by destruct (serial_buffer s) eqn:E.
Qed.
Lemma clear_private_state s : s_state (clear_private_session_data s) = s_state s.
Proof. unfold clear_private_session_data, serial_clear. by cbn; destruct (serial_buffer s). Qed.
Lemma erased_put_state x s : erased s -> erased (put upd_state x s).
Proof. done. Qed.
Lemma erased_put_subscribers l s : erased s -> erased (put upd_subscribers l s).
Proof. done. Qed.
Lemma erased_put_lock l s : erased s -> erased (put upd_lifecycle_lock l s).
Proof. done. Qed.
Lemma erased_recorded cfg c t src d s s' :
  recorded cfg c t src d s s' -> erased s -> erased s' /\ s_state s' = s_state s /\
  runtime_directory s' = runtime_directory s /\ accept_live_input s' = accept_live_input s /\
  replay_task s' = replay_task s /\ replay_status s' = replay_status s.
Proof. intros (q & dr & n & ->)%record_keeps He. by repeat split; apply He. Qed.

Lemma publish_core id chunk w s : session id w = Some s ->
  exists l, session id (publish_all id chunk w) = Some (put upd_subscribers l s).
Proof.
  intros Hs. unfold publish_all. rewrite Hs. generalize (subscribers s) at 1. intros qs.
  assert (put upd_subscribers (subscribers s) s = s) as E by by destruct s.
  assert (exists l, session id w = Some (put upd_subscribers l s)) as H by (exists (subscribers s); by rewrite E).
  clear Hs E. revert w H. induction qs as [|q qs IH]; intros w [l Hl]; cbn [foldl]; [by exists l|].
  apply IH. destruct (publish_one chunk id q w _ Hl) as (-> & _). by eexists.
Qed.

(** Chains of [wrel]. *)
Ltac wrel_chain := solve [assumption | repeat (etrans; [eassumption|]); reflexivity
                         | repeat (etrans; [eassumption|]); eassumption].

Section Contracts.
Context (cfg : Settings) (cwd : list text).
Context (Hcfg : sane_settings cfg).
Abbreviation swp := (wp s_replies s_answers (world_inv cfg) rely).

Lemma bind_publish self {A} id chunk s (k : unit -> sco A) Q tr w :
  world_inv cfg w -> session id w = Some s ->
  (forall l w', world_inv cfg w' -> session id w' = Some (put upd_subscribers l s) ->
     swp self (k tt) Q tr w') ->
  swp self (publish id chunk ≫= k) Q tr w.
Proof.
  intros Hw Hs H. destruct (good_publish cfg id chunk w Hw) as [Hw' Hr].
  destruct (publish_core id chunk w s Hs) as [l Hl].
  apply wp_bind, wp_modify; [intros t _; exact Hr|by eapply H].
Qed.

(** A contract, with what every coroutine that keeps the invariant does. *)
Lemma wp_both self {A} (m : sco A) (P : _ -> res A -> World -> Prop) (Q : _ -> res A -> World -> Prop) tr w :
  keeps cfg m -> world_inv cfg w -> swp self m P tr w ->
  (forall l r w', world_inv cfg w' -> wrel w w' -> P (tr ++ l) r w' -> Q (tr ++ l) r w') -> swp self m Q tr w.
Proof.
  intros Hm Hw HP HQ.
  eapply wp_mono; [|apply wp_and; [exact HP|
    apply (keeps_run cfg self m (fun tr' _ w' => world_inv cfg w' /\ wrel w w' /\ exists l, tr' = tr ++ l)); [done|done|by eauto]]].
  intros tr' r w' [HP' (Hw' & R & l & ->)]. by apply HQ.
Qed.

(** What [stop] has done when it returns. *)
Definition stopped (id : text) (expired : bool) (s : SessionRecord) (l : list (event sop sresp)) (w : World) : Prop :=
  exists s' e l0, session id w = Some s' /\ erased s' /\
    s_state s' = (if expired then EXPIRED else STOPPED) /\
    last (events s') = Some e /\ ev_category e = CatLifecycle /\
    ev_type e = lit (if expired then "session.expired" else "session.stopped") /\
    srel s s' /\ l = l0 ++ [Called (Rmtree (runtime_directory s)) (Ok tt)].

Lemma stop_run self id expired s tr w : world_inv cfg w -> session id w = Some s ->
  swp self (stop cfg id expired) (fun tr' r w' => forall id', r = Ok id' -> exists l, tr' = tr ++ l /\ stopped id expired s l w') tr w.
Proof.
  intros Hw Hs. unfold stop. apply (bind_read cfg _ _ s); [done|].
  apply bind_run; [by apply keeps_upd, good_same|done|]. intros l1 r1 w1 Hw1 R1.
  destruct r1 as [[]|e]; [|done]. apply bind_run; [apply keeps_current|done|].
  intros l2 r2 w2 Hw2 R2. destruct r2 as [t|e]; [|done].
  apply bind_run; [|done|].
  { apply keeps_when_some. intros t'. case_bool_decide; [apply keeps_ret|].
    apply keeps_bind; [apply keeps_call|]. intros []. apply (keeps_await _ (GatherTask t')). }
  intros l3 r3 w3 Hw3 R3. destruct r3 as [[]|e]; [|done].
  apply wp_bind, wp_locked. apply (keeps_run _ _ (sawait (AcquireLifecycle id)));
    [apply (keeps_await _ (AcquireLifecycle id))|done|].
  intros l4 [[]|e] w4 Hw4 R4; [|done].
  apply bind_run; [apply keeps_terminate_worker|done|]. intros l5 r5 w5 Hw5 R5.
  destruct r5 as [[]|e]; [|split; [intros; apply wrel_upd; by constructor|done]].
  destruct (wrel_session id w w5 s) as (s5 & Hs5 & S5); [wrel_chain|done|].
  apply (bind_good _ _ _ _ s5); [done|done|by apply good_clear_private|]. intros w6 Hw6 Hs6 R6.
  eapply bind_good; [done|done|by apply good_same|]. intros w7 Hw7 Hs7 R7.
  eapply bind_record; [done|done|done|]. intros now s8 w8 Hr Hs8 Hw8 R8. pose proof Hr as (now' & _ & Hlast).
  destruct (erased_recorded cfg _ _ _ _ _ s8 Hr (erased_put_state _ _ (erased_clear s5))) as (He & Hst & _).
  destruct (wrel_session id w5 w8 s5) as (s8' & Hs8' & S8); [wrel_chain|done|]. rewrite Hs8 in Hs8'. injection Hs8' as <-.
  assert (srel s s8) as S by (by etrans). clear S5 S8.
  apply (bind_publish _ _ _ s8); [done|done|]. intros l w9 Hw9 Hs9.
  eapply bind_read; [done|]. apply s_call. intros [[]|e] Hr9; [|by specialize (proj1 Hr9 eq_refl)].
  split; [intros; apply wrel_upd; by constructor|]. intros id' _. rewrite <- !app_assoc.
  eexists. split; [reflexivity|]. eexists _, _, (l1 ++ l2 ++ l3 ++ l4 ++ l5 ++ [Called MonotonicNs (Ok now)]).
  split; [by apply session_upd|]. split; [by apply erased_put_lock, erased_put_subscribers|].
  split; [exact Hst|]. split; [exact Hlast|]. split; [done|]. split; [done|].
  split; [by destruct S|]. rewrite <- (rel_directory _ _ S), <- !app_assoc. reflexivity.
Qed.

(** C17: stopping a session, whatever else runs meanwhile: when [stop] returns,
    the session is stopped (or expired), the uploaded image, the recorded
    inputs, the serial output and the virtual environment are erased, the
    last event says so, and the last thing done was to remove the session's
    directory.  *)
Theorem stop_erases self id expired tr w : world_inv cfg w ->
  swp self (stop cfg id expired) (fun tr' r w' => forall id', r = Ok id' ->
    exists s' e tr0, session id w' = Some s' /\ erased s' /\
      s_state s' = (if expired then EXPIRED else STOPPED) /\
      last (events s') = Some e /\ ev_category e = CatLifecycle /\
      ev_type e = lit (if expired then "session.expired" else "session.stopped") /\
      tr' = tr0 ++ [Called (Rmtree (runtime_directory s')) (Ok tt)]) tr w.
Proof.
  intros Hw. destruct (session id w) as [s|] eqn:Hs.
  2:{ unfold stop. apply wp_bind. unfold read. cbn [wp]. by rewrite Hs. }
  eapply wp_mono; [|by apply (stop_run self id expired s)].
  intros tr' r w' H id' Hr. destruct (H id' Hr) as (l & -> & s' & e & l0 & Hs' & He & Hst & Hl & Hc & Ht & Hsr & ->).
  exists s', e, (tr ++ l0). rewrite (rel_directory _ _ Hsr), <- app_assoc. by split_and!.
Qed.

(** ** Shutting down *)

(** C19: shutting down leaves no session directory.  Whatever runs meanwhile,
    when [close] returns the directory of every session that existed when it
    was called has been removed since. *)
Theorem close_removes_all self tr w : world_inv cfg w ->
  swp self (close cfg) (fun tr' r w' => exists l, tr' = tr ++ l /\
    (r = Ok tt -> forall id s, session id w = Some s -> Called (Rmtree (runtime_directory s)) (Ok tt) ∈ l)) tr w.
Proof.
  intros Hw. unfold close. apply wp_bind, wp_gets. apply bind_run; [|done|].
  { apply keeps_when_some. intros t. apply keeps_bind; [apply keeps_call|]. intros []. apply (keeps_await _ (GatherTask t)). }
  intros l1 r1 w1 Hw1 R1. destruct r1 as [[]|e]; [|by exists l1].
  apply wp_bind, wp_gets.
  assert (forall id s, session id w = Some s -> id ∈ dict_keys (w_sessions w1)) as Hids.
  { intros id s Hs. destruct (wrel_session id w w1 s R1 Hs) as (s' & Hs' & _). by eapply dict_get_keys. }
  set (done := fun (ids : list text) (l : list (event sop sresp)) => forall id s, session id w = Some s ->
    id ∈ ids \/ Called (Rmtree (runtime_directory s)) (Ok tt) ∈ l).
  apply (wp_each _ _ _ _ (fun ids tr' w' => world_inv cfg w' /\ wrel w w' /\ exists l, tr' = tr ++ l /\ done ids l)).
  - split_and!; [done|done|]. exists l1. split; [done|]. intros id s Hs. left. by eapply Hids.
  - intros tr' w' (_ & _ & l & -> & Hd). exists l. split; [done|]. intros _ id s Hs.
    destruct (Hd id s Hs) as [Hin|]; [by apply not_elem_of_nil in Hin|done].
  - intros id ids tr' w' (Hw' & R' & l & -> & Hd). apply wp_bind.
    destruct (session id w') as [s'|] eqn:Hs'.
    + eapply wp_both; [by apply keeps_stop|done|by apply (stop_run _ _ _ s')|].
      intros l' [id'|e] w2 Hw2 R2 HP; [|exists (l ++ l'); by rewrite app_assoc].
      split_and!; [done|by etrans|]. exists (l ++ l'). rewrite app_assoc. split; [done|].
      destruct (HP id' eq_refl) as (l2 & Hl2 & s2 & e2 & l0 & H2). apply app_inv_head in Hl2 as ->.
      intros id0 s0 Hs0. destruct (Hd id0 s0 Hs0) as [[->|Hin]%elem_of_cons|Hin]; [|by left|].
      * right. destruct (wrel_session id w w' s0 R' Hs0) as (s1 & Hs1 & Hsr). rewrite Hs' in Hs1. injection Hs1 as <-.
        destruct H2 as (_ & _ & _ & _ & _ & _ & _ & ->). rewrite <- (rel_directory _ _ Hsr). set_solver.
      * right. set_solver.
    + unfold stop. apply wp_bind. unfold read. cbn [wp]. rewrite Hs'. by exists l.
Qed.

(** ** Launching *)

(** A worker is up: the session runs, with a process that had not exited when
    it was last asked. *)
Definition launched (id : text) (tr : list (event sop sresp)) (w : World) : Prop :=
  exists s p tr0, session id w = Some s /\ s_state s = RUNNING /\ process s = Some p /\
    tr = tr0 ++ [Called (ReturnCode p) (Ok None)].

Lemma keeps_then_fail self {A B} (m : sco A) (e : exn) (Q : _ -> res B -> World -> Prop) tr w :
  keeps cfg m -> world_inv cfg w ->
  (forall tr' e' w', world_inv cfg w' -> wrel w w' -> Q tr' (Err e') w') ->
  swp self (m ≫= fun _ => Ret (Err e)) Q tr w.
Proof.
  intros Hm Hw HQ. apply bind_keeps; [done|done|]. intros tr' [a|e'] w' H1 H2; by apply HQ.
Qed.

Lemma launch_contract self id s tr w : world_inv cfg w -> session id w = Some s ->
  swp self (launch cfg cwd id) (fun tr' r w' => world_inv cfg w' /\ wrel w w' /\
    (r = Ok tt -> launched id tr' w')) tr w.
Proof.
  intros Hw Hs. eapply wp_mono; [|apply (wp_rel _ _ _ _ wrel self _
    (fun tr' r w' => world_inv cfg w' /\ (r = Ok tt -> launched id tr' w')) tr w w)].
  { intros tr' r w' [[H1 H2] H3]. done. }
  { intros t w1 w2 H. exact H. }
  { intros w1 t o r w2 H1 H2. exact (s_answers_rely cfg w1 t o r w2 H1 H2 (S t) ltac:(lia)). }
  { reflexivity. }
  unfold launch. do 9 (apply bind_keeps; [solve_keeps|done|]; intros ? [?|e] ? ? ?; [|done]).
  apply wp_bind, wp_catch. apply bind_keeps; [solve_keeps|done|]. intros tr1 [[]|e] w1 Hw1 R1.
  2:{ destruct (existsb _ _); [|done]. by apply keeps_then_fail; [solve_keeps| |]. }
  destruct (wrel_session id w w1 s) as (s1 & Hs1 & _); [wrel_chain|done|].
  eapply bind_read; [done|]. case_bool_decide as Hp; cbn [negb].
  2:{ by apply keeps_then_fail; [solve_keeps| |]. }
  apply bind_call. intros [rc|e] Hn; [|by specialize (proj1 Hn eq_refl)].
  case_bool_decide as Hrc; cbn [negb orb].
  2:{ by apply keeps_then_fail; [solve_keeps| |]. }
  case_bool_decide as Hst; cbn [negb].
  2:{ by apply keeps_then_fail; [solve_keeps| |]. }
  cbn [wp skip]. apply wp_modify; [intros; apply wrel_upd; by constructor|].
  split; [by apply good_on_session; [apply good_same|]|]. intros _. subst rc.
  eexists _, _, _. split; [by apply session_upd|]. by repeat split.
Qed.

(** ** Creating *)

(** The file-system calls of a trace. *)
Definition fs_calls (tr : list (event sop sresp)) : list fs_call :=
  omap (fun e => match e with Called (Fs c) (Ok _) => Some c | _ => None end) tr.

Lemma fs_calls_app l1 l2 : fs_calls (l1 ++ l2) = fs_calls l1 ++ fs_calls l2.
Proof. apply omap_app. Qed.

Lemma wp_fs_calls self l (Q : _ -> res unit -> World -> Prop) tr w :
  (forall tr', fs_calls tr' = fs_calls tr ++ l -> Q tr' (Ok tt) w) ->
  (forall tr' e, Q tr' (Err e) w) ->
  swp self (each (fun c => scall (Fs c)) l) Q tr w.
Proof.
  intros HQ He. revert tr HQ. induction l as [|c l IH]; intros tr HQ; cbn [each].
  - apply HQ. by rewrite app_nil_r.
  - apply bind_call. intros [[]|e] _; [|apply He]. apply IH. intros tr' E. apply HQ.
    by rewrite E, fs_calls_app, <- app_assoc.
Qed.

(** The directory of a session and the modes of its files. *)
Definition session_dir (id : text) : path := path_child (runtime_root cfg) id.
Definition shared_gid : option Z :=
  if bool_decide (worker_sandbox_mode cfg = OCI_BROKER) then worker_shared_group_gid cfg else None.

(** C18: allocating a session is all or nothing.  It succeeds only below the
    limit of active sessions and with a valid image; it then adds exactly one
    record, with a fresh identifier, the padded image and its metadata, after
    writing the private files with the modes of the sandbox; otherwise the
    sessions are unchanged, and a full server or an invalid image is reported
    as such.  *)
Theorem allocate_session_correct self board upload tr w :
  swp self (allocate_session cfg board upload) (fun tr' r w' =>
    match r with
    | Ok id => exists image now ns,
        active_count (w_sessions w) < max_concurrent_sessions cfg /\
        validate_and_pad_firmware upload board = Ok image /\
        session id w = None /\
        w' = set_sessions (dict_set id (new_session cfg id board image now ns) (w_sessions w)) w /\
        fs_calls tr' = fs_calls tr ++
          write_private_flash_image (path_str (session_dir id))
            (path_str (path_child (session_dir id) (lit "flash.bin"))) (fst image)
            (if shared_gid is Some _ then oct "2770" else oct "700") (if shared_gid is Some _ then oct "660" else oct "600")
            shared_gid
    | Err e => w' = w /\
        (max_concurrent_sessions cfg <= active_count (w_sessions w) ->
           exn_class e = SessionCapacityError) /\
        (active_count (w_sessions w) < max_concurrent_sessions cfg -> forall e',
           validate_and_pad_firmware upload board = Err e' -> e = e')
    end) tr w.
Proof.
  unfold allocate_session. apply wp_bind, wp_gets.
  destruct (Z.leb_spec (max_concurrent_sessions cfg) (active_count (w_sessions w))) as [Hc|Hc].
  { split; [done|]. split; [done|]. intros ?. lia. }
  destruct (validate_and_pad_firmware upload board) as [image|e] eqn:Ev.
  2:{ split; [done|]. split; [lia|]. by intros _ e' [= ->]. }
  change (lift (Ok image) ≫= ?f) with (f image). cbv beta.
  apply bind_call. intros [now|e] Hn; [|by specialize (proj1 Hn eq_refl)].
  apply bind_call. intros [id|e] [_ Hid]; [|by split; [done|]; split; [lia|]].
  cbv zeta. apply wp_bind, wp_fs_calls; [|by intros tr1 e; split; [done|]; split; [lia|]].
  intros tr1 Etr. apply bind_call. intros [ns|e] Hn'; [|by specialize (proj1 Hn' eq_refl)].
  apply wp_bind, wp_modify.
  - intros t _ id' s' Hs'. unfold session in *. cbn [w_sessions set_sessions]. rewrite dict_get_set.
    destruct (decide (id' = id)) as [->|]; [|by exists s'].
    specialize (Hid id eq_refl). unfold session in Hid. congruence.
  - exists image, now, ns. split; [done|]. split; [done|]. split; [by apply Hid|]. split; [done|].
    rewrite fs_calls_app, Etr, !fs_calls_app. cbn [fs_calls omap list_omap]. by rewrite !app_nil_r.
Qed.

(** C23: the first launch of a session, under any interference: if it succeeds
    the session runs, has a process and its last event is the start; if it
    fails with an exception, the session has failed and its private data are
    erased.  *)
Theorem first_launch_outcome self id s tr w : world_inv cfg w -> session id w = Some s ->
  swp self (first_launch cfg cwd id) (fun tr' r w' =>
    match r with
    | Ok _ => exists s' p e, session id w' = Some s' /\ s_state s' = RUNNING /\
        process s' = Some p /\ last (events s') = Some e /\ ev_type e = lit "session.started"
    | Err e => exc_sub (exn_class e) Exception = true ->
        exists s', session id w' = Some s' /\ s_state s' = FAILED /\ erased s'
    end) tr w.
Proof.
  intros Hw Hs. unfold first_launch. apply wp_catch. apply bind_call.
  assert (forall e tr1 w1, world_inv cfg w1 -> wrel w w1 ->
    swp self (upd id (put upd_state FAILED) ≫= fun _ =>
      scall (Rmtree (path_child (runtime_root cfg) id)) ≫= fun _ =>
      clear_private id ≫= fun _ => @lift World sop sresp unit (Err e))
      (fun tr' r w' => match r with
         | Ok _ => False
         | Err _ => exists s', session id w' = Some s' /\ s_state s' = FAILED /\ erased s'
         end) tr1 w1) as Hfail.
  { intros e tr1 w1 Hw1 R1. destruct (wrel_session id w w1 s R1 Hs) as (s1 & Hs1 & _).
    eapply bind_good; [done|done|by apply good_same|]. intros w2 Hw2 Hs2 _.
    apply bind_call. intros [[]|e'] Hn; [|by specialize (proj1 Hn eq_refl)].
    eapply bind_good; [done|done|by apply good_clear_private|]. intros w3 Hw3 Hs3 _.
    cbn [wp lift]. eexists. split; [done|]. split; [by rewrite clear_private_state|]. apply erased_clear. }
  assert (forall e tr1 w1, world_inv cfg w1 -> wrel w w1 ->
    if existsb (exc_sub (exn_class e)) [Exception] then
      swp self (upd id (put upd_state FAILED) ≫= fun _ =>
        scall (Rmtree (path_child (runtime_root cfg) id)) ≫= fun _ =>
        clear_private id ≫= fun _ => @lift World sop sresp unit (Err e))
        (fun tr' r w' => match r with
           | Ok _ => exists s' p e, session id w' = Some s' /\ s_state s' = RUNNING /\
               process s' = Some p /\ last (events s') = Some e /\ ev_type e = lit "session.started"
           | Err e => exc_sub (exn_class e) Exception = true ->
               exists s', session id w' = Some s' /\ s_state s' = FAILED /\ erased s'
           end) tr1 w1
    else exc_sub (exn_class e) Exception = true ->
      exists s', session id w1 = Some s' /\ s_state s' = FAILED /\ erased s') as Herr.
  { intros e tr1 w1 Hw1 R1. cbn [existsb]. rewrite orb_false_r.
    destruct (exc_sub (exn_class e) Exception); [|done].
    eapply wp_mono; [|by apply Hfail]. by intros ? [] ?. }
  intros [ns|e] Hn; [|by specialize (proj1 Hn eq_refl)].
  eapply bind_good; [done|done|by apply good_same|]. intros w1 Hw1 Hs1 R1.
  apply wp_bind. eapply wp_mono; [|by eapply launch_contract].
  intros tr2 [[]|e] w2 (Hw2 & R2 & Hl); [|apply Herr; [done|wrel_chain]].
  destruct (Hl eq_refl) as (s2 & p & _ & Hs2 & Hst & Hp & _).
  eapply wp_record; [done|done|done|]. intros now s3 w3 Hr Hs3 Hw3 R3.
  pose proof Hr as (now' & _ & Hlast). apply record_keeps in Hr as (q & dr & n & E).
  exists s3, p. eexists. split; [done|]. subst s3. split; [exact Hst|]. split; [exact Hp|].
  split; [exact Hlast|done].
Qed.

(** ** Replaying *)

(** From a contract to one that also tracks the heap. *)
Lemma wp_track self {A} (m : sco A) (P : _ -> res A -> World -> Prop) (Q : _ -> res A -> World -> Prop) tr w :
  keeps cfg m -> world_inv cfg w -> swp self m P tr w ->
  (forall tr' r w', P tr' r w' -> wrel w w' -> Q tr' r w') -> swp self m Q tr w.
Proof.
  intros Hm Hw HP HQ. eapply wp_mono; [|apply (wp_rel _ _ _ _ wrel self m P tr w w)].
  - intros tr' r w' [H1 H2]. exact (HQ tr' r w' H1 H2).
  - intros t w1 w2 H. exact H.
  - intros w1 t o r w2 H1 H2. exact (s_answers_rely cfg w1 t o r w2 H1 H2 (S t) ltac:(lia)).
  - reflexivity.
  - exact HP.
Qed.

Lemma replay_body_contract self id actions speed s tr w : world_inv cfg w -> session id w = Some s ->
  swp self (replay_body cfg cwd id actions speed) (fun tr' r w' => world_inv cfg w' /\ wrel w w' /\
    (r = Ok tt -> exists s', session id w' = Some s' /\ replay_status s' = lit "completed")) tr w.
Proof.
  intros Hw Hs. apply (wp_track _ _ (fun tr' r w' => world_inv cfg w' /\
    (r = Ok tt -> exists s', session id w' = Some s' /\ replay_status s' = lit "completed")));
    [solve_keeps|done| |by intros ??? [??]].
  unfold replay_body.
  do 13 (apply bind_keeps; [first [solve [solve_keeps] | by apply keeps_upd, good_reset_for_replay
    | by apply keeps_upd, good_new_generation]|done|]; intros ? [?|e] ? ? ?; [|done]).
  destruct (wrel_session id w w'11 s) as (s1 & Hs1 & _); [wrel_chain|done|].
  eapply bind_good; [done|done|by apply good_same|]. intros w1 Hw1 Hs1' _.
  eapply wp_record; [done|done|done|]. intros now s2 w2 Hr Hs2 Hw2 _. split; [done|]. intros _.
  apply record_keeps in Hr as (q & dr & n & ->). by eexists.
Qed.

(** How a replay may end. *)
Definition replay_ended (r : res unit) (s : SessionRecord) : Prop :=
  match r with
  | Ok _ => replay_status s = lit "completed" \/
            replay_status s = lit "failed" /\ replay_error s <> None /\
            s_state s <> STARTING
  | Err e => exc_sub (exn_class e) Exception = false /\
             (exc_sub (exn_class e) CancelledError = true -> replay_status s = lit "cancelled")
  end.

Definition replay_post (id : text) (self : tid) (r : res unit) (w : World) : Prop :=
  exists s, session id w = Some s /\ accept_live_input s = true /\ replay_task s <> Some self /\
    replay_ended r s.

Lemma replay_cleanup_contract self id r s tr w :
  world_inv cfg w -> session id w = Some s -> replay_ended r s ->
  swp self (replay_cleanup id)
    (fun tr' r' w' => replay_post id self (match r' with Ok _ => r | Err e => Err e end) w') tr w.
Proof.
  intros Hw Hs He. eapply bind_good; [done|done|by apply good_same|]. intros w1 Hw1 Hs1 _.
  apply wp_bind, wp_current_task. apply wp_modify.
  - intros t _. apply wrel_upd. intros s' _. case_bool_decide; by constructor.
  - eexists. split; [by apply session_upd|].
    case_bool_decide as Ht; (split; [done|]; split; [done|exact He]).
Qed.

Lemma cancelled_not_exception c : exc_sub c CancelledError = true -> exc_sub c Exception = false.
Proof. by destruct c. Qed.

Lemma replay_handler_contract self id e s tr w : world_inv cfg w -> session id w = Some s ->
  swp self (replay_handler cfg id e)
    (fun tr' r' w' => exists s', world_inv cfg w' /\ session id w' = Some s' /\ replay_ended r' s') tr w.
Proof.
  intros Hw Hs. unfold replay_handler.
  destruct (exc_sub (exn_class e) CancelledError) eqn:Ec; [|destruct (exc_sub (exn_class e) Exception) eqn:Ee].
  - eapply bind_good; [done|done|by apply good_same|]. intros w1 Hw1 Hs1 _.
    eapply bind_good; [done|done|by apply good_same|]. intros w2 Hw2 Hs2 _.
    eapply bind_record; [done|done|done|]. intros now s3 w3 Hr Hs3 Hw3 _. apply wp_ret.
    apply record_keeps in Hr as (q & dr & n & E). exists s3. split; [done|]. split; [done|].
    split; [by apply cancelled_not_exception|]. intros _. by subst s3.
  - eapply bind_good; [done|done|by apply good_same|]. intros w1 Hw1 Hs1 _.
    eapply bind_good; [done|done|by apply good_same|]. intros w2 Hw2 Hs2 _.
    eapply bind_read; [done|]. set (s2 := put upd_replay_error _ _) in *.
    apply wp_bind. apply (wp_mono _ _ _ _ _ _ (fun _ r w' => r = Ok tt /\ world_inv cfg w' /\
      exists s', session id w' = Some s' /\ replay_status s' = lit "failed" /\
        replay_error s' <> None /\ s_state s' <> STARTING)).
    + intros tr3 r3 w3 (-> & Hw3 & s3 & Hs3 & H1 & H2 & H3).
      eapply wp_record; [done|done|done|]. intros now s4 w4 Hr Hs4 Hw4 _.
      apply record_keeps in Hr as (q & dr & n & E). exists s4. split; [done|]. split; [done|].
      right. subst s4. split; [exact H1|]. split; [exact H2|exact H3].
    + case_bool_decide as Hst; cbn [when].
      2:{ apply wp_skip. split; [done|]. split; [done|]. by exists s2. }
      eapply bind_good; [done|done|by apply good_same|]. intros w3 Hw3 Hs3 _.
      apply bind_call. intros [[]|e'] Hn; [|by specialize (proj1 Hn eq_refl)].
      apply wp_modify.
      * intros t _. destruct (good_on_session cfg id _ (good_clear_private cfg Hcfg) w3 Hw3). done.
      * split; [done|]. split; [by apply good_on_session; [apply good_clear_private|]|].
        eexists. split; [by apply session_upd|]. rewrite clear_private_state.
        unfold clear_private_session_data, serial_clear. cbn.
        by destruct (serial_buffer s).
  - apply wp_ret. exists s. split; [done|]. split; [done|]. split; [done|congruence].
Qed.

(** C15: however a replay ends, and whatever ran meanwhile, live input is
    enabled again and the session no longer refers to the finished replay; the
    status tells the outcome: completed or failed (with an error, and never
    left starting), or cancelled.  *)
Theorem run_replay_outcome self id actions speed s tr w : world_inv cfg w -> session id w = Some s ->
  swp self (run_replay cfg cwd id actions speed) (fun tr' r w' => replay_post id self r w') tr w.
Proof.
  intros Hw Hs. unfold run_replay.
  eapply bind_good; [done|done|by apply good_same|]. intros w1 Hw1 Hs1 R1.
  eapply bind_good; [done|done|by apply good_same|]. intros w2 Hw2 Hs2 R2.
  apply wp_finally, wp_seq. eapply wp_mono; [|by eapply replay_body_contract].
  intros tr3 [[]|e] w3 (Hw3 & R3 & Hok).
  - destruct (Hok eq_refl) as (s3 & Hs3 & Hst). apply wp_skip.
    apply (replay_cleanup_contract _ _ _ s3); [done|done|by left].
  - destruct (wrel_session id w w3 s) as (s3 & Hs3 & _); [wrel_chain|done|].
    eapply wp_mono; [|by eapply replay_handler_contract].
    intros tr4 r4 w4 (s4 & Hw4 & Hs4 & He). by eapply replay_cleanup_contract.
Qed.

(** ** The live-input gate *)

(** The operations that act on the worker on behalf of a user. *)
Inductive live_input (id : text) : sco unit -> Prop :=
  | LiveSerial b : live_input id (write_serial cfg id b)
  | LiveKey k b : live_input id (send_key cfg id k b)
  | LiveButton k b : live_input id (send_button cfg id k b)
  | LiveImu a g : live_input id (set_imu_sample cfg id a g)
  | LivePower b v c : live_input id (set_power_state cfg id b v c)
  | LivePause : live_input id (pause cfg id)
  | LiveResume : live_input id (resume cfg id)
  | LiveReset : live_input id (reset cfg id).
End Contracts.

