(* ===== verification/ConformanceSafety.v ===== *)
(** * The conformance run under interference

    What [wait_for_text] answers and that it ends; that shutting the manager
    down removes the directory of every session; and that a run of the
    conformance script leaves nothing behind. *)

From Stdlib Require Import Init.Byte.
From S2P Require Import Prelude Text SerialText PyFloat Json Async Boards Firmware Qemu Environment.
From S2P Require Import SessionData Configuration SessionOps SessionSafety SessionContracts Conformance.

(** A manager with the default settings. *)
Definition default_settings : Settings :=
  Settings_defaults (path_of_text (lit "runtime")) (path_of_text (lit "qemu")) (path_of_text (lit "rom")).

(** ** Waiting for serial output *)

Section Waiting.
Context (cfg : Settings) (Hcfg : sane_settings cfg).
Abbreviation swp := (wp s_replies s_answers (world_inv cfg) rely).
Abbreviation strace := (list (event sop sresp)).

(** The clock was read before and after the deadline [timeout]. *)
Definition deadline_passed (timeout : float) (l : strace) : Prop :=
  exists t0 t l0, l = Called LoopTime (Ok t0) :: l0 ++ [Called LoopTime (Ok t)] /\ fltb t (fadd t0 timeout) = false.
(** How a wait ends: with the serial output of that moment, which has enough
    occurrences; because the worker stopped; after the deadline; or because
    sleeping was interrupted. *)
Definition waited (id expected : text) (count : Z) (timeout : float) (l : strace) (r : res text) (w : World) : Prop :=
  match r with
  | Ok output => exists s, session id w = Some s /\ output = serial_text s /\ count <= text_count expected output
  | Err e =>
      (exn_class e = RuntimeError /\ exists s, session id w = Some s /\ s_state s <> RUNNING /\
         text_count expected (serial_text s) < count)
      \/ (exn_class e = TimeoutError /\ deadline_passed timeout l)
      \/ last l = Some (Awaited (Sleep poll_interval) (Err e))
  end.

Lemma wait_for_text_waits id expected count timeout s0 self tr w : world_inv cfg w -> session id w = Some s0 ->
  swp self (wait_for_text id expected count timeout) (fun tr' r w' => world_inv cfg w' /\ wrel w w' /\
    exists l, tr' = tr ++ l /\ Forall (fun e => operation e = LoopTime \/ operation e = Sleep poll_interval) l /\
      waited id expected count timeout l r w') tr w.
Proof.
  intros Hw Hs0. unfold wait_for_text. apply bind_call. intros r [Hr _].
  destruct r as [t0|e]; [|by specialize (Hr eq_refl)].
  set (polling := fun e : event sop sresp => operation e = LoopTime \/ operation e = Sleep poll_interval).
  apply (wp_loop _ _ _ _ (fun _ tr' w' => world_inv cfg w' /\ wrel w w' /\ exists l,
    tr' = tr ++ Called LoopTime (Ok t0) :: l /\ Forall polling l)).
  { split; [done|]. split; [reflexivity|]. by exists []. }
  intros [] tr1 w1 (Hw1 & R1 & l & -> & Hl). unfold wait_round. apply bind_call. intros r [Hr' _].
  destruct r as [t|e]; [|by specialize (Hr' eq_refl)].
  destruct (wrel_session id w w1 s0 R1 Hs0) as (s & Hs & _). apply (bind_read cfg _ _ s); [done|].
  assert ((tr ++ Called LoopTime (Ok t0) :: l) ++ [Called LoopTime (Ok t)]
    = tr ++ Called LoopTime (Ok t0) :: l ++ [Called LoopTime (Ok t)]) as -> by (by rewrite <- app_assoc).
  assert (Forall polling (l ++ [Called LoopTime (Ok t)])) as Hl1 by (apply Forall_app_2; repeat constructor; auto).
  assert (Forall polling (Called LoopTime (Ok t0) :: l ++ [Called LoopTime (Ok t)])) as Hl2 by (constructor; [by left|done]).
  cbv zeta. destruct (fltb t _) eqn:Et.
  - destruct (Z.leb_spec count (text_count expected (serial_text s))) as [Hc|Hc].
    + split; [done|]. split; [done|]. eexists. split; [done|]. split; [done|]. by exists s.
    + case_bool_decide as Hst; cbn [negb].
      * apply bind_await; [done|]. intros r w2 w3 R2 Hw2 ->.
        assert (forall x : res unit, Forall polling ((l ++ [Called LoopTime (Ok t)]) ++ [Awaited (Sleep poll_interval) x])) as Hl3
          by (intros x; apply Forall_app_2; [done|repeat constructor; by right]).
        destruct r as [[]|e]; rewrite <- app_assoc; cbn [app];
          (split; [done|]); (split; [by etrans|]); eexists; (split; [done|]); [done|].
        split; [constructor; [by left|done]|]. right. right. by rewrite last_cons, last_snoc.
      * split; [done|]. split; [done|]. eexists. split; [done|]. split; [done|]. left. split; [done|]. by exists s.
  - split; [done|]. split; [done|]. eexists. split; [done|]. split; [done|]. right. left. split; [done|].
    by exists t0, t, l.
Qed.
End Waiting.

(** ** Waiting ends *)

(** A clock and what the other tasks make of the heap, by the number of
    readings of the clock so far. *)
Definition poller (clock : nat -> float) (heap_at : nat -> World) : handler World sop sresp nat :=
  let answer (o : sop) (n : nat) : res (sresp o) * nat :=
    match o return res (sresp o) * nat with
    | LoopTime => (Ok (clock n), S n)
    | Sleep _ => (Ok tt, n)
    | _ => (raise RuntimeError [], n)
    end in
  mkHandler (fun o n _ => answer o n) (fun o n _ => (answer o n, heap_at n)) 0%nat (fun _ n => (1%nat, n)).

Section Ending.
Context (clock : nat -> float) (heap_at : nat -> World) (id expected : text) (count : Z) (timeout : float).
Abbreviation deadline := (fadd (clock 0%nat) timeout).

(** The [k]-th look at the session decides. *)
Definition decides (k : nat) : Prop :=
  fltb (clock k) deadline = false \/ exists s, session id (heap_at k) = Some s /\
    (count <= text_count expected (serial_text s) \/ s_state s <> RUNNING).
Definition decision (k : nat) (r : res text) : Prop :=
  exists s, session id (heap_at k) = Some s /\
    match r with
    | Ok output => output = serial_text s /\ count <= text_count expected output /\ fltb (clock k) deadline = true
    | Err e => if fltb (clock k) deadline then
                 exn_class e = RuntimeError /\ s_state s <> RUNNING /\ text_count expected (serial_text s) < count
               else exn_class e = TimeoutError
    end.

Lemma wait_rounds fuel n m k : fltb (clock n) deadline = false ->
  (forall j, (1 <= j <= n)%nat -> is_Some (session id (heap_at j))) -> (1 <= k <= n)%nat -> (n < k + m)%nat ->
  (forall j, (1 <= j < k)%nat -> ~ decides j) ->
  exists r k', rounds (poller clock heap_at) fuel m (wait_round id expected count deadline) Ret tt k (heap_at k) = Some (r, S k', heap_at k') /\
    (1 <= k' <= n)%nat /\ decides k' /\ (forall j, (1 <= j < k')%nat -> ~ decides j) /\ decision k' r.
Proof.
  intros Hn Hs. revert k.
  induction m as [|m IH]; intros k Hk Hm Hprev; [lia|]. cbn [rounds]. unfold wait_round at 1.
  destruct (Hs k Hk) as [s E]. cbn [Async.run scall call mbind co_bind seq poller h_call read].
  rewrite E. cbn [of_option seq Async.run]. cbv zeta.
  assert (forall r : res text, decides k -> decision k r -> exists r0 k', Some (r, S k, heap_at k) = Some (r0, S k', heap_at k') /\
    (1 <= k' <= n)%nat /\ decides k' /\ (forall j, (1 <= j < k')%nat -> ~ decides j) /\ decision k' r0) as Hend
    by (intros r Hd Hr; exists r, k; split_and!; done || lia).
  destruct (fltb (clock k) deadline) eqn:Et.
  - destruct (Z.leb_spec count (text_count expected (serial_text s))) as [Hc|Hc].
    + apply (Hend (Ok (serial_text s))); [right; exists s; auto|]. exists s. split_and!; done.
    + case_bool_decide as Hst; cbn [negb].
      * cbn [Async.run sawait await mbind co_bind seq poller h_await mret co_ret].
        assert (k <> n) by congruence. apply IH; [lia|lia|]. intros j Hj.
        destruct (decide (j = k)) as [->|]; [|apply Hprev; lia].
        intros [Hd|(s' & Es & [Hd|Hd])]; [congruence| |]; rewrite E in Es; injection Es as <-; [lia|done].
      * apply (Hend (Err _)); [right; exists s; auto|]. exists s. split; [done|]. by rewrite Et.
  - apply (Hend (Err _)); [by left|]. exists s. split; [done|]. by rewrite Et.
Qed.

(** C21: waiting for serial output ends at the first look that decides.  If the
    clock has passed the deadline at its [n]-th reading, then whatever the
    other tasks do to the session meanwhile, the wait looks at most [n]
    times: it ends at the first look at which the deadline has passed, the
    text is there often enough, or the worker no longer runs, with the output
    of that moment, with RuntimeError or with TimeoutError accordingly. *)
Theorem wait_for_text_terminates n fuel : fltb (clock n) deadline = false -> (1 <= n < fuel)%nat ->
  (forall j, (1 <= j <= n)%nat -> is_Some (session id (heap_at j))) ->
  exists r k, Async.run (poller clock heap_at) fuel (wait_for_text id expected count timeout) 0%nat (heap_at 1%nat)
      = Some (r, S k, heap_at k) /\
    (1 <= k <= n)%nat /\ decides k /\ (forall j, (1 <= j < k)%nat -> ~ decides j) /\ decision k r.
Proof.
  intros Hn Hf Hs. unfold wait_for_text. rewrite run_bind. cbn [Async.run scall call poller h_call].
  rewrite run_loop. apply (wait_rounds fuel n); [exact Hn|exact Hs|lia|lia|]. intros j Hj. lia.
Qed.
End Ending.

(** A board that says one word more at every look, on a clock that ticks once
    a second. *)
Definition talker (k : nat) : World :=
  set_sessions [(lit "s1", foldr serial_append (put upd_state RUNNING
    (new_session default_settings (lit "s1") (mkBoard (lit "demo") [] [] 0 0 (mkDisplay [] 0 0 [] 0) [])
      ([], mkFirmware 0 0 [] [] 0 0) 0 0)) (replicate k (blit "word")))] World_init.
Definition tick (k : nat) : float := float_of_int (Z.of_nat k).
Lemma wait_for_text_terminates_witness : exists r k,
  Async.run (poller tick talker) 9 (wait_for_text (lit "s1") (lit "word") 3 eight) 0%nat (talker 1) = Some (r, S k, talker k) /\
  decision tick talker (lit "s1") (lit "word") 3 eight k r.
Proof.
  destruct (wait_for_text_terminates tick talker (lit "s1") (lit "word") 3 eight 8 9) as (r & k & Hrun & _ & _ & _ & Hd).
  - vm_compute. reflexivity.
  - split; repeat constructor.
  - intros j _. eexists. reflexivity.
  - exists r, k. split; [exact Hrun|exact Hd].
Defined.

(** ** What a run leaves behind *)

(** What the checks return, however they get there. *)
Lemma wait_for_text_yields id expected count timeout :
  yields (fun output => count <= text_count expected output) (wait_for_text id expected count timeout).
Proof.
  unfold wait_for_text. apply (yields_bind (fun _ => True)); [apply yields_any|]. intros t0 _.
  apply yields_loop. intros []. apply (yields_bind (fun _ => True)); [apply yields_any|]. intros t _.
  apply (yields_bind (fun _ => True)); [apply yields_any|]. intros s _. cbv zeta.
  destruct (fltb t _); [|by intros a]. destruct (Z.leb_spec count (text_count expected (serial_text s))).
  - by intros a [= <-].
  - destruct (negb _); [by intros a|]. by intros [] x [= <-].
Qed.
Lemma wait_for_trace_types_yields id expected timeout :
  yields (fun types => forall t, t ∈ expected -> t ∈ types) (wait_for_trace_types id expected timeout).
Proof.
  unfold wait_for_trace_types. apply (yields_bind (fun _ => True)); [apply yields_any|]. intros t0 _.
  apply yields_loop. intros j. apply (yields_bind (fun _ => True)); [apply yields_any|]. intros t _.
  destruct (fltb t _); [|by intros ?].
  apply (yields_bind (fun _ => True)); [apply yields_any|]. intros s _. cbv zeta.
  destruct (forallb _ expected) eqn:E; [|destruct (negb _); [by intros a|by intros [] x [= <-]]].
  intros a [= <-] t' Ht'. rewrite forallb_forall in E. apply (bool_decide_eq_true_1 _), E. by apply list_elem_of_In.
Qed.
Ltac yields_skip := apply (yields_bind (fun _ => True)); [apply yields_any|intros ? _].
Lemma check_power_yields cfg cwd board id n : yields (fun n' => n' = n + 2) (check_power cwd cfg board id n).
Proof. unfold check_power. cbv zeta. do 16 yields_skip. intros n' [= <-]. lia. Qed.
Lemma check_replay_yields cfg cwd id n types :
  yields (fun output => 1 <= text_count (nvs_line n) output) (check_replay cwd cfg id n types).
Proof.
  unfold check_replay. cbv zeta. do 8 yields_skip. eapply yields_bind; [apply wait_for_text_yields|]. intros output Ho.
  cbn beta in Ho. do 5 yields_skip. by intros o [= <-].
Qed.

Section Passing.
Context (cwd : list text) (cfg : Settings) (Hcfg : sane_settings cfg).
Context (board : BoardProfile) (qmp : bool) (id : text) (self : tid).
Abbreviation swp := (wp s_replies s_answers (world_inv cfg) rely).

(** What a run that passes has done: it printed the types of the traces it
    had seen, all the expected ones among them; it printed serial output in
    which the flash had counted every boot; and after the verdict it removed
    the directory of its session and saw that it was gone. *)
Definition passed (l : list (event sop sresp)) (w : World) : Prop :=
  exists types output s fs l1 l2 l3 l4,
    l = l1 ++ Called (Print (trace_line types)) (Ok tt)
        :: l2 ++ Called (Print output) (Ok tt) :: Called (Print PASSED) (Ok tt)
        :: l3 ++ Called (Rmtree (runtime_directory s)) (Ok tt) :: Called FileSystem (Ok fs) :: l4 /\
    (forall t, t ∈ boot_types board -> t ∈ types) /\
    (exists before after, output = before ++ nvs_line (if qmp then 4 else 2) ++ after) /\
    session id w = Some s /\ exists_ fs (runtime_directory s) = false.
Definition passing (tr tr' : list (event sop sresp)) (r : res unit) (w : World) : Prop :=
  r = Ok tt -> exists l, tr' = tr ++ l /\ passed l w.

(** What comes before and after does not matter. *)
Lemma passed_app l0 l l5 w w' : wrel w w' -> passed l w -> passed (l0 ++ l ++ l5) w'.
Proof.
  intros R (types & output & s & fs & l1 & l2 & l3 & l4 & -> & Ht & Ho & Hs & He).
  destruct (wrel_session id w w' s R Hs) as (s' & Hs' & S).
  exists types, output, s', fs, (l0 ++ l1), l2, l3, (l4 ++ l5). rewrite (rel_directory _ _ S).
  split; [|done]. by repeat (rewrite <- app_assoc; cbn [app]).
Qed.

Lemma bind_result {A} (m : sco A) (P : A -> Prop) (k : A -> sco unit) tr tr0 w :
  keeps cfg m -> yields P m -> world_inv cfg w ->
  (forall a l w', P a -> world_inv cfg w' -> wrel w w' -> swp self (k a) (fun tr' r w' => passing tr0 tr' r w') (tr ++ l) w') ->
  swp self (m ≫= k) (fun tr' r w' => passing tr0 tr' r w') tr w.
Proof.
  intros Hm HP Hw H. apply wp_bind.
  eapply wp_mono; [|apply wp_yields; [exact HP|
    apply (keeps_run cfg self m (fun tr' _ w' => world_inv cfg w' /\ wrel w w' /\ exists l, tr' = tr ++ l)); [done|done|by eauto]]].
  intros tr' [a|e] w' [(Hw' & R & l & ->) Ha]; [|done]. apply H; auto.
Qed.
Lemma bind_any {A} (m : sco A) (k : A -> sco unit) tr tr0 w : keeps cfg m -> world_inv cfg w ->
  (forall a l w', world_inv cfg w' -> wrel w w' -> swp self (k a) (fun tr' r w' => passing tr0 tr' r w') (tr ++ l) w') ->
  swp self (m ≫= k) (fun tr' r w' => passing tr0 tr' r w') tr w.
Proof. intros Hm Hw H. apply (bind_result _ (fun _ => True)); [done|apply yields_any|done|auto]. Qed.

Lemma keeps_wait_for_text i expected count timeout : keeps cfg (wait_for_text i expected count timeout).
Proof. unfold wait_for_text, wait_round, failed, throw. solve_keeps. Qed.
Lemma keeps_wait_for_types i expected timeout : keeps cfg (wait_for_trace_types i expected timeout).
Proof. unfold wait_for_trace_types, failed, throw. solve_keeps. Qed.
#[local] Hint Resolve keeps_wait_for_text keeps_wait_for_types : keeps.
Lemma keeps_expect i t : keeps cfg (expect i t).
Proof. unfold expect, skip. solve_keeps. Qed.
Lemma keeps_expect_heartbeats i n : keeps cfg (expect_heartbeats i n).
Proof. unfold expect_heartbeats, skip. solve_keeps. Qed.
Lemma keeps_expect_types i ts : keeps cfg (expect_types i ts).
Proof. unfold expect_types, skip. solve_keeps. Qed.
Lemma keeps_require b m : keeps cfg (require b m).
Proof. unfold require, failed, throw, skip. solve_keeps. Qed.
#[local] Hint Resolve keeps_expect keeps_expect_heartbeats keeps_expect_types keeps_require : keeps.
Lemma keeps_in_state i st m : keeps cfg (in_state i st m).
Proof. unfold in_state. solve_keeps. Qed.
Lemma keeps_pause_for ms : keeps cfg (pause_for ms).
Proof. unfold pause_for. solve_keeps. Qed.
#[local] Hint Resolve keeps_in_state keeps_pause_for : keeps.
Lemma keeps_debugger : keeps cfg (check_debugger cfg id).
Proof. unfold check_debugger, failed, throw. solve_keeps. Qed.
Lemma keeps_framebuffer : keeps cfg (check_framebuffer cfg board id).
Proof. unfold check_framebuffer, expect_pixel, lift. cbv zeta. solve_keeps. Qed.
Lemma keeps_inputs : keeps cfg (check_inputs cfg board id).
Proof. unfold check_inputs, press_key, press_button. solve_keeps. Qed.
#[local] Hint Resolve keeps_debugger keeps_framebuffer keeps_inputs : keeps.
Lemma keeps_controls types : keeps cfg (check_controls cfg board id types).
Proof. unfold check_controls. solve_keeps. Qed.
Lemma keeps_power n : keeps cfg (check_power cwd cfg board id n).
Proof. unfold check_power. cbv zeta. solve_keeps. Qed.
Lemma keeps_replay n types : keeps cfg (check_replay cwd cfg id n types).
Proof. unfold check_replay, await_replay, failed, throw, lift. cbv zeta. solve_keeps. Qed.
#[local] Hint Resolve keeps_controls keeps_power keeps_replay : keeps.

Ltac pass_by := apply bind_any; [solve_keeps|done|intros ? ? ? ? ?].
Lemma wp_print t (k : sco unit) tr tr0 w :
  swp self k (fun tr' r w' => passing tr0 tr' r w') (tr ++ [Called (Print t) (Ok tt)]) w ->
  swp self (scall (Print t) ≫= fun _ => k) (fun tr' r w' => passing tr0 tr' r w') tr w.
Proof. intros H. apply bind_call. by intros [[]|e] _. Qed.

(** The line of the traces has been printed. *)
Definition traced (types : list text) (tr0 tr : list (event sop sresp)) : Prop :=
  exists l1 l2, tr = tr0 ++ l1 ++ Called (Print (trace_line types)) (Ok tt) :: l2.
Lemma traced_here types tr0 l : traced types tr0 ((tr0 ++ l) ++ [Called (Print (trace_line types)) (Ok tt)]).
Proof. exists l, []. by rewrite <- app_assoc. Qed.
Lemma traced_app types tr0 tr l : traced types tr0 tr -> traced types tr0 (tr ++ l).
Proof. intros (l1 & l2 & ->). exists l1, (l2 ++ l). by repeat (rewrite <- app_assoc; cbn [app]). Qed.

(** The end of [check_session]: the verdict and the clean-up. *)
Lemma verdict_passes output tr tr0 types w : world_inv cfg w -> traced types tr0 tr ->
  (forall t, t ∈ boot_types board -> t ∈ types) -> 1 <= text_count (nvs_line (if qmp then 4 else 2)) output ->
  swp self (scall (Print output) ≫= fun _ =>
    scall (Print PASSED) ≫= fun _ =>
    stop cfg id false ≫= fun _ =>
    s ← read id;
    fs ← scall FileSystem;
    require (negb (exists_ fs (runtime_directory s))) (lit "session runtime directory was not removed"))
    (fun tr' r w' => passing tr0 tr' r w') tr w.
Proof.
  intros Hw (l1 & l2 & ->) Ht Ho%text_count_occurs; [|done]. apply wp_print, wp_print. apply wp_bind.
  destruct (session id w) as [s|] eqn:Hs.
  2:{ unfold stop. apply wp_bind. unfold read. cbn [wp]. by rewrite Hs. }
  eapply wp_mono; [|by apply (stop_run cfg Hcfg self id false s)].
  intros tr' [id'|e] w' H; [|done]. destruct (H id' eq_refl) as (l & -> & s' & e & l0 & Hs' & _ & _ & _ & _ & _ & Hsr & ->).
  apply (bind_read cfg _ _ s'); [done|]. apply bind_call. intros [fs|e'] _; [|done].
  unfold require. destruct (exists_ fs (runtime_directory s')) eqn:Efs; cbn [negb wp]; [done|].
  intros _. eexists. rewrite <- !app_assoc. split; [reflexivity|].
  exists types, output, s', fs, l1, l2, l0, []. split; [|done]. rewrite (rel_directory _ _ Hsr).
  by repeat (rewrite <- app_assoc; cbn [app]).
Qed.

Lemma check_session_passes tr w : world_inv cfg w ->
  swp self (check_session cwd cfg board qmp id) (fun tr' r w' => passing tr tr' r w') tr w.
Proof.
  intros Hw. unfold check_session. do 2 pass_by.
  eapply bind_result; [solve_keeps|apply wait_for_trace_types_yields|done|]. intros types lt w1 Ht Hw1 R1.
  apply wp_print. assert (traced types tr ((((tr ++ l) ++ l0) ++ lt) ++ [Called (Print (trace_line types)) (Ok tt)])) as Htr.
  { rewrite <- 2(app_assoc tr). apply traced_here. }
  revert Htr. generalize ((((tr ++ l) ++ l0) ++ lt) ++ [Called (Print (trace_line types)) (Ok tt)]) as tr1. intros tr1 Htr.
  cbv zeta. do 3 pass_by.
  apply (bind_result _ (fun n => n + 1 = if qmp then 4 else 2)); [destruct qmp; solve_keeps| |done|].
  { destruct qmp; [|by intros n [= <-]].
    eapply (yields_mono (fun n => n = 1 + 2)); [|apply check_power_yields]. intros n. lia. }
  intros n ? ? Hn ? ?. do 2 pass_by.
  eapply bind_result; [solve_keeps|apply wait_for_text_yields|done|]. intros output ? ? Ho ? ?. pass_by.
  apply (bind_result _ (fun output => 1 <= text_count (nvs_line (n + 1)) output)); [destruct qmp; solve_keeps| |done|].
  { destruct qmp; [apply check_replay_yields|]. by intros o [= <-]. }
  intros output' ? ? Ho' ? ?. rewrite Hn in Ho'. apply (verdict_passes output' _ _ types); [done| |done|done].
  by repeat apply traced_app.
Qed.
Lemma keeps_check_session : keeps cfg (check_session cwd cfg board qmp id).
Proof. unfold check_session. cbv zeta. solve_keeps. Qed.
End Passing.

(** The body of the [try]. *)
Lemma session_passes cwd cfg (Hcfg : sane_settings cfg) board args self tr w : world_inv cfg w ->
  wp s_replies s_answers (world_inv cfg) rely self (
    firmware ← scall (ReadBytes (a_firmware args));
    id ← create cfg cwd board firmware;
    check_session cwd cfg board (a_qmp args) id) (fun tr' r w' => world_inv cfg w' /\ wrel w w' /\
      exists l, tr' = tr ++ l /\ (r = Ok tt -> exists id, passed board (a_qmp args) id l w')) tr w.
Proof.
  intros Hw. apply bind_run; [by apply keeps_call|done|]. intros l1 [firmware|e] w1 Hw1 R1; [|split; [done|]; split; [done|]; by exists l1].
  apply bind_run; [by apply keeps_create|done|]. intros l2 [id|e] w2 Hw2 R2.
  2:{ split; [done|]. split; [by etrans|]. exists (l1 ++ l2). by rewrite app_assoc. }
  eapply wp_both; [by apply keeps_check_session|done|by apply check_session_passes|].
  intros l3 r w3 Hw3 R3 HP. split; [done|]. split; [wrel_chain|]. exists (l1 ++ l2 ++ l3).
  split; [by rewrite !app_assoc|]. intros Hr. destruct (HP Hr) as (l & ->%app_inv_head & Hl). exists id.
  rewrite app_assoc. rewrite <- (app_nil_r l), (app_assoc _ l). rewrite <- app_assoc.
  by apply (passed_app board (a_qmp args) id (l1 ++ l2) l [] w3 w3).
Qed.

(** ** The run *)

Section Running.
Context (cwd : list text) (resolve : path -> res path) (args : RunArguments).

(** The invariant of a manager with the default bounds, which the run keeps. *)
Definition default_inv : World -> Prop := world_inv default_settings.

Lemma world_inv_limits c c' w : max_recording_events c = max_recording_events c' ->
  max_trace_events_per_generation c = max_trace_events_per_generation c' -> world_inv c w -> world_inv c' w.
Proof.
  intros E1 E2 [Hs Hq]. split; [|done]. intros id s Hid. destruct (Hs id s Hid) as [Hi []]. split; [done|].
  constructor; rewrite <- ?E1, <- ?E2; done.
Qed.
Lemma conformance_inv root cfg : conformance_settings cwd resolve root args = Ok cfg ->
  sane_settings cfg /\ forall w, world_inv cfg w <-> default_inv w.
Proof.
  intros H. assert (max_recording_events cfg = max_recording_events default_settings /\
    max_trace_events_per_generation cfg = max_trace_events_per_generation default_settings) as [E1 E2].
  { unfold conformance_settings in H. destruct (resolve (a_qemu args)), (resolve (a_rom_directory args)),
      (WorkerSandboxMode_of (a_sandbox args)), (resolve (a_sandbox_executable args)); try discriminate H.
    by apply Ok_inj in H as <-. }
  split; [unfold sane_settings; rewrite E1, E2; vm_compute; split; discriminate|].
  intros w. split; apply world_inv_limits; done.
Qed.

Abbreviation dwp := (wp s_replies s_answers default_inv rely).

(** The body: once the manager has started it is closed, and a body that
    passes has passed all checks. *)
Lemma run_in_passes self root board tr w : default_inv w ->
  dwp self (run_in cwd resolve root board args) (fun tr' r w' => exists l, tr' = tr ++ l /\
    (r = Ok tt -> exists id, passed board (a_qmp args) id l w')) tr w.
Proof.
  intros Hw. unfold run_in. destruct (conformance_settings cwd resolve root args) as [cfg|e] eqn:Ecfg.
  2:{ exists []. by rewrite app_nil_r. }
  destruct (conformance_inv root cfg Ecfg) as [Hcfg HI].
  apply (wp_same_inv _ _ (world_inv cfg)); [exact HI|]. apply HI in Hw. clear HI Ecfg.
  change (lift (Ok cfg) ≫= ?k) with (k cfg).
  apply bind_run; [by apply keeps_start|done|]. intros l1 [[]|e] w1 Hw1 R1; [|by exists l1].
  apply wp_finally. eapply wp_mono; [|by apply session_passes].
  intros tr2 r2 w2 (Hw2 & R2 & l2 & -> & HP).
  eapply wp_both; [by apply keeps_close|done|by apply keeps_close|].
  intros l3 r3 w3 _ R3 _. exists (l1 ++ l2 ++ l3). split; [by rewrite !app_assoc|].
  intros Hr. destruct r3 as [u|e]; [|done]. destruct (HP Hr) as [id Hid]. exists id.
  by eapply passed_app.
Qed.

End Running.

(** On the empty manager. *)
Definition demo_arguments : RunArguments :=
  mkRunArguments (path_of_text (lit "/qemu")) (path_of_text (lit "/rom")) (path_of_text (lit "/image"))
    (lit "sticks3") (lit "direct") (path_of_text (lit "/bwrap")) None true.
