(* ===== verification/SessionFidelity.v ===== *)
(** * Power cycles, replays and the worker

    What reaches the worker: a power cycle leaves the flash image alone, a
    replay starts from the uploaded baseline, and a replayed input sends the
    worker exactly what the live input sent. *)

From Stdlib Require Import Init.Byte.
From S2P Require Import Prelude Text PyFloat Json Sha256 Async Boards Firmware Framebuffer Inputs.
From S2P Require Import Recording Tracing Qemu BrokerProtocol SessionData SessionOps SessionSafety.
From S2P Require Import SessionContracts.

#[local] Opaque sha256_hexdigest.

(** ** Coroutines that leave the file system alone *)

Definition no_file_call (o : sop) : Prop := match o with Fs _ => False | _ => True end.

Section Fidelity.
Context (cfg : Settings) (cwd : list text).

Lemma uses_when_some {A} (o : option A) f :
  (forall a, uses no_file_call (f a)) -> uses no_file_call (when_some o f).
Proof. intros Hf. destruct o; [apply Hf|exact I]. Qed.
#[local] Hint Resolve uses_when_some : uses.
Lemma uses_close_debugger id : uses no_file_call (close_debugger id).
Proof. unfold close_debugger, when_some. uses_tac. Qed.
#[local] Hint Resolve uses_close_debugger : uses.
Lemma uses_terminate id : uses no_file_call (terminate_worker id).
Proof. unfold terminate_worker, gather_other, when_some. uses_tac. Qed.
#[local] Hint Resolve uses_terminate : uses.
Lemma uses_record id c t src d : uses no_file_call (record cfg id c t src d).
Proof. unfold record, apply. uses_tac. Qed.
Lemma uses_append id a : uses no_file_call (append_action cfg id a).
Proof. unfold append_action, apply. uses_tac. Qed.
Lemma uses_wait id p : uses no_file_call (wait_for_qmp_running cfg id p).
Proof. unfold wait_for_qmp_running. uses_tac. Qed.
#[local] Hint Resolve uses_record uses_append uses_wait : uses.
Lemma uses_launch id : uses no_file_call (launch cfg cwd id).
Proof. unfold launch, launch_local_worker. uses_tac. Qed.
Lemma uses_restore id : uses no_file_call (restore_virtual_environment cfg id).
Proof. unfold restore_virtual_environment, with_qmp, execute_qmp, when_some. uses_tac. Qed.
Lemma uses_unlink s : uses no_file_call (unlink_sockets s).
Proof. unfold unlink_sockets. uses_tac. Qed.
#[local] Hint Resolve uses_launch uses_restore uses_unlink : uses.
Lemma uses_power_off id : uses no_file_call (power_off_worker id).
Proof. unfold power_off_worker, publish. uses_tac. Qed.
Lemma uses_power_on id : uses no_file_call (power_on_worker cfg cwd id).
Proof. unfold power_on_worker, publish, clear_private. uses_tac. Qed.
#[local] Hint Resolve uses_power_off uses_power_on : uses.
Lemma uses_apply_replay id a : uses no_file_call (apply_replay_action cfg cwd id a).
Proof.
  unfold apply_replay_action, offset, write_stdin, send_replayed, with_qmp, execute_qmp, lift. uses_tac.
Qed.
#[local] Hint Resolve uses_apply_replay : uses.
Lemma uses_replay_one id v t a : uses no_file_call (replay_one cfg cwd id v t a).
Proof. unfold replay_one. uses_tac. Qed.

Context (Hcfg : sane_settings cfg).
Abbreviation swp := (wp s_replies s_answers (world_inv cfg) rely).

Lemma no_calls l : Forall (fun e => no_file_call (operation e)) l -> fs_calls l = [].
Proof.
  induction 1 as [|e l He _ IH]; [done|]. destruct e as [o r|o r]; [|exact IH]. destruct o; first [exact IH | destruct He].
Qed.
(** A quiet coroutine adds no file-system call to the trace. *)
Lemma wp_quiet self {A} (m : sco A) Q tr w :
  uses no_file_call m -> keeps cfg m -> world_inv cfg w ->
  (forall tr' r w', world_inv cfg w' -> wrel w w' -> fs_calls tr' = fs_calls tr -> Q tr' r w') ->
  swp self m Q tr w.
Proof.
  intros Hu Hk Hw H. eapply wp_mono; [|apply wp_uses; [exact Hu|]].
  2:{ apply (keeps_rel _ _ _ (fun _ _ w' => world_inv cfg w' /\ wrel w w')); [done|done|].
      intros tr' r w' H1 H2. exact (conj H1 H2). }
  intros tr' r w' [[H1 H2] (l & -> & Hl)]. apply H; [done|done|].
  by rewrite fs_calls_app, (no_calls l Hl), app_nil_r.
Qed.
Lemma bind_quiet self {A B} (m : sco A) (k : A -> sco B) Q tr w :
  uses no_file_call m -> keeps cfg m -> world_inv cfg w ->
  (forall tr' r w', world_inv cfg w' -> wrel w w' -> fs_calls tr' = fs_calls tr ->
     match r with Ok a => swp self (k a) Q tr' w' | Err e => Q tr' (Err e) w' end) ->
  swp self (m ≫= k) Q tr w.
Proof.
  intros Hu Hk Hw H. apply wp_bind, wp_quiet; [done|done|done|]. intros tr' r w' H1 H2 H3.
  specialize (H tr' r w' H1 H2 H3). by destruct r.
Qed.
Lemma bind_file self {A} c (k : unit -> sco A) (Q : _ -> res A -> World -> Prop) tr w :
  (forall tr', fs_calls tr' = fs_calls tr ++ [c] -> swp self (k tt) Q tr' w) ->
  (forall tr' e, Q tr' (Err e) w) -> swp self (scall (Fs c) ≫= k) Q tr w.
Proof.
  intros H He. apply bind_call. intros [[]|e] _; [|apply He]. apply H. by rewrite fs_calls_app.
Qed.

Lemma uses_call o : no_file_call o -> uses no_file_call (scall o).
Proof. done. Qed.
Lemma uses_upd id f : uses no_file_call (upd id f).
Proof. done. Qed.
Lemma uses_read id : uses no_file_call (read id).
Proof. done. Qed.

#[local] Hint Resolve uses_call uses_upd uses_read uses_replay_one : uses.
Ltac replay_keeps :=
  repeat (intros; first [solve [solve_keeps] | by apply keeps_upd, good_reset_for_replay
    | by apply keeps_upd, good_new_generation | apply keeps_bind]).

(** The flash image a replay starts from: the padded upload, unless the
    session's private data were erased meanwhile. *)
Definition baseline (s : SessionRecord) (image : bytes) : Prop :=
  image = [] \/ sha256_hexdigest image = flash_sha256 (s_firmware s).

Lemma replay_baseline self id actions speed s tr w : world_inv cfg w -> session id w = Some s ->
  swp self (replay_body cfg cwd id actions speed) (fun tr' r w' => r = Ok tt ->
    exists image, baseline s image /\ fs_calls tr' = fs_calls tr ++
      [FsWrite (path_str (flash_path s)) image; FsChmod (path_str (flash_path s)) (oct "600")]) tr w.
Proof.
  intros Hw Hs. unfold replay_body.
  apply bind_quiet; [apply uses_terminate|solve_keeps|done|]. intros tr1 [[]|e] w1 Hw1 R1 E1; [|done].
  destruct (wrel_session id w w1 s R1 Hs) as (s1 & Hs1 & Hrel).
  eapply bind_read; [done|].
  apply bind_quiet; [by apply uses_call|solve_keeps|done|]. intros tr2 [[]|e] w2 Hw2 R2 E2; [|done].
  apply bind_file; [|done]. intros tr3 E3. apply bind_file; [|done]. intros tr4 E4.
  assert (baseline s (initial_flash_image s1)) as Hb.
  { destruct (inv_image _ _ (proj2 (inv_sessions _ _ Hw1 id s1 Hs1))) as [->|Hi]; [by left|right].
    by rewrite <- (rel_firmware _ _ Hrel). }
  rewrite <- (rel_flash _ _ Hrel). apply wp_quiet; [uses_tac|replay_keeps|done|].
  intros tr5 r5 w5 _ _ E5 _. exists (initial_flash_image s1). split; [exact Hb|].
  by rewrite E5, E4, E3, E2, E1, <- app_assoc.
Qed.

(** ** What the worker receives *)

(** Bytes on its standard input and QMP commands, in order. *)
Inductive effect := StdinBytes (b : bytes) | QmpCommand (command : text) (arguments : option json).
Definition effects (tr : list (event sop sresp)) : list effect :=
  omap (fun e => match e with
                 | Called (StdinWrite _ b) (Ok _) => Some (StdinBytes b)
                 | Awaited (ExecuteQmp _ c a _) _ => Some (QmpCommand c a)
                 | _ => None
                 end) tr.
Lemma effects_app l1 l2 : effects (l1 ++ l2) = effects l1 ++ effects l2.
Proof. apply omap_app. Qed.

(** The meaning of an input on a board, live or recorded. *)
Definition wire (board : BoardProfile) (type : action_type) (payload : action_payload) : res (list effect) :=
  match type, payload with
  | ASerial, PBytes b => Ok [StdinBytes b]
  | AKey, PPress key pressed =>
      a ← qmp_key_event board key pressed; Ok [QmpCommand (lit "input-send-event") (Some a)]
  | AButton, PPress button pressed =>
      a ← qmp_button_event board button pressed; Ok [QmpCommand (lit "qom-set") (Some a)]
  | AImu, PImu acc gyro =>
      a ← qmp_imu_sample board acc gyro; Ok [QmpCommand (lit "qom-set") (Some a)]
  | APower, PPower battery vin charging =>
      a ← qmp_power_state board battery vin charging; Ok [QmpCommand (lit "qom-set") (Some a)]
  | AReset, PNone => Ok [QmpCommand (lit "system_reset") None]
  | _, _ => raise TypeError []
  end.
(** Its public description in the event log. *)
Definition public_data (type : action_type) (payload : action_payload) : list (text * json) :=
  match type, payload with
  | ASerial, PBytes b => serial_metadata b
  | AKey, PPress key pressed => press_data "key" key pressed
  | AButton, PPress button pressed => press_data "button" button pressed
  | AImu, PImu acc gyro => imu_data acc gyro
  | APower, PPower battery vin charging => power_data battery vin charging
  | _, _ => []
  end.
(** The live operation that records the action. *)
Definition live_operation (id : text) (type : action_type) (payload : action_payload) : option (sco unit) :=
  match type, payload with
  | ASerial, PBytes b => Some (write_serial cfg id b)
  | AKey, PPress key pressed => Some (send_key cfg id key pressed)
  | AButton, PPress button pressed => Some (send_button cfg id button pressed)
  | AImu, PImu acc gyro => Some (set_imu_sample cfg id acc gyro)
  | APower, PPower battery vin charging => Some (set_power_state cfg id battery vin charging)
  | AReset, PNone => Some (reset cfg id)
  | _, _ => None
  end.

(** [m] sends one QMP command and touches nothing the invariant mentions. *)
Definition sends (id : text) {A} (m : sco A) (command : text) (arguments : option json) : Prop :=
  forall self (Q : _ -> res A -> World -> Prop) tr w s,
    world_inv cfg w -> session id w = Some s ->
    (forall tr' a w', world_inv cfg w' -> wrel w w' ->
       effects tr' = effects tr ++ [QmpCommand command arguments] -> Q tr' (Ok a) w') ->
    (forall tr' e w', Q tr' (Err e) w') -> swp self m Q tr w.

Lemma sends_execute id socket command arguments :
  sends id (execute_qmp socket command arguments) (lit command) arguments.
Proof.
  intros self Q tr w s Hw Hs HQ He. apply s_await; [done|]. intros [a|e] w1 w' R1 Hw1 Ha; [|apply He].
  cbn in Ha. subst w'. apply HQ; [done|done|]. by rewrite effects_app.
Qed.
Lemma sends_locked id {A} (m : sco A) command arguments :
  sends id m command arguments -> sends id (with_qmp id m) command arguments.
Proof.
  intros Hm self Q tr w s Hw Hs HQ He. apply wp_locked. apply s_await; [done|].
  intros [[]|e] w1 w' R1 Hw1 Ha; [|apply He]. cbn in Ha. destruct Ha as [(_ & _ & ->)|[? _]]; [|done].
  destruct (wrel_session id w w1 s R1 Hs) as (s1 & Hs1 & _).
  assert (world_inv cfg (on_session id (put upd_qmp_lock (Some self)) w1) /\
          wrel w1 (on_session id (put upd_qmp_lock (Some self)) w1)) as [Hw2 R2]
    by by apply good_on_session; [apply good_same|].
  eapply Hm; [done|by apply session_upd| |].
  - intros tr' a w3 Hw3 R3 E. 
    assert (world_inv cfg (on_session id (put upd_qmp_lock None) w3) /\
            wrel w3 (on_session id (put upd_qmp_lock None) w3)) as [Hw4 R4]
      by by apply good_on_session; [apply good_same|].
    split; [done|]. apply HQ; [done|wrel_chain|]. by rewrite E, effects_app, app_nil_r.
  - intros tr' e w3. split; [|apply He]. intros t _. apply wrel_upd. by constructor.
Qed.
Lemma sends_read id (m : SessionRecord -> sco json) command arguments :
  (forall s, sends id (m s) command arguments) ->
  sends id (s ← read id; m s ≫= fun _ => skip) command arguments.
Proof.
  intros Hm self Q tr w s Hw Hs HQ He. eapply bind_read; [done|]. apply wp_bind.
  eapply Hm; [done|done| |done]. intros tr' a w' H1 H2 H3. by apply wp_skip, HQ.
Qed.
Lemma sends_refused id {A} (e : exn) command arguments : sends id (@lift World sop sresp A (Err e)) command arguments.
Proof. intros self Q tr w s Hw Hs HQ He. apply wp_ret, He. Qed.
Lemma sends_checked id {A} (m : SessionRecord -> sco A) command arguments :
  (forall s, sends id (m s) command arguments) -> sends id (s ← read id; m s) command arguments.
Proof. intros Hm self Q tr w s Hw Hs HQ He. eapply bind_read; [done|]. by eapply Hm. Qed.
Lemma bind_sends {A B} self id (m : sco A) command arguments (k : A -> sco B) (Q : _ -> res B -> World -> Prop)
    tr w s :
  sends id m command arguments -> world_inv cfg w -> session id w = Some s ->
  (forall tr' a w' s', world_inv cfg w' -> srel s s' -> session id w' = Some s' ->
     effects tr' = effects tr ++ [QmpCommand command arguments] -> swp self (k a) Q tr' w') ->
  (forall tr' e w', Q tr' (Err e) w') -> swp self (m ≫= k) Q tr w.
Proof.
  intros Hm Hw Hs HQ He. apply wp_bind. eapply Hm; [done|done| |done]. intros tr' a w' H1 H2 H3.
  destruct (wrel_session id w w' s H2 Hs) as (s' & Hs' & Hr). by eapply HQ.
Qed.

(** The action and its event were appended. *)
Definition noted (a : ReplayAction) (src : EventSource) (s : SessionRecord) : Prop :=
  last (replay_actions s) = Some a /\ exists e, last (events s) = Some e /\
    ev_category e = replay_category (ra_type a) /\ ev_type e = replay_event_type (ra_type a) /\
    ev_source e = src /\ ev_data e = public_data (ra_type a) (ra_payload a).

Lemma wp_note self id a src s (Q : _ -> res unit -> World -> Prop) tr w :
  world_inv cfg w -> session id w = Some s ->
  (forall tr' s' w', session id w' = Some s' -> noted a src s' -> effects tr' = effects tr ->
     Q tr' (Ok tt) w') ->
  swp self (append_action cfg id a ≫= fun _ =>
            record cfg id (replay_category (ra_type a)) (replay_event_type (ra_type a)) src
              (public_data (ra_type a) (ra_payload a))) Q tr w.
Proof.
  intros Hw Hs HQ. unfold append_action, apply. apply wp_bind. eapply bind_read; [done|].
  destruct (bounded_append_some (max_recording_events cfg) a (replay_actions s)
    (replay_actions_dropped s) ltac:(apply Hcfg)) as (q & d & E).
  destruct (inv_sessions _ _ Hw id s Hs) as [_ Hi].
  assert (good cfg (fun s => snd (append_replay_action cfg a s))) as Hg by by apply good_append_action.
  destruct (Hg s Hi) as [_ Hr]. destruct (good_on_session cfg id _ Hg w Hw) as [Hw1 R1].
  apply (bind_upd _ _ _ _ s); [done|done|].
  replace (fst (append_replay_action cfg a s)) with (@Ok unit tt)
    by (unfold append_replay_action; by rewrite E).
  apply wp_ret.
  assert (on_session id (fun _ => snd (append_replay_action cfg a s)) w =
    on_session id (fun s => snd (append_replay_action cfg a s)) w) as Eq
    by (unfold on_session; by rewrite Hs).
  rewrite Eq. eapply wp_record; [done|done|by apply session_upd|].
  intros now s2 w2 Hrec Hs2 Hw2 _. apply (HQ _ s2); [done| |by rewrite effects_app, app_nil_r].
  pose proof Hrec as (now' & _ & Hl). split; [|by eexists].
  apply record_keeps in Hrec as (q' & dr & n & ->). unfold append_replay_action. rewrite E. cbn.
  by apply bounded_append_last in E.
Qed.

(** What live input and replay promise alike. *)
Definition sent_and_noted (id : text) (board : BoardProfile) (type : action_type)
    (payload : action_payload) (src : EventSource) (before tr : list (event sop sresp)) (r : res unit)
    (w : World) : Prop :=
  r = Ok tt -> exists l s off, wire board type payload = Ok l /\ effects tr = effects before ++ l /\
    session id w = Some s /\ noted (mkAction off type payload) src s.

Lemma wp_offset_note self id type payload src s (Q : _ -> res unit -> World -> Prop) tr w :
  world_inv cfg w -> session id w = Some s ->
  (forall tr' s' off w', session id w' = Some s' -> noted (mkAction off type payload) src s' ->
     effects tr' = effects tr -> Q tr' (Ok tt) w') ->
  swp self (offset_ms ← offset id;
            append_action cfg id (mkAction offset_ms type payload) ≫= fun _ =>
            record cfg id (replay_category type) (replay_event_type type) src
              (public_data type payload)) Q tr w.
Proof.
  intros Hw Hs HQ. unfold offset. apply wp_bind, bind_call.
  intros [now|e] Hn; [|by specialize (proj1 Hn eq_refl)]. eapply bind_read; [done|].
  apply wp_ret. eapply (wp_note _ _ (mkAction _ type payload)); [done|done|].
  intros tr' s' w' Hs' Hnote E. eapply HQ; [done|done|]. by rewrite E, effects_app, app_nil_r.
Qed.

Lemma live_board_input self id type payload s command arguments (m : sco json) tr w :
  world_inv cfg w -> session id w = Some s -> sends id m command arguments ->
  wire (s_board s) type payload = Ok [QmpCommand command arguments] ->
  swp self (m ≫= fun _ => offset_ms ← offset id;
            append_action cfg id (mkAction offset_ms type payload) ≫= fun _ =>
            record cfg id (replay_category type) (replay_event_type type) SrcUser
              (public_data type payload))
    (sent_and_noted id (s_board s) type payload SrcUser tr) tr w.
Proof.
  intros Hw Hs Hm Hwire. eapply bind_sends; [done|done|done| |done].
  intros tr1 a w1 s1 Hw1 _ Hs1 E1. eapply wp_offset_note; [done|done|].
  intros tr2 s2 off w2 Hs2 Hnote E2 _. eexists _, _, _. split; [done|]. by rewrite E2, E1.
Qed.

Lemma live_environment self id f type payload s command arguments (m : sco json) tr w :
  world_inv cfg w -> session id w = Some s -> sends id m command arguments -> good cfg f ->
  wire (s_board s) type payload = Ok [QmpCommand command arguments] ->
  swp self (m ≫= fun _ => upd id f ≫= fun _ => offset_ms ← offset id;
            append_action cfg id (mkAction offset_ms type payload) ≫= fun _ =>
            record cfg id (replay_category type) (replay_event_type type) SrcUser
              (public_data type payload))
    (sent_and_noted id (s_board s) type payload SrcUser tr) tr w.
Proof.
  intros Hw Hs Hm Hf Hwire. eapply bind_sends; [done|done|done| |done].
  intros tr1 a w1 s1 Hw1 _ Hs1 E1. eapply bind_good; [done|done|done|]. intros w2 Hw2 Hs2 _.
  eapply wp_offset_note; [done|done|].
  intros tr2 s3 off w3 Hs3 Hnote E2 _. eexists _, _, _. split; [done|]. by rewrite E2, E1.
Qed.

Lemma write_stdin_effects self {A} id s payload (k : unit -> sco A) (Q : _ -> res A -> World -> Prop) tr w :
  world_inv cfg w -> session id w = Some s ->
  (forall tr' w' s', world_inv cfg w' -> srel s s' -> session id w' = Some s' ->
     effects tr' = effects tr ++ [StdinBytes payload] -> swp self (k tt) Q tr' w') ->
  (forall tr' e w', Q tr' (Err e) w') -> swp self (write_stdin s payload ≫= k) Q tr w.
Proof.
  intros Hw Hs HQ He. unfold write_stdin. apply wp_bind.
  destruct (process s) as [p|]; [|apply He]. case_bool_decide; [|apply He].
  apply bind_call. intros [[]|e] _; [|apply He|apply He].
  apply bind_call. intros [[]|e] _; [|apply He]. apply s_await; [done|].
  intros [[]|e] w1 w' R1 Hw1 Ha; [|apply He]. cbn in Ha. subst w'.
  destruct (wrel_session id w w1 s R1 Hs) as (s1 & Hs1 & Hr1). apply (HQ _ _ s1); [done|done|done|].
  rewrite !effects_app. cbn [effects omap list_omap]. by rewrite !app_nil_r.
Qed.

Lemma bind_lift self {A B} (r : res A) (k : A -> sco B) (Q : _ -> res B -> World -> Prop) tr w :
  (forall a, r = Ok a -> swp self (k a) Q tr w) -> (forall e, r = Err e -> Q tr (Err e) w) ->
  swp self (lift r ≫= k) Q tr w.
Proof. intros H1 H2. destruct r as [a|e]; [by apply H1|by apply H2]. Qed.

Lemma live_input_contract self id type payload m s tr w :
  world_inv cfg w -> session id w = Some s -> live_operation id type payload = Some m ->
  swp self m (sent_and_noted id (s_board s) type payload SrcUser tr) tr w.
Proof.
  intros Hw Hs Hm.
  destruct type, payload as [|b|name pressed|acc gyro|battery vin charging]; simplify_eq/=;
    (eapply bind_read; [done|]; apply bind_lift; [|done]; intros [] _).
  - apply bind_lift; [|done]. intros a Ha.
    apply (live_board_input self id AKey (PPress name pressed) s (lit "input-send-event") (Some a)); [done|done| |by cbn; rewrite Ha].
    apply sends_locked, sends_execute.
  - apply bind_lift; [|done]. intros a Ha.
    apply (live_board_input self id AButton (PPress name pressed) s (lit "qom-set") (Some a)); [done|done| |by cbn; rewrite Ha].
    apply sends_locked, sends_execute.
  - apply bind_lift; [|done]. intros a Ha.
    apply (live_environment self id _ AImu (PImu acc gyro) s (lit "qom-set") (Some a));
      [done|done|by apply sends_locked, sends_execute|by apply good_same|by cbn; rewrite Ha].
  - apply bind_lift; [|done]. intros a Ha.
    apply (live_environment self id _ APower (PPower battery vin charging) s (lit "qom-set") (Some a));
      [done|done|by apply sends_locked, sends_execute|by apply good_same|by cbn; rewrite Ha].
  - eapply write_stdin_effects; [done|done| |done]. intros tr1 w1 s1 Hw1 _ Hs1 E1.
    apply (wp_offset_note self id ASerial (PBytes b) SrcUser s1); [done|done|].
    intros tr2 s2 off w2 Hs2 Hnote E2 _. eexists _, _, _. split; [done|]. by rewrite E2, E1.
  - destruct (negb (worker_qmp_enabled cfg)); [done|].
    eapply (bind_sends self id _ (lit "system_reset") None); [|done|done| |done].
    { apply sends_locked, sends_checked. intros s'.
      destruct (negb (live_state (s_state s'))); [apply sends_refused|apply sends_execute]. }
    intros tr1 a w1 s1 Hw1 _ Hs1 E1.
    apply (wp_offset_note self id AReset PNone SrcUser s1); [done|done|].
    intros tr2 s2 off w2 Hs2 Hnote E2 _. eexists _, _, _. split; [done|]. by rewrite E2, E1.
Qed.

(** A replayed action: the same effects, the same action, its description. *)
Definition replayed (id : text) (board : BoardProfile) (a : ReplayAction) (before tr : list (event sop sresp))
    (r : res (ReplayAction * list (text * json))) (w : World) : Prop :=
  forall a' d, r = Ok (a', d) -> exists l s, wire board (ra_type a) (ra_payload a) = Ok l /\
    effects tr = effects before ++ l /\ world_inv cfg w /\ session id w = Some s /\
    ra_type a' = ra_type a /\ ra_payload a' = ra_payload a /\ d = public_data (ra_type a) (ra_payload a).

Lemma send_replayed_sends id command arguments :
  sends id (send_replayed id command arguments) (lit command) (Some arguments).
Proof. apply sends_locked, sends_read. intros s. apply sends_execute. Qed.

Lemma replayed_input self id command arguments (k : unit -> sco (ReplayAction * list (text * json)))
    board a s before tr w :
  world_inv cfg w -> session id w = Some s -> effects tr = effects before ->
  wire board (ra_type a) (ra_payload a) = Ok [QmpCommand (lit command) (Some arguments)] ->
  (forall tr' w' s', world_inv cfg w' -> session id w' = Some s' ->
     effects tr' = effects before ++ [QmpCommand (lit command) (Some arguments)] ->
     swp self (k tt) (replayed id board a before) tr' w') ->
  swp self (send_replayed id command arguments ≫= k) (replayed id board a before) tr w.
Proof.
  intros Hw Hs E Hwire Hk. eapply bind_sends; [apply send_replayed_sends|done|done| |by intros ??????].
  intros tr1 [] w1 s1 Hw1 _ Hs1 E1. eapply Hk; [done|done|]. by rewrite E1, E.
Qed.
Lemma replayed_done self id board a a' d l before tr w s :
  world_inv cfg w -> session id w = Some s -> effects tr = effects before ++ l ->
  wire board (ra_type a) (ra_payload a) = Ok l -> ra_type a' = ra_type a ->
  ra_payload a' = ra_payload a -> d = public_data (ra_type a) (ra_payload a) ->
  swp self (mret (a', d)) (replayed id board a before) tr w.
Proof. intros Hw Hs E Hwire H1 H2 H3 a1 d1 [= <- <-]. by exists l, s. Qed.

Lemma apply_replay_contract self id a s tr w :
  world_inv cfg w -> session id w = Some s ->
  live_operation id (ra_type a) (ra_payload a) <> None ->
  swp self (apply_replay_action cfg cwd id a) (replayed id (s_board s) a tr) tr w.
Proof.
  intros Hw Hs Hl. unfold apply_replay_action, offset. apply wp_bind, bind_call.
  intros [now|e] Hn; [|by specialize (proj1 Hn eq_refl)]. eapply bind_read; [done|]. apply wp_ret.
  eapply bind_read; [done|].
  assert (effects (tr ++ [Called MonotonicNs (Ok now)]) = effects tr) as E0
    by by rewrite effects_app, app_nil_r.
  destruct a as [off type payload]. cbn [ra_type ra_payload] in *.
  destruct type, payload as [|b|name pressed|acc gyro|battery vin charging]; try done.
  - apply bind_lift; [|by intros ? ? ? ? ?]. intros a Ha. eapply replayed_input; [done|done|done|by cbn; rewrite Ha|].
    intros tr1 w1 s1 Hw1 Hs1 E1. eapply replayed_done; try done. by cbn; rewrite Ha.
  - apply bind_lift; [|by intros ? ? ? ? ?]. intros a Ha. eapply replayed_input; [done|done|done|by cbn; rewrite Ha|].
    intros tr1 w1 s1 Hw1 Hs1 E1. eapply replayed_done; try done. by cbn; rewrite Ha.
  - apply bind_lift; [|by intros ? ? ? ? ?]. intros a Ha. eapply replayed_input; [done|done|done|by cbn; rewrite Ha|].
    intros tr1 w1 s1 Hw1 Hs1 E1. eapply bind_good; [done|done|by apply good_same|]. intros w2 Hw2 Hs2 _.
    eapply replayed_done; try done. by cbn; rewrite Ha.
  - apply bind_lift; [|by intros ? ? ? ? ?]. intros a Ha. eapply replayed_input; [done|done|done|by cbn; rewrite Ha|].
    intros tr1 w1 s1 Hw1 Hs1 E1. eapply bind_good; [done|done|by apply good_same|]. intros w2 Hw2 Hs2 _.
    eapply replayed_done; try done. by cbn; rewrite Ha.
  - eapply write_stdin_effects; [done|done| |by intros ? ? ? ? ?].
    intros tr1 w1 s1 Hw1 _ Hs1 E1. eapply replayed_done; try done. by rewrite E1, E0.
  - eapply (bind_sends self id _ (lit "system_reset") None);
      [by apply sends_locked, sends_execute|done|done| |by intros ? ? ? ? ? ?].
    intros tr1 j w1 s1 Hw1 _ Hs1 E1. eapply replayed_done; try done. by rewrite E1, E0.
Qed.

Lemma replay_one_contract self id speed started a s tr w :
  world_inv cfg w -> session id w = Some s ->
  live_operation id (ra_type a) (ra_payload a) <> None ->
  swp self (replay_one cfg cwd id speed started a)
    (sent_and_noted id (s_board s) (ra_type a) (ra_payload a) SrcReplay tr) tr w.
Proof.
  intros Hw Hs Hl. unfold replay_one. apply bind_lift; [|done]. intros target _.
  apply bind_call. intros [now|e] Hn; [|done]. apply wp_bind.
  apply (wp_mono _ _ _ _ _ _ (fun tr' _ w' => effects tr' = effects tr /\ world_inv cfg w' /\
    exists s', session id w' = Some s' /\ srel s s')).
  2:{ apply wp_when; intros _.
      - apply s_await; [done|]. intros r w1 w' R1 Hw1 Ha. cbn in Ha. subst w'. split; [|split].
        + by rewrite !effects_app; cbn; rewrite !app_nil_r.
        + done.
        + by apply wrel_session with w.
      - split; [by rewrite effects_app, app_nil_r|]. split; [done|]. by exists s. }
  intros tr1 [[]|e] w1 (E1 & Hw1 & s1 & Hs1 & R1); [|done].
  rewrite <- (rel_board _ _ R1). apply wp_bind.
  eapply wp_mono; [|by eapply apply_replay_contract].
  intros tr2 [[a' d]|e] w2 H2; [|done].
  destruct (H2 _ _ eq_refl) as (l & s2 & Hwire & E2 & Hw2 & Hs2 & Ht & Hp & ->).
  destruct a' as [off' t' p']. cbn [ra_type ra_payload] in *. subst t' p'.
  eapply (wp_note _ _ (mkAction off' (ra_type a) (ra_payload a))); [done|done|].
  intros tr3 s3 w3 Hs3 Hnote E3 _. exists l, s3, off'. split; [done|]. split; [by rewrite E3, E2, E1|].
  by split.
Qed.
End Fidelity.

(** C13: replay fidelity.  A live input that succeeds sent the worker exactly
    the bytes or the QMP command that its recorded action stands for, and was
    appended to both recordings; replaying that action, at any speed and under
    any interference, sends the same and records the same action and the same
    public data again, attributed to the replay. *)
Theorem replay_fidelity cfg cwd self id a s m w :
  sane_settings cfg -> world_inv cfg w -> session id w = Some s ->
  live_operation cfg id (ra_type a) (ra_payload a) = Some m ->
  wp s_replies s_answers (world_inv cfg) rely self m
    (sent_and_noted id (s_board s) (ra_type a) (ra_payload a) SrcUser []) [] w /\
  (forall speed started,
     wp s_replies s_answers (world_inv cfg) rely self (replay_one cfg cwd id speed started a)
       (sent_and_noted id (s_board s) (ra_type a) (ra_payload a) SrcReplay []) [] w).
Proof.
  intros Hcfg Hw Hs Hm. split; [by apply live_input_contract|]. intros speed started.
  apply replay_one_contract; [done|done|done|]. by rewrite Hm.
Qed.

