(* ===== verification/Api.v ===== *)
(** * The HTTP and WebSocket interface ([api.py])

    Every route as a coroutine over the heap of the session manager.  FastAPI
    and pydantic are third-party: a handler receives its parameters already
    parsed, what it returns or raises as [HTTPException] is a [response], and
    the validator of WebSocket messages is a parameter.  An exception that a
    handler lets through is the server's error 500. *)

From Stdlib Require Import Init.Byte.
From S2P Require Import Prelude Text PyFloat Json Async Boards Firmware Inputs.
From S2P Require Import Recording Qemu SessionData SessionOps.

(** ** Messages *)

(** The union of message models; [sequence] is an integer, a string or None. *)
Inductive InputMessage :=
  | KeyInputMessage (key : text) (pressed : bool) (sequence : json)
  | ButtonInputMessage (button : text) (pressed : bool) (sequence : json)
  | ImuInputMessage (acceleration_g angular_velocity_dps : vector) (sequence : json)
  | PowerInputMessage (battery_mv vin_mv : Z) (charging : bool) (sequence : json).
Definition message_sequence (m : InputMessage) : json :=
  match m with
  | KeyInputMessage _ _ s | ButtonInputMessage _ _ s | ImuInputMessage _ _ s | PowerInputMessage _ _ _ s => s
  end.
(** [SessionControlMessage.action] *)
Inductive control_action := ControlPause | ControlResume | ControlReset | ControlPowerOff | ControlPowerOn.

(** ** Responses *)

Inductive response_body :=
  | Body (v : json)
  | PublicSession (d : list (text * py_value))
  | Attachment (v : json) (filename : text).
(** What a handler returns, with the status of its route, or the
    [HTTPException] it raises. *)
Inductive response := Reply (status : Z) (body : response_body) | HTTPException (status : Z) (detail : text).

(** The [except] clauses of a handler, in order. *)
Definition clause (A : Type) : Type := list exc * (exn -> sco A).
Definition catches {A} (e : exn) (c : clause A) : bool := existsb (exc_sub (exn_class e)) (fst c).
Definition handling {A} (m : sco A) (clauses : list (clause A)) : sco A :=
  seq m (fun r => match r with
    | Ok a => Ret (Ok a)
    | Err e => match List.find (catches e) clauses with Some c => snd c e | None => Ret (Err e) end
    end).

Definition missing : text := lit "simulation session not found".
Definition not_found : clause response :=
  ([SessionNotFoundError], fun _ => mret (HTTPException 404 missing)).
Definition failing_in {A} (f : response -> A) (status : Z) (cs : list exc) : clause A :=
  (cs, fun e => mret (f (HTTPException status (exn_msg e)))).
Definition failing : Z -> list exc -> clause response := failing_in id.
Definition reply (v : json) : sco response := mret (Reply 200 (Body v)).
(** [session.public_dict()] of the session a manager method returned *)
Definition reply_session (status : Z) (id : text) : sco response :=
  s ← read id; mret (Reply status (PublicSession (public_dict s))).

Definition version : text := lit "0.1.0".

Section Api.
Context (settings : Settings) (cwd : list text).

(** ** Health and boards *)

Definition live : sco response :=
  reply (JObj [(lit "status", JStr (lit "ok")); (lit "version", JStr version)]).
Definition ready : sco response :=
  worker_ready ← worker_is_ready settings;
  reply (JObj [(lit "status", JStr (lit (if worker_ready : bool then "ready" else "degraded")));
               (lit "native_worker", JBool worker_ready);
               (lit "worker_sandbox", JStr (sandbox_mode_value (worker_sandbox_mode settings)))]).
Definition list_boards : sco response :=
  reply (JArr (map (fun p => as_public_dict (snd p)) BOARD_PROFILES)).

(** ** Sessions *)

(** The second [try] block of [create_session]. *)
Definition create_from (board : BoardProfile) (upload : bytes) : sco (text + response) :=
  handling (id ← create settings cwd board upload; mret (inl id))
    [failing_in inr 422 [FirmwareValidationError]; failing_in inr 503 [WorkerUnavailableError];
     failing_in inr 429 [SessionCapacityError]].
Definition create_session (board_id : text) : sco response :=
  match get_board_profile board_id with
  | Err e => if exc_sub (exn_class e) ValueError then mret (HTTPException 404 (exn_msg e)) else lift (Err e)
  | Ok board =>
      upload ← sawait (ReadUpload (flash_size_bytes board + 1));
      created ← create_from board upload;
      match (created : text + response) with inl id => reply_session 201 id | inr r => mret r end
  end.
Definition get_session (id : text) : sco response :=
  handling (refresh_state settings id ≫= fun _ => reply_session 200 id)
    [not_found; failing 503 [QmpError]].
Definition stop_session (id : text) : sco response :=
  handling (stop settings id false ≫= fun id => reply_session 200 id) [not_found].
Definition control_session (id : text) (action : control_action) : sco response :=
  handling (
    match action with
    | ControlPause => pause settings id
    | ControlResume => resume settings id
    | ControlReset => reset settings id
    | ControlPowerOff => power_off settings id
    | ControlPowerOn => power_on settings cwd id
    end ≫= fun _ => reply_session 200 id)
    [not_found; failing 409 [SessionTransitionError];
     failing 503 [GdbRemoteError; QmpError; WorkerUnavailableError]].

(** ** Recording and replay *)

Definition session_events (id : text) (after limit : Z) : sco response :=
  handling (s ← read id; reply (list_events settings after limit s)) [not_found].
Definition session_diagnostics (id : text) : sco response :=
  handling (s ← read id;
            mret (Reply 200 (Attachment (diagnostics settings s)
                               (lit "esp32-s3-simulator-" ++ id ++ lit ".json")))) [not_found].
Definition session_replay_status (id : text) : sco response :=
  handling (s ← read id; reply (replay_dict s)) [not_found].
Definition replay_session (id : text) (speed : float) : sco response :=
  handling (v ← start_replay settings cwd id speed; mret (Reply 202 (Body v)))
    [not_found; failing 409 [SessionTransitionError]].

(** ** The debugger *)

Definition debug_capabilities : json :=
  JObj [(lit "register_read", JBool true); (lit "memory_read_max_bytes", JInt 4096);
        (lit "hardware_breakpoints_max", JInt MAX_DEBUG_BREAKPOINTS); (lit "single_step", JBool true);
        (lit "memory_write", JBool false); (lit "register_write", JBool false); (lit "raw_gdb", JBool false)].
Definition debug_status (id : text) : sco response :=
  handling (
    refresh_state settings id ≫= fun _ =>
    s ← read id;
    reply (JObj [(lit "state", JStr (state_text (s_state s)));
                 (lit "stop_reason", opt_json JStr (debug_stop_reason s));
                 (lit "enabled", JBool (worker_debug_enabled settings && worker_qmp_enabled settings));
                 (lit "capabilities", debug_capabilities)]))
    [not_found; failing 503 [QmpError]].
Definition debugging (m : sco response) : sco response :=
  handling m [not_found; failing 409 [SessionTransitionError]; failing 503 [GdbRemoteError; QmpError]].
Definition debug_registers (id : text) : sco response :=
  debugging (
    registers ← SessionOps.debug_registers settings id;
    reply (JObj [(lit "registers", JObj (map (fun p => (fst p, opt_json JInt (snd p))) registers))])).
Definition debug_memory (id : text) (address length : Z) : sco response :=
  debugging (
    data ← debug_read_memory settings id address length;
    reply (JObj [(lit "address", JInt address); (lit "length", JInt (zlen (data : bytes)));
                 (lit "data_hex", JStr (hex_of_bytes data))])).
Definition debug_breakpoint (id : text) (address : Z) (enabled : bool) : sco response :=
  debugging (
    debug_set_breakpoint settings id address enabled ≫= fun _ =>
    reply (JObj [(lit "address", JInt address); (lit "enabled", JBool enabled)])).
Definition debug_step (id : text) : sco response :=
  debugging (
    stop_reason ← SessionOps.debug_step settings id;
    reply (JObj [(lit "stop_reason", JStr stop_reason)])).

(** ** WebSockets

    [c] is the connection.  A chunk that a generator of the manager yields is
    sent with [websocket.send_bytes]: that is the operation [YieldChunk], and
    its failure leaves the generator through its [finally] block. *)

Definition with_session (c : Z) (id : text) (body : sco unit) : sco unit :=
  seq (read id) (fun r => match r with
    | Ok _ => sawait (SocketAccept c) ≫= fun _ => body
    | Err e => if exc_sub (exn_class e) SessionNotFoundError then sawait (SocketClose c 4404 missing)
               else lift (Err e)
    end).

(** [receive_serial] *)
Definition receive_serial (c : Z) (id : text) : sco unit :=
  loop (fun _ : unit =>
    payload ← sawait (SocketReceiveBytes c);
    write_serial settings id payload ≫= fun _ => mret (inl tt)) tt.
Definition session_serial (c : Z) (id : text) : sco unit :=
  with_session c id (
    sender ← create_task (subscribe_serial id);
    receiver ← create_task (receive_serial c id);
    let tasks := [sender; receiver] in
    catch (
      done ← sawait (WaitAny tasks);
      each (fun t => when (negb (bool_decide (t ∈ (done : list tid)))) (scall (CancelTask t))) tasks ≫= fun _ =>
      each (fun t => sawait (GatherTask t)) tasks) [WebSocketDisconnect] (fun _ => skip)).

Section Input.
(** [INPUT_MESSAGE_ADAPTER.validate_json] *)
Context (validate_json : text -> res InputMessage).

Definition dispatch (id : text) (event : InputMessage) : sco unit :=
  match event with
  | KeyInputMessage key pressed _ => send_key settings id key pressed
  | ButtonInputMessage button pressed _ => send_button settings id button pressed
  | ImuInputMessage a g _ => set_imu_sample settings id a g
  | PowerInputMessage battery_mv vin_mv charging _ => set_power_state settings id battery_mv vin_mv charging
  end.
Definition acknowledgement (event : InputMessage) : json :=
  JObj [(lit "type", JStr (lit "ack")); (lit "sequence", message_sequence event)].
Definition input_error (code : string) (e : exn) : json :=
  JObj [(lit "type", JStr (lit "error")); (lit "code", JStr (lit code)); (lit "detail", JStr (exn_msg e))].
Definition reporting (c : Z) (code : string) (cs : list exc) : clause unit :=
  (cs, fun e => sawait (SocketSendJson c (input_error code e))).
(** One message of the loop. *)
Definition input_round (c : Z) (id : text) : sco unit :=
  payload ← sawait (SocketReceiveText c);
  handling (
    event ← lift (validate_json payload);
    dispatch id event ≫= fun _ =>
    sawait (SocketSendJson c (acknowledgement event)))
    [reporting c "invalid-event" [ValidationError]; reporting c "unsupported-input" [BoardInputError];
     reporting c "worker-unavailable" [QmpError; RuntimeError]].
Definition session_input (c : Z) (id : text) : sco unit :=
  with_session c id (
    catch (loop (fun _ : unit => input_round c id ≫= fun _ => mret (inl tt)) tt) [WebSocketDisconnect]
      (fun _ => skip)).
End Input.

Definition session_framebuffer (c : Z) (id : text) : sco unit :=
  with_session c id (
    handling (subscribe_framebuffer settings id)
      [([WebSocketDisconnect], fun _ => skip);
       ([QmpError; RuntimeError],
        fun _ => sawait (SocketClose c 1011 (lit "framebuffer worker unavailable")))]).

(** [lifespan]: what runs before the first and after the last request. *)
Definition startup : sco unit := start settings cwd.
Definition shutdown : sco unit := close settings.
End Api.
