(* ===== verification/ApiSafety.v ===== *)
(** * What the interface guarantees

    Unknown sessions, uploads and WebSocket messages; and that every route
    keeps the invariant of the session manager, whatever else runs. *)

From Stdlib Require Import Init.Byte.
From S2P Require Import Prelude Text PyFloat Json Async Boards Firmware Inputs.
From S2P Require Import Recording Qemu SessionData SessionOps SessionSafety Api.

(** ** Running handlers *)

Section Unknown.
Context (settings : Settings) (cwd : list text) (validate_json : text -> res InputMessage).
Context {W : Type} (h : handler World sop sresp W) (fuel : nat).

Lemma run_handling {A} (m : sco A) clauses x w :
  run h fuel (handling m clauses) x w =
  match run h fuel m x w with
  | Some (Err e, x', w') => match List.find (catches e) clauses with
                            | Some c => run h fuel (snd c e) x' w'
                            | None => Some (Err e, x', w')
                            end
  | r => r
  end.
Proof.
  unfold handling. rewrite run_seq. destruct (run h fuel m x w) as [[[[a|e] x'] w']|]; try done.
  by destruct (List.find _ _).
Qed.

(** The routes that name a session. *)
Inductive session_route (id : text) : sco response -> Prop :=
  | RouteGet : session_route id (get_session settings id)
  | RouteStop : session_route id (stop_session settings id)
  | RouteControl a : session_route id (control_session settings cwd id a)
  | RouteEvents after limit : session_route id (session_events settings id after limit)
  | RouteDiagnostics : session_route id (session_diagnostics settings id)
  | RouteReplayStatus : session_route id (session_replay_status id)
  | RouteReplay speed : session_route id (replay_session settings cwd id speed)
  | RouteDebugStatus : session_route id (debug_status settings id)
  | RouteRegisters : session_route id (debug_registers settings id)
  | RouteMemory address length : session_route id (debug_memory settings id address length)
  | RouteBreakpoint address enabled : session_route id (debug_breakpoint settings id address enabled)
  | RouteStep : session_route id (debug_step settings id).
Inductive session_socket (c : Z) (id : text) : sco unit -> Prop :=
  | SocketSerial : session_socket c id (session_serial settings c id)
  | SocketInput : session_socket c id (session_input settings validate_json c id)
  | SocketFramebuffer : session_socket c id (session_framebuffer settings c id).

Lemma run_read id x w : session id w = None ->
  run h fuel (read id) x w = Some (Err (Exn SessionNotFoundError id), x, w).
Proof. intros Hs. cbn [read run]. by rewrite Hs. Qed.

(** C27: an unknown session is reported as such.  Every HTTP route that names a
    session the manager does not have answers 404 with the same detail, and
    every WebSocket is closed with code 4404 before it is accepted; nothing
    else is done and the heap is unchanged. *)
Theorem unknown_session id x w : session id w = None ->
  (forall m, session_route id m -> run h fuel m x w = Some (Ok (HTTPException 404 missing), x, w)) /\
  (forall c m, session_socket c id m ->
     run h fuel m x w = run h fuel (sawait (SocketClose c 4404 missing)) x w).
Proof.
  intros Hs. pose proof (run_read id x w Hs) as Hr. split.
  - intros m Hm. assert (forall k : SessionRecord -> sco response,
      run h fuel (read id ≫= k) x w = Some (Err (Exn SessionNotFoundError id), x, w)) as Hk
      by (intros k; by rewrite run_bind, Hr).
    destruct Hm;
      unfold get_session, stop_session, control_session, session_events, session_diagnostics,
        session_replay_status, replay_session, debug_status, debug_registers, debug_memory, debug_breakpoint,
        debug_step, debugging, SessionOps.debug_registers, debug_read_memory, debug_set_breakpoint,
        SessionOps.debug_step, require_paused_debug_session, refresh_state, stop, start_replay;
      rewrite run_handling; try destruct a; unfold pause, resume, reset, power_off, power_on;
      rewrite ?run_bind, Hr; reflexivity.
  - intros c m [];
      unfold session_serial, session_input, session_framebuffer, with_session; rewrite run_seq, Hr; reflexivity.
Qed.

(** While a replay runs, a control request ends in an exception that no clause
    handles: the client sees a server error instead of a conflict. *)
Lemma control_during_replay id a s x w : session id w = Some s -> accept_live_input s = false ->
  a ∈ [ControlPause; ControlResume; ControlReset] ->
  run h fuel (control_session settings cwd id a) x w =
    Some (raise RuntimeError (lit "live input is disabled while a replay is running"), x, w).
Proof.
  intros Hs Ha Hin. assert (require_live_input s =
    raise RuntimeError (lit "live input is disabled while a replay is running")) as E
    by (unfold require_live_input; by rewrite Ha).
  unfold control_session. rewrite run_handling, run_bind.
  assert (run h fuel (read id) x w = Some (Ok s, x, w)) as Hr by (cbn [read run]; by rewrite Hs).
  destruct a; try set_solver; unfold pause, resume, reset; rewrite run_bind, Hr; unfold lift; rewrite E; reflexivity.
Qed.
End Unknown.

(** ** Under every interleaving *)

Section Interface.
Context (settings : Settings) (cwd : list text) (validate_json : text -> res InputMessage).
Context (Hcfg : sane_settings settings).
Abbreviation keeps := (keeps settings).
Abbreviation swp := (wp s_replies s_answers (world_inv settings) rely).
Abbreviation strace := (list (event sop sresp)).

Lemma keeps_handling {A} (m : sco A) clauses : keeps m ->
  (forall cs f e, (cs, f) ∈ clauses -> keeps (f e)) -> keeps (handling m clauses).
Proof.
  intros Hm Hc. unfold handling. apply keeps_seq; [done|]. intros [a|e]; [apply keeps_ret|].
  destruct (List.find _ _) as [[cs f]|] eqn:E; [|apply keeps_ret].
  apply List.find_some in E as [Hin _]. eapply (Hc cs). by apply list_elem_of_In.
Qed.
Ltac route_tac :=
  repeat (intros; first
    [ progress solve_keeps
    | match goal with
      | |- SessionSafety.keeps _ (handling _ _) => apply keeps_handling
      | H : (_, _) ∈ _ |- _ => apply list_elem_of_In in H; cbn in H;
          repeat (destruct H as [H|H];
                  [injection H as <- <-; first [apply keeps_ret | apply keeps_await]|]); destruct H
      end ]).

(** Everything a client and the server's life cycle can start. *)
Inductive api_entry : sco unit -> Prop :=
  | ApiStartup : api_entry (startup settings cwd)
  | ApiShutdown : api_entry (shutdown settings)
  | ApiReady : api_entry (forget (ready settings))
  | ApiCreate board_id : api_entry (forget (create_session settings cwd board_id))
  | ApiRoute id m : session_route settings cwd id m -> api_entry (forget m)
  | ApiSocket c id m : session_socket settings validate_json c id m -> api_entry m.

Lemma keeps_route id m : session_route settings cwd id m -> keeps m.
Proof.
  intros []; unfold get_session, stop_session, control_session, session_events, session_diagnostics,
    session_replay_status, replay_session, debug_status, debug_registers, debug_memory, debug_breakpoint,
    debug_step, debugging, reply_session, reply; route_tac.
Qed.
Lemma keeps_create_from board upload : keeps (create_from settings cwd board upload).
Proof. unfold create_from. route_tac. Qed.
Lemma keeps_create_route board_id : keeps (create_session settings cwd board_id).
Proof.
  unfold create_session, reply_session. destruct (get_board_profile board_id) as [board|e]; [|route_tac].
  apply keeps_bind; [apply keeps_await|]. intros upload. apply keeps_bind; [|route_tac]. apply keeps_create_from.
Qed.
Lemma keeps_socket c id m : session_socket settings validate_json c id m -> keeps m.
Proof.
  intros [].
  - unfold session_serial, with_session, receive_serial. route_tac.
  - unfold session_input, with_session, input_round, dispatch, reporting. route_tac.
  - unfold session_framebuffer, with_session. route_tac.
Qed.

(** Driving the manager through the interface alone keeps its invariant. *)
Lemma api_safe m : api_entry m -> safe s_replies s_answers (world_inv settings) rely m.
Proof.
  intros Hm t w Hw. assert (keeps m) as Hk; [|by apply Hk]. destruct Hm as [| | |board_id|id m Hm|c id m Hm].
  - by apply keeps_start.
  - by apply keeps_close.
  - apply keeps_forget. unfold ready. route_tac.
  - apply keeps_forget, keeps_create_route.
  - by eapply keeps_forget, keeps_route.
  - by eapply keeps_socket.
Qed.
Lemma interface_invariant w p :
  reachable s_replies s_answers api_entry World_init (Config w None p) -> world_inv settings w.
Proof.
  apply (machine_safe _ _ _ _ _ api_safe (s_answers_rely settings)). by apply world_init_inv.
Qed.

(** ** WebSocket messages *)

Definition is_answer (o : sop) : bool := match o with SocketSendJson _ _ => true | _ => false end.
(** A message that reached the client. *)
Definition delivered (e : event sop sresp) : bool :=
  match e with Awaited (SocketSendJson _ _) (Ok _) => true | _ => false end.
Definition silent (l : strace) : Prop := Forall (fun e => delivered e = false) l.

Lemma uses_dispatch id event : uses (fun o => is_answer o = false) (dispatch settings id event).
Proof.
  destruct event; unfold dispatch, send_key, send_button, set_imu_sample, set_power_state, with_qmp,
    execute_qmp, record_input, record, append_action, offset, apply, upd; uses_tac.
Qed.
Lemma keeps_dispatch id event : keeps (dispatch settings id event).
Proof. unfold dispatch. route_tac. Qed.
Lemma silent_uses l : Forall (fun e => is_answer (operation e) = false) l -> silent l.
Proof. intros H. eapply Forall_impl; [exact H|]. by intros [o r|[] r]. Qed.

Definition INPUT_ERRORS : list string := ["invalid-event"; "unsupported-input"; "worker-unavailable"].
(** An answer that fits a message. *)
Definition answer_to (payload : text) (v : json) : Prop :=
  match validate_json payload with
  | Ok event => v = acknowledgement event \/ exists code e, code ∈ INPUT_ERRORS /\ v = input_error code e
  | Err e => exists code, code ∈ INPUT_ERRORS /\ v = input_error code e /\
      (exc_sub (exn_class e) ValidationError = true -> code = "invalid-event"%string)
  end.
Definition is_socket (o : sop) : bool :=
  match o with SocketReceiveText _ | SocketSendJson _ _ => true | _ => false end.

(** How one round of the message loop ends. *)
Definition round_end (c : Z) (tr tr' : strace) (r : res unit) : Prop :=
  match r with
  | Ok _ => exists payload l v,
      tr' = tr ++ Awaited (SocketReceiveText c) (Ok payload : res (sresp (SocketReceiveText c))) ::
              l ++ [Awaited (SocketSendJson c v) (Ok tt : res (sresp (SocketSendJson c v)))] /\
      silent l /\ answer_to payload v
  | Err e =>
      (exists l o, tr' = tr ++ l ++ [Awaited o (Err e)] /\ is_socket o = true) \/
      existsb (exc_sub (exn_class e)) [ValidationError; BoardInputError; RuntimeError] = false
  end.

(** The error clauses: they answer, or the exception is not theirs. *)
Lemma clauses_answer c self tr1 w e (Q : strace -> res unit -> World -> Prop) : world_inv settings w ->
  (forall code r, code ∈ INPUT_ERRORS ->
     (exc_sub (exn_class e) ValidationError = true -> code = "invalid-event"%string) ->
     forall w', Q (tr1 ++ [Awaited (SocketSendJson c (input_error code e)) r]) r w') ->
  (existsb (exc_sub (exn_class e)) [ValidationError; BoardInputError; RuntimeError] = false -> Q tr1 (Err e) w) ->
  swp self (match List.find (catches e)
      [reporting c "invalid-event" [ValidationError]; reporting c "unsupported-input" [BoardInputError];
       reporting c "worker-unavailable" [QmpError; RuntimeError]] with
    | Some cl => snd cl e | None => Ret (Err e) end) Q tr1 w.
Proof.
  intros Hw Hs Hn. unfold reporting, catches. cbn [List.find fst snd existsb] in *. rewrite !orb_false_r in *.
  destruct (exc_sub (exn_class e) ValidationError) eqn:E1.
  { split; [done|]. intros r w1 w' _ _ _. by apply Hs; [set_solver|]. }
  destruct (exc_sub (exn_class e) BoardInputError) eqn:E2.
  { split; [done|]. intros r w1 w' _ _ _. by apply Hs; [set_solver|]. }
  assert (exc_sub (exn_class e) QmpError = true -> exc_sub (exn_class e) RuntimeError = true) as Hq
    by (by destruct (exn_class e)).
  destruct (exc_sub (exn_class e) QmpError || exc_sub (exn_class e) RuntimeError) eqn:E3.
  { split; [done|]. intros r w1 w' _ _ _. by apply Hs; [set_solver|]. }
  apply orb_false_elim in E3 as [_ E3]. apply Hn. by rewrite E3.
Qed.


(** ** Uploads *)

Lemma create_validates board upload :
  yields (fun _ => is_ok (validate_and_pad_firmware upload board) = true) (create settings cwd board upload).
Proof.
  unfold create. apply (yields_bind (fun _ => True)); [apply yields_any|]. intros rdy _.
  destruct (negb rdy); [by intros a|].
  apply (yields_bind (fun _ => is_ok (validate_and_pad_firmware upload board) = true)).
  - apply yields_locked. unfold allocate_session. intros w. cbn [seq].
    destruct (max_concurrent_sessions settings <=? _); [by intros a|].
    destruct (validate_and_pad_firmware upload board) as [image|e]; [|by intros a].
    do 6 (eapply (yields_bind (fun _ => True)); [apply yields_any|]; intros ? _). by intros id _.
  - intros id Hid. eapply (yields_bind (fun _ => True)); [apply yields_any|]. by intros [] _ id' _.
Qed.
Lemma validated_size upload board image :
  validate_and_pad_firmware upload board = Ok image -> zlen upload <= flash_size_bytes board.
Proof.
  unfold validate_and_pad_firmware. destruct (bytes_startswith _ _); [done|].
  destruct (_ <? _); [done|]. destruct (Z.ltb_spec (flash_size_bytes board) (zlen upload)); [done|lia].
Qed.

Lemma create_from_yields board upload :
  yields (fun r => match r with
    | inl _ => is_ok (validate_and_pad_firmware upload board) = true
    | inr v => exists status detail, v = HTTPException status detail
    end) (create_from settings cwd board upload).
Proof.
  unfold create_from, handling.
  apply (yields_seq (fun r : text + response => match r with
    | inl _ => is_ok (validate_and_pad_firmware upload board) = true | inr _ => False end)).
  - eapply yields_bind; [apply create_validates|]. by intros id Hid r [= <-].
  - intros [a|e] Hr; [intros r [= <-]; specialize (Hr a eq_refl); by destruct a|].
    unfold failing_in, catches. cbn [List.find fst snd existsb].
    repeat (destruct (_ || false); [intros r [= <-]; by eexists _, _|]). by intros r.
Qed.

(** C25: what it takes to create a session over HTTP.  The handler first reads
    the upload, and asks for at most one byte more than the flash of the
    board holds; it replies with a session only with status 201, for a known
    board and an upload that the validator accepts, which is therefore within
    the flash although the file may be larger: a file that has more bytes
    than the flash is never truncated and accepted.  An unknown board is
    answered with 404 before anything is read. *)
Theorem create_session_checked board_id self tr w : world_inv settings w ->
  swp self (create_session settings cwd board_id) (fun tr' r w' =>
    match get_board_profile board_id with
    | Err e => tr' = tr /\ w' = w /\ r = Ok (HTTPException 404 (exn_msg e))
    | Ok board => exists upload l, tr' = tr ++ Awaited (ReadUpload (flash_size_bytes board + 1)) upload :: l /\
        forall status body, r = Ok (Reply status body) ->
          exists bytes image id s, upload = Ok bytes /\ status = 201 /\
            validate_and_pad_firmware bytes board = Ok image /\ zlen bytes <= flash_size_bytes board /\
            session id w' = Some s /\ body = PublicSession (public_dict s)
    end) tr w.
Proof.
  intros Hw. unfold create_session. destruct (get_board_profile board_id) as [board|e] eqn:Hb.
  2:{ unfold get_board_profile in Hb. destruct (dict_get _ _); [done|]. injection Hb as <-. by split_and!. }
  apply wp_bind. split; [done|]. intros upload w1 w' _ Hw1 Ha. cbn in Ha. subst w'.
  destruct upload as [upload|e]; [|by exists (Err e), []].
  set (read1 := Awaited (ReadUpload (flash_size_bytes board + 1)) (Ok upload : res (sresp (ReadUpload _)))).
  apply wp_bind. eapply wp_mono; [|apply wp_yields; [apply create_from_yields|]].
  2:{ apply (wp_uses _ _ _ _ (fun _ => True)); [apply uses_any|by apply keeps_create_from]. }
  intros tr2 r w2 ((Hw2 & l & -> & _) & Hr).
  assert (forall l', (tr ++ [read1]) ++ l' = tr ++ read1 :: l') as Happ by (intros l'; by rewrite <- app_assoc).
  destruct r as [[id|v]|e].
  - unfold reply_session. apply wp_bind. unfold read. cbn [wp].
    destruct (session id w2) as [s|] eqn:Hs; cbn [of_option wp mret co_ret]; exists (Ok upload), l;
      (split; [apply Happ|]); intros status body; [|done]. intros [= <- <-].
    specialize (Hr _ eq_refl). cbn in Hr.
    destruct (validate_and_pad_firmware upload board) as [image|] eqn:Hv; [|done].
    exists upload, image, id, s. by repeat (split; [by eauto using validated_size|]).
  - exists (Ok upload), l. split; [apply Happ|]. intros status body [= ->].
    by destruct (Hr _ eq_refl) as (? & ? & ?).
  - exists (Ok upload), l. by split.
Qed.
End Interface.
