(* ===== verification/EventPages.v ===== *)
(** * Reading the event log page by page

    [list_events] against its purpose: a client that follows [next_after]
    sees every retained event after its cursor exactly once, and
    [cursor_truncated] tells whether older ones were dropped. *)

From S2P Require Import Prelude Text Recording SessionData SessionSafety.

(** The pages a client fetches from a log that does not change meanwhile. *)
Fixpoint follow (cfg : Settings) (n : nat) (after limit : Z) (s : SessionRecord) : list SessionEvent :=
  match n with
  | O => []
  | S n' => let page := event_page cfg after limit s in
            page ++ follow cfg n' (next_after after page) limit s
  end.

(** The events after a cursor. *)
Definition newer (after : Z) (l : list SessionEvent) : list SessionEvent :=
  List.filter (fun e => after <? ev_sequence e) l.

(** Consecutive sequence numbers starting at [first]. *)
Definition consecutive (first : Z) (l : list SessionEvent) : Prop :=
  forall i e, l !! i = Some e -> ev_sequence e = first + Z.of_nat i.

Lemma consecutive_tail first e l : consecutive first (e :: l) -> ev_sequence e = first /\ consecutive (first + 1) l.
Proof.
  intros H. split; [specialize (H O e eq_refl); lia|].
  intros i x Hx. specialize (H (S i) x Hx). lia.
Qed.

Lemma newer_drop first after l : consecutive first l ->
  newer after l = drop (Z.to_nat (after + 1 - first)) l.
Proof.
  revert first. induction l as [|e l IH]; intros first H; [by rewrite drop_nil|].
  apply consecutive_tail in H as [He H]. cbn [newer List.filter]. fold (newer after l).
  destruct (Z.ltb_spec after (ev_sequence e)) as [Hlt|Hge].
  - rewrite (IH _ H). replace (Z.to_nat (after + 1 - first)) with O by lia.
    by replace (Z.to_nat (after + 1 - (first + 1))) with O by lia.
  - rewrite (IH _ H). replace (Z.to_nat (after + 1 - first)) with (S (Z.to_nat (after + 1 - (first + 1)))) by lia.
    done.
Qed.

Lemma newer_newer a b l : a <= b -> newer b (newer a l) = newer b l.
Proof.
  intros Hab. unfold newer. induction l as [|e l IH]; cbn [List.filter]; [done|].
  destruct (Z.ltb_spec a (ev_sequence e)); cbn [List.filter]; [by rewrite IH|].
  rewrite IH. by destruct (Z.ltb_spec b (ev_sequence e)); [lia|].
Qed.

Lemma page_take cfg after limit s : 1 <= max_event_page_size cfg ->
  exists n, (1 <= n)%nat /\ event_page cfg after limit s = take n (newer after (events s)).
Proof.
  intros Hm. unfold event_page. fold (newer after (events s)).
  set (b := Z.min (Z.max limit 1) (max_event_page_size cfg)).
  assert (1 <= b) as Hb by lia. exists (Z.to_nat b). split; [lia|].
  by destruct (Z.leb_spec 0 b); [|lia].
Qed.

(** After a page the cursor stands right before the rest. *)
Lemma next_after_rest first after n l : consecutive first l ->
  newer (next_after after (take n (newer after l))) l = drop n (newer after l).
Proof.
  intros H. rewrite (newer_drop first after l H). set (k := Z.to_nat (after + 1 - first)).
  unfold next_after. destruct (last (take n (drop k l))) as [e|] eqn:El.
  - rewrite last_lookup in El. set (m := length (take n (drop k l))) in *.
    assert (m <> O) as Hm by (intros E0; apply nil_length_inv in E0; by rewrite E0 in El).
    assert (m = Nat.min n (length l - k))%nat as Em by (unfold m; rewrite length_take, length_drop; lia).
    rewrite lookup_take_Some, lookup_drop in El. destruct El as [El _].
    rewrite (newer_drop first _ l H), (H _ _ El), drop_drop.
    destruct (decide (n <= length l - k)%nat); [f_equal; lia|].
    by rewrite !drop_ge by lia.
  - apply last_None in El. rewrite (newer_drop first after l H). fold k.
    destruct n as [|n]; [done|]. destruct (drop k l) as [|x r]; [by rewrite drop_nil|done].
Qed.

Lemma follow_newer cfg first limit s : consecutive first (events s) -> 1 <= max_event_page_size cfg ->
  forall n after, (length (newer after (events s)) <= n)%nat ->
  follow cfg n after limit s = newer after (events s).
Proof.
  intros Hc Hm. induction n as [|n IH]; intros after Hn; cbn [follow].
  - destruct (newer after (events s)); [done|cbn in Hn; lia].
  - destruct (page_take cfg after limit s Hm) as (k & Hk & ->).
    destruct (newer after (events s)) as [|x r] eqn:E.
    + rewrite take_nil. cbn [app]. unfold next_after. cbn [last]. rewrite IH; rewrite E; [done|cbn; lia].
    + rewrite <- E. rewrite IH; rewrite (next_after_rest first) by done.
      * by rewrite take_drop.
      * rewrite length_drop, E. cbn in *. lia.
Qed.

(** C24: the event log can be read page by page without loss.  A client that
    starts at any cursor and follows [next_after] receives exactly the
    retained events after its cursor, in order and once each, whatever page
    size it asks for, within as many pages as there are events; and
    [cursor_truncated] is reported exactly when an event after the cursor had
    already been dropped. *)
Theorem event_pages_complete cfg s after limit n :
  session_inv cfg s -> 1 <= max_event_page_size cfg -> zlen (events s) <= Z.of_nat n ->
  follow cfg n after limit s = newer after (events s) /\
  (events s <> [] -> (cursor_truncated after s = true <-> after < events_dropped s)).
Proof.
  intros Hi Hm Hn.
  assert (consecutive (events_dropped s + 1) (events s)) as Hc.
  { intros i e He. destruct (inv_sequence _ _ Hi i e He) as [H _]. lia. }
  split.
  - apply (follow_newer cfg (events_dropped s + 1)); [done|done|].
    rewrite (newer_drop _ _ _ Hc), length_drop. lia.
  - intros He. unfold cursor_truncated. destruct (events s) as [|e l]; [done|]. cbn [head].
    destruct (consecutive_tail _ _ _ Hc) as [He' _]. rewrite Z.ltb_lt. lia.
Qed.
