(* ===== verification/SessionScenarios.v ===== *)
(** * Executions of the session manager

    Concrete interleavings, computed with [drive]: a deterministic worker, a
    file system in which the configured paths exist, and a script of which
    task runs when.  They show that the hypotheses of the safety theorems
    hold somewhere. *)

From Stdlib Require Import Init.Byte.
From S2P Require Import Prelude Text PyFloat Json Async Boards Firmware Framebuffer Inputs.
From S2P Require Import Recording Tracing Qemu BrokerProtocol SessionData SessionOps SessionSafety.

(** ** The computed environment *)

Definition s_reply_ok (w : World) (o : sop) (r : res (sresp o)) : bool :=
  implb (never_fails o) (is_ok r) &&
  match o return res (sresp o) -> bool with
  | NewUuid => fun r => match r with
                        | Ok id => match session id w with None => true | Some _ => false end
                        | Err _ => true
                        end
  | _ => fun _ => true
  end r.

Definition is_free (lock : SessionRecord -> option tid) (id : text) (w : World) : bool :=
  match session id w with
  | Some s => match lock s with None => true | Some _ => false end
  | None => true
  end.

Definition s_settle (w : World) (t : tid) (o : sop) (r : res (sresp o)) : option World :=
  match o return res (sresp o) -> option World with
  | AcquireManager => fun r =>
      match r with
      | Ok _ => match w_lock w with None => Some (set_manager_lock (Some t) w) | Some _ => None end
      | Err _ => Some w
      end
  | AcquireLifecycle id => fun r =>
      match r with
      | Ok _ => if is_free lifecycle_lock id w
                then Some (on_session id (put upd_lifecycle_lock (Some t)) w) else None
      | Err _ => Some w
      end
  | AcquireQmp id => fun r =>
      match r with
      | Ok _ => if is_free qmp_lock id w
                then Some (on_session id (put upd_qmp_lock (Some t)) w) else None
      | Err _ => Some w
      end
  | QueueGet q => fun r =>
      match r, w_queues w !! q with
      | Ok c, Some (c' :: l) => if decide (c = c')
                                then Some (set_queues (<[q := l]> (w_queues w)) w) else None
      | Ok _, _ => None
      | Err _, _ => Some w
      end
  | _ => fun _ => Some w
  end r.

Lemma s_reply_sound w o r : s_reply_ok w o r = true -> s_replies w o r.
Proof.
  intros [H1 H2]%andb_prop. split; [intros E; by rewrite E in H1|]. destruct o; try done.
  cbn in *. intros id ->. by destruct (session id w).
Qed.

Lemma is_free_spec lock id w : is_free lock id w = true ->
  forall s, session id w = Some s -> lock s = None.
Proof. unfold is_free. intros H s Hs. rewrite Hs in H. by destruct (lock s). Qed.

Lemma s_settle_sound w t o r w' : s_settle w t o r = Some w' -> s_answers w t o r w'.
Proof.
  destruct o; cbn; try (by intros [= ->]).
  - destruct r as [[]|e]; [|by intros [= ->]; right; split]. destruct (w_lock w) eqn:E; [done|].
    intros [= <-]. by left.
  - destruct r as [[]|e]; [|by intros [= ->]; right; split]. destruct (is_free _ _ _) eqn:E; [|done].
    intros [= <-]. left. split; [by apply is_free_spec|done].
  - destruct r as [[]|e]; [|by intros [= ->]; right; split]. destruct (is_free _ _ _) eqn:E; [|done].
    intros [= <-]. left. split; [by apply is_free_spec|done].
  - destruct r as [c|e]; [|by intros [= ->]; right; split].
    destruct (w_queues w !! q) as [[|c' l]|] eqn:E; [done| |done].
    case_decide as Hc; [subst c|done]. intros [= <-]. left.
    eexists _, _. split; [reflexivity|split; reflexivity].
Qed.

(** ** A deterministic worker *)

Definition abs_path (l : list string) : path := mkPath true (map lit l).
Definition demo_settings : Settings :=
  mkSettings (abs_path ["run"%string]) (abs_path ["opt"; "qemu"]%string) (abs_path ["opt"; "roms"]%string)
    true true true DIRECT (abs_path ["usr"; "bwrap"]%string) [] (abs_path ["broker"%string]) None
    2 120 1536 90 (float_of_int 10) 100 4 500 120 true 2048.
(** A board with the smallest flash, so that images stay small. *)
Definition demo_board : BoardProfile :=
  mkBoard (lit "sticks3") (lit "demo") (lit "esp32s3") 4096 0
    (mkDisplay (lit "ST7789") 135 240 (lit "SPI") 0) [].
Definition demo_upload : bytes := xe9 :: x01 :: x00 :: replicate 4093 x00.
Definition demo_view : fs_view := fun p =>
  if bool_decide (p = qemu_executable demo_settings) then File true else Directory.

Definition status (running : bool) (name : string) : json :=
  JObj [(lit "running", JBool running); (lit "status", JStr (lit name))].

(** The answers: worker 7 starts, runs and is never out of breath; QEMU's
    answer to a status query is a parameter, as are the exit of the worker
    and the bytes it prints. *)
Section Oracle.
Context (qmp : nat -> json) (exit : option Z) (out : nat -> bytes).
Definition demo_oracle (n : nat) (o : sop) : res (sresp o) :=
  match o return res (sresp o) with
  | ProbeBroker _ | HasStdin _ | HasStdout _ | TaskDone _ => Ok true
  | HasStderr _ => Ok false
  | ConnectBroker _ _ | SpawnProcess _ _ _ => Ok 7
  | WaitExit _ | WaitExitTimeout _ => Ok (default 0 exit)
  | GdbConnect _ => Ok 5
  | MonotonicNs => Ok (Z.of_nat n * 1000000)
  | UtcNow => Ok 0
  | Getuid => Ok 1000
  | ReadStdout _ _ => Ok (out n)
  | ReadStderrLine _ | GdbReadMemory _ _ _ | ReadBytes _ => Ok []
  | ExecuteQmp _ _ _ _ => Ok (qmp n)
  | GdbRegisters _ => Ok []
  | GdbStep _ | GdbContinue _ => Ok (lit "T05")
  | NewUuid => Ok (lit "s1")
  | QueueGet _ => Ok None
  | Monotonic | LoopTime => Ok (float_of_int 0)
  | ReturnCode _ => Ok exit
  | FileSystem => Ok demo_view
  | Lstat _ => Ok (true, 1000)
  | ReadUpload _ | SocketReceiveBytes _ => Ok []
  | SocketReceiveText _ => Ok []
  | WaitAny l => Ok l
  | SocketAccept _ | SocketClose _ _ _ | SocketSendJson _ _
  | AcquireManager | AcquireLifecycle _ | AcquireQmp _ | StdinDrain _ | GdbClose _
  | GdbAddBreakpoint _ _ | GdbRemoveBreakpoint _ _ | GatherTask _ | ShieldedWait _
  | YieldChunk _ | Sleep _ | Terminate _ | Kill _ | StdinWrite _ _ | CancelTask _ | Fs _
  | Mkdirs _ _ | Unlink _ | Rmtree _ | AwaitTask _ | RemoveTemporary _ | Print _ => Ok tt
  | MakeTemporary prefix => Ok (mkPath true [lit "tmp"; prefix])
  end.
End Oracle.

(** ** Scripts

    The configuration a script reaches from the empty manager; a script that
    does not run leaves it empty. *)

Abbreviation script := (list (act World sop sresp)).
Abbreviation mconfig := (@config World sop sresp).
Definition start_config : mconfig := Config World_init None ∅.

Section Scripts.
Context (qmp : nat -> json) (exit : option Z) (out : nat -> bytes).
Definition drive_demo (l : script) : option (nat * mconfig) :=
  drive s_reply_ok s_settle (demo_oracle qmp exit out) 3000 l (0%nat, start_config).
Definition reached (l : script) : mconfig :=
  match drive_demo l with Some (_, c) => c | None => start_config end.
Definition observe {A} (f : SessionRecord -> A) (l : script) : option A :=
  f <$> session (lit "s1") (heap (reached l)).

Abbreviation demo_entry := (manager_entry demo_settings []).
Definition entries_ok (l : script) : Prop :=
  Forall (fun a => match a with Enter _ k => demo_entry k | _ => True end) l.

Lemma reached_steps l : entries_ok l ->
  rtc (manager_step demo_settings []) start_config (reached l).
Proof.
  intros Hl. unfold reached, drive_demo. destruct (drive _ _ _ _ _ _) as [[n c]|] eqn:E; [|done].
  eapply (drive_sound _ _ demo_entry _ _ s_reply_sound s_settle_sound); [exact Hl|exact E].
Qed.
Lemma reached_idle l : running (reached l) = None.
Proof.
  unfold reached, drive_demo. destruct (drive _ _ _ _ _ _) as [[n c]|] eqn:E; [|done].
  by eapply drive_idle in E.
Qed.
Lemma reached_reachable l : entries_ok l ->
  manager_reachable demo_settings [] (Config (heap (reached l)) None (pool (reached l))).
Proof.
  intros Hl. pose proof (reached_steps l Hl) as H. pose proof (reached_idle l) as Hi.
  by destruct (reached l) as [w r p]; cbn in *; subst r.
Qed.
Definition runs (l : script) : bool := if drive_demo l is Some _ then true else false.
Lemma reached_app l1 l2 : entries_ok l2 -> runs (l1 ++ l2) = true ->
  rtc (manager_step demo_settings []) (reached l1) (reached (l1 ++ l2)).
Proof.
  intros Hl. unfold runs, reached, drive_demo. rewrite drive_app.
  destruct (drive _ _ _ _ l1 _) as [[n1 c1]|]; [|done].
  destruct (drive _ _ _ _ l2 _) as [[n2 c2]|] eqn:E; [|done]. intros _.
  eapply (drive_sound _ _ demo_entry _ _ s_reply_sound s_settle_sound); [exact Hl|exact E].
Qed.
Lemma observe_session {A} (f : SessionRecord -> A) l a : observe f l = Some a ->
  exists s, session (lit "s1") (heap (reached l)) = Some s /\ f s = a.
Proof. intros H. by apply fmap_Some in H as (s & Hs & ->); exists s. Qed.
End Scripts.

(** Task 0 creates session "s1" and runs it until it is [RUNNING]. *)
Definition demo_create : script :=
  [Enter 0%nat (forget (create demo_settings [] demo_board demo_upload)); Begin 0%nat;
   Wake 0%nat; Wake 0%nat; Wake 0%nat].
Definition always (running : bool) (name : string) (n : nat) : json := status running name.
Definition quiet (n : nat) : bytes := [].

Lemma sane_demo : sane_settings demo_settings.
Proof. by split; vm_compute. Qed.
Lemma demo_create_ok : entries_ok demo_create.
Proof. apply Forall_cons; split; [apply EntryCreate|repeat constructor]. Qed.

Example demo_create_runs :
  observe (always true "running") None quiet (fun s => (s_state s, zlen (events s), process s))
    demo_create
  = Some (RUNNING, 1, Some 7).
Proof. vm_compute. reflexivity. Qed.

(** The session of [demo_create], and what [recording_invariant] says of it. *)
Abbreviation demo_reached l := (reached (always true "running") None quiet l).

Lemma recording_invariant_witness :
  exists s, session (lit "s1") (heap (demo_reached demo_create)) = Some s /\
    s_state s = RUNNING /\ zlen (events s) = 1 /\
    next_event_sequence s = events_dropped s + zlen (events s) + 1 /\ zlen (events s) <= 4.
Proof.
  destruct (observe_session _ _ _ _ _ _ demo_create_runs) as (s & Hs & [= H1 H2 H3]).
  exists s. split; [exact Hs|]. split; [exact H1|]. split; [exact H2|].
  destruct (recording_invariant demo_settings [] _ _ _ s sane_demo
    (reached_reachable _ _ _ demo_create demo_create_ok) Hs) as (_ & Hn & _ & He & _).
  split; [exact Hn|exact He].
Defined.

(** Task 1 stops the session. *)
Definition demo_stop : script :=
  [Enter 1%nat (forget (stop demo_settings (lit "s1") false)); Begin 1%nat; Wake 1%nat; Wake 1%nat;
   Wake 1%nat].
Lemma demo_stop_ok : entries_ok demo_stop.
Proof. apply Forall_cons; split; [apply EntryStop|repeat constructor]. Qed.
Example demo_stop_runs : runs (always true "running") None quiet (demo_create ++ demo_stop) = true.
Proof. vm_compute. reflexivity. Qed.
Lemma event_log_append_only_witness :
  exists s s', session (lit "s1") (heap (demo_reached demo_create)) = Some s /\
    session (lit "s1") (heap (demo_reached (demo_create ++ demo_stop))) = Some s' /\
    zlen (events s) = 1 /\ s_id s' = s_id s /\
    (forall e, e ∈ events s -> events_dropped s' < ev_sequence e -> e ∈ events s').
Proof.
  destruct (observe_session _ _ _ _ _ _ demo_create_runs) as (s & Hs & [= H1 H2 H3]).
  destruct (event_log_append_only demo_settings [] _ _ (lit "s1") s sane_demo
    (reached_steps _ _ _ demo_create demo_create_ok)
    (reached_app _ _ _ demo_create demo_stop demo_stop_ok demo_stop_runs) Hs)
    as (s' & Hs' & Hid & _ & _ & _ & _ & _ & _ & He).
  exists s, s'. split; [exact Hs|]. split; [exact Hs'|]. split; [exact H2|].
  split; [exact Hid|exact He].
Defined.
