(* ===== verification/SessionWitnesses.v ===== *)
(** * The session contracts at concrete sessions

    The session that [demo_create] reaches satisfies the hypotheses of the
    contracts: each is applied to it, or to a small change of it. *)

From Stdlib Require Import Init.Byte.
From S2P Require Import Prelude Text PyFloat Json Async Boards Firmware Inputs.
From S2P Require Import Recording Qemu SessionData SessionOps SessionSafety SessionContracts.
From S2P Require Import SessionFidelity EventPages SessionScenarios.

Definition s1 : text := lit "s1".
Definition demo_world : World := heap (demo_reached demo_create).

Lemma demo_world_inv : world_inv demo_settings demo_world.
Proof.
  exact (reachable_inv demo_settings [] sane_demo _ _
    (reached_reachable _ _ _ demo_create demo_create_ok)).
Qed.
Lemma demo_session : exists s, session s1 demo_world = Some s /\ s_state s = RUNNING /\
  zlen (events s) = 1.
Proof.
  destruct (observe_session _ _ _ _ _ _ demo_create_runs) as (s & Hs & [= H1 H2 H3]).
  exists s. by split_and!.
Qed.

Abbreviation dwp := (wp s_replies s_answers (world_inv demo_settings) rely).

(** Stopping the running session. *)
Lemma stop_erases_witness : exists s, session s1 demo_world = Some s /\ s_state s = RUNNING /\
  dwp 1%nat (stop demo_settings s1 false) (fun _ r w' => forall id', r = Ok id' ->
    exists s', session s1 w' = Some s' /\ erased s' /\ s_state s' = STOPPED) [] demo_world.
Proof.
  destruct demo_session as (s & Hs & Hst & _). exists s. split; [exact Hs|]. split; [exact Hst|].
  eapply wp_mono; [|apply (stop_erases demo_settings sane_demo 1%nat s1 false [] demo_world demo_world_inv)].
  intros tr r w' H id' Hr. destruct (H id' Hr) as (s' & e & tr0 & Hs' & He & Hst' & _).
  exists s'. split; [exact Hs'|]. split; [exact He|exact Hst'].
Defined.

(** Shutting down while it runs. *)
Lemma close_removes_all_witness : exists s, session s1 demo_world = Some s /\ s_state s = RUNNING /\
  dwp 1%nat (close demo_settings) (fun tr r _ => r = Ok tt ->
    Called (Rmtree (runtime_directory s)) (Ok tt) ∈ tr) [] demo_world.
Proof.
  destruct demo_session as (s & Hs & Hst & _). exists s. split; [exact Hs|]. split; [exact Hst|].
  eapply wp_mono; [|apply (close_removes_all demo_settings sane_demo 1%nat [] demo_world demo_world_inv)].
  intros tr r w' (l & -> & H) Hr. exact (H Hr s1 s Hs).
Defined.

Lemma first_launch_outcome_witness : exists s, session s1 demo_world = Some s /\
  dwp 1%nat (first_launch demo_settings [] s1) (fun _ r w' => r = Ok tt ->
    exists s', session s1 w' = Some s' /\ s_state s' = RUNNING) [] demo_world.
Proof.
  destruct demo_session as (s & Hs & _). exists s. split; [exact Hs|].
  eapply wp_mono; [|apply (first_launch_outcome demo_settings [] sane_demo 1%nat s1 s [] demo_world
    demo_world_inv Hs)].
  intros tr r w' H ->. destruct H as (s' & p & e & Hs' & Hst & _). exists s'.
  split; [exact Hs'|exact Hst].
Defined.

Lemma run_replay_outcome_witness : exists s, session s1 demo_world = Some s /\
  dwp 1%nat (run_replay demo_settings [] s1 [] (float_of_int 1)) (fun _ r w' =>
    exists s', session s1 w' = Some s' /\ accept_live_input s' = true /\
      replay_task s' <> Some 1%nat) [] demo_world.
Proof.
  destruct demo_session as (s & Hs & _). exists s. split; [exact Hs|].
  eapply wp_mono; [|apply (run_replay_outcome demo_settings [] sane_demo 1%nat s1 []
    (float_of_int 1) s [] demo_world demo_world_inv Hs)].
  intros tr r w' (s' & Hs' & Ha & Ht & _). exists s'. split; [exact Hs'|]. split; [exact Ha|exact Ht].
Defined.


(** Pressing a button, live and replayed. *)
Lemma replay_fidelity_witness : exists s m, session s1 demo_world = Some s /\
  live_operation demo_settings s1 AReset PNone = Some m /\
  dwp 1%nat m (sent_and_noted s1 (s_board s) AReset PNone SrcUser []) [] demo_world.
Proof.
  destruct demo_session as (s & Hs & _). exists s, (reset demo_settings s1). split; [exact Hs|].
  split; [reflexivity|].
  exact (proj1 (replay_fidelity demo_settings [] 1%nat s1 (mkAction 0 AReset PNone) s
    (reset demo_settings s1) demo_world sane_demo demo_world_inv Hs eq_refl)).
Defined.

(** *** Small changes of the session *)

Definition replaying : World := on_session s1 (put upd_accept_live_input false) demo_world.
Definition demo_handler : handler World sop sresp nat :=
  let answer n o := demo_oracle (always true "running") None quiet n o in
  mkHandler (fun o n _ => (answer n o, S n)) (fun o n w => (answer n o, S n, w)) 1%nat
    (fun _ n => ((2 + n)%nat, S n)).


(** Two subscribers, one of them with a full queue. *)
Definition watch (w : World) : World :=
  let w := on_session s1 (put upd_subscribers [1; 2]) w in
  set_queues (<[1 := replicate 128 None]> (<[2 := []]> (w_queues w))) w.
Lemma watch_queues w :
  w_queues (watch w) !! 1 = Some (replicate 128 None) /\ w_queues (watch w) !! 2 = Some [].
Proof.
  cbn [watch set_queues w_queues]. split; [apply lookup_insert_eq|].
  rewrite lookup_insert_ne by done. apply lookup_insert_eq.
Qed.

Lemma publish_delivers_witness : exists s,
  session s1 (publish_all s1 (Some (blit "A")) (watch demo_world)) = Some s /\ subscribers s = [2] /\
  w_queues (publish_all s1 (Some (blit "A")) (watch demo_world)) !! 2 = Some [Some (blit "A")].
Proof.
  destruct demo_session as (s & Hs & _). revert Hs. generalize demo_world. intros w Hs.
  assert (session s1 (watch w) = Some (put upd_subscribers [1; 2] s)) as Hw
    by exact (session_upd _ _ _ _ Hs).
  destruct (watch_queues w) as [Q1 Q2].
  assert (NoDup [1; 2]) as Hd by by apply (bool_decide_unpack _).
  destruct (publish_delivers s1 (Some (blit "A")) (watch w) _ Hw Hd) as (H1 & H2 & _).
  eexists. split; [exact H1|]. split.
  - cbn. unfold queue_full. rewrite Q1, Q2. reflexivity.
  - rewrite H2, Q2. reflexivity.
Defined.

(** Paging with one event per page. *)
Lemma event_pages_complete_witness : exists s, session s1 demo_world = Some s /\
  follow demo_settings 4 0 1 s = newer 0 (events s).
Proof.
  destruct demo_session as (s & Hs & _ & He). exists s. split; [exact Hs|].
  destruct (inv_sessions _ _ demo_world_inv _ _ Hs) as [_ Hi].
  apply (event_pages_complete demo_settings s 0 1 4 Hi); [vm_compute; discriminate|].
  rewrite He. lia.
Defined.
