(* ===== verification/ApiWitnesses.v ===== *)
(** * The interface at concrete worlds

    The theorems of [ApiSafety] applied to the empty manager and to the
    session that [demo_create] reaches. *)

From Stdlib Require Import Init.Byte.
From S2P Require Import Prelude Text PyFloat Json Async Boards Firmware Inputs.
From S2P Require Import Recording Qemu SessionData SessionOps SessionSafety SessionContracts.
From S2P Require Import SessionScenarios SessionWitnesses Api ApiSafety.

(** A validator that knows two messages. *)
Definition demo_validate (payload : text) : res InputMessage :=
  if bool_decide (payload = lit "{}") then raise ValidationError (lit "1 validation error")
  else Ok (KeyInputMessage (lit "a") true JNull).

Lemma unknown_session_witness :
  run demo_handler 10 (get_session demo_settings s1) 0%nat World_init =
    Some (Ok (HTTPException 404 missing), 0%nat, World_init).
Proof.
  destruct (unknown_session demo_settings [] demo_validate demo_handler 10 s1 0%nat World_init eq_refl) as [H _].
  exact (H _ (RouteGet _ _ _)).
Defined.


Lemma create_session_checked_witness :
  dwp 1%nat (create_session demo_settings [] (lit "sticks3")) (fun tr' r _ => forall status body,
    r = Ok (Reply status body) -> status = 201) [] demo_world.
Proof.
  eapply wp_mono; [|apply (create_session_checked demo_settings [] sane_demo (lit "sticks3") 1%nat [] demo_world),
    demo_world_inv].
  intros tr r w H status body Hr.
  destruct (get_board_profile (lit "sticks3")) as [board|e] eqn:E; [|vm_compute in E; discriminate].
  destruct H as (upload & l & _ & H). destruct (H status body Hr) as (bs & image & id & s & _ & Hst & _). exact Hst.
Defined.
