(* ===== verification/BrokerHandoff.v ===== *)
(** * Between the session manager and the worker broker

    The manager writes the private files of a session, the broker checks them
    before it mounts them into a container.  Both sides are read over one
    file system: nodes with their permission bits and group, created by the
    core user, without symbolic links. *)

From Stdlib Require Import Init.Byte.
From S2P Require Import Prelude Text Json Boards Firmware Qemu BrokerProtocol Environment Oci.
From S2P Require Import OciSafety SessionData SessionContracts.

(** What [lstat] and [resolve] see of the nodes; directories have no content. *)
Definition files_of (uid : Z) (nodes : gmap text fs_node) : files :=
  let missing {A} (p : path) : res A := raise FileNotFoundError (path_str p) in
  mkFiles
    (fun p => match nodes !! path_str p with
      | Some (mkNode mode gid None) => Ok (mkStat (Z.lor (oct "40000") mode) uid gid 0)
      | Some (mkNode mode gid (Some c)) => Ok (mkStat (Z.lor (oct "100000") mode) uid gid (zlen c))
      | None => missing p
      end)
    (fun p => match nodes !! path_str p with Some _ => Ok p | None => missing p end).

(** The manager runs broker workers below the directory the broker expects,
    with its group. *)
Definition same_policy (cfg : Settings) (s : OciBrokerSettings) : Prop :=
  worker_sandbox_mode cfg = OCI_BROKER /\ SessionData.runtime_root cfg = Oci.runtime_root s /\
  worker_shared_group_gid cfg = Some (shared_group_gid s).

(** The calls by which a session is allocated, as in [allocate_session_correct],
    and those by which a replay restores its image, as in
    [replay_restores_baseline]. *)
Definition allocation_calls (cfg : Settings) (id : text) (image : bytes) : list fs_call :=
  write_private_flash_image (path_str (session_dir cfg id))
    (path_str (path_child (session_dir cfg id) (lit "flash.bin"))) image
    (if shared_gid cfg is Some _ then oct "2770" else oct "700")
    (if shared_gid cfg is Some _ then oct "660" else oct "600") (shared_gid cfg).
Definition restore_calls (flash_path : path) (image : bytes) : list fs_call :=
  [FsWrite (path_str flash_path) image; FsChmod (path_str flash_path) (oct "600")].

(** ** Paths are distinct *)

Lemma length_join_snoc l x :
  (length (join slash l) <= length (join slash (l ++ [x])))%nat /\
  (l <> [] -> x <> [] -> (length (join slash l) < length (join slash (l ++ [x])))%nat).
Proof.
  induction l as [|y l [IH1 IH2]]; [cbn; split; [lia|done]|].
  destruct l as [|z l]; cbn [app join] in *.
  - rewrite !length_app. cbn [length slash]. split; [lia|intros _ _; lia].
  - rewrite !length_app. cbn [length] in *. split; [lia|]. intros _ Hx. specialize (IH2 ltac:(done) Hx). lia.
Qed.
Lemma path_child_ne p n : p_absolute p = true -> n <> [] -> path_str (path_child p n) <> path_str p.
Proof.
  destruct p as [[] l]; [|done]. intros _ Hn E. unfold path_str, path_child in E. cbn in E.
  injection E as E. destruct l as [|x l].
  - cbn in E. done.
  - pose proof (proj2 (length_join_snoc (x :: l) n) ltac:(done) Hn) as H. cbn [app] in *.
    rewrite E in H. lia.
Qed.
Lemma path_grandchild_ne p n m : p_absolute p = true -> n <> [] -> m <> [] ->
  path_str (path_child (path_child p n) m) <> path_str p.
Proof.
  destruct p as [[] l]; [|done]. intros _ Hn Hm E. unfold path_str, path_child in E. cbn in E.
  injection E as E. apply (f_equal length) in E.
  pose proof (proj1 (length_join_snoc l n)) as H1.
  pose proof (proj2 (length_join_snoc (l ++ [n]) m) ltac:(by destruct l) Hm) as H2. lia.
Qed.

(** ** Permission bits *)

Lemma mode_bits kind mode : Z.land kind (oct "7777") = 0 -> 0 <= mode <= oct "7777" ->
  S_IMODE (Z.lor kind mode) = mode.
Proof.
  intros Hk Hm. unfold S_IMODE. rewrite Z.land_lor_distr_l, Hk, Z.lor_0_l.
  change (oct "7777") with (Z.ones 12) in *. rewrite Z.land_ones by lia. apply Z.mod_small.
  change (Z.ones 12) with 4095 in Hm. lia.
Qed.
Lemma mode_kind kind mode : Z.land kind (oct "170000") = kind -> 0 <= mode <= oct "7777" ->
  S_IFMT (Z.lor kind mode) = kind.
Proof.
  intros Hk Hm. unfold S_IFMT. rewrite Z.land_lor_distr_l, Hk.
  enough (Z.land mode (oct "170000") = 0) as -> by apply Z.lor_0_r.
  replace mode with (Z.land mode (Z.ones 12)).
  - rewrite <- Z.land_assoc. change (Z.land (Z.ones 12) (oct "170000")) with 0. apply Z.land_0_r.
  - rewrite Z.land_ones by lia. apply Z.mod_small. change (oct "7777") with 4095 in Hm. lia.
Qed.

(** ** The hand-over *)

Section Handoff.
Context (cfg : Settings) (s : OciBrokerSettings) (Hpolicy : same_policy cfg s).
Context (Habs : p_absolute (Oci.runtime_root s) = true).

Lemma session_dir_root id : session_dir cfg id = path_child (Oci.runtime_root s) id.
Proof. unfold session_dir. by destruct Hpolicy as (_ & -> & _). Qed.
Lemma allocation_modes id image : allocation_calls cfg id image =
  write_private_flash_image (path_str (session_dir cfg id))
    (path_str (path_child (session_dir cfg id) (lit "flash.bin"))) image (oct "2770") (oct "660")
    (Some (shared_group_gid s)).
Proof.
  unfold allocation_calls, shared_gid. destruct Hpolicy as (E & _ & ->).
  by rewrite E, bool_decide_eq_true_2.
Qed.

Lemma files_lstat uid nodes p mode gid content : nodes !! path_str p = Some (mkNode mode gid content) ->
  lstat (files_of uid nodes) p = Ok (match content with
    | None => mkStat (Z.lor (oct "40000") mode) uid gid 0
    | Some c => mkStat (Z.lor (oct "100000") mode) uid gid (zlen c)
    end) /\ resolve (files_of uid nodes) p = Ok p.
Proof. intros H. unfold files_of. cbn. rewrite H. by destruct content. Qed.

Lemma shared_directory_node nodes p mode :
  nodes !! path_str p = Some (mkNode mode (shared_group_gid s) None) -> 0 <= mode <= oct "7777" ->
  Z.land mode (oct "7") = 0 -> Z.land mode (oct "70") = oct "70" ->
  shared_directory (files_of (allowed_core_uid s) nodes) s p.
Proof.
  intros H Hm H7 H70. eexists. split; [by apply (files_lstat _ _ _ _ _ _ H)|]. cbn [st_mode].
  unfold S_ISLNK, S_ISDIR, shared_mode. rewrite mode_kind, mode_bits by done. by split_and!.
Qed.

(** With sound directories the flash image decides. *)
Lemma session_directory_flash fs r root :
  resolve fs (Oci.runtime_root s) = Ok root ->
  resolve fs (path_child (Oci.runtime_root s) (start_session_id r)) = Ok (path_child root (start_session_id r)) ->
  shared_directory fs s (Oci.runtime_root s) ->
  shared_directory fs s (path_child (Oci.runtime_root s) (start_session_id r)) ->
  mountable (path_str (path_child root (start_session_id r))) ->
  let d := path_child root (start_session_id r) in
  Oci.session_directory fs s r = validate_flash fs s (path_child d (lit "flash.bin")) r ≫= fun _ => Ok d.
Proof.
  intros Hroot Hdir (rst & Hr & Hl & Ht & [Hu Hg] & Hm%shared_mode_bool)
    (dst & Hd & Hl' & Ht' & [Hu' Hg'] & Hm'%shared_mode_bool) Hmt d.
  unfold Oci.session_directory. rewrite Hr, Hroot, Hd, Hdir.
  cbn [try_except mbind res_bind]. rewrite Hl, Ht, Hl', Ht', Hu, Hg, Hu', Hg', !Z.eqb_refl, Hm', path_parent_child.
  cbn [negb orb]. rewrite Hm, !bool_decide_eq_true_2 by done. cbn [negb orb reject mbind res_bind].
  by rewrite (proj2 (mount_text_ok _ _) Hmt).
Qed.

Lemma flash_refused fs p r st :
  lstat fs p = Ok st -> st_mode st = Z.lor (oct "100000") (oct "600") -> owned s st ->
  validate_flash fs s p r =
    policy_error (lit "session flash image permissions do not match shared isolation").
Proof.
  intros Hst Hm [Hu Hg]. unfold validate_flash. rewrite Hst. cbn [try_except mbind res_bind].
  by rewrite Hm, Hu, Hg, !Z.eqb_refl.
Qed.
End Handoff.

(** The nodes after the allocation, and after a later restoration. *)
Lemma allocated_nodes umask gid0 nodes dir flash image gid : flash <> dir ->
  nodes !! dir = None -> nodes !! flash = None ->
  exists nodes', fs_run umask gid0
      (write_private_flash_image dir flash image (oct "2770") (oct "660") (Some gid)) nodes = Some nodes' /\
    nodes' !! dir = Some (mkNode (oct "2770") gid None) /\
    nodes' !! flash = Some (mkNode (oct "660") gid (Some image)) /\
    (forall p, p <> dir -> p <> flash -> nodes' !! p = nodes !! p).
Proof.
  intros Hne Hd Hf. unfold write_private_flash_image. cbn [app fs_run fs_step]. rewrite Hd.
  repeat (cbn [mbind option_bind node_mode node_gid node_content];
          first [rewrite lookup_insert_eq | rewrite lookup_insert_ne by done | rewrite Hf]).
  cbn [mbind option_bind node_mode node_gid node_content]. eexists. split; [reflexivity|].
  split; [|split]; [by simplify_map_eq..|]. intros p Hp1 Hp2. by rewrite !lookup_insert_ne by done.
Qed.
Lemma restored_nodes umask gid0 nodes flash gid mode image restored :
  nodes !! flash = Some (mkNode mode gid (Some image)) ->
  exists nodes', fs_run umask gid0 [FsWrite flash restored; FsChmod flash (oct "600")] nodes = Some nodes' /\
    nodes' !! flash = Some (mkNode (oct "600") gid (Some restored)) /\
    (forall p, p <> flash -> nodes' !! p = nodes !! p).
Proof.
  intros Hf. cbn [fs_run fs_step]. rewrite Hf. simpl. simplify_map_eq. eexists. split; [reflexivity|].
  by repeat split; intros; simplify_map_eq.
Qed.


