(* ===== verification/Gdb.v ===== *)
(** * The GDB remote client ([gdb.py])

    Packet coding, the request/response engine, register discovery and the
    debugger commands.  Sockets, timers and the XML parser are operations. *)

From Stdlib Require Import Init.Byte.
From S2P Require Import Prelude Text PyFloat Json Async.

Definition gdb_error {A} (m : text) : res A := raise GdbRemoteError m.

(** ** Registers *)

Record RegisterDefinition := mkReg { reg_name : text; reg_number : Z; reg_bitsize : Z }.

Definition reg (name : string) (number bitsize : Z) := mkReg (lit name) number bitsize.
Definition ESP32_S3_CORE_REGISTERS : list RegisterDefinition :=
  reg "pc" 0 32 ::
  map (fun i => mkReg (lit "ar" ++ str_of_int i) (i + 1) 32) (map Z.of_nat (List.seq 0 64)) ++
  [reg "lbeg" 65 32; reg "lend" 66 32; reg "lcount" 67 32; reg "sar" 68 6;
   reg "windowbase" 69 4; reg "windowstart" 70 16; reg "configid0" 71 32;
   reg "configid1" 72 32; reg "ps" 73 19; reg "threadptr" 74 32; reg "br" 75 16;
   reg "scompare1" 76 32; reg "acclo" 77 32; reg "acchi" 78 8; reg "m0" 79 32;
   reg "m1" 80 32; reg "m2" 81 32; reg "m3" 82 32; reg "gpio_out" 83 8].

(** ** Packet coding *)

(** [f"{sum(payload) & 0xFF:02x}".encode()] *)
Definition checksum (payload : bytes) : bytes :=
  map z2b (hex_byte (z2b (Z.land (foldr Z.add 0 (codes payload)) 255))).

(** [_decode_payload]; [decoded] is the bytearray, last byte first. *)
Fixpoint decode_payload_from (payload decoded : bytes) : res bytes :=
  match payload with
  | [] => Ok (reverse decoded)
  | value :: rest =>
      if b2z value =? 125 then
        match rest with
        | [] => gdb_error (lit "GDB returned a truncated escape sequence")
        | c :: rest' => decode_payload_from rest' (z2b (Z.lxor (b2z c) 32) :: decoded)
        end
      else if b2z value =? 42 then
        match decoded, rest with
        | last :: _, c :: rest' =>
            decode_payload_from rest' (replicate (Z.to_nat (b2z c - 29)) last ++ decoded)
        | _, _ => gdb_error (lit "GDB returned invalid run-length encoding")
        end
      else decode_payload_from rest (value :: decoded)
  end.
Definition decode_payload (payload : bytes) : res bytes := decode_payload_from payload [].

(** [_decode_payload(encoded).decode("utf-8")] *)
Definition payload_text (encoded : bytes) : res text :=
  d ← decode_payload encoded; utf8_decode false d.

(** ** The client *)

(** An element of a target description: its tag and its attributes. *)
Record element := mkElement { el_tag : text; el_attrib : list (text * text) }.

(** Awaited: reads, flushing, the client's lock, opening and closing the
    socket, sleeping; asked synchronously: the loop's clock, whether the
    deadline of a timeout has passed, whether the transport is closing, and
    the XML parser, which yields the elements in document order. *)
Inductive gop := ReadExactly (n : Z) | ReadUntil (separator : byte) | Drain | AcquireLock
  | OpenSocket | WaitClosed | Sleep (seconds : float)
  | LoopTime | DeadlineHit | IsClosing | ParseXml (document : bytes).
Definition gresp (o : gop) : Type :=
  match o with
  | ReadExactly _ | ReadUntil _ => bytes
  | LoopTime => float
  | DeadlineHit | IsClosing => bool
  | ParseXml _ => list element
  | _ => unit
  end.

(** [g_written] is what was handed to the transport. *)
Record Gdb := mkGdb {
  g_written : bytes;
  g_closed : bool;
  g_lock : option tid;
  g_no_ack : bool;
  g_supports_target_xml : bool;
  g_registers : option (list RegisterDefinition) }.
Definition Gdb_init : Gdb := mkGdb [] false None false false None.

Definition write (b : bytes) (s : Gdb) : Gdb :=
  mkGdb (g_written s ++ b) (g_closed s) (g_lock s) (g_no_ack s) (g_supports_target_xml s)
    (g_registers s).
Definition set_closed (s : Gdb) : Gdb :=
  mkGdb (g_written s) true (g_lock s) (g_no_ack s) (g_supports_target_xml s) (g_registers s).
Definition set_lock (t : option tid) (s : Gdb) : Gdb :=
  mkGdb (g_written s) (g_closed s) t (g_no_ack s) (g_supports_target_xml s) (g_registers s).
Definition set_no_ack (s : Gdb) : Gdb :=
  mkGdb (g_written s) (g_closed s) (g_lock s) true (g_supports_target_xml s) (g_registers s).
Definition set_target_xml (b : bool) (s : Gdb) : Gdb :=
  mkGdb (g_written s) (g_closed s) (g_lock s) (g_no_ack s) b (g_registers s).
Definition set_registers (l : list RegisterDefinition) (s : Gdb) : Gdb :=
  mkGdb (g_written s) (g_closed s) (g_lock s) (g_no_ack s) (g_supports_target_xml s) (Some l).

Abbreviation gco := (co Gdb gop gresp).
Definition gcall (o : gop) : gco (gresp o) := call o.
Definition gawait (o : gop) : gco (gresp o) := await o.

Definition close : gco unit :=
  closing ← gcall IsClosing;
  if (closing : bool) then skip
  else modify set_closed ≫= fun _ =>
       catch (gawait WaitClosed) [ConnectionError] (fun _ => skip).

Definition is_hexdigit (c : Z) : bool :=
  ((48 <=? c) && (c <=? 57)) || ((97 <=? c) && (c <=? 102)) || ((65 <=? c) && (c <=? 70)).
(** A console-output packet: "O" and an even number of hexadecimal digits. *)
Definition is_console_output (response : text) : bool :=
  match response with
  | c :: r => (c =? 79) && negb (bool_decide (r = [])) && Nat.even (length r) && forallb is_hexdigit r
  | [] => false
  end.

(** [bytes.lower] *)
Definition lower (b : bytes) : bytes :=
  map (fun c => if (65 <=? b2z c) && (b2z c <=? 90) then z2b (b2z c + 32) else c) b.

(** Skips to the start of a packet. *)
Definition skip_to_packet : gco unit :=
  loop (fun _ : unit =>
    marker ← gawait (ReadExactly 1);
    if bool_decide (marker = blit "$") then mret (inr tt)
    else if bool_decide (marker = blit "-") then
      lift (gdb_error (lit "QEMU rejected the GDB request checksum"))
    else mret (inl tt)) tt.

Definition read_packet : gco text :=
  skip_to_packet ≫= fun _ =>
  raw ← gawait (ReadUntil x23);
  let encoded := removelast raw in
  expected_checksum ← gawait (ReadExactly 2);
  no_ack ← gets g_no_ack;
  if negb (bool_decide (lower (checksum encoded) = lower expected_checksum)) then
    (if (no_ack : bool) then skip
     else modify (write (blit "-")) ≫= fun _ => gawait Drain) ≫= fun _ =>
    lift (gdb_error (lit "QEMU returned a GDB packet with a bad checksum"))
  else
    (if (no_ack : bool) then skip
     else modify (write (blit "+")) ≫= fun _ => gawait Drain) ≫= fun _ =>
    catch (lift (payload_text encoded)) [UnicodeDecodeError]
      (fun _ => lift (gdb_error (lit "QEMU returned non-text GDB packet data"))).

(** [b"$" + encoded + b"#" + _checksum(encoded)] *)
Definition packet (encoded : bytes) : bytes :=
  blit "$" ++ encoded ++ blit "#" ++ checksum encoded.

Definition command_unlocked (payload : text) : gco text :=
  encoded ← lift (ascii_encode payload);
  modify (write (packet encoded)) ≫= fun _ =>
  gawait Drain ≫= fun _ =>
  no_ack ← gets g_no_ack;
  (if (no_ack : bool) then skip
   else acknowledgement ← gawait (ReadExactly 1);
        if bool_decide (acknowledgement = blit "+") then skip
        else lift (gdb_error (lit "QEMU did not acknowledge the GDB request"))) ≫= fun _ =>
  loop (fun _ : unit =>
    response ← read_packet;
    if is_console_output response then mret (inl tt) else mret (inr response)) tt.

(** [timed] is [timeout_seconds is not None]. *)
Definition command (payload : text) (timed : bool) : gco text :=
  locked (gawait AcquireLock) (set_lock None) (
    catch
      (catch (if timed then deadline (gcall DeadlineHit) (command_unlocked payload)
              else command_unlocked payload)
         [TimeoutError]
         (fun _ => lift (gdb_error (lit "GDB command timed out: " ++ slice 0 32 payload))))
      [IncompleteReadError; ConnectionError]
      (fun _ => lift (gdb_error (lit "QEMU closed the private GDB connection")))).

(** [needle in haystack] *)
Fixpoint contains (needle haystack : text) : bool :=
  starts_with needle haystack ||
  match haystack with [] => false | _ :: h => contains needle h end.

Definition negotiate : gco unit :=
  supported ← command (lit "qSupported:multiprocess+;qRelocInsn+") true;
  modify (set_target_xml (contains (lit "qXfer:features:read+") supported)) ≫= fun _ =>
  if contains (lit "QStartNoAckMode+") supported then
    answer ← command (lit "QStartNoAckMode") true;
    if bool_decide (answer = lit "OK") then modify set_no_ack
    else lift (gdb_error (lit "QEMU rejected GDB no-ack mode"))
  else skip.

(** [connect]: every attempt has a client of its own. *)
Definition connect (socket_path : text) (timeout_seconds : float) : gco unit :=
  start ← gcall LoopTime;
  let deadline := fadd start timeout_seconds in
  loop (fun _ : unit =>
    now ← gcall LoopTime;
    if fltb now deadline then
      seq (gawait OpenSocket) (fun r => match r with
        | Err e => if exc_sub (exn_class e) OSError
                   then gawait (Sleep (float_of_decimal false 5 (-2))) ≫= fun _ => mret (inl tt)
                   else lift (Err e)
        | Ok _ =>
            modify (fun _ => Gdb_init) ≫= fun _ =>
            seq negotiate (fun r => match r with
              | Ok _ => mret (inr tt)
              | Err e =>
                  close ≫= fun _ =>
                  if exc_sub (exn_class e) OSError
                  then gawait (Sleep (float_of_decimal false 5 (-2))) ≫= fun _ => mret (inl tt)
                  else lift (Err e)
              end)
        end)
    else lift (gdb_error (lit "GDB socket is unavailable: " ++ socket_path))) tt.

(** ** Register discovery *)

Definition read_annex (annex : text) : gco bytes :=
  loop (fun result : bytes =>
    response ← command (lit "qXfer:features:read:" ++ annex ++ 58 :: hex_of_int (zlen result)
                          ++ lit ",1000") true;
    match response with
    | c :: r =>
        if (c =? 109) || (c =? 108) then
          part ← lift (utf8_encode r);
          mret (if c =? 108 then inr (result ++ part) else inl (result ++ part))
        else lift (gdb_error (lit "QEMU rejected GDB feature annex: " ++ annex))
    | [] => lift (gdb_error (lit "QEMU rejected GDB feature annex: " ++ annex))
    end) [].

(** [element.tag.rsplit("}", 1)[-1]] *)
Definition local_name (tag : text) : text := List.last (split_sep (fun c => c =? 125) (length tag) tag []) [].

(** What one annex adds: included annexes and register definitions. *)
Record xml_state := mkXml {
  x_pending : list text; x_registers : list RegisterDefinition; x_next_number : Z }.
Definition non_empty (o : option text) : option text :=
  match o with Some (_ :: _) => o | _ => None end.

Definition scan_element (st : xml_state) (e : element) : res xml_state :=
  let name := local_name (el_tag e) in
  let st := match non_empty (dict_get (lit "href") (el_attrib e)) with
            | Some href => if bool_decide (name = lit "include")
                           then mkXml (x_pending st ++ [href]) (x_registers st) (x_next_number st)
                           else st
            | None => st
            end in
  if negb (bool_decide (name = lit "reg")) then Ok st
  else match non_empty (dict_get (lit "name") (el_attrib e)),
             non_empty (dict_get (lit "bitsize") (el_attrib e)) with
  | Some rname, Some bitsize =>
      number ← match dict_get (lit "regnum") (el_attrib e) with
               | Some n => py_int is_str_space n
               | None => Ok (x_next_number st)
               end;
      bits ← py_int is_str_space bitsize;
      let registers := x_registers st ++ [mkReg rname number bits] in
      if 256 <? zlen registers then gdb_error (lit "QEMU exposed too many GDB registers")
      else Ok (mkXml (x_pending st) registers (number + 1))
  | _, _ => Ok st
  end.
Fixpoint scan_elements (st : xml_state) (l : list element) : res xml_state :=
  match l with [] => Ok st | e :: l' => st' ← scan_element st e; scan_elements st' l' end.

Definition register_definitions : gco (list RegisterDefinition) :=
  registers ← gets g_registers;
  match registers with
  | Some l => mret l
  | None =>
      xml ← gets g_supports_target_xml;
      if negb xml then
        modify (set_registers ESP32_S3_CORE_REGISTERS) ≫= fun _ => mret ESP32_S3_CORE_REGISTERS
      else
        l ← loop (fun '(st, visited) =>
          match x_pending st with
          | [] => mret (inr (x_registers st))
          | annex :: pending =>
              let st := mkXml pending (x_registers st) (x_next_number st) in
              if bool_decide (annex ∈ visited) then mret (inl (st, visited))
              else
                root ← catch (document ← read_annex annex; gcall (ParseXml document)) [ParseError]
                  (fun _ => lift (gdb_error (lit "QEMU returned invalid register XML: " ++ annex)));
                st' ← lift (scan_elements st root);
                mret (inl (st', annex :: visited))
          end) (mkXml [lit "target.xml"] [] 0, []);
        if bool_decide (l = []) then lift (gdb_error (lit "QEMU exposed no GDB registers"))
        else modify (set_registers l) ≫= fun _ => mret l
  end.

(** The value of one "p" reply: [None] for an unavailable register. *)
Definition register_value (r : RegisterDefinition) (value : text) : res (option Z) :=
  if bool_decide (value = []) || starts_with (lit "E") value
     || forallb (fun c => (c =? 120) || (c =? 88)) value then Ok None
  else match fromhex value with
       | Some raw => Ok (Some (le_value raw))
       | None => gdb_error (lit "QEMU returned invalid data for register " ++ reg_name r)
       end.

Definition read_registers : gco (list (text * option Z)) :=
  definitions ← register_definitions;
  loop (fun '(todo, result) =>
    match todo with
    | [] => mret (inr result)
    | r :: todo' =>
        value ← command (112 :: hex_of_int (reg_number r)) true;
        v ← lift (register_value r value);
        mret (inl (todo', dict_set (reg_name r) v result))
    end) (definitions, []).

(** ** Memory, breakpoints and execution *)

Definition read_memory (address length : Z) : gco bytes :=
  if negb ((0 <=? address) && (address <=? 4294967295)) then
    lift (gdb_error (lit "debug address must fit in 32 bits"))
  else if negb ((1 <=? length) && (length <=? 4096)) then
    lift (gdb_error (lit "debug memory reads must be between 1 and 4096 bytes"))
  else
    response ← command (109 :: hex_of_int address ++ 44 :: hex_of_int length) true;
    if starts_with (lit "E") response then
      lift (gdb_error (lit "QEMU could not read guest memory: " ++ response))
    else match fromhex response with
    | None => lift (gdb_error (lit "QEMU returned invalid guest memory data"))
    | Some data => if zlen data =? length then mret data
                   else lift (gdb_error (lit "QEMU returned a short guest memory read"))
    end.

Definition set_breakpoint (address : Z) (enabled : bool) : gco unit :=
  if negb ((0 <=? address) && (address <=? 4294967295)) then
    lift (gdb_error (lit "breakpoint address must fit in 32 bits"))
  else
    answer ← command ((if enabled then lit "Z" else lit "z") ++ lit "1,"
                        ++ hex_of_int address ++ lit ",1") true;
    if bool_decide (answer = lit "OK") then skip
    else lift (gdb_error (lit "QEMU could not " ++ (if enabled then lit "add" else lit "remove")
                            ++ lit " the breakpoint")).
Definition add_breakpoint (address : Z) : gco unit := set_breakpoint address true.
Definition remove_breakpoint (address : Z) : gco unit := set_breakpoint address false.

Definition starts_with_any (l : list Z) (t : text) : bool :=
  match t with c :: _ => bool_decide (c ∈ l) | [] => false end.

Definition step : gco text :=
  response ← command (lit "s") true;
  if starts_with_any (lit "ST") response then mret response
  else lift (gdb_error (lit "QEMU returned an invalid step stop reply: " ++ response)).

Definition continue_execution : gco text :=
  response ← command (lit "c") false;
  if starts_with_any (lit "STWX") response then mret response
  else lift (gdb_error (lit "QEMU returned an invalid stop reply: " ++ response)).
