(* ===== verification/GdbProofs.v ===== *)
(** * The GDB client against a remote stub

    The packet decoder against its grammar, the exchange with a stub that
    answers over a byte stream (acknowledgements, console output, checksums)
    and what the client guarantees whatever the stub sends. *)

From Stdlib Require Import Init.Byte.
From S2P Require Import Prelude Text PyFloat Json Async Gdb.

(** ** Packet payloads *)

(** A payload is a sequence of literal bytes, escapes and run lengths. *)
Inductive item := Plain (c : byte) | Escaped (c : byte) | Run (c : byte).
Definition item_ok (i : item) : Prop :=
  match i with Plain c => b2z c <> 125 /\ b2z c <> 42 | _ => True end.
Definition encode_item (i : item) : bytes :=
  match i with
  | Plain c => [c]
  | Escaped c => blit "}" ++ [z2b (Z.lxor (b2z c) 32)]
  | Run c => blit "*" ++ [c]
  end.
(** The bytes a sequence of items stands for; a run repeats the last one. *)
Fixpoint denote (l : list item) (before : bytes) : option bytes :=
  match l with
  | [] => Some before
  | Plain c :: l' | Escaped c :: l' => denote l' (before ++ [c])
  | Run c :: l' =>
      match last before with
      | Some x => denote l' (before ++ replicate (Z.to_nat (b2z c - 29)) x)
      | None => None
      end
  end.

Definition flip (c : byte) : byte := z2b (Z.lxor (b2z c) 32).
Lemma flip_flip c : flip (flip c) = c.
Proof. by destruct c. Qed.

Lemma decode_denote l : Forall item_ok l -> forall before,
  decode_payload_from (concat (map encode_item l)) (reverse before) =
  match denote l before with
  | Some d => Ok d
  | None => gdb_error (lit "GDB returned invalid run-length encoding")
  end.
Proof.
  induction 1 as [|i l Hi Hl IH]; intros before; cbn [map concat denote].
  - cbn. by rewrite reverse_involutive.
  - destruct i as [c|c|c]; cbn [encode_item app].
    + destruct Hi as [H1 H2]. cbn [decode_payload_from].
      rewrite (proj2 (Z.eqb_neq _ _) H1), (proj2 (Z.eqb_neq _ _) H2), <- IH, reverse_snoc. done.
    + cbn [blit lit map app String.list_ascii_of_string decode_payload_from].
      change (b2z _ =? 125) with true at 1. cbv iota. change (z2b (Z.lxor (b2z ?x) 32)) with (flip x).
      rewrite <- IH, reverse_snoc. f_equal. f_equal. apply flip_flip.
    + cbn [blit lit map app String.list_ascii_of_string decode_payload_from].
      change (b2z _ =? 125) with false at 1. change (b2z _ =? 42) with true at 1. cbv iota.
      destruct before as [|x before _] using rev_ind; [done|].
      rewrite last_snoc, <- IH, !reverse_app. cbn [reverse rev_append app].
      rewrite reverse_replicate. done.
Qed.

Lemma decode_items n : forall e acc d, (length e <= n)%nat -> decode_payload_from e acc = Ok d ->
  exists l, Forall item_ok l /\ e = concat (map encode_item l).
Proof.
  induction n as [|n IH]; intros [|c e] acc d Hn H; cbn [length] in Hn; try lia;
    try (exists []; by split).
  cbn [decode_payload_from] in H. destruct (Z.eqb_spec (b2z c) 125) as [Hc|Hc].
  - destruct e as [|c' e]; [done|]. cbn [length] in Hn.
    apply IH in H as (l & Hl & ->); [|lia]. exists (Escaped (flip c') :: l).
    split; [by constructor|]. apply (b2z_inj c x7d) in Hc as ->.
    cbn [map concat encode_item]. fold (flip (flip c')). by rewrite flip_flip.
  - destruct (Z.eqb_spec (b2z c) 42) as [Hc'|Hc'].
    + destruct acc as [|x acc]; [done|]. destruct e as [|c' e]; [done|]. cbn [length] in Hn.
      apply IH in H as (l & Hl & ->); [|lia]. exists (Run c' :: l).
      split; [by constructor|]. by apply (b2z_inj c x2a) in Hc' as ->.
    + apply IH in H as (l & Hl & ->); [|lia]. exists (Plain c :: l). split; [by constructor|done].
Qed.

(** C35: the payload decoder accepts exactly the payloads that are a sequence
    of literals, escapes and run lengths, and returns the bytes that sequence
    stands for. *)
Theorem decode_payload_spec e d :
  decode_payload e = Ok d <->
  exists l, Forall item_ok l /\ e = concat (map encode_item l) /\ denote l [] = Some d.
Proof.
  unfold decode_payload. split.
  - intros H. destruct (decode_items (length e) e [] d) as (l & Hl & ->); [done|done|].
    exists l. split; [done|]. split; [done|]. change [] with (reverse (@nil byte)) in H.
    rewrite decode_denote in H by done. destruct (denote l []); [by apply Ok_inj in H as ->|done].
  - intros (l & Hl & -> & Hd). change [] with (reverse (@nil byte)) at 1.
    by rewrite decode_denote, Hd.
Qed.

(** Plain text that the protocol never escapes, such as hexadecimal digits. *)
Lemma decode_plain e : Forall (fun c => b2z c <> 125 /\ b2z c <> 42) e -> decode_payload e = Ok e.
Proof.
  intros H. apply decode_payload_spec. exists (map Plain e). split; [by apply Forall_map|].
  rewrite map_map. cbn [encode_item]. split.
  - clear H. induction e as [|c e IH]; [done|]. cbn. by f_equal.
  - change e with ([] ++ e) at 2. generalize (@nil byte). clear H.
    induction e as [|c e IH]; intros b; [by rewrite app_nil_r|]. cbn [map denote].
    by rewrite IH, <- app_assoc.
Qed.

(** ** A remote stub on a byte stream *)

Fixpoint split_at (c : byte) (w : bytes) : option (bytes * bytes) :=
  match w with
  | [] => None
  | x :: w' => if decide (x = c) then Some ([x], w')
               else match split_at c w' with Some (a, b) => Some (x :: a, b) | None => None end
  end.

Definition stub_await (self : tid) (o : gop) (w : bytes) (s : Gdb) : res (gresp o) * bytes * Gdb :=
  match o with
  | ReadExactly n => if n <=? zlen w then (Ok (take (Z.to_nat n) w), drop (Z.to_nat n) w, s)
                     else (raise IncompleteReadError [], [], s)
  | ReadUntil c => match split_at c w with
                   | Some (a, b) => (Ok a, b, s)
                   | None => (raise IncompleteReadError [], [], s)
                   end
  | AcquireLock => (Ok tt, w, set_lock (Some self) s)
  | LoopTime => (Ok (float_of_int 0), w, s)
  | DeadlineHit => (Ok false, w, s)
  | IsClosing => (Ok (g_closed s), w, s)
  | ParseXml _ => (raise ParseError [], w, s)
  | _ => (Ok tt, w, s)
  end.
Definition stub_call (o : gop) (w : bytes) (s : Gdb) : res (gresp o) * bytes :=
  let '(r, w', _) := stub_await 0 o w s in (r, w').
Definition stub (self : tid) : handler Gdb gop gresp bytes :=
  mkHandler stub_call (stub_await self) self (fun _ w => (S self, w)).

Lemma split_at_app c a b : c ∉ a -> split_at c (a ++ c :: b) = Some (a ++ [c], b).
Proof.
  induction a as [|x a IH]; intros H; cbn; [by rewrite decide_True|].
  apply not_elem_of_cons in H as [Hx H]. rewrite decide_False by congruence. by rewrite IH.
Qed.

(** The acknowledgement the client sends. *)
Definition ack (s : Gdb) (b : string) : bytes := if g_no_ack s then [] else blit b.
Definition no_ack_byte (s : Gdb) (w : bytes) : bytes := (if g_no_ack s then [] else blit "+") ++ w.

Lemma lower_checksum e : lower (checksum e) = checksum e.
Proof.
  unfold checksum, lower. set (b := z2b _). clearbody b. by destruct b.
Qed.
Lemma length_checksum e : length (checksum e) = 2%nat.
Proof. done. Qed.

Lemma write_nil s : write [] s = s.
Proof. destruct s. unfold write. cbn. by rewrite app_nil_r. Qed.

Lemma run_skip t n rest s :
  run (stub t) (S n) skip_to_packet (blit "$" ++ rest) s = Some (Ok tt, rest, s).
Proof.
  unfold skip_to_packet, loop. rewrite run_iter. cbn [rounds].
  unfold gawait, await. cbn [mbind co_bind seq run h_await stub stub_await].
  assert ((1 <=? zlen (blit "$" ++ rest)) = true) as -> by (apply Z.leb_le; cbn [length app blit lit map String.list_ascii_of_string]; lia).
  done.
Qed.

Lemma run_ack t n b w s :
  run (stub t) n (if g_no_ack s then skip else modify (write (blit b)) ≫= fun _ => gawait Drain) w s
  = Some (Ok tt, w, write (ack s b) s).
Proof.
  unfold ack. destruct (g_no_ack s); [by rewrite write_nil|]. done.
Qed.

(** Reading one packet: [sum] is the checksum that the stub sent. *)
Lemma run_read_packet t n enc sum rest s :
  x23 ∉ enc -> length sum = 2%nat ->
  run (stub t) (S n) read_packet (blit "$" ++ enc ++ blit "#" ++ sum ++ rest) s =
  if decide (checksum enc = lower sum) then
    Some (match payload_text enc with
          | Ok x => Ok x
          | Err e => if exc_sub (exn_class e) UnicodeDecodeError
                     then gdb_error (lit "QEMU returned non-text GDB packet data") else Err e
          end, rest, write (ack s "+") s)
  else Some (gdb_error (lit "QEMU returned a GDB packet with a bad checksum"), rest,
             write (ack s "-") s).
Proof.
  intros Henc Hsum. unfold read_packet.
  rewrite run_bind, run_skip.
  rewrite run_bind. unfold gawait, await. cbn [run h_await stub stub_await].
  change (blit "#" ++ sum ++ rest) with (x23 :: sum ++ rest).
  rewrite split_at_app by done. rewrite run_bind. cbn [run h_await stub stub_await].
  assert ((2 <=? zlen (sum ++ rest)) = true) as -> by (apply Z.leb_le; rewrite length_app; lia).
  change (Z.to_nat 2) with 2%nat. rewrite take_app_length', drop_app_length' by done.
  rewrite removelast_last, lower_checksum, run_bind.
  unfold gets. cbn [run].
  destruct (decide (checksum enc = lower sum)) as [E|E].
  - rewrite bool_decide_true by done. cbn [negb].
    assert (forall s, run (stub t) (S n) (catch (lift (payload_text enc))
       [UnicodeDecodeError] (fun _ => lift (gdb_error (lit "QEMU returned non-text GDB packet data")))) rest s =
       Some (match payload_text enc with
          | Ok x => Ok x
          | Err e => if exc_sub (exn_class e) UnicodeDecodeError
                     then gdb_error (lit "QEMU returned non-text GDB packet data") else Err e
          end, rest, s)) as Hd.
    { intros s'. unfold catch, lift. cbn [seq run].
      destruct (payload_text enc) as [x|e]; [done|].
      cbn [existsb]. rewrite orb_false_r. by destruct (exc_sub _ _). }
    rewrite run_bind. fold (gawait Drain). by rewrite run_ack, Hd.
  - rewrite bool_decide_false by done. cbn [negb].
    rewrite run_bind. fold (gawait Drain). by rewrite run_ack.
Qed.

(** ** A whole exchange *)

Definition ascii (t : text) : bytes := map z2b t.
(** A console-output packet of the stub. *)
Definition console (b : bytes) : bytes := packet (ascii (79 :: hex_of_bytes b)).
Definition acks (s : Gdb) (n : nat) : bytes := concat (replicate n (ack s "+")).

Lemma hex_chars b : Forall (fun c => 48 <= c <= 57 \/ 97 <= c <= 102) (hex_of_bytes b).
Proof.
  unfold hex_of_bytes. induction b as [|x b IH]; [constructor|]. cbn [map concat].
  apply Forall_app_2; [|done]. unfold hex_byte. pose proof (b2z_range x).
  assert (0 <= b2z x / 16 < 16) by (split; [apply Z.div_pos|apply Z.div_lt_upper_bound]; lia).
  assert (0 <= b2z x mod 16 < 16) by (apply Z.mod_pos_bound; lia).
  assert (forall d, 0 <= d < 16 -> 48 <= digit_char d <= 57 \/ 97 <= digit_char d <= 102) as Hd
    by (intros d Hd; unfold digit_char; destruct (Z.ltb_spec d 10); lia).
  constructor; [auto|constructor; [auto|constructor]].
Qed.

(** Letters and digits travel unescaped. *)
Definition alnum (c : Z) : Prop := 48 <= c <= 57 \/ 65 <= c <= 90 \/ 97 <= c <= 122.

Lemma alnum_ascii t : Forall alnum t -> is_ascii t = true.
Proof. intros H. apply is_ascii_Forall. eapply Forall_impl; [exact H|]. unfold alnum. cbn. lia. Qed.

Lemma ascii_codes t : Forall alnum t -> map b2z (ascii t) = t.
Proof.
  intros H. apply map_b2z_z2b. eapply Forall_impl; [exact H|]. unfold alnum. cbn. lia.
Qed.

Lemma alnum_bytes t : Forall alnum t -> Forall (fun c => alnum (b2z c)) (ascii t).
Proof.
  intros H. apply (Forall_map b2z alnum). by rewrite ascii_codes.
Qed.

Lemma payload_text_ascii t : Forall alnum t -> payload_text (ascii t) = Ok t.
Proof.
  intros H. unfold payload_text. rewrite decode_plain.
  - cbn [mbind res_bind]. apply utf8_decode_ascii. by apply alnum_ascii.
  - eapply Forall_impl; [by apply alnum_bytes|]. unfold alnum. cbn. lia.
Qed.

Lemma ascii_no_hash t : Forall alnum t -> x23 ∉ ascii t.
Proof.
  intros H Hin. apply alnum_bytes in H. rewrite Forall_forall in H. specialize (H _ Hin).
  unfold alnum in H. change (b2z x23) with 35 in H. lia.
Qed.

Lemma run_packet_ascii t n x rest s : Forall alnum x ->
  run (stub t) (S n) read_packet (packet (ascii x) ++ rest) s =
  Some (Ok x, rest, write (ack s "+") s).
Proof.
  intros Hx. unfold packet. rewrite <- !app_assoc, run_read_packet; [|by apply ascii_no_hash|done].
  rewrite decide_True by by rewrite lower_checksum. by rewrite payload_text_ascii.
Qed.

Lemma console_output b : b <> [] -> is_console_output (79 :: hex_of_bytes b) = true.
Proof.
  intros Hb. cbn [is_console_output]. change (79 =? 79) with true. cbn [andb].
  rewrite bool_decide_false.
  2:{ intros E. apply (f_equal length) in E. rewrite length_hex_of_bytes in E.
      destruct b; [done|cbn in E; lia]. }
  rewrite length_hex_of_bytes, Nat.even_mul. cbn [negb andb orb Nat.even].
  apply forallb_forall. intros c Hc. apply list_elem_of_In in Hc.
  pose proof (hex_chars b) as H. rewrite Forall_forall in H. specialize (H c Hc). cbn in H.
  unfold is_hexdigit. destruct H; bool_rw; [done|]. by rewrite orb_true_r.
Qed.

Lemma alnum_hex b : Forall alnum (hex_of_bytes b).
Proof. eapply Forall_impl; [apply hex_chars|]. unfold alnum. cbn. lia. Qed.

Lemma write_write a b s : write b (write a s) = write (a ++ b) s.
Proof. unfold write. cbn. by rewrite app_assoc. Qed.

(** The client's loop over the packets that answer a command. *)
Definition answer_round (_ : unit) : gco (unit + text) :=
  response ← read_packet;
  if is_console_output response then mret (inl tt) else mret (inr response).

Lemma rounds_replies t fuel outs x rest s n :
  Forall (fun b => b <> []) outs -> Forall alnum x -> is_console_output x = false ->
  (length outs < n)%nat ->
  rounds (stub t) (S fuel) n answer_round Ret tt
    (concat (map console outs) ++ packet (ascii x) ++ rest) s =
  Some (Ok x, rest, write (acks s (S (length outs))) s).
Proof.
  intros Ho Hx Hc. revert n s. induction Ho as [|b outs Hb _ IH]; intros n s Hn;
    (destruct n as [|n]; [cbn in Hn; lia|]); cbn [rounds map concat app length] in *;
    unfold answer_round at 1.
  - rewrite run_bind, run_packet_ascii by done. rewrite Hc.
    unfold acks. cbn [replicate concat]. by rewrite app_nil_r.
  - rewrite <- app_assoc, run_bind. unfold console at 1.
    rewrite run_packet_ascii by (constructor; [unfold alnum; lia|apply alnum_hex]).
    rewrite console_output by done. cbn [run].
    change (run _ _ (mret (inl tt)) ?w ?s) with (Some (Ok (@inl unit text tt), w, s)). cbv iota beta.
    rewrite IH by lia. rewrite write_write. done.
Qed.

Definition ascii_text (p : text) : Prop := is_ascii p = true.

(** The state after a command [p] that was answered with [n] packets. *)
Definition after_command (p : text) (n : nat) (s : Gdb) : Gdb :=
  set_lock None (write (packet (ascii p) ++ acks s n) s).

Lemma run_command t fuel p timed outs x rest s :
  ascii_text p -> Forall (fun b => b <> []) outs -> Forall alnum x ->
  is_console_output x = false -> (length outs < S fuel)%nat ->
  run (stub t) (S fuel) (command p timed)
    (no_ack_byte s (concat (map console outs) ++ packet (ascii x) ++ rest)) s =
  Some (Ok x, rest, after_command p (S (length outs)) s).
Proof.
  intros Hp Ho Hx Hc Hf. unfold command, locked. rewrite run_seq. cbn [gawait await run h_await stub stub_await].
  unfold finally. rewrite run_seq.
  set (w := no_ack_byte s _). set (s1 := set_lock (Some t) s).
  assert (run (stub t) (S fuel) (command_unlocked p) w s1 =
    Some (Ok x, rest, write (packet (ascii p) ++ acks s (S (length outs))) s1)) as Hu.
  { unfold command_unlocked, ascii_encode. unfold ascii_text, is_ascii in Hp. rewrite Hp.
    rewrite run_bind. cbn [lift run]. rewrite run_bind. cbn [modify run].
    rewrite run_bind. cbn [gawait await run h_await stub stub_await].
    rewrite run_bind. cbn [gets run]. fold (ascii p). fold answer_round.
    rewrite run_bind.
    assert (run (stub t) (S fuel)
      (if g_no_ack (write (packet (ascii p)) s1) then skip
       else acknowledgement ← gawait (ReadExactly 1);
            if bool_decide (acknowledgement = blit "+") then skip
            else lift (gdb_error (lit "QEMU did not acknowledge the GDB request")))
      w (write (packet (ascii p)) s1) =
      Some (Ok tt, concat (map console outs) ++ packet (ascii x) ++ rest,
            write (packet (ascii p)) s1)) as ->.
    { subst w. unfold no_ack_byte. change (g_no_ack (write (packet (ascii p)) s1)) with (g_no_ack s).
      destruct (g_no_ack s); [done|]. rewrite run_bind. cbn [gawait await run h_await stub stub_await].
      rewrite (proj2 (Z.leb_le _ _)) by (rewrite length_app; change (zlen (blit "+")) with 1; cbn; lia).
      done. }
    rewrite run_loop, (rounds_replies t fuel outs x rest) by done.
    rewrite write_write. done. }
  rewrite !run_catch. unfold deadline. destruct timed; rewrite ?run_catch, Hu; done.
Qed.

Lemma hex_of_int_ascii n : is_ascii (hex_of_int n) = true.
Proof.
  apply is_ascii_Forall. unfold hex_of_int, format_int.
  destruct (Z.ltb_spec n 0); [constructor; [lia|]|];
    (eapply Forall_impl; [apply format_nat_digits; lia|]; cbn; lia).
Qed.

Definition memory_command (address length : Z) : text :=
  109 :: hex_of_int address ++ 44 :: hex_of_int length.

Lemma memory_command_ascii a n : ascii_text (memory_command a n).
Proof.
  unfold ascii_text, memory_command. change (109 :: ?l) with ([109] ++ l).
  change (44 :: ?l) with ([44] ++ l). by rewrite !is_ascii_app, !hex_of_int_ascii.
Qed.

Lemma hex_head b : b <> [] -> exists c r, hex_of_bytes b = c :: r /\
  (48 <= c <= 57 \/ 97 <= c <= 102).
Proof.
  intros Hb. pose proof (hex_chars b) as H. destruct b as [|x b]; [done|].
  destruct (hex_of_bytes (x :: b)) as [|c r] eqn:E; [done|]. apply Forall_cons in H as [H _]. eauto.
Qed.

(** A memory read against a stub that answers with the hexadecimal image
    of the data returns exactly the data: the client sends the one packet
    "m<address>,<length>" with its checksum, skips any amount of console
    output, acknowledges every packet unless acknowledgements are off, leaves
    the bytes after the reply unread and releases its lock. *)
Theorem read_memory_exchange t fuel address data outs rest s :
  0 <= address <= 4294967295 -> 1 <= zlen data <= 4096 ->
  Forall (fun b => b <> []) outs -> (length outs < S fuel)%nat ->
  run (stub t) (S fuel) (read_memory address (zlen data))
    (no_ack_byte s (concat (map console outs) ++ packet (ascii (hex_of_bytes data)) ++ rest)) s =
  Some (Ok data, rest, after_command (memory_command address (zlen data)) (S (length outs)) s).
Proof.
  intros Ha Hd Ho Hf. unfold read_memory. bool_rw. cbn [andb negb].
  destruct (hex_head data) as (c & r & E & Hc); [by destruct data; cbn in *; [lia|]|].
  assert (starts_with (lit "E") (hex_of_bytes data) = false) as Hs.
  { rewrite E. change (lit "E") with [69]. cbn [starts_with]. destruct Hc; by bool_rw. }
  assert (is_console_output (hex_of_bytes data) = false) as Hk.
  { rewrite E. cbn [is_console_output]. destruct Hc; by bool_rw. }
  rewrite run_bind, run_command; [|apply memory_command_ascii|auto using alnum_hex..].
  rewrite Hs, fromhex_hex, Z.eqb_refl. done.
Qed.

Lemma read_memory_exchange_witness :
  run (stub 0) 2 (read_memory 1070137344 2)
    (blit "+" ++ console (blit "boot") ++ packet (blit "00ff") ++ blit "rest") Gdb_init =
  Some (Ok [x00; xff], blit "rest",
        mkGdb (blit "$m3fc90000,2#c0++") false None false false None).
Proof.
  refine (eq_trans (read_memory_exchange 0 1 1070137344 [x00; xff] [blit "boot"] (blit "rest")
    Gdb_init _ _ _ _) _).
  - lia.
  - cbn. lia.
  - repeat constructor. done.
  - cbn. lia.
  - vm_compute. reflexivity.
Defined.

(** ** Corruption *)

Lemma hex_byte_inj a b : hex_byte a = hex_byte b -> a = b.
Proof.
  intros H. enough (Some [a] = Some [b]) by congruence.
  rewrite <- !fromhex_hex. unfold hex_of_bytes. cbn [map concat]. by rewrite H.
Qed.

Lemma map_z2b_hex_inj a b : map z2b (hex_byte a) = map z2b (hex_byte b) -> a = b.
Proof.
  intros H. apply hex_byte_inj. apply (f_equal (map b2z)) in H.
  rewrite !map_b2z_z2b in H; [done|..];
    (eapply Forall_impl; [apply (hex_chars [_])|]; cbn; lia).
Qed.

Lemma checksum_mod p q : checksum p = checksum q ->
  foldr Z.add 0 (codes p) mod 256 = foldr Z.add 0 (codes q) mod 256.
Proof.
  unfold checksum. intros H%map_z2b_hex_inj. apply (f_equal b2z) in H.
  rewrite !b2z_z2b in H. change 255 with (Z.ones 8) in H.
  rewrite !Z.land_ones in H by lia. change (2 ^ 8) with 256 in H.
  by rewrite !Z.mod_mod in H by lia.
Qed.

Lemma sum_app a b : foldr Z.add 0 (codes (a ++ b)) = foldr Z.add 0 (codes a) + foldr Z.add 0 (codes b).
Proof.
  unfold codes. rewrite map_app. induction a as [|x a IH]; [done|].
  cbn [map app foldr]. rewrite IH. lia.
Qed.

Lemma checksum_substitution a c c' b : c <> c' ->
  checksum (a ++ c :: b) <> checksum (a ++ c' :: b).
Proof.
  intros Hne H%checksum_mod. rewrite !sum_app in H. cbn [codes map foldr] in H. fold (codes b) in H.
  pose proof (b2z_range c). pose proof (b2z_range c').
  assert ((b2z c - b2z c') mod 256 = 0) as Hm.
  { replace (b2z c - b2z c') with
      ((foldr Z.add 0 (codes a) + (b2z c + foldr Z.add 0 (codes b)))
       - (foldr Z.add 0 (codes a) + (b2z c' + foldr Z.add 0 (codes b)))) by lia.
    rewrite Zminus_mod, H, Z.sub_diag. done. }
  apply Hne, b2z_inj. apply Z.mod_divide in Hm as [k Hk]; [|lia]. nia.
Qed.

(** A packet in which one payload byte was changed in transit, its
    checksum unchanged, is never taken for an answer: the client raises, and
    sends a negative acknowledgement exactly when acknowledgements are on. *)
Theorem corrupted_packet_rejected t n a c c' b rest s :
  c <> c' -> x23 ∉ a ++ c' :: b ->
  run (stub t) (S n) read_packet
    (blit "$" ++ (a ++ c' :: b) ++ blit "#" ++ checksum (a ++ c :: b) ++ rest) s =
  Some (gdb_error (lit "QEMU returned a GDB packet with a bad checksum"), rest, write (ack s "-") s).
Proof.
  intros Hne Hh. rewrite run_read_packet by done. rewrite lower_checksum, decide_False; [done|].
  by apply checksum_substitution.
Qed.

Lemma corrupted_packet_rejected_witness :
  run (stub 0) 1 read_packet (blit "$OJ#9a") Gdb_init =
  Some (gdb_error (lit "QEMU returned a GDB packet with a bad checksum"), [],
        write (blit "-") Gdb_init).
Proof.
  apply (corrupted_packet_rejected 0 0 (blit "O") x4b x4a [] [] Gdb_init); [done|].
  apply (bool_decide_unpack _). by vm_compute.
Defined.

(** ** Whatever the stub does *)

Abbreviation gwp := (wp (fun _ _ _ => True) (fun _ _ _ _ _ => True) (fun _ => True) (fun _ _ _ => True)).

Lemma read_memory_wp self address length tr s :
  gwp self (read_memory address length) (fun _ r _ =>
    match r with Ok d => zlen d = length | Err _ => True end) tr s.
Proof.
  unfold read_memory. destruct (_ && _); cbn [negb]; [|done].
  destruct ((1 <=? _) && _); cbn [negb]; [|done].
  apply wp_bind, wp_trivial; [done|done|]. intros tr1 [x|e] s1; [|done].
  destruct (starts_with _ _); [done|]. destruct (fromhex x) as [d|]; [|done].
  by destruct (Z.eqb_spec (zlen d) length).
Qed.


