(* ===== verification/Qmp.v ===== *)
(** * The QMP client ([qmp.py])

    One request over a fresh connection to QEMU's control socket: open with
    retries until a deadline, greeting, capabilities, command.  The heap is
    the connection: what was written to it and whether it is open. *)

From Stdlib Require Import Init.Byte.
From S2P Require Import Prelude Text PyFloat Json PyNumber Async.

(** ** The connection and its operations *)

Inductive connection_state := NotOpened | Opened | Closed.
#[export] Instance connection_state_eq_dec : EqDecision connection_state.
Proof. solve_decision. Defined.
Record QmpConnection := mkConnection { qc_state : connection_state; qc_sent : bytes }.
Definition QmpConnection_init : QmpConnection := mkConnection NotOpened [].

(** Awaited: opening the socket, a line from it, flushing, sleeping.
    Synchronous: the event loop's clock, and whether the deadline of the
    enclosing [asyncio.timeout] has passed. *)
Inductive qop := OpenUnix | ReadLine | Drain | Sleep (seconds : float) | LoopTime | DeadlineHit.
Definition qresp (o : qop) : Type :=
  match o with
  | ReadLine => bytes | LoopTime => float | DeadlineHit => bool | _ => unit
  end.
Abbreviation qco := (co QmpConnection qop qresp).
Definition qcall (o : qop) : qco (qresp o) := call o.
Definition qawait (o : qop) : qco (qresp o) := await o.

Definition set_state (st : connection_state) (c : QmpConnection) : QmpConnection :=
  mkConnection st (qc_sent c).
(** [writer.write] *)
Definition write (b : bytes) : qco unit :=
  modify (fun c => mkConnection (qc_state c) (qc_sent c ++ b)).

(** ** JSON text *)

(** Floats as [json.dumps] prints them. *)
Definition json_float (x : float) : text :=
  match x with
  | S754_infinity s => (if s then lit "-" else []) ++ lit "Infinity"
  | S754_nan => lit "NaN"
  | _ => str_of_float x
  end.
(** [json.dumps(v, separators=(",", ":")).encode() + b"\n"] *)
Definition request_line (v : json) : res bytes :=
  line ← utf8_encode (dumps json_float false [] v); Ok (line ++ [x0a]).

Definition CAPABILITIES_REQUEST : json :=
  JObj [(lit "execute", JStr (lit "qmp_capabilities")); (lit "id", JStr (lit "capabilities"))].
Definition command_request (command : text) (arguments : option json) : json :=
  JObj ([(lit "execute", JStr command); (lit "id", JStr (lit "command"))]
        ++ match arguments with Some a => [(lit "arguments", a)] | None => [] end).

Section Qmp.
(** The text of an exception whose argument is not a string. *)
Context (py_str : json -> text).

Definition text_of (v : json) : text := match v with JStr t => t | _ => py_str v end.

(** ** Messages *)

(** One line: [None] when it is blank. *)
Definition parse_line (raw : bytes) : res (option (list (text * json))) :=
  match strip is_ascii_space (codes raw) with
  | [] => Ok None
  | _ =>
      message ← try_except (loads raw) [JSONDecodeError]
        (fun _ => raise QmpError (lit "QEMU returned invalid QMP JSON"));
      match message with
      | JObj d => Ok (Some d)
      | _ => raise QmpError (lit "QEMU returned a non-object QMP message")
      end
  end.

(** [_read_message] and one round of its loop *)
Definition read_round (_ : unit) : qco (unit + list (text * json)) :=
  raw ← qawait ReadLine;
  match (raw : bytes) with
  | [] => throw QmpUnavailableError (lit "QEMU closed the QMP connection")
  | _ =>
      message ← lift (parse_line raw);
      mret (match message with Some d => inr d | None => inl tt end)
  end.
Definition read_message : qco (list (text * json)) := loop read_round tt.

(** The outcome of a message for the request [request_id]; [None] when it
    belongs to something else. *)
Definition response_of (request_id : string) (message : list (text * json)) : option (res json) :=
  match dict_get (lit "id") message with
  | Some (JStr id) =>
      if bool_decide (id = lit request_id) then
        let error := default JNull (dict_get (lit "error") message) in
        Some (if truthy error then
                raise QmpCommandError
                  (match error with
                   | JObj d => text_of (default (JStr (lit "QMP command failed")) (dict_get (lit "desc") d))
                   | _ => text_of error
                   end)
              else Ok (default JNull (dict_get (lit "return") message)))
      else None
  | _ => None
  end.

(** [_read_response] and one round of its loop *)
Definition response_round (request_id : string) (_ : unit) : qco (unit + json) :=
  message ← read_message;
  match response_of request_id message with
  | None => mret (inl tt)
  | Some r => v ← lift r; mret (inr v)
  end.
Definition read_response (request_id : string) : qco json := loop (response_round request_id) tt.

(** ** Connecting *)

Definition POLL_SECONDS : float := float_of_decimal false 5 (-2).

(** [_open_qmp] and one attempt *)
Definition open_round (deadline : float) (_ : unit) : qco (unit + unit) :=
  now ← qcall LoopTime;
  if fltb now deadline then
    catch (qawait OpenUnix ≫= fun _ => modify (set_state Opened) ≫= fun _ => mret (inr tt)) [OSError]
      (fun _ => qawait (Sleep POLL_SECONDS) ≫= fun _ => mret (inl tt))
  else throw QmpUnavailableError (lit "QMP socket is unavailable").
Definition open_qmp (timeout_seconds : float) : qco unit :=
  now ← qcall LoopTime;
  loop (open_round (fadd now timeout_seconds)) tt.

(** ** One request *)

(** A request is written and flushed, and its response awaited. *)
Definition ask (request_id : string) (request : json) : qco json :=
  line ← lift (request_line request);
  write line ≫= fun _ =>
  qawait Drain ≫= fun _ =>
  read_response request_id.
(** The dialogue on an open connection. *)
Definition dialogue (command : text) (arguments : option json) : qco json :=
  greeting ← read_message;
  if dict_get (lit "QMP") greeting is None then
    throw QmpError (lit "QEMU did not send a QMP greeting")
  else
    ask "capabilities" CAPABILITIES_REQUEST ≫= fun _ =>
    ask "command" (command_request command arguments).

(** [execute_qmp] *)
Definition execute_qmp (command : text) (arguments : option json) (timeout_seconds : float) : qco json :=
  open_qmp timeout_seconds ≫= fun _ =>
  finally
    (catch (deadline (qcall DeadlineHit) (dialogue command arguments)) [TimeoutError]
       (fun _ => throw QmpUnavailableError (lit "QMP command timed out: " ++ command)))
    (modify (set_state Closed)).
End Qmp.
