(* ===== verification/QmpProofs.v ===== *)
(** * The QMP client is correct

    It answers whatever unrelated messages QEMU interleaves, always closes its
    connection, sends at most its two requests in order, and gives up
    connecting. *)

From Stdlib Require Import Init.Byte.
From S2P Require Import Prelude Text PyFloat Json PyNumber Async Qmp.

(** ** A peer that sends lines *)

(** The world is what QEMU will still send; the clock stands still. *)
Definition peer : handler QmpConnection qop qresp (list bytes) :=
  let answer (o : qop) (l : list bytes) : res (qresp o) * list bytes :=
    match o return res (qresp o) * list bytes with
    | ReadLine => match l with [] => (Ok [], []) | x :: l' => (Ok x, l') end
    | LoopTime => (Ok (float_of_int 0), l)
    | DeadlineHit => (Ok false, l)
    | OpenUnix | Drain => (Ok tt, l)
    | Sleep _ => (Ok tt, l)
    end in
  mkHandler (fun o l _ => answer o l) (fun o l c => (answer o l, c)) 0%nat (fun _ l => (1%nat, l)).

Definition blank (raw : bytes) : Prop := raw <> [] /\ parse_line raw = Ok None.
Definition carries (raw : bytes) (d : list (text * json)) : Prop := raw <> [] /\ parse_line raw = Ok (Some d).

Section Dialogue.
Context (py_str : json -> text).

(** A line that does not answer [id]: blank, or some other message. *)
Definition unrelated (id : string) (raw : bytes) : Prop :=
  blank raw \/ exists d, carries raw d /\ response_of py_str id d = None.

Lemma run_read_message fuel noise raw d rest c :
  Forall blank noise -> carries raw d -> (length noise < fuel)%nat ->
  run peer fuel read_message (noise ++ raw :: rest) c = Some (Ok d, rest, c).
Proof.
  intros Hn [Hr Hp] Hf. unfold read_message. rewrite run_loop. revert Hf. generalize fuel at 1 3.
  intros m Hm. revert m Hm. induction Hn as [|x noise [Hx Hb] _ IH]; intros [|m] Hm; cbn [length] in Hm;
    try lia; cbn [rounds app]; unfold read_round at 1; rewrite run_bind;
    cbn [run qawait await peer h_await fst snd].
  - destruct raw as [|b raw]; [done|]. by rewrite Hp.
  - destruct x as [|b x]; [done|]. rewrite Hb. cbn. apply IH. lia.
Qed.

Lemma unrelated_split id noise : Forall (unrelated id) noise ->
  Forall blank noise \/ exists blanks raw d noise', noise = blanks ++ raw :: noise' /\
    Forall blank blanks /\ carries raw d /\ response_of py_str id d = None /\ Forall (unrelated id) noise'.
Proof.
  induction 1 as [|x noise Hx Hn IH]; [by left|].
  destruct Hx as [Hb|(d & Hc & Hd)]; [|right; by exists [], x, d, noise].
  destruct IH as [IH|(bl & raw & d & n' & -> & Hbl & Hr)]; [left; by constructor|right].
  exists (x :: bl), raw, d, n'. split; [done|]. split; [by constructor|done].
Qed.

Lemma run_read_response fuel id noise raw d r rest c :
  Forall (unrelated id) noise -> carries raw d -> response_of py_str id d = Some r ->
  (length noise < fuel)%nat ->
  run peer fuel (read_response py_str id) (noise ++ raw :: rest) c = Some (r, rest, c).
Proof.
  intros Hn Hc Hr Hf. unfold read_response. rewrite run_loop.
  assert (forall m noise, Forall (unrelated id) noise -> (length noise < m)%nat ->
    (length noise < fuel)%nat ->
    rounds peer fuel m (response_round py_str id) Ret tt (noise ++ raw :: rest) c = Some (r, rest, c)) as H.
  2:{ by apply H. }
  clear noise Hn Hf. induction m as [|m IH]; intros noise Hn Hm Hf; [lia|].
  cbn [rounds]. unfold response_round at 1. rewrite run_bind.
  destruct (unrelated_split id noise Hn) as [Hb|(bl & x & d' & n' & -> & Hbl & Hx & Hd' & Hn')].
  - rewrite (run_read_message fuel noise raw d rest c) by done. rewrite Hr. by destruct r.
  - rewrite length_app in *. cbn [length] in *. rewrite <- app_assoc. cbn [app].
    rewrite (run_read_message fuel bl x d' (n' ++ raw :: rest) c) by (done || lia). rewrite Hd'.
    cbn [run mret co_ret]. apply IH; [done|lia|lia].
Qed.
End Dialogue.

(** ** The answer arrives *)

Definition capabilities_line : bytes :=
  match request_line CAPABILITIES_REQUEST with Ok l => l | Err _ => [] end.
Lemma capabilities_line_ok : request_line CAPABILITIES_REQUEST = Ok capabilities_line.
Proof. reflexivity. Qed.

Lemma response_error py_str id d e : response_of py_str id d = Some (Err e) -> exn_class e = QmpCommandError.
Proof.
  unfold response_of. destruct (dict_get (lit "id") d) as [[]|]; try done. case_bool_decide; [|done].
  cbv zeta. destruct (truthy _); [|done]. intros [= <-]. done.
Qed.

Lemma run_open fuel timeout_seconds l c :
  fltb (float_of_int 0) (fadd (float_of_int 0) timeout_seconds) = true -> (0 < fuel)%nat ->
  run peer fuel (open_qmp timeout_seconds) l c = Some (Ok tt, l, set_state Opened c).
Proof.
  intros Ht Hf. destruct fuel as [|f]; [lia|]. unfold open_qmp. rewrite run_bind. cbn [run qcall call peer h_call].
  rewrite run_loop. cbn [rounds]. unfold open_round at 1. rewrite run_bind. cbn [run qcall call peer h_call].
  rewrite Ht, run_catch, !run_bind. reflexivity.
Qed.

Lemma run_ask py_str fuel id request line noise raw d r rest c :
  request_line request = Ok line -> Forall (unrelated py_str id) noise -> carries raw d ->
  response_of py_str id d = Some r -> (length noise < fuel)%nat ->
  run peer fuel (ask py_str id request) (noise ++ raw :: rest) c
  = Some (r, rest, mkConnection (qc_state c) (qc_sent c ++ line)).
Proof.
  intros Hl Hn Hc Hr Hf. unfold ask. rewrite Hl, !run_bind. cbn [run lift write modify]. rewrite !run_bind.
  cbn [run lift write modify qawait await peer h_await fst snd]. rewrite !run_bind.
  cbn [run qawait await peer h_await fst snd]. by apply (run_read_response py_str fuel id noise raw d).
Qed.

(** C33: a QMP command is answered.  Whatever blank lines and unrelated
    messages (events, replies to other requests) QEMU sends before and between
    its answers, if it eventually greets, accepts the capabilities request and
    answers the command, the call returns that answer, or raises
    QmpCommandError if it is an error; it has then sent exactly its two
    requests, the command after the capabilities, consumed no input beyond the
    answer, and closed the connection. *)
Theorem qmp_answers py_str command arguments timeout_seconds noise0 greeting g noise1 caps c v
    noise2 reply d r rest line fuel :
  fltb (float_of_int 0) (fadd (float_of_int 0) timeout_seconds) = true ->
  Forall blank noise0 -> carries greeting g -> dict_get (lit "QMP") g <> None ->
  Forall (unrelated py_str "capabilities") noise1 -> carries caps c ->
  response_of py_str "capabilities" c = Some (Ok v) ->
  Forall (unrelated py_str "command") noise2 -> carries reply d ->
  response_of py_str "command" d = Some r ->
  request_line (command_request command arguments) = Ok line ->
  (length noise0 + length noise1 + length noise2 < fuel)%nat ->
  run peer fuel (execute_qmp py_str command arguments timeout_seconds)
    (noise0 ++ greeting :: noise1 ++ caps :: noise2 ++ reply :: rest) QmpConnection_init
  = Some (r, rest, mkConnection Closed (capabilities_line ++ line)) /\
  (forall e, r = Err e -> exn_class e = QmpCommandError).
Proof.
  intros Ht H0 Hg HQ H1 Hc Hrc H2 Hd Hrd Hl Hf. split; [|intros e ->; by eapply response_error].
  unfold execute_qmp. rewrite run_bind, run_open by (done || lia). unfold finally. rewrite run_seq, run_catch.
  unfold deadline. rewrite run_catch. unfold dialogue.
  rewrite run_bind, (run_read_message _ noise0 greeting g) by (done || lia).
  destruct (dict_get (lit "QMP") g); [|done]. rewrite run_bind.
  rewrite (run_ask _ _ _ _ capabilities_line noise1 caps c (Ok v)) by (done || lia).
  rewrite (run_ask _ _ _ _ line noise2 reply d r) by (done || lia).
  destruct r as [a|e]; [reflexivity|]. pose proof (response_error _ _ _ _ Hrd) as E.
  rewrite E. change (existsb (exc_sub QmpCommandError) [CancelledError]) with false. cbv iota beta.
  rewrite E. reflexivity.
Qed.

(** ** Any peer: the connection *)

(** One task, so nothing else changes the heap; every operation may answer or
    raise anything. *)
Definition q_replies (c : QmpConnection) (o : qop) (r : res (qresp o)) : Prop := True.
Definition q_answers (c : QmpConnection) (t : tid) (o : qop) (r : res (qresp o)) (c' : QmpConnection) : Prop :=
  c' = c.
(** The connection belongs to task 0. *)
Definition q_rely (t : tid) (c c' : QmpConnection) : Prop := t = O -> c = c'.
Abbreviation qwp := (wp q_replies q_answers (fun _ => True) q_rely O).

Lemma q_await o (Q : list (event qop qresp) -> res (qresp o) -> QmpConnection -> Prop) tr c :
  (forall r, Q (tr ++ [Awaited o r]) r c) -> qwp (qawait o) Q tr c.
Proof. intros H. split; [done|]. intros r c1 c' E _ ->. rewrite <- E by done. apply H. Qed.
Lemma q_call o (Q : list (event qop qresp) -> res (qresp o) -> QmpConnection -> Prop) tr c :
  (forall r, Q (tr ++ [Called o r]) r c) -> qwp (qcall o) Q tr c.
Proof. intros H r _. apply H. Qed.
Lemma q_modify f (Q : list (event qop qresp) -> res unit -> QmpConnection -> Prop) tr c :
  Q tr (Ok tt) (f c) -> qwp (modify f) Q tr c.
Proof. intros H. apply wp_modify; [intros t Ht E; congruence|done]. Qed.

(** [m] leaves the connection alone. *)
Definition reads_only {A} (m : qco A) : Prop :=
  forall tr c, qwp m (fun _ _ c' => c' = c) tr c.

Lemma reads_message : reads_only read_message.
Proof.
  intros tr c. apply (wp_loop _ _ _ _ (fun _ _ c' => c' = c)); [done|]. intros [] tr1 c1 ->.
  apply wp_bind, q_await. intros [[|b raw]|e]; [done| |done]. apply wp_bind.
  by destruct (parse_line (b :: raw)) as [[d|]|e].
Qed.
Lemma reads_response py_str id : reads_only (read_response py_str id).
Proof.
  intros tr c. apply (wp_loop _ _ _ _ (fun _ _ c' => c' = c)); [done|]. intros [] tr1 c1 ->.
  apply wp_bind. eapply wp_mono; [|apply reads_message]. intros tr2 [d|e] c2 ->; [|done].
  destruct (response_of py_str id d) as [[v|e]|]; done.
Qed.

(** Asking writes one line. *)
Lemma ask_writes py_str id request tr c :
  qwp (ask py_str id request) (fun _ r c' =>
    qc_state c' = qc_state c /\
    match request_line request with
    | Ok line => qc_sent c' = qc_sent c ++ line
    | Err _ => qc_sent c' = qc_sent c /\ is_ok r = false
    end) tr c.
Proof.
  unfold ask. apply wp_bind. cbn [wp lift]. destruct (request_line request) as [line|e]; [|done].
  apply wp_bind, q_modify. apply wp_bind, q_await. intros [[]|e]; [|done].
  eapply wp_mono; [|apply reads_response]. by intros tr1 r c' ->.
Qed.

(** The requests sent so far, as far as they go. *)
Definition requests_sent (line : bytes) (sent : bytes) : Prop :=
  sent = [] \/ sent = capabilities_line \/ sent = capabilities_line ++ line.

Lemma dialogue_sends py_str command arguments line tr c :
  request_line (command_request command arguments) = Ok line -> qc_sent c = [] ->
  qwp (dialogue py_str command arguments) (fun _ r c' =>
    qc_state c' = qc_state c /\ requests_sent line (qc_sent c') /\
    (is_ok r = true -> qc_sent c' = capabilities_line ++ line)) tr c.
Proof.
  intros Hl Hs. unfold dialogue, requests_sent. apply wp_bind. eapply wp_mono; [|apply reads_message].
  intros tr1 [g|e] c1 ->; [|by split_and!; auto].
  destruct (dict_get (lit "QMP") g); [|by cbn [wp throw]; split_and!; auto].
  apply wp_bind. eapply wp_mono; [|apply ask_writes]. cbv beta. rewrite capabilities_line_ok.
  intros tr2 [v|e] c2 [E1 E2]; rewrite Hs in E2; cbn [app] in E2;
    [|by split_and!; auto].
  eapply wp_mono; [|apply ask_writes]. cbv beta. rewrite Hl. intros tr3 r c3 [E3 E4].
  rewrite E2 in E4. rewrite E3, E1. by split_and!; auto.
Qed.

Lemma open_opens timeout_seconds tr :
  qwp (open_qmp timeout_seconds) (fun _ r c' =>
    c' = match r with Ok _ => mkConnection Opened [] | Err _ => QmpConnection_init end) tr QmpConnection_init.
Proof.
  unfold open_qmp. apply wp_bind, q_call. intros [t0|e]; [|done].
  apply (wp_loop _ _ _ _ (fun _ _ c' => c' = QmpConnection_init)); [done|]. intros [] tr1 c ->.
  apply wp_bind, q_call. intros [t1|e]; [|done]. destruct (fltb t1 _); [|done].
  apply wp_catch, wp_bind, q_await. intros [[]|e].
  - by apply wp_bind, q_modify.
  - destruct (existsb _ _); [|done]. apply wp_bind, q_await. by intros [[]|e'].
Qed.

(** How a call may leave the connection. *)
Definition settled (line : bytes) (r : res json) (c : QmpConnection) : Prop :=
  match qc_state c with
  | NotOpened => qc_sent c = [] /\ is_ok r = false
  | Opened => False
  | Closed => requests_sent line (qc_sent c) /\
      match r with
      | Ok _ => qc_sent c = capabilities_line ++ line
      | Err e => exc_sub (exn_class e) TimeoutError = false
      end
  end.

(** No peer can leave a connection open or confuse the requests.  Whatever
    the socket, the clock and QEMU do, when [execute_qmp] returns or raises, the
    connection was either never opened or has been closed; what was sent is
    nothing, the capabilities request, or the capabilities request and the
    command, and both of them if it returns; and once the connection was open a
    timeout is always reported as a QMP error. *)
Theorem qmp_connection_closed py_str command arguments timeout_seconds line tr :
  request_line (command_request command arguments) = Ok line ->
  qwp (execute_qmp py_str command arguments timeout_seconds) (fun _ r c => settled line r c)
    tr QmpConnection_init.
Proof.
  intros Hl. unfold execute_qmp. apply wp_bind. eapply wp_mono; [|apply open_opens].
  intros tr1 [[]|e] c1 ->; [|by split]. apply wp_finally, wp_catch, wp_deadline.
  eapply wp_mono; [|by apply (dialogue_sends py_str command arguments line)].
  intros tr2 r c2 (Hst & Hs & Hok).
  assert (forall r tr, match r with Ok _ => qc_sent c2 = capabilities_line ++ line
                       | Err e => exc_sub (exn_class e) TimeoutError = false end ->
    qwp (modify (set_state Closed)) (fun _ r' c =>
      settled line (match r' with Ok _ => r | Err e => Err e end) c) tr c2) as Hclose.
  { intros r' tr' Hr. apply q_modify. by split. }
  assert (forall e tr, if existsb (exc_sub (exn_class e)) [TimeoutError]
    then qwp (throw QmpUnavailableError (lit "QMP command timed out: " ++ command)) (fun _ r _ =>
      qwp (modify (set_state Closed)) (fun _ r' c =>
        settled line (match r' with Ok _ => r | Err e => Err e end) c) tr c2) tr c2
    else qwp (modify (set_state Closed)) (fun _ r' c =>
        settled line (match r' with Ok _ => Err e | Err e => Err e end) c) tr c2) as Hraise.
  { intros e tr'. cbn [existsb]. rewrite orb_false_r. destruct (exc_sub _ _) eqn:E; [|by apply Hclose].
    by apply (Hclose (raise QmpUnavailableError _)). }
  destruct r as [v|e]; [by apply (Hclose (Ok v)), Hok|].
  destruct (exc_sub (exn_class e) CancelledError); [|apply Hraise].
  apply q_call. intros [[]|e']; [|apply Hraise..].
  by apply (Hclose (raise QmpUnavailableError _)).
Qed.

(** ** Giving up *)

(** A clock and a socket: the world counts the readings of the clock, and the
    attempt after the [n]-th reading ends as [opens n] says. *)
Definition opener (clock : nat -> float) (opens : nat -> res unit) : handler QmpConnection qop qresp nat :=
  let answer (o : qop) (n : nat) : res (qresp o) * nat :=
    match o return res (qresp o) * nat with
    | LoopTime => (Ok (clock n), S n)
    | OpenUnix => (opens n, n)
    | ReadLine => (Ok [], n)
    | DeadlineHit => (Ok false, n)
    | Drain | Sleep _ => (Ok tt, n)
    end in
  mkHandler (fun o n _ => answer o n) (fun o n c => (answer o n, c)) 0%nat (fun _ n => (1%nat, n)).

(** C34: connecting terminates.  If the clock passes the deadline at its [n]-th
    reading, the attempts to open the socket end within [n] rounds: with an
    open connection if some attempt succeeded in time, with an error of an
    attempt that is not an OSError, or with QmpUnavailableError after the deadline. *)
Theorem open_qmp_terminates clock opens timeout_seconds n fuel :
  fltb (clock n) (fadd (clock 0%nat) timeout_seconds) = false -> (n < fuel)%nat -> (1 <= n)%nat ->
  exists r k c, run (opener clock opens) fuel (open_qmp timeout_seconds) 0%nat QmpConnection_init
                = Some (r, k, c) /\ (k <= S n)%nat /\
    match r with
    | Ok _ => c = mkConnection Opened [] /\ opens k = Ok tt
    | Err e => c = QmpConnection_init /\
        (exn_class e = QmpUnavailableError /\ fltb (clock (pred k)) (fadd (clock 0%nat) timeout_seconds) = false
         \/ opens k = Err e /\ exc_sub (exn_class e) OSError = false)
    end.
Proof.
  intros Hn Hf H1. unfold open_qmp. rewrite run_bind. cbn [run qcall call opener h_call].
  set (d := fadd (clock 0%nat) timeout_seconds) in *. rewrite run_loop.
  assert (forall m k, (k <= n)%nat -> (n < k + m)%nat -> exists r k' c,
    rounds (opener clock opens) fuel m (open_round d) Ret tt k QmpConnection_init = Some (r, k', c) /\
    (k' <= S n)%nat /\
    match r with
    | Ok _ => c = mkConnection Opened [] /\ opens k' = Ok tt
    | Err e => c = QmpConnection_init /\
        (exn_class e = QmpUnavailableError /\ fltb (clock (pred k')) d = false
         \/ opens k' = Err e /\ exc_sub (exn_class e) OSError = false)
    end) as H; [|apply (H fuel 1%nat); lia].
  induction m as [|m IH]; intros k Hk Hm; [lia|]. cbn [rounds]. unfold open_round at 1.
  rewrite run_bind. cbn [run qcall call opener h_call]. destruct (fltb (clock k) d) eqn:Ek.
  - rewrite run_catch, run_bind. cbn [run qawait await opener h_await].
    destruct (decide (k = n)) as [->|Hne]; [congruence|].
    destruct (opens (S k)) as [[]|e] eqn:Eo.
    + eexists _, _, _. split; [reflexivity|]. split; [lia|]. by split.
    + cbn [existsb]. rewrite orb_false_r. destruct (exc_sub (exn_class e) OSError) eqn:Ee.
      * rewrite run_bind. cbn [run qawait await opener h_await mret co_ret]. apply IH; lia.
      * eexists _, _, _. split; [reflexivity|]. split; [lia|]. split; [done|]. by right.
  - cbn [run throw raise]. eexists _, _, _. split; [reflexivity|]. split; [lia|]. split; [done|]. by left.
Qed.

(** ** Examples *)

Definition line_of (v : json) : bytes := match request_line v with Ok l => l | Err _ => [] end.
Definition greeting_message : list (text * json) := [(lit "QMP", JObj [])].
Definition event_message : list (text * json) := [(lit "event", JStr (lit "RESET"))].
Definition reply_message (id : string) (v : json) : list (text * json) :=
  [(lit "return", v); (lit "id", JStr (lit id))].
Definition no_text (v : json) : text := [].

Lemma qmp_answers_witness :
  run peer 10 (execute_qmp no_text (lit "stop") None (float_of_int 2))
    ([] ++ line_of (JObj greeting_message) :: [line_of (JObj event_message); [x0a]]
     ++ line_of (JObj (reply_message "capabilities" (JObj [])))
     :: [line_of (JObj event_message)] ++ line_of (JObj (reply_message "command" (JBool true))) :: [[x0a]])
    QmpConnection_init
  = Some (Ok (JBool true), [[x0a]],
      mkConnection Closed (capabilities_line ++ line_of (command_request (lit "stop") None))).
Proof.
  apply (qmp_answers no_text (lit "stop") None (float_of_int 2) [] _ greeting_message _ _
    (reply_message "capabilities" (JObj [])) (JObj []) _ _ (reply_message "command" (JBool true))).
  - vm_compute. reflexivity.
  - constructor.
  - split; [discriminate|vm_compute; reflexivity].
  - discriminate.
  - constructor; [|constructor; [|constructor]].
    + right. exists event_message. split; [split; [discriminate|vm_compute; reflexivity]|reflexivity].
    + left. split; [discriminate|reflexivity].
  - split; [discriminate|vm_compute; reflexivity].
  - vm_compute. reflexivity.
  - constructor; [|constructor]. right. exists event_message.
    split; [split; [discriminate|vm_compute; reflexivity]|reflexivity].
  - split; [discriminate|vm_compute; reflexivity].
  - vm_compute. reflexivity.
  - reflexivity.
  - apply Nat.ltb_lt. reflexivity.
Defined.

Lemma qmp_connection_closed_witness :
  qwp (execute_qmp no_text (lit "stop") None (float_of_int 2))
    (fun _ r c => settled (line_of (command_request (lit "stop") None)) r c) [] QmpConnection_init.
Proof. apply qmp_connection_closed. reflexivity. Defined.

(** The clock advances by half a second per reading, and nobody listens. *)
Lemma open_qmp_terminates_witness : exists r k c,
  run (opener (fun n => fdiv (float_of_int (Z.of_nat n)) (float_of_int 2)) (fun _ => raise OSError [])) 10
    (open_qmp (float_of_int 2)) 0%nat QmpConnection_init = Some (r, k, c) /\ (k <= 5)%nat.
Proof.
  destruct (open_qmp_terminates (fun n => fdiv (float_of_int (Z.of_nat n)) (float_of_int 2))
    (fun _ => raise OSError []) (float_of_int 2) 4 10) as (r & k & c & Hr & Hk & _).
  - vm_compute. reflexivity.
  - apply Nat.ltb_lt. reflexivity.
  - apply Nat.leb_le. reflexivity.
  - exists r, k, c. split; [exact Hr|exact Hk].
Defined.

(** Bytes that are not UTF-8 are not reported as a QMP error: [json.loads]
    raises UnicodeDecodeError, which is no JSONDecodeError. *)
Lemma undecodable_line_escapes :
  exists m, run peer 10 (execute_qmp no_text (lit "stop") None (float_of_int 2)) [[xff; x0a]] QmpConnection_init
    = Some (raise UnicodeDecodeError m, [], mkConnection Closed []).
Proof. eexists. vm_compute. reflexivity. Qed.
