(* ===== verification/SandboxProbe.v ===== *)
(** * The sandbox probe ([scripts/probe-worker-sandbox.py])

    The script that runs a small program inside the bubblewrap sandbox of the
    workers and judges what that program could see: its capabilities, paths
    of the host, network routes, secrets in the environment, and whether it
    could make another user namespace.  Both programs are modelled: the script
    as a coroutine over a few operations, the program inside as a function of
    what the kernel shows it. *)

From Stdlib Require Import Init.Byte.
From S2P Require Import Prelude Text PyFloat Json PyNumber Async Qemu Environment Qmp.

(** ** The program inside *)

(** The text of the program, with a backquote for each quotation mark. *)
Definition PROBE_LINES : list string :=
  ["import json";
   "import os";
   "import socket";
   "import subprocess";
   "import sys";
   "from pathlib import Path";
   "";
   "forbidden = json.loads(sys.argv[1])";
   "marker = Path(`sandbox-write-probe`)";
   "marker.write_text(`private scratch only`, encoding=`utf-8`)";
   "status = Path(`/proc/self/status`).read_text(encoding=`utf-8`)";
   "cap_eff = next(line.split()[1] for line in status.splitlines() if line.startswith(`CapEff:`))";
   "routes = Path(`/proc/net/route`).read_text(encoding=`utf-8`).splitlines()[1:]";
   "nested_userns_returncode = subprocess.run(";
   "    [`/usr/bin/unshare`, `--user`, `/usr/bin/true`],";
   "    capture_output=True,";
   "    check=False,";
   ").returncode";
   "secret_keys = [";
   "    key for key in os.environ";
   "    if any(part in key.upper() for part in (`SECRET`, `TOKEN`, `PASSWORD`, `KEY`))";
   "]";
   "print(json.dumps({";
   "    `cap_eff`: cap_eff,";
   "    `forbidden_visible`: [path for path in forbidden if Path(path).exists()],";
   "    `routes`: routes,";
   "    `scratch_write`: marker.read_text(encoding=`utf-8`),";
   "    `secret_keys`: secret_keys,";
   "    `nested_userns_returncode`: nested_userns_returncode,";
   "}, sort_keys=True))"]%string.
Definition PROBE : text :=
  10 :: concat (map (fun l => map (fun c => if c =? 96 then 34 else c) (lit l) ++ [10]) PROBE_LINES).

Definition SCRATCH_TEXT : text := lit "private scratch only".

(** What the program sees: whether it can write the marker, the two files of
    /proc, the file system, the exit code of unshare and the names of the
    environment variables. *)
Record ProbeView := mkView {
  pv_marker : res unit;
  pv_status : text;
  pv_route : text;
  pv_fs : fs_view;
  pv_unshare : Z;
  pv_environ : list text }.

Definition text_contains (sub t : text) : bool := existsb (fun n => starts_with sub (drop n t)) (List.seq 0 (S (length t))).
Definition SECRET_PARTS : list text := [lit "SECRET"; lit "TOKEN"; lit "PASSWORD"; lit "KEY"].

Section Probe.
(** [str.upper] and [str] of a JSON value. *)
Context (upper : text -> text) (str_of_json : json -> text).

Definition is_secret (key : text) : bool := existsb (fun part => text_contains part (upper key)) SECRET_PARTS.
(** [next(line.split()[1] for line in status.splitlines() if ...)] *)
Definition cap_eff (status : text) : res text :=
  match List.filter (starts_with (lit "CapEff:")) (splitlines status []) with
  | line :: _ => of_option (split_ws is_str_space line [] !! 1%nat) (Exn IndexError (lit "list index out of range"))
  | [] => raise StopIteration []
  end.
Definition routes (route : text) : list text := drop 1 (splitlines route []).
Definition visible (fs : fs_view) (forbidden : list text) : list text :=
  List.filter (fun p => exists_ fs (path_of_text p)) forbidden.
Definition strings (l : list text) : json := JArr (map JStr l).
(** [json.dumps(value, sort_keys=True)] *)
Definition dumps_sorted (v : json) : text := dumps json_float true [32] v.

Definition probe_report (v : ProbeView) (forbidden : list text) : res json :=
  pv_marker v ≫= fun _ =>
  cap ← cap_eff (pv_status v);
  Ok (JObj [(lit "cap_eff", JStr cap);
            (lit "forbidden_visible", strings (visible (pv_fs v) forbidden));
            (lit "routes", strings (routes (pv_route v)));
            (lit "scratch_write", JStr SCRATCH_TEXT);
            (lit "secret_keys", strings (List.filter is_secret (pv_environ v)));
            (lit "nested_userns_returncode", JInt (pv_unshare v))]).
(** [json.loads(sys.argv[1])], a list of strings. *)
Definition as_string (v : json) : res text :=
  match v with JStr t => Ok t | _ => raise TypeError (lit "argument should be a str") end.
Fixpoint as_strings (l : list json) : res (list text) :=
  match l with
  | [] => Ok []
  | v :: l' => t ← as_string v; ts ← as_strings l'; Ok (t :: ts)
  end.
Definition parse_forbidden (argument : text) : res (list text) :=
  v ← loads_text argument;
  match v with
  | JArr l => as_strings l
  | _ => raise TypeError (lit "not a list")
  end.
(** What the program prints. *)
Definition probe_output (v : ProbeView) (argument : text) : res text :=
  forbidden ← parse_forbidden argument;
  report ← probe_report v forbidden;
  Ok (dumps_sorted report ++ [10]).

(** ** The verdict *)

(** [result[key]] *)
Definition item (result : json) (key : string) : res json :=
  match result with
  | JObj d => of_option (dict_get (lit key) d) (Exn KeyError (lit key))
  | _ => raise TypeError (lit "not subscriptable")
  end.
Definition str_json (v : json) : text := match v with JStr t => t | _ => str_of_json v end.
(** [v == t] and [v == 0] *)
Definition equals_text (t : text) (v : json) : bool := match v with JStr s => bool_decide (s = t) | _ => false end.
Definition equals_zero (v : json) : bool :=
  match v with JInt z => z =? 0 | JBool b => negb b | JFloat f => float_eq_int f 0 | _ => false end.
Definition NO_CAPABILITIES : text := lit "0000000000000000".

(** One condition: the failure it reports, if any. *)
Definition check (result : json) (key : string) (bad : json -> bool) (message : json -> text) : res (list text) :=
  v ← item result key; Ok (if bad v then [message v] else []).
Definition failures (result : json) : res (list text) :=
  c ← check result "cap_eff" (fun v => negb (equals_text NO_CAPABILITIES v))
        (fun v => lit "effective capabilities remain: " ++ str_json v);
  f ← check result "forbidden_visible" truthy (fun v => lit "forbidden paths visible: " ++ str_json v);
  r ← check result "routes" truthy (fun v => lit "network routes visible: " ++ str_json v);
  s ← check result "scratch_write" (fun v => negb (equals_text SCRATCH_TEXT v))
        (fun _ => lit "private scratch was not writable");
  k ← check result "secret_keys" truthy (fun v => lit "secret-like environment keys visible: " ++ str_json v);
  u ← check result "nested_userns_returncode" equals_zero (fun _ => lit "nested user namespaces remain enabled");
  Ok (c ++ f ++ r ++ s ++ k ++ u).

(** [completed.stdout.strip().splitlines()[-1]] *)
Definition last_line (stdout : text) : res text :=
  of_option (last (splitlines (strip is_str_space stdout) [])) (Exn IndexError (lit "list index out of range")).
(** [{"status": "passed", **result}] *)
Definition passed_report (result : json) : res json :=
  match result with
  | JObj d => Ok (JObj (fold_left (fun acc p => dict_set (fst p) (snd p) acc) d [(lit "status", JStr (lit "passed"))]))
  | _ => raise TypeError (lit "not a mapping")
  end.
(** The line that the script prints, or how it fails. *)
Definition verdict (stdout : text) : res text :=
  line ← last_line stdout;
  result ← loads_text line;
  l ← failures result;
  match l with
  | [] => report ← passed_report result; Ok (dumps_sorted report)
  | _ => raise SystemExit (lit "sandbox probe failed: " ++ join (lit "; ") l)
  end.

(** ** The script *)

Inductive pop :=
  | FileSystem
  | MakeTemporary (prefix : text)
  | RemoveTemporary (directory : path)
  | RunCommand (command : list text) (env : list (text * text)) (timeout : Z)
  | Print (line : text).
Definition presp (o : pop) : Type :=
  match o with
  | FileSystem => fs_view
  | MakeTemporary _ => path
  | RunCommand _ _ _ => Z * text
  | RemoveTemporary _ | Print _ => unit
  end.
Abbreviation pco := (co unit pop presp).
Definition pcall (o : pop) : pco (presp o) := call o.

Record ProbeArguments := mkProbeArguments {
  p_sandbox_executable : path;
  p_readonly_paths : list path;
  p_forbidden_paths : list text }.
(** [parse_args]: the values given for each option; those of
    [--forbidden-path] are added to the default. *)
Definition parse_args (sandbox_executable : option path) (readonly_paths : list path) (forbidden : list text)
    : ProbeArguments :=
  mkProbeArguments (default (path_of_text (lit "/usr/bin/bwrap")) sandbox_executable) readonly_paths
    ([lit "/home"; lit "/root"; lit "/var/run/docker.sock"; lit "/run/docker.sock"] ++ forbidden).

Context (cwd : list text) (args : ProbeArguments).

Definition probe_config : QemuWorkerConfig :=
  mkConfig (path_of_text (lit "/usr/bin/python3")) (path_of_text (lit "/usr")) BUBBLEWRAP
    (path_absolute cwd (p_sandbox_executable args))
    (match p_readonly_paths args with
     | [] => DEFAULT_SANDBOX_READONLY_PATHS
     | l => map (path_absolute cwd) l
     end)
    (path_of_text (lit "/run/esp32-simulator/worker-broker.sock")).
Definition forbidden_argument : text := dumps_sorted (strings (p_forbidden_paths args)).
Definition probe_command (scratch : path) : list text :=
  wrap_worker_command cwd probe_config
    [lit "/usr/bin/python3"; lit "-I"; lit "-c"; PROBE; forbidden_argument] scratch.
Definition probe_env : list (text * text) := [(lit "LANG", lit "C.UTF-8"); (lit "PATH", lit "/usr/bin:/bin")].
(** [subprocess.run(..., check=True)]: the output. *)
Definition run_checked (command : list text) (env : list (text * text)) (timeout : Z) : pco text :=
  r ← pcall (RunCommand command env timeout);
  if fst (r : Z * text) =? 0 then mret (snd (r : Z * text)) else throw CalledProcessError [].

(** [main] *)
Definition main : pco unit :=
  fs ← pcall FileSystem;
  lift (validate probe_config fs) ≫= fun _ =>
  scratch ← pcall (MakeTemporary (lit "esp32-sandbox-probe-"));
  stdout ← finally (run_checked (probe_command scratch) probe_env 15) (pcall (RemoveTemporary scratch));
  line ← lift (verdict stdout);
  pcall (Print line).
End Probe.
