(* ===== verification/SandboxProbeSafety.v ===== *)
(** * What the sandbox probe proves

    The verdict of the script against what the program inside could see: the
    report survives the pipe between them, so the script passes exactly when
    the sandbox confines. *)

From Stdlib Require Import Init.Byte.
From S2P Require Import Prelude Text PyFloat Json PyNumber Async Qemu Environment Qmp SandboxProbe.

Section Safety.
Context (upper : text -> text) (str_of_json : json -> text).
Abbreviation report_of := (probe_report upper).
Abbreviation verdict := (verdict str_of_json).

(** ** The line between the two programs *)

Lemma one_space : Forall (fun c => c = 32) [32].
Proof. by repeat constructor. Qed.

(** A printed line is read back as it is. *)
Lemma splitlines_printable t cur : printable t -> (reverse cur ++ t <> []) -> splitlines t cur = [reverse cur ++ t].
Proof.
  intros H. revert cur. induction H as [|c t Hc _ IH]; intros cur Hne; cbn [splitlines].
  - rewrite app_nil_r in *. destruct cur; [done|]. done.
  - assert (splitlines t (c :: cur) = [reverse cur ++ c :: t]) as E
      by (rewrite IH; rewrite reverse_cons, <- app_assoc; [done|by destruct (reverse cur)]).
    assert (is_line_break c = false) as Hb by (unfold is_line_break; lia).
    by repeat (case_match; subst; try lia); rewrite ?Hb.
Qed.

Lemma strip_line m : strip is_str_space (123 :: (m ++ [125]) ++ [10]) = 123 :: m ++ [125].
Proof.
  unfold strip. rewrite (lstrip_id _ (123 :: _)) by reflexivity.
  assert (reverse (123 :: (m ++ [125]) ++ [10]) = 10 :: 125 :: reverse (123 :: m)) as ->
    by by rewrite !app_comm_cons, !reverse_snoc.
  change (lstrip is_str_space (10 :: ?t)) with (lstrip is_str_space t).
  rewrite lstrip_id by reflexivity. by rewrite reverse_cons, reverse_involutive.
Qed.
Lemma last_line_dumps d : plain (JObj d) -> last_line (dumps_sorted (JObj d) ++ [10]) = Ok (dumps_sorted (JObj d)).
Proof.
  intros Hp. pose proof (printable_dumps json_float true [32] one_space _ Hp) as Ha.
  unfold last_line, dumps_sorted in *. revert Ha. cbn [dumps]. generalize (join (44 :: [32])
    (map (fun p => dump_str (fst p) ++ 58 :: [32] ++ snd p)
      (sort_items (map (fun p => (fst p, dumps json_float true [32] (snd p))) d)))) as m.
  intros m Ha. cbn [app]. rewrite strip_line, splitlines_printable; done.
Qed.

Lemma canon_strings l : canon true (strings l) = strings l.
Proof. unfold strings. cbn [canon]. by rewrite map_map. Qed.
Lemma plain_strings l : Forall (Forall valid_char) l -> plain (strings l).
Proof. intros H. constructor. apply Forall_map. eapply Forall_impl; [exact H|]. by constructor. Qed.
Lemma parse_forbidden_dumps l : Forall (Forall valid_char) l -> parse_forbidden (dumps_sorted (strings l)) = Ok l.
Proof.
  intros H. unfold parse_forbidden, dumps_sorted. rewrite loads_text_dumps; [|apply one_space|by apply plain_strings].
  rewrite canon_strings. unfold strings. cbn [mbind res_bind]. clear H. induction l as [|t l IH]; [done|].
  cbn [map as_strings as_string]. cbn [mbind res_bind]. by rewrite IH.
Qed.

(** The pieces of a text are pieces of it. *)
Lemma splitlines_forall (P : Z -> Prop) t cur : Forall P t -> Forall P cur -> Forall (Forall P) (splitlines t cur).
Proof.
  remember (length t) as n eqn:En. revert t cur En.
  induction n as [n IH] using lt_wf_ind. intros [|c t] cur -> Ht Hcur.
  { cbn [splitlines]. destruct cur; [constructor|]. by repeat constructor; apply Forall_reverse. }
  apply Forall_cons in Ht as [Hc Ht]. cbn [length] in IH.
  assert (forall cur, Forall P cur -> Forall (Forall P) (splitlines t cur)) as IH1
    by (intros cur' H; apply (IH (length t)); [lia|done|done|done]).
  assert (Forall (Forall P) (reverse cur :: splitlines t [])) as H1
    by (constructor; [by apply Forall_reverse|by apply IH1]).
  assert (Forall (Forall P) (splitlines t (c :: cur))) as H2 by (apply IH1; by constructor).
  assert (forall t', t = 10 :: t' -> Forall (Forall P) (reverse cur :: splitlines t' [])) as H3.
  { intros t' ->. constructor; [by apply Forall_reverse|]. apply Forall_cons in Ht as [_ Ht].
    apply (IH (length t')); [cbn; lia|done|done|constructor]. }
  cbn [splitlines]. repeat (case_match; subst; try done); by apply H3.
Qed.
Lemma split_ws_forall (P : Z -> Prop) sp t cur : Forall P t -> Forall P cur -> Forall (Forall P) (split_ws sp t cur).
Proof.
  revert cur. induction t as [|c t IH]; intros cur Ht Hcur; cbn [split_ws].
  - destruct cur; [constructor|]. by repeat constructor; apply Forall_reverse.
  - apply Forall_cons in Ht as [Hc Ht]. destruct (sp c); [|apply IH; [done|by constructor]].
    destruct cur; [by apply IH|]. constructor; [by apply Forall_reverse|]. by apply IH.
Qed.

(** What the kernel shows is text. *)
Record readable (v : ProbeView) : Prop := {
  readable_status : Forall valid_char (pv_status v);
  readable_route : Forall valid_char (pv_route v);
  readable_environ : Forall (Forall valid_char) (pv_environ v) }.

Lemma cap_eff_valid t cap : Forall valid_char t -> cap_eff t = Ok cap -> Forall valid_char cap.
Proof.
  intros Ht. unfold cap_eff. destruct (List.filter _ _) as [|line l] eqn:E; [done|]. intros H%of_option_ok.
  assert (line ∈ splitlines t []) as Hin.
  { apply list_elem_of_In, (proj1 (filter_In (starts_with (lit "CapEff:")) line _)). rewrite E. by left. }
  pose proof (proj1 (Forall_forall _ _) (splitlines_forall valid_char t [] Ht (Forall_nil_2 _)) line Hin) as Hl.
  by apply (proj1 (Forall_forall _ _) (split_ws_forall valid_char is_str_space line [] Hl (Forall_nil_2 _))), list_elem_of_lookup_2 with 1%nat.
Qed.

(** The report as the script reads it: the keys in order. *)
Definition read_report (cap : text) (f r k : list text) (u : Z) : json :=
  JObj [(lit "cap_eff", JStr cap); (lit "forbidden_visible", strings f); (lit "nested_userns_returncode", JInt u);
        (lit "routes", strings r); (lit "scratch_write", JStr SCRATCH_TEXT); (lit "secret_keys", strings k)].
Definition reports (v : ProbeView) (forbidden : list text) (cap : text) : json :=
  read_report cap (visible (pv_fs v) forbidden) (routes (pv_route v)) (List.filter (is_secret upper) (pv_environ v)) (pv_unshare v).

(** What the script asks of the sandbox. *)
Record confined (v : ProbeView) (forbidden : list text) : Prop := {
  no_capabilities : cap_eff (pv_status v) = Ok NO_CAPABILITIES;
  no_host_path : forall p, p ∈ forbidden -> exists_ (pv_fs v) (path_of_text p) = false;
  no_route : routes (pv_route v) = [];
  no_secret : forall key, key ∈ pv_environ v -> is_secret upper key = false;
  no_userns : pv_unshare v <> 0 }.

Lemma filter_nil {A} (f : A -> bool) l : List.filter f l = [] <-> forall x, x ∈ l -> f x = false.
Proof.
  induction l as [|x l IH]; cbn [List.filter]; [split; [intros _ x Hx; by apply not_elem_of_nil in Hx|done]|].
  destruct (f x) eqn:E; [split; [done|]; intros H; specialize (H x ltac:(by left)); congruence|].
  rewrite IH. split; [intros H y [->|Hy]%elem_of_cons; auto|]. intros H y Hy. apply H. by right.
Qed.
Lemma list_filter_forall {A} (P : A -> Prop) f l : Forall P l -> Forall P (List.filter f l).
Proof. induction 1 as [|x l Hx _ IH]; cbn [List.filter]; [constructor|]. destruct (f x); [by constructor|done]. Qed.
Lemma truthy_strings l : truthy (strings l) = negb (bool_decide (l = [])).
Proof. by destruct l. Qed.

Lemma failures_confined v forbidden cap : cap_eff (pv_status v) = Ok cap ->
  exists l, failures str_of_json (reports v forbidden cap) = Ok l /\ (l = [] <-> confined v forbidden).
Proof.
  intros Hcap. eexists. split; [reflexivity|]. rewrite !truthy_strings. cbn [equals_text equals_zero].
  split.
  - intros H. apply app_eq_nil in H as [Hc H]. apply app_eq_nil in H as [Hf H]. apply app_eq_nil in H as [Hr H].
    apply app_eq_nil in H as [_ H]. apply app_eq_nil in H as [Hk Hu]. constructor.
    + destruct (bool_decide_reflect (cap = NO_CAPABILITIES)) as [->|]; [done|discriminate Hc].
    + apply filter_nil. by destruct (bool_decide_reflect (visible (pv_fs v) forbidden = [])).
    + by destruct (bool_decide_reflect (routes (pv_route v) = [])).
    + apply filter_nil. by destruct (bool_decide_reflect (List.filter (is_secret upper) (pv_environ v) = [])).
    + destruct (Z.eqb_spec (pv_unshare v) 0); [discriminate Hu|done].
  - intros []. rewrite Hcap in no_capabilities0. apply Ok_inj in no_capabilities0 as ->.
    rewrite !bool_decide_true by (done || by apply filter_nil). by rewrite (proj2 (Z.eqb_neq _ _)).
Qed.

(** The verdict on what the program printed. *)
Lemma verdict_spec v forbidden out : readable v -> Forall (Forall valid_char) forbidden ->
  probe_output upper v (dumps_sorted (strings forbidden)) = Ok out ->
  match verdict out with
  | Ok line => confined v forbidden /\ exists report, passed_report (reports v forbidden NO_CAPABILITIES) = Ok report /\ line = dumps_sorted report
  | Err e => exn_class e = SystemExit /\ ~ confined v forbidden
  end.
Proof.
  intros [Hst Hro Hen] Hf. unfold probe_output. rewrite parse_forbidden_dumps by done. cbn [mbind res_bind].
  unfold probe_report. destruct (pv_marker v) as [[]|]; [|done]. cbn [mbind res_bind].
  destruct (cap_eff (pv_status v)) as [cap|] eqn:Hcap; [|done]. cbn [mbind res_bind].
  match goal with |- context [dumps_sorted ?r] => set (report := r) end. intros <-%Ok_inj.
  assert (plain report) as Hp.
  { subst report. constructor; [apply (bool_decide_unpack _); vm_compute; exact I|].
    assert (forall k, bool_decide (Forall valid_char k) = true -> Forall valid_char k) as Hk by (intros k H; by apply bool_decide_eq_true in H).
    rewrite !Forall_cons. cbn [fst snd]. split_and!; try (apply Hk; vm_compute; reflexivity).
    - apply PlainStr. by apply (cap_eff_valid (pv_status v)).
    - by apply plain_strings, list_filter_forall.
    - apply plain_strings, Forall_drop, splitlines_forall; [done|constructor].
    - apply PlainStr, Hk. vm_compute. reflexivity.
    - by apply plain_strings, list_filter_forall.
    - constructor.
    - done. }
  unfold SandboxProbe.verdict.
  assert (last_line (dumps_sorted report ++ [10]) = Ok (dumps_sorted report)) as -> by by apply last_line_dumps.
  cbn [mbind res_bind].
  assert (loads_text (dumps_sorted report) = Ok (canon true report)) as ->
    by (apply loads_text_dumps; [apply one_space|done]).
  assert (canon true report = reports v forbidden cap) as ->.
  { subst report. cbn [canon map fst snd]. rewrite !canon_strings. reflexivity. }
  cbn [mbind res_bind]. destruct (failures_confined v forbidden cap Hcap) as (l & -> & Hl).
  cbn [mbind res_bind]. destruct l as [|m l].
  - split; [by apply Hl|]. destruct (proj1 Hl eq_refl) as [H _ _ _ _]. rewrite Hcap in H. apply Ok_inj in H as ->.
    eexists. split; reflexivity.
  - split; [done|]. by intros H%Hl.
Qed.

(** ** The whole run *)

Section Run.
Context (v : ProbeView) (cwd : list text) (args : ProbeArguments).
Abbreviation forbidden := (p_forbidden_paths args).

(** The machine: a command that exits with 0 was run in a place that looks
    like [v], where it printed what the program prints there for its last
    argument; no operation ends the interpreter. *)
Definition sandbox_replies (_ : unit) (o : pop) (r : res (presp o)) : Prop :=
  (forall e, r = Err e -> exn_class e <> SystemExit) /\
  match o return res (presp o) -> Prop with
  | RunCommand command _ _ => fun r => forall out, r = Ok (0, out) ->
      exists argument, last command = Some argument /\ probe_output upper v argument = Ok out
  | _ => fun _ => True
  end r.
Abbreviation pwp := (wp sandbox_replies (fun _ _ _ _ _ => True) (fun _ => True) (fun _ => eq)).

Lemma p_call o (Q : list (event pop presp) -> res (presp o) -> unit -> Prop) tr :
  (forall r, sandbox_replies tt o r -> Q (tr ++ [Called o r]) r tt) -> pwp 0%nat (pcall o) Q tr tt.
Proof. intros H. apply wp_call. exact H. Qed.
Lemma validate_no_exit c fs e : validate c fs = Err e -> exn_class e = FileNotFoundError.
Proof. unfold validate, not_found, raise. repeat case_match; naive_solver. Qed.

Lemma last_probe_command scratch : last (probe_command cwd args scratch) = Some (forbidden_argument args).
Proof.
  unfold probe_command, wrap_worker_command. rewrite last_cons, !last_app. reflexivity.
Qed.

End Run.
End Safety.

(** ** Two sandboxes *)

Definition demo_upper : text -> text := map (fun c => if (97 <=? c) && (c <=? 122) then c - 32 else c).
(** A sandbox that confines, and one that leaves a capability and shows the
    home directories and a token. *)
Definition tight : ProbeView :=
  mkView (Ok tt) (lit "Name:	python3" ++ 10 :: lit "CapEff:	0000000000000000" ++ [10]) (lit "Iface	Destination" ++ [10])
    (fun _ => Missing) 1 [lit "LANG"; lit "PATH"].
Definition loose : ProbeView :=
  mkView (Ok tt) (lit "CapEff:	0000000000000400" ++ [10]) [] (fun p => if bool_decide (p = path_of_text (lit "/home")) then Directory else Missing)
    1 [lit "api_token"].
Definition demo_probe_arguments : ProbeArguments := parse_args None [] [].

(** A machine that runs commands in the sandbox [v] and keeps what is printed. *)
Definition machine (v : ProbeView) : handler unit pop presp (list text) :=
  mkHandler (fun o printed _ =>
      match o return res (presp o) * list text with
      | FileSystem => (Ok (fun p => if bool_decide (p = path_of_text (lit "/usr")) then Directory else File true), printed)
      | MakeTemporary prefix => (Ok (mkPath true [lit "tmp"; prefix]), printed)
      | RemoveTemporary _ => (Ok tt, printed)
      | RunCommand command _ _ =>
          (match probe_output demo_upper v (default [] (last command)) with
           | Ok out => Ok (0, out)
           | Err _ => Ok (1, [])
           end, printed)
      | Print line => (Ok tt, printed ++ [line])
      end)
    (fun o printed s => (raise RuntimeError [], printed, s)) 0%nat (fun _ printed => (1%nat, printed)).
Definition outcome (v : ProbeView) : option (res unit * list text) :=
  match run (machine v) 20 (main (fun _ => []) [] demo_probe_arguments) [] tt with
  | Some (r, printed, _) => Some (r, printed)
  | None => None
  end.
Example tight_passes : outcome tight = Some (Ok tt, [dumps_sorted (JObj
  [(lit "cap_eff", JStr NO_CAPABILITIES); (lit "forbidden_visible", JArr []); (lit "nested_userns_returncode", JInt 1);
   (lit "routes", JArr []); (lit "scratch_write", JStr SCRATCH_TEXT); (lit "secret_keys", JArr []);
   (lit "status", JStr (lit "passed"))])]).
Proof. vm_compute. reflexivity. Qed.
Example loose_fails : exists m, outcome loose = Some (raise SystemExit m, []).
Proof. eexists. vm_compute. reflexivity. Qed.

